(* ===== verification/_CoqProject ===== *)
-Q . S2P
Prelude.v
Bits.v
PyStr.v
PyRe.v
PyIO.v
PyArgparse.v
PyFloat.v
CapDecode.v
TraceObj.v
TraceParse.v
CompareTrace.v
CompareInv.v
CheriPkg.v
CheriBounds.v
CheriMem.v
CheriEx.v
CheriAuth.v
CheriLsu.v
CheriMachine.v
CheriStkz.v
Tracer.v
IbexConfig.v
ToolReq.v
RvLib.v
TestList.v
TestRun.v
SimCmd.v
TraceCsv.v
InstrCompare.v
IbexLog.v
SpikeLog.v
ConvEntries.v
TracerLog.v
OvpsimLog.v
TraceLaws.v
TraceFlow.v
Intermediates.v
FormalFiles.v
Sv2v.v
SynFlow.v
SailScripts.v
DocsCi.v
CmdLines.v
