(* ===== verification/Prelude.v ===== *)
(** * Verification of the CHERIoT-Ibex repository: its tooling and its capability unit

    CHERIoT-Ibex is a RISC-V core in SystemVerilog whose pointers are
    capabilities.  Around it the repository keeps Python programs that decide
    whether the core is right: they compare its execution traces with a reference
    model, run regressions and record their results, choose configurations and
    tools, and generate or convert source files.  This library models those
    programs, function by function, and the part of the core that handles
    capabilities, and proves what they guarantee, and what they do not.

    ** The parts and how they interact

    - _The CHERIoT trace comparison_, src/dv/cheriot/scripts/compare_trace.py:
      reads the log of the core (written by the tracer of
      src/rtl/ibex_tracer.sv) and the log of the Sail model, pairs their
      instructions and reports whether they agree.
    - _The UVM regression flow_, src/dv/uvm/core_ibex.  list_tests.py expands the
      test list into tests and seeds; sim.py compiles the testbench and
      run_rtl.py runs one test, both with commands from sim_cmd.py;
      sim_makefrag_gen.py turns a configuration into simulator options with
      util/ibex_config.py; compare.py judges one run: it checks the UVM log,
      converts the log of the core and the log of the instruction-set simulator
      (Spike or OVPsim) to CSV files and compares these; collect_results.py
      sums the runs up.  The converters and the comparison of CSV files use the
      riscv-dv scripts in src/vendor/google_riscv-dv/scripts.
    - _Formal verification_, src/dv/formal: generate_intermediates.py cuts a long
      property into one per step; the scripts in spec edit the output of the Sail
      compiler.
    - _Tools and files_, src/util, src/syn/python, src/ci, src/doc: tool versions,
      configurations, conversion of sources for synthesis, synthesis reports,
      documentation and CI variables.
    - _The capability unit of the core_, src/rtl: the functions on capabilities
      (cheri_pkg.sv) are used by the decoder and the execution unit
      (cheri_decoder.sv, cheri_ex.sv), which check the accesses the load-store
      unit makes (ibex_load_store_unit.sv) and update the register file
      (cheri_regfile.sv) and the special registers (ibex_cs_registers.sv);
      cheri_stkz.sv clears the stack on a write to one of these.  What the unit
      computes is what the tracer prints and the trace comparison reads.

    ** The files

    The language.
    - [Prelude]: exceptions ([exc_class]), results ([res]) and computations that
      write a text ([out]), the tactics and the hint database [cheriot].
    - [PyStr], [PyRe], [PyIO], [PyFloat]: strings and integers, regular
      expressions, files and paths, floats, as the sources use them.
    - [PyArgparse]: argparse, from the classes of the arguments to the attributes,
      with what canonical command lines mean ([parsed_line]).

    The CHERIoT trace comparison (compare_trace.py).
    - [CapDecode]: expand_perms, parse_sail_perms, parse_ibex_cap; [Module Rtl]
      holds the functions of src/rtl/cheri_pkg.sv whose encoding they read.
    - [TraceObj]: class trace_obj with almost_eq, __eq__ and __str__.
    - [TraceParse]: trace_file.load; [Module Ibex] and [Module Sail]: the find_nxt
      methods.  The file position (line_ptr) is part of the state.
    - [CompareTrace]: the main program.  [tally] holds the counters, the table of
      pending revocations and the text printed; [st] adds the readers, the
      service-routine state and the trap handed over; [iter] is one iteration of
      the while loop, [loop] the loop, [compare_trace] the program.
    - [CompareInv]: the loop as a step relation, and the invariant of the states
      it reaches.
    - [Tracer]: printbuffer_dumpline of the tracer.

    The capability unit (SystemVerilog).
    - [Bits]: parts and concatenations of bit vectors.
    - [CheriPkg]: cheri_pkg.sv but for the memory formats, one definition per
      function; [CheriMem]: the four formats of a capability in memory (fmt0 and
      fmt1, each with and without CheriCapIT8) and the two words the load-store
      unit transfers.
    - [CheriBounds]: what the functions on bounds and addresses compute.
    - [CheriEx]: the decoder ([cheri_operator]) and the execution unit ([main_ex],
      one definition per case; [cheri_lsu_err] and [rv32_lsu_err] are the checks).
      [CheriAuth]: the authority of a capability and what the instructions do
      with it.
    - [CheriLsu]: the integer accesses of the load-store unit on the memory of the
      testbench.
    - [CheriMachine]: the registers and the memory as the state of a machine,
      [step] its transitions, with the invariant of the states it reaches.
    - [CheriStkz]: [cycle] is one clock of the stack zeroization engine.

    The regression flow.
    - [IbexConfig] (util/ibex_config.py), [TestList] (process_regression_list of
      lib.py, test_entry.py, list_tests.py), [SimCmd] (sim_cmd.py, run_rtl.py,
      sim.py, sim_makefrag_gen.py, run_cmd of lib.py).
    - [CmdLines]: the parser each script declares, the script from its command
      line, and the recipes of the Makefile that call the scripts one after the
      other.
    - [TestRun]: compare.py, test_run_result.py, collect_results.py.  What
      compare.py imports is the interface [TraceTools].
    - [RvLib] (register names and pseudo instructions of lib.py), [TraceCsv]
      (riscv_trace_csv.py), [InstrCompare] (instr_trace_compare.py), [IbexLog]
      (ibex_log_to_trace_csv.py), [SpikeLog] and [OvpsimLog] (the converters of
      the two simulators).
    - [ConvEntries]: every entry a converter writes is read back and accepted by
      the comparison.  [TracerLog]: the conversion of the whole log the tracer
      writes.  [TraceLaws]: the contract of [TraceTools] and what a passed run
      means for tools that keep it.  [TraceFlow]: the instance of [TraceTools] by
      these models keeps the contract, and what a passed run means end to end.

    The other tools.
    - [ToolReq] (util/check_tool_requirements.py), [Sv2v] (util/sv2v_in_place.py),
      [SynFlow] (syn/python), [SailScripts] (dv/formal/spec), [DocsCi]
      (doc/conf.py, ci/vars_to_logging_cmd.py).
    - [Intermediates]: generate_intermediates.py; [FormalFiles]: its two outputs
      as they are checked in.

    ** How the code is modelled

    A Python function is a Rocq function that returns [res]: a value, or a raised
    exception with its class and, where the code builds it, its message.  A
    function that changes files has type [io] (or takes and returns an [fsys], a
    map from paths to texts); one that writes to an open file has type [out],
    which keeps what was written before an exception.  A generator is the list
    of what it yields with how it ends.  Python integers are [Z]; the fixed
    widths of the hardware appear as masks and shifts, as in the code: a signal of the
    RTL is a [Z] cut to its width where the code assigns it, a packed struct is a
    record, a combinational block is a function of its inputs, a clocked one gives
    the next state.  A
    [str] is a list of 8-bit characters.  A YAML value is [yval], a Python dict
    whose order matters is an association list.  A file that is opened for
    reading while the same path is open for writing does not occur: the theorems
    about whole runs assume distinct paths.

    Code outside the repository is a parameter: the YAML parser, the shell and
    the programs it runs (simulators, sv2v, yosys, sed), the order in which a set
    is iterated, the compiler of user-given regular expressions, package
    metadata and its version class.  What the proofs rely on is a hypothesis of
    the theorem, and each such theorem has a witness with a concrete function in
    that place.

    ** The theorems

    - The comparison is sound: [CompareTrace.passed_sound] (what a reported
      success means), [CompareTrace.loop_refines_zip] (the loop is the fold of one
      comparison over the two sequences of objects), [CompareInv.loop_invariant],
      [CompareTrace.compare_trace_terminates].
    - It reads what the hardware writes: [Tracer.tracer_line_roundtrip],
      [CapDecode.parse_ibex_cap_rtl] (equivalence with the decompression of the
      RTL), [CapDecode.parse_ibex_cap_bounds] (the bounds formula),
      [CapDecode.compress_expand_perms], [TraceParse.ibex_find_nxt_errors].
    - The core keeps its capabilities: no execution creates authority
      ([CheriMachine.reachable_authority]) or changes memory that no store
      capability covers ([CheriMachine.memory_integrity]), and after reset the
      authorities to execute, to store and to seal stay apart
      ([CheriMachine.roots_stay_apart]).  They rest on what one instruction does
      ([CheriAuth.instruction_monotone], [CheriAuth.sealed_immutable],
      [CheriAuth.sealing_authority], [CheriAuth.access_in_bounds]).  With
      CheriSBND2 set, monotonicity fails: [CheriAuth.stale_bounds_escape] says for
      which operands and what they get instead.
    - Its arithmetic is right: the bounds of [CheriBounds.set_bounds_spec],
      [CheriBounds.set_bounds_monotone], [CheriBounds.set_address_spec],
      [CheriBounds.set_bounds_rndn_spec], [CheriBounds.representable_length_exact],
      the permissions of [CheriPkg.mask_clcperms_removes], the round trip through
      memory [CheriMem.load_store_cap], the opcodes [CheriEx.one_operator].
    - Its memory accesses: [CheriLsu.rv32_store_bytes] and
      [CheriLsu.rv32_load_stored] for every size and alignment.
    - The stack is cleared: [CheriStkz.stack_zeroized] (exactly the words it
      should, then it stops), [CheriStkz.ztop_readback] (under two conditions,
      which the module does not check: [CheriStkz.ztop_forges] says what comes back
      when the base is not aligned, [CheriStkz.ztop_write_while_active] is an
      example of a write to the active engine).
    - A passed regression run means agreement: [TestRun.compare_test_run_verdict]
      (against the interface), [TraceFlow.passed_run_agrees],
      [TraceFlow.passed_run_retired], [TraceFlow.passed_run_ovpsim] (against the
      models), resting on [InstrCompare.compare_verdict],
      [TracerLog.tracer_log_to_csv], [SpikeLog.spike_trace_blocks],
      [OvpsimLog.ovpsim_drops_last], [TraceCsv.csv_roundtrip],
      [IbexLog.uvm_log_verdict], [RvLib.convert_pseudo_sound].
    - The flow runs what it should: [TestList.process_regression_list_spec],
      [TestList.filter_tests_spec], [SimCmd.subst_cmd_spec],
      [SimCmd.test_command_spec], [IbexConfig.parse_config_ok],
      [IbexConfig.options_survive_shell], [ToolReq.main_success].
    - The scripts work together as the Makefile calls them:
      [CmdLines.regression_run] (from the list of runs to each verdict),
      [CmdLines.makefrag_command], [CmdLines.compare_trace_command], and where
      they do not, [CmdLines.lsf_cmd_refused].
    - Generated and converted files are right: [FormalFiles.checked_in_files] (the
      model of the generator writes the two checked-in files byte for byte, which
      also checks the model of [re]), [Intermediates.intermediates_wellformed],
      [Sv2v.sv2v_main_ok], [Sv2v.sv2v_main_unchanged], [Sv2v.sv2v_main_succeeds],
      [SynFlow.translate_twice], [SailScripts.cull_removes_extracted],
      [DocsCi.conf_consistent].

    ** Fuel

    - [CompareTrace.loop] and [skip_isr_loop] get one more than the number of
      unread lines of the Ibex log: each iteration that goes on consumes a line.
      [compare_trace_terminates] proves that the fuel is never used up.
    - [PyArgparse.parse_loop] gets one more than the number of arguments: each turn
      uses one up ([parse_args_total]).
    - [PyRe.finditer_go] gets one more than the length of the text: each match
      moves on by at least one character.
    - [PyStr.digits_go] gets the binary logarithm, an upper bound of the number
      of digits ([digits_spec]).
    - [PyFloat.shortest] tries 17 digits, which always identify a double;
      [decpt_go] starts within a few places of the answer, 40 steps are ample.
    - [TestList.process_regression_list] has the interpreter's recursion limit as
      its depth: an import cycle raises, as in Python.

    ** What is not modelled

    - The pipeline: fetch, hazards, the ALU, the RISC-V control registers, PMP,
      debug mode, lockstep, and the engine that revokes capabilities in memory
      (cheri_tbre.sv).  [CheriMachine.step] takes instructions one at a time; a
      step with an integer result writes any value.  The parameters of the machine
      are those of ibex_top.sv with memory format 0, CheriSBND2 = 0 and
      CheriStkZ = 0, in pure capability mode.
    - Time and errors on the memory bus: an access happens at once, a capability
      is stored as a whole; a bus error between its two words, the stalls and the
      state machines of requests and grants are left out, as is the memory of
      65-bit words.
    - In cheri_ex.sv, the words that describe an error and the stack high water
      mark.
    - Of the tracer, the decoder that makes the instruction text is a parameter.
    - Third-party code under src/vendor other than the riscv-dv scripts named
      above: the riscv-dv instruction generator, lowRISC's utilities.
    - Boilerplate: edits of sys.path, logging, the help texts of argparse.
    - The mains of the log converters and of instr_trace_compare.py, which open
      files while they parse their arguments; compare.py imports their functions,
      and these are modelled. *)

From Stdlib Require Export ZArith Lia.
From stdpp Require Export base option gmap strings numbers list.
From Stdlib Require Import Ascii.
From Stdlib Require String.

#[export] Set Warnings "-clear-no-such-hyp,-register-all".
#[global] Arguments Ascii.eqb : simpl never.

(** ** Python strings

    A Python [str] is a list of characters.  An [ascii] value stands for the
    code point U+0000 .. U+00FF of the same number, so string literals coerce to
    lists and every list lemma applies to strings. *)

Abbreviation str := (list ascii).
Coercion String.list_ascii_of_string : string >-> list.

(** ** Exceptions

    The exception classes the modelled code raises or catches, as they appear in
    its [raise] statements and [except] clauses.  Messages are kept where the
    code builds them; an exception raised by the interpreter itself (a failed
    [int()], an index out of range) carries the empty message. *)

Inductive exc_class :=
| ValueError | IndexError | KeyError | TypeError | AttributeError
| AssertionError | RuntimeError | UnboundLocalError
| FileNotFoundError | OSError | YAMLError | PackageNotFoundError | ZeroDivisionError
| CalledProcessError | NotImplementedError | ParseError | CsvError
| ConfigException | ReqErr | ArgumentTypeError | GenError | ReError
| SystemExit (code : Z).

#[export] Instance exc_class_eq_dec : EqDecision exc_class.
Proof. solve_decision. Defined.

(** ** Results: a value or a raised exception *)

Inductive res (A : Type) :=
| Ok (a : A)
| Raise (c : exc_class) (msg : str).
Arguments Ok {A} a.
Arguments Raise {A} c msg.

#[export] Instance res_ret : MRet res := @Ok.
#[export] Instance res_bind : MBind res := fun A B f m =>
  match m with Ok a => f a | Raise c msg => Raise c msg end.
#[export] Instance res_fmap : FMap res := fun A B f m =>
  match m with Ok a => Ok (f a) | Raise c msg => Raise c msg end.

(** An interpreter-raised exception. *)
Definition raise {A} (c : exc_class) : res A := Raise c [].

(** [assert b]. *)
Definition py_assert (b : bool) : res unit :=
  if b then Ok tt else raise AssertionError.

(** Lift a partial operation: [None] raises [c]. *)
Definition or_raise {A} (c : exc_class) (o : option A) : res A :=
  match o with Some a => Ok a | None => raise c end.

(** [l[i]] for a non-negative index. *)
Definition py_nth {A} (l : list A) (i : nat) : res A :=
  or_raise IndexError (l !! i).

Definition is_ok {A} (r : res A) : bool :=
  match r with Ok _ => true | Raise _ _ => false end.

(** Sequencing a fallible function over a list, stopping at the first
    exception. *)
Fixpoint res_map {A B} (f : A -> res B) (l : list A) : res (list B) :=
  match l with
  | [] => Ok []
  | x :: l' => y ← f x; ys ← res_map f l'; Ok (y :: ys)
  end.

Fixpoint res_iter {A} (f : A -> res unit) (l : list A) : res unit :=
  match l with
  | [] => Ok tt
  | x :: l' => _ ← f x; res_iter f l'
  end.

(** A loop with an accumulator. *)
Fixpoint res_fold {A B} (f : B -> A -> res B) (b : B) (l : list A) : res B :=
  match l with
  | [] => Ok b
  | x :: l' => b' ← f b x; res_fold f b' l'
  end.

(** [d[k]] of a dict as the association list of its items; the keys are texts. *)
Fixpoint dict_get {A} (d : list (str * A)) (k : str) : option A :=
  match d with
  | [] => None
  | (k', v) :: d' => if decide (k' = k) then Some v else dict_get d' k
  end.

(** ** Results of a computation that writes a text *)

Definition out (A : Type) : Type := str * res A.

#[export] Instance out_ret : MRet out := fun A a => ([], Ok a).
#[export] Instance out_bind : MBind out := fun A B f m =>
  match m.2 with
  | Ok a => (m.1 ++ (f a).1, (f a).2)
  | Raise c msg => (m.1, Raise c msg)
  end.
Definition say (s : str) : out unit := (s, Ok tt).
Definition lift {A} (r : res A) : out A := ([], r).

(** ** Tactics *)

(** Split a bind that is known to have returned. *)
Ltac res_step :=
  match goal with
  | H : mbind _ ?m = Ok _ |- _ =>
      let E := fresh "E" in destruct m eqn:E; cbn [mbind res_bind] in H; [|discriminate H]
  | H : Ok _ = Ok _ |- _ => injection H; clear H; intros; subst
  | H : Raise _ _ = Ok _ |- _ => discriminate H
  | H : or_raise _ ?o = Ok _ |- _ =>
      let E := fresh "E" in destruct o eqn:E; cbn [or_raise] in H; [|discriminate H]
  end.
Ltac res_inv := repeat res_step.

(** Compute a closed executable statement. *)
Ltac by_compute := vm_compute; reflexivity.

Create HintDb cheriot.

Lemma res_iter_ok {A} (f : A -> res unit) (l : list A) :
  res_iter f l = Ok tt <-> Forall (fun x => f x = Ok tt) l.
Proof.
  induction l as [|x l IH]; cbn; [by split; auto|].
  rewrite Forall_cons. destruct (f x) as [[]|c m]; cbn.
  - rewrite IH. naive_solver.
  - naive_solver.
Qed.

Lemma res_map_ok {A B} (f : A -> res B) (l : list A) (k : list B) :
  res_map f l = Ok k <-> Forall2 (fun x y => f x = Ok y) l k.
Proof.
  revert k; induction l as [|x l IH]; intros k; cbn.
  - split; [intros [= <-]; constructor|by inversion 1].
  - split.
    + intros H. res_inv. constructor; [done|]. by apply IH.
    + inversion 1 as [|? y ? k' Hx Hl]; subst. rewrite Hx; cbn.
      apply IH in Hl. by rewrite Hl.
Qed.

Lemma or_raise_ok {A} c (o : option A) a : or_raise c o = Ok a <-> o = Some a.
Proof. destruct o; cbn; naive_solver. Qed.

Lemma dict_get_in {A} (d : list (str * A)) k v : dict_get d k = Some v -> (k, v) ∈ d.
Proof.
  induction d as [|[k' v'] d IH]; cbn [dict_get]; [done|]. case_decide as E.
  - subst. intros [= <-]. left.
  - intros H. right. auto.
Qed.

(** A property of every integer below a bound, checked by evaluation. *)
Lemma forall_below (P : Z -> bool) (n : Z) :
  forallb P (seqZ 0 n) = true -> forall c, (0 <= c < n)%Z -> P c = true.
Proof.
  intros H c Hc. rewrite forallb_forall in H. apply H.
  apply list_elem_of_In, elem_of_seqZ. lia.
Qed.

(** An equation between computable functions on a bounded range. *)
Lemma eq_below {A} `{EqDecision A} (f g : Z -> A) (n : Z) :
  forallb (fun c => bool_decide (f c = g c)) (seqZ 0 n) = true ->
  forall c, (0 <= c < n)%Z -> f c = g c.
Proof.
  intros H c Hc. apply (bool_decide_eq_true_1 _ (forall_below _ n H c Hc)).
Qed.

Lemma out_bind_ok {A B} (m : out A) (f : A -> out B) a :
  m.2 = Ok a -> (m ≫= f).2 = (f a).2.
Proof. destruct m as [s r]. cbn. intros ->. done. Qed.
