(* ===== verification/Bits.v ===== *)
(** * Bit vectors

    SystemVerilog's vectors as integers: a w-bit [logic] vector is an integer in
    0 .. 2^w - 1, with truncation, slices, concatenation and assignments to bits,
    and the lemmas with which the components compute with them. *)

From S2P Require Import Prelude.
Local Open Scope Z_scope.

Notation "a '.|' b" := (Z.lor a b) (at level 50, left associativity) : Z_scope.
Notation "a '.&' b" := (Z.land a b) (at level 40, left associativity) : Z_scope.
Notation "a '<<' b" := (Z.shiftl a b) (at level 45, left associativity) : Z_scope.
Notation "a '>>' b" := (Z.shiftr a b) (at level 45, left associativity) : Z_scope.

(** Values of a w-bit [logic] vector are kept in 0 .. 2^w - 1. *)
Definition trunc (w x : Z) : Z := x mod 2 ^ w.
Definition bit (x i : Z) : Z := (x >> i) .& 1.
Definition setb (i b : Z) : Z := b << i.

(** [x[hi:lo]] and [x[lo+:w]]. *)
Definition slice (x hi lo : Z) : Z := trunc (hi - lo + 1) (x >> lo).
Definition part (x lo w : Z) : Z := trunc w (x >> lo).
(** [{w{b}}], [~x] on w bits, and [|x]. *)
Definition rep (w : Z) (b : bool) : Z := if b then Z.ones w else 0.
Definition notw (w x : Z) : Z := trunc w (Z.lnot x).
Definition any (x : Z) : bool := negb (x =? 0).
(** [{x, y, ...}] of values with their widths. *)
Definition cat (l : list (Z * Z)) : Z := foldl (fun v wx => v * 2 ^ wx.1 + wx.2) 0 l.
(** [a[i] = v]. *)
Definition assign_bit (a i : Z) (v : bool) : Z := if v then Z.setbit a i else Z.clearbit a i.

(** ** Bits *)

Lemma testbit_small y m i : 0 <= y < 2 ^ m -> 0 <= m -> m <= i -> Z.testbit y i = false.
Proof.
  intros Hy Hm Hi. rewrite <-(Z.mod_small y (2 ^ m)) by done.
  by apply Z.mod_pow2_bits_high.
Qed.

Lemma lor_disjoint J m y :
  0 <= m -> 0 <= y < 2 ^ m -> Z.lor (J * 2 ^ m) y = J * 2 ^ m + y.
Proof.
  intros Hm Hy. assert (Z.land (J * 2 ^ m) y = 0) as H0.
  { apply Z.bits_inj'. intros i Hi. rewrite Z.land_spec, Z.bits_0.
    destruct (Z.lt_ge_cases i m).
    - by rewrite Z.mul_pow2_bits_low.
    - by rewrite (testbit_small y m i), andb_false_r. }
  by rewrite <-Z.lxor_lor, <-Z.add_nocarry_lxor.
Qed.

Lemma land_high_mask a m w :
  0 <= m -> 0 <= w -> 0 <= a < 2 ^ (m + w) ->
  Z.land a (Z.ones w * 2 ^ m) = a / 2 ^ m * 2 ^ m.
Proof.
  intros Hm Hw Ha. rewrite <-!Z.shiftl_mul_pow2, <-Z.shiftr_div_pow2 by done.
  apply Z.bits_inj'. intros i Hi. rewrite Z.land_spec, !Z.shiftl_spec by done.
  destruct (Z.lt_ge_cases i m).
  - by rewrite !(Z.testbit_neg_r _ (i - m)), andb_false_r by lia.
  - rewrite Z.shiftr_spec, Z.sub_add by lia. destruct (Z.lt_ge_cases (i - m) w).
    + by rewrite Z.ones_spec_low, andb_true_r by lia.
    + by rewrite (testbit_small a (m + w) i) by lia.
Qed.

Lemma field_div J x w : 0 <= w -> 0 <= x < 2 ^ w -> (J * 2 ^ w + x) / 2 ^ w = J.
Proof. intros Hw Hx. rewrite Z.div_add_l, Z.div_small by lia. lia. Qed.
Lemma field_mod J x w : 0 <= w -> 0 <= x < 2 ^ w -> (J * 2 ^ w + x) mod 2 ^ w = x.
Proof. intros Hw Hx. rewrite Z.add_comm, Z.mod_add, Z.mod_small by lia. lia. Qed.

Lemma testbit_pow2_le x j : 0 <= j -> 0 <= x < 2 ^ (j + 1) -> Z.testbit x j = (2 ^ j <=? x).
Proof.
  intros Hj Hx. rewrite Z.pow_add_r in Hx by lia. destruct (Z.leb_spec (2 ^ j) x).
  - apply Z.testbit_true; [done|].
    by rewrite <-(Z.div_unique_pos x (2 ^ j) 1 (x - 2 ^ j)) by lia.
  - apply (testbit_small x j); lia.
Qed.

Lemma testbit_le x j : 0 <= x -> 0 <= j -> Z.testbit x j = true -> 2 ^ j <= x.
Proof.
  intros Hx Hj H. destruct (Z.lt_ge_cases x (2 ^ j)) as [Hlt|]; [|done].
  rewrite (testbit_small x j) in H by lia. done.
Qed.

Lemma assign_bit_spec a i v j :
  0 <= i -> 0 <= j -> Z.testbit (assign_bit a i v) j = if j =? i then v else Z.testbit a j.
Proof.
  intros Hi Hj. unfold assign_bit. destruct (Z.eqb_spec j i) as [->|Hne]; destruct v.
  - apply Z.setbit_eq. done.
  - apply Z.clearbit_eq.
  - apply Z.setbit_neq; lia.
  - apply Z.clearbit_neq; lia.
Qed.

Lemma trunc_range w x : 0 <= w -> 0 <= trunc w x < 2 ^ w.
Proof. intros. unfold trunc. apply Z.mod_pos_bound. lia. Qed.
Lemma trunc_small w x : 0 <= x < 2 ^ w -> trunc w x = x.
Proof. apply Z.mod_small. Qed.
Lemma slice_div x hi lo : 0 <= lo -> slice x hi lo = (x / 2 ^ lo) mod 2 ^ (hi - lo + 1).
Proof. intros. unfold slice, trunc. by rewrite Z.shiftr_div_pow2. Qed.
Lemma slice_low x hi : slice x hi 0 = x mod 2 ^ (hi + 1).
Proof. unfold slice, trunc. by rewrite Z.shiftr_0_r, Z.sub_0_r. Qed.

Lemma testbit_ones k j : 0 <= k -> 0 <= j -> Z.testbit (Z.ones k) j = (j <? k).
Proof.
  intros Hk Hj. destruct (Z.ltb_spec j k); [apply Z.ones_spec_low|apply Z.ones_spec_high]; lia.
Qed.

Lemma seqZ_snoc m n : 0 <= n -> seqZ m (n + 1) = seqZ m n ++ [m + n].
Proof.
  intros Hn. destruct (Z_of_nat_complete n Hn) as [k ->].
  replace (Z.of_nat k + 1) with (Z.of_nat (S k)) by lia. apply seqZ_S.
Qed.

(** ** Concatenations *)

Definition cat_width (l : list (Z * Z)) : Z := foldr (fun wx n => wx.1 + n) 0 l.
Definition fits (wx : Z * Z) : Prop := 0 <= wx.1 /\ 0 <= wx.2 < 2 ^ wx.1.

Lemma cat_width_nonneg l : Forall fits l -> 0 <= cat_width l.
Proof.
  unfold cat_width. induction 1 as [|[w x] l [Hw Hx] Hl IH]; cbn [foldr fst] in *; lia.
Qed.

Lemma cat_from v l :
  Forall fits l ->
  exists r, 0 <= r < 2 ^ cat_width l /\
    foldl (fun v wx => v * 2 ^ wx.1 + wx.2) v l = v * 2 ^ cat_width l + r.
Proof.
  intros H. revert v. induction H as [|[w x] l [Hw Hx] Hl IH]; intros v; cbn [foldl].
  - exists 0. cbn. lia.
  - destruct (IH (v * 2 ^ w + x)) as (r & Hr & E). cbn [fst snd] in *. rewrite E.
    pose proof (cat_width_nonneg l Hl). change (cat_width ((w, x) :: l)) with (w + cat_width l).
    exists (x * 2 ^ cat_width l + r). rewrite Z.pow_add_r by lia. split; [nia|ring].
Qed.

(** A concatenation has the width of its parts and each part at its place. *)
Lemma cat_range l : Forall fits l -> 0 <= cat l < 2 ^ cat_width l.
Proof. intros H. destruct (cat_from 0 l H) as (r & Hr & E). unfold cat. rewrite E. lia. Qed.

Lemma cat_nth n l lo w x :
  l !! n = Some (w, x) -> cat_width (drop (S n) l) = lo -> Forall fits (drop n l) ->
  part (cat l) lo w = x.
Proof.
  intros Hn Hlo H. rewrite (drop_S _ _ _ Hn) in H. apply Forall_cons in H as [[Hw Hx] H].
  cbn [fst snd] in *. unfold cat. rewrite <-(take_drop_middle l n _ Hn), foldl_app.
  cbn [foldl]. set (v := foldl _ 0 (take n l)). cbn [fst snd].
  destruct (cat_from (v * 2 ^ w + x) _ H) as (r & Hr & ->).
  pose proof (cat_width_nonneg _ H). rewrite Hlo in *. unfold part, trunc. rewrite Z.shiftr_div_pow2 by done.
  rewrite field_div, field_mod by lia. done.
Qed.

(** [part] of a concatenation. *)
Ltac fits_tac :=
  repeat first [apply List.Forall_nil | apply List.Forall_cons; [split; cbn [fst snd]; lia|]].
Ltac part_of n := apply (cat_nth n); [reflexivity|reflexivity|cbn [drop]; fits_tac].

Lemma b2z_fits b : 0 <= Z.b2z b < 2 ^ 1.
Proof. destruct b; cbn; lia. Qed.
Lemma any_b2z b : any (Z.b2z b) = b.
Proof. by destruct b. Qed.

Lemma cat_testbit n l lo b :
  l !! n = Some (1, Z.b2z b) -> cat_width (drop (S n) l) = lo -> Forall fits (drop n l) ->
  Z.testbit (cat l) lo = b.
Proof.
  intros Hn Hlo Hf. pose proof (cat_nth n l lo 1 _ Hn Hlo Hf) as H.
  assert (0 <= lo) as H0.
  { rewrite <-Hlo. apply cat_width_nonneg. rewrite (drop_S _ _ _ Hn) in Hf. by inversion Hf. }
  unfold part, trunc in H. change (2 ^ 1) with 2 in H.
  rewrite <-Z.bit0_mod, Z.shiftr_spec, Z.add_0_l in H by lia.
  by destruct b, (Z.testbit (cat l) lo).
Qed.
Lemma bit_b2z x i : 0 <= i -> bit x i = Z.b2z (Z.testbit x i).
Proof.
  intros Hi. unfold bit. change 1 with (Z.ones 1).
  rewrite Z.land_ones, Z.shiftr_div_pow2, Z.testbit_spec' by lia. done.
Qed.
