(* ===== verification/PyStr.v ===== *)
(** * The part of Python's [str] and [int] the modelled code uses

    Character classes, [strip], [split], [rsplit], [replace], [in],
    [startswith], [join], [splitlines], [str(int)], [hex], [int(s, base)] and the
    format specifications that occur in the sources, each executable, with the
    lemmas the components share (substring tests, split/join and print/parse
    round trips). *)

From S2P Require Import Prelude.
From Stdlib Require Import Ascii.

Declare Scope pystr_scope.
Delimit Scope pystr_scope with py.

(** ** Characters *)

Definition code (c : ascii) : Z := Z.of_N (N_of_ascii c).

Definition between (lo hi : Z) (c : ascii) : bool :=
  ((lo <=? code c) && (code c <=? hi))%Z.

(** [\d]: decimal digits; in U+0000..U+00FF these are the ASCII ones. *)
Definition is_digit (c : ascii) : bool := between 48 57 c.

(** [str.isspace], also [\s] and the characters [strip()] removes. *)
Definition is_space (c : ascii) : bool :=
  between 9 13 c || between 28 32 c || between 133 133 c || between 160 160 c.

(** [\w]: alphanumerics and the underscore. *)
Definition is_word (c : ascii) : bool :=
  is_digit c || between 65 90 c || between 97 122 c || between 95 95 c ||
  between 170 170 c || between 178 179 c || between 181 181 c ||
  between 185 186 c || between 188 190 c || between 192 214 c ||
  between 216 246 c || between 248 255 c.

(** Line boundaries of [str.splitlines]. *)
Definition is_linebreak (c : ascii) : bool :=
  between 10 13 c || between 28 30 c || between 133 133 c.

Definition newline : ascii := "010"%char.
Definition SQ : ascii := "039"%char.
Definition DQ : ascii := "034"%char.
Definition chr_in (l : str) (c : ascii) : bool := bool_decide (c ∈ l).

(** Decide a property of characters by running it on all 256 of them. *)
Ltac all_chars := intros [[][][][][][][][]]; vm_compute; congruence.

(** ** Stripping *)

Fixpoint drop_while (p : ascii -> bool) (s : str) : str :=
  match s with
  | [] => []
  | c :: s' => if p c then drop_while p s' else s
  end.

Fixpoint take_while (p : ascii -> bool) (s : str) : str :=
  match s with
  | [] => []
  | c :: s' => if p c then c :: take_while p s' else []
  end.

Definition lstrip (p : ascii -> bool) (s : str) : str := drop_while p s.
Definition rstrip (p : ascii -> bool) (s : str) : str :=
  reverse (drop_while p (reverse s)).
Definition strip_chars (p : ascii -> bool) (s : str) : str := rstrip p (lstrip p s).
Definition strip (s : str) : str := strip_chars is_space s.

(** ** Prefixes, substrings *)

Fixpoint starts_with (p s : str) : bool :=
  match p, s with
  | [], _ => true
  | a :: p', b :: s' => Ascii.eqb a b && starts_with p' s'
  | _, [] => false
  end.

Definition ends_with (p s : str) : bool := starts_with (reverse p) (reverse s).

(** [needle in s] *)
Fixpoint contains (needle s : str) : bool :=
  starts_with needle s ||
  match s with [] => false | _ :: s' => contains needle s' end.

(** [s.count(c)] for a single character. *)
Definition count_chr (c : ascii) (s : str) : nat :=
  length (filter (fun a => a = c) s).

(** [s.find(needle)] as an option. *)
Fixpoint find_str (needle s : str) : option nat :=
  if starts_with needle s then Some 0%nat
  else match s with [] => None | _ :: s' => S <$> find_str needle s' end.

(** ** Replacing: [s.replace(old, new)]

    Left to right, non-overlapping; [skip] counts the characters of the
    occurrence being replaced that are still to be dropped. *)
Fixpoint replace_go (old new s : str) (skip : nat) : str :=
  match s with
  | [] => []
  | c :: s' =>
      match skip with
      | S k => replace_go old new s' k
      | O => if starts_with old s
             then new ++ replace_go old new s' (pred (length old))
             else c :: replace_go old new s' 0
      end
  end.

Definition replace (old new s : str) : str :=
  match old with
  | [] => new ++ mjoin ((fun c => c :: new) <$> s)
  | _ => replace_go old new s 0
  end.

(** ** Splitting and joining *)

(** [s.split(c)] for a one-character separator. *)
Fixpoint split (c : ascii) (s : str) : list str :=
  match s with
  | [] => [[]]
  | a :: s' =>
      let r := split c s' in
      if Ascii.eqb a c then [] :: r
      else match r with [] => [[a]] | w :: r' => (a :: w) :: r' end
  end.

(** [s.split(c, 1)] as an option on the tail part. *)
Fixpoint split1 (c : ascii) (s : str) : str * option str :=
  match s with
  | [] => ([], None)
  | a :: s' => if Ascii.eqb a c then ([], Some s')
               else let '(w, t) := split1 c s' in (a :: w, t)
  end.

(** [s.rsplit(c, 1)]: the part before and after the last [c]. *)
Definition rsplit1 (c : ascii) (s : str) : option (str * str) :=
  match split1 c (reverse s) with
  | (_, None) => None
  | (w, Some t) => Some (reverse t, reverse w)
  end.

(** [s.split()]: the words between runs of white space. *)
Fixpoint words_go (cur s : str) : list str :=
  let flush := match cur with [] => [] | _ => [reverse cur] end in
  match s with
  | [] => flush
  | c :: s' => if is_space c then flush ++ words_go [] s' else words_go (c :: cur) s'
  end.
Definition words (s : str) : list str := words_go [] s.

(** [sep.join(l)] *)
Fixpoint join (sep : str) (l : list str) : str :=
  match l with
  | [] => []
  | [w] => w
  | w :: l' => w ++ sep ++ join sep l'
  end.

(** The lines iterating over a text file yields: each keeps its newline. *)
Fixpoint lines_keep (s : str) : list str :=
  match s with
  | [] => []
  | c :: s' =>
      if Ascii.eqb c newline then [c] :: lines_keep s'
      else match lines_keep s' with
           | [] => [[c]]
           | w :: r => (c :: w) :: r
           end
  end.

(** [s.splitlines()]; ["\r\n"] counts as one boundary ([cr] remembers that the
    previous character was a carriage return that ended a line). *)
Fixpoint splitlines_go (cur : str) (cr : bool) (s : str) : list str :=
  match s with
  | [] => match cur with [] => [] | _ => [reverse cur] end
  | c :: s' =>
      if Ascii.eqb c newline && cr then splitlines_go [] false s'
      else if is_linebreak c
           then reverse cur :: splitlines_go [] (Ascii.eqb c "013"%char) s'
           else splitlines_go (c :: cur) false s'
  end.
Definition splitlines (s : str) : list str := splitlines_go [] false s.

Example splitlines_ex :
  splitlines ("a" ++ newline :: newline :: "bc" ++ newline :: []) = ["a" : str; []; "bc" : str].
Proof. reflexivity. Qed.

(** ** Printing integers *)

Definition digit_char (d : Z) : ascii :=
  ascii_of_N (Z.to_N (if (d <? 10)%Z then 48 + d else 87 + d)).

(** Digits of [n >= 0] in base [b], most significant first, in front of [acc]. *)
Fixpoint digits_go (fuel : nat) (b n : Z) (acc : str) : str :=
  match fuel with
  | O => acc
  | S f =>
      let acc' := digit_char (n mod b) :: acc in
      if (n <? b)%Z then acc' else digits_go f b (n / b) acc'
  end.
Definition digits (b n : Z) : str := digits_go (S (Z.to_nat (Z.log2 n))) b n [].

(** [str(n)] *)
Definition str_of_Z (n : Z) : str :=
  if (n <? 0)%Z then "-" ++ digits 10 (- n) else digits 10 n.

(** [hex(n)] *)
Definition hex (n : Z) : str :=
  if (n <? 0)%Z then "-0x" ++ digits 16 (- n) else "0x" ++ digits 16 n.

(** [format(n, 'x')] and zero or blank padding to a width. *)
Definition fmt_x (n : Z) : str :=
  if (n <? 0)%Z then "-" ++ digits 16 (- n) else digits 16 n.
Definition to_upper (c : ascii) : ascii :=
  if between 97 122 c then ascii_of_N (Z.to_N (code c - 32)) else c.
Definition pad_left (fill : ascii) (w : nat) (s : str) : str :=
  replicate (w - length s) fill ++ s.

(** ** Parsing integers: [int(s, base)] *)

Definition digit_num (c : ascii) : option Z :=
  if is_digit c then Some (code c - 48)%Z
  else if between 97 122 c then Some (code c - 87)%Z
  else if between 65 90 c then Some (code c - 55)%Z else None.
Definition digit_val (b : Z) (c : ascii) : option Z :=
  v ← digit_num c; if (v <? b)%Z then Some v else None.

(** The digits after the first one; a single underscore may separate digits. *)
Fixpoint num_go (b acc : Z) (s : str) : option Z :=
  match s with
  | [] => Some acc
  | c :: s' =>
      if Ascii.eqb c "_"%char then
        match s' with
        | [] => None
        | d :: s'' => v ← digit_val b d; num_go b (acc * b + v) s''
        end
      else v ← digit_val b c; num_go b (acc * b + v) s'
  end.
Definition num (b : Z) (s : str) : option Z :=
  match s with
  | [] => None
  | c :: s' => v ← digit_val b c; num_go b v s'
  end.
(** After a base prefix an underscore may come first. *)
Definition num_pfx (b : Z) (s : str) : option Z :=
  match s with
  | c :: s' => if Ascii.eqb c "_"%char then num b s' else num b s
  | [] => None
  end.

(** A magnitude without sign.  In base 0 a decimal literal may not start with
    [0] unless it is zero. *)
Definition magnitude (b : Z) (s : str) : option Z :=
  let pfx2 := take 2 s in
  let rest := drop 2 s in
  let is_hex := bool_decide (pfx2 = ("0x" : str)) || bool_decide (pfx2 = ("0X" : str)) in
  let is_oct := bool_decide (pfx2 = ("0o" : str)) || bool_decide (pfx2 = ("0O" : str)) in
  let is_bin := bool_decide (pfx2 = ("0b" : str)) || bool_decide (pfx2 = ("0B" : str)) in
  if (b =? 16)%Z then (if is_hex then num_pfx 16 rest else num 16 s)
  else if (b =? 0)%Z then
    if is_hex then num_pfx 16 rest
    else if is_oct then num_pfx 8 rest
    else if is_bin then num_pfx 2 rest
    else v ← num 10 s;
         if starts_with "0" s && negb (v =? 0)%Z then None else Some v
  else num b s.

(** [int(s, b)] for the bases 0, 10 and 16; [None] is a [ValueError]. *)
Definition py_int (b : Z) (s : str) : option Z :=
  match strip s with
  | c :: s' =>
      if Ascii.eqb c "-"%char then Z.opp <$> magnitude b s'
      else if Ascii.eqb c "+"%char then magnitude b s'
      else magnitude b (c :: s')
  | [] => None
  end.

(** ** [repr] of a string *)

Definition hex2 (n : Z) : str := [digit_char (n / 16); digit_char (n mod 16)].
Definition printable (c : ascii) : bool :=
  between 32 126 c || (between 161 255 c && negb (code c =? 173)%Z).
Definition repr_char (q c : ascii) : str :=
  if Ascii.eqb c q || Ascii.eqb c "\"%char then ["\"%char; c]
  else if Ascii.eqb c "009"%char then "\t"
  else if Ascii.eqb c newline then "\n"
  else if Ascii.eqb c "013"%char then "\r"
  else if printable c then [c] else "\x" ++ hex2 (code c).
(** Single quotes, unless the text has one and no double quote. *)
Definition py_repr (s : str) : str :=
  let q := if chr_in s SQ && negb (chr_in s DQ) then DQ else SQ in
  [q] ++ mjoin (repr_char q <$> s) ++ [q].

Definition int_of (b : Z) (s : str) : res Z := or_raise ValueError (py_int b s).

Example py_int_ex :
  (py_int 10 " -12 ", py_int 16 "80000a1F", py_int 16 "0x1_0", py_int 0 "0x10",
   py_int 0 "012", py_int 10 "", py_int 16 "zz")
  = (Some (-12)%Z, Some 0x80000a1f%Z, Some 16%Z, Some 16%Z, None, None, None).
Proof. reflexivity. Qed.
Example str_of_Z_ex : (str_of_Z (-120), hex 255, hex 0) = ("-120" : str, "0xff" : str, "0x0" : str).
Proof. reflexivity. Qed.

(** ** Lemmas: substrings *)

Lemma starts_with_spec p s : starts_with p s = true <-> exists t, s = p ++ t.
Proof.
  revert s; induction p as [|a p IH]; intros [|b s]; cbn.
  - split; [by exists []|done].
  - split; [by exists (b :: s)|done].
  - split; [done|intros [t [=]]].
  - rewrite andb_true_iff, Ascii.eqb_eq, IH. naive_solver.
Qed.

Lemma starts_with_app p t : starts_with p (p ++ t) = true.
Proof. apply starts_with_spec. by exists t. Qed.

Lemma contains_spec needle s :
  contains needle s = true <-> exists a b, s = a ++ needle ++ b.
Proof.
  induction s as [|c s IH]; cbn; rewrite orb_true_iff, starts_with_spec.
  - split.
    + intros [[t Ht]|]; [|done]. by exists [], t.
    + intros (a & b & H). left. exists []. destruct a; [|done].
      destruct needle; [done|done].
  - rewrite IH. split.
    + intros [[t ->]|(a & b & ->)]; [by exists [], t|by exists (c :: a), b].
    + intros (a & b & H). destruct a as [|x a]; cbn in H.
      * left. eauto.
      * right. injection H as -> ->. eauto.
Qed.

Lemma contains_app_l needle a b : contains needle a = true -> contains needle (a ++ b) = true.
Proof.
  rewrite !contains_spec. intros (x & y & ->). exists x, (y ++ b). by rewrite <-!app_assoc.
Qed.

(** Replacing a string that does not occur changes nothing. *)
Lemma replace_absent old new s :
  old <> [] -> contains old s = false -> replace old new s = s.
Proof.
  intros Hne. assert (forall t, contains old t = false -> replace_go old new t 0 = t) as Hgo.
  { induction t as [|c t IH]; [done|]. cbn [contains replace_go].
    rewrite orb_false_iff. intros [-> Ht]. f_equal. by apply IH. }
  intros H. unfold replace. destruct old; [done|]. by apply Hgo.
Qed.

(** ** Lemmas: stripping *)

Lemma drop_while_head p s :
  match drop_while p s with [] => True | c :: _ => p c = false end.
Proof. induction s as [|c s IH]; cbn; [done|]. by destruct (p c) eqn:E. Qed.

Lemma drop_while_id p s :
  match s with [] => True | c :: _ => p c = false end -> drop_while p s = s.
Proof. destruct s; cbn; [done|]. by intros ->. Qed.

Lemma drop_while_all p s : Forall (fun c => p c = true) s -> drop_while p s = [].
Proof. induction 1; cbn; [done|]. by rewrite H. Qed.

Lemma strip_id s :
  match s with [] => True | c :: _ => is_space c = false end ->
  match reverse s with [] => True | c :: _ => is_space c = false end ->
  strip s = s.
Proof.
  intros H1 H2. unfold strip, strip_chars, rstrip, lstrip.
  rewrite (drop_while_id _ s) by done. rewrite drop_while_id by done.
  apply reverse_involutive.
Qed.

Lemma strip_no_space s : Forall (fun c => is_space c = false) s -> strip s = s.
Proof.
  intros H. apply strip_id.
  - destruct H; done.
  - rewrite <-Forall_reverse in H. destruct H; done.
Qed.

(** ** Lemmas: splitting and joining *)

Lemma split_not_nil c s : split c s <> [].
Proof.
  destruct s as [|a s]; cbn; [done|].
  destruct (Ascii.eqb a c), (split c s); done.
Qed.

Lemma split_absent c s : c ∉ s -> split c s = [s].
Proof.
  induction s as [|a s IH]; cbn; [done|]. intros H%not_elem_of_cons.
  destruct (Ascii.eqb_spec a c); [naive_solver|]. by rewrite IH by naive_solver.
Qed.

Lemma split_app_sep c w s : c ∉ w -> split c (w ++ c :: s) = w :: split c s.
Proof.
  induction w as [|a w IH]; cbn; [by rewrite Ascii.eqb_refl|].
  intros H%not_elem_of_cons. destruct (Ascii.eqb_spec a c); [naive_solver|].
  by rewrite IH by naive_solver.
Qed.

(** Splitting undoes joining when no field contains the separator. *)
Lemma split_join c l :
  l <> [] -> Forall (fun w => c ∉ w) l -> split c (join [c] l) = l.
Proof.
  induction l as [|w [|w' l] IH]; [done| |]; intros _ [Hw Hl]%Forall_cons.
  - by apply split_absent.
  - change (join [c] (w :: w' :: l)) with (w ++ c :: join [c] (w' :: l)).
    rewrite split_app_sep by done. f_equal. by apply IH.
Qed.

Lemma join_split c s : join [c] (split c s) = s.
Proof.
  induction s as [|a s IH]; cbn; [done|].
  destruct (Ascii.eqb_spec a c) as [->|].
  - destruct (split c s) eqn:E; [by apply split_not_nil in E|]. cbn in *. by rewrite IH.
  - destruct (split c s) as [|w [|w' l]] eqn:E; [by apply split_not_nil in E| |];
      cbn in *; by rewrite IH.
Qed.

Lemma split1_app c w s : c ∉ w -> split1 c (w ++ c :: s) = (w, Some s).
Proof.
  induction w as [|a w IH]; cbn; [by rewrite Ascii.eqb_refl|].
  intros H%not_elem_of_cons. destruct (Ascii.eqb_spec a c); [naive_solver|].
  by rewrite IH by naive_solver.
Qed.

Lemma split1_absent c s : c ∉ s -> split1 c s = (s, None).
Proof.
  induction s as [|a s IH]; cbn; [done|]. intros H%not_elem_of_cons.
  destruct (Ascii.eqb_spec a c); [naive_solver|]. by rewrite IH by naive_solver.
Qed.

Lemma rsplit1_app c a b : c ∉ b -> rsplit1 c (a ++ c :: b) = Some (a, b).
Proof.
  intros H. unfold rsplit1.
  rewrite reverse_app, reverse_cons, <-app_assoc. cbn [app].
  rewrite split1_app by (by rewrite elem_of_reverse).
  by rewrite !reverse_involutive.
Qed.

Lemma split1_some c s w t : split1 c s = (w, Some t) -> s = w ++ c :: t /\ c ∉ w.
Proof.
  revert w; induction s as [|a s IH]; intros w; cbn [split1]; [done|].
  destruct (Ascii.eqb_spec a c) as [->|Hne]; [intros [= <- <-]; by split; [|apply not_elem_of_nil]|].
  destruct (split1 c s) as [w' t']. intros [= <- ->]. destruct (IH w' eq_refl) as [-> Hw].
  split; [done|]. rewrite not_elem_of_cons. by split; [congruence|].
Qed.

Lemma rsplit1_some c s a b : rsplit1 c s = Some (a, b) -> s = a ++ c :: b /\ c ∉ b.
Proof.
  unfold rsplit1. destruct (split1 c (reverse s)) as [w [t|]] eqn:E; [|done]. intros [= <- <-].
  apply split1_some in E as [E Hw]. split.
  - apply (f_equal reverse) in E. rewrite reverse_involutive in E. rewrite E.
    by rewrite reverse_app, reverse_cons, <-app_assoc.
  - by rewrite elem_of_reverse.
Qed.

Lemma rsplit1_absent c s : c ∉ s -> rsplit1 c s = None.
Proof. intros H. unfold rsplit1. by rewrite split1_absent by (by rewrite elem_of_reverse). Qed.

(** ** Lemmas: printing and parsing integers *)

Lemma below16 d : (0 <= d < 16)%Z -> In d [0;1;2;3;4;5;6;7;8;9;10;11;12;13;14;15]%Z.
Proof. cbn. lia. Qed.

(** Case analysis on a hexadecimal digit value. *)
Ltac hex_cases H :=
  apply below16 in H; cbn in H; repeat destruct H as [<-|H]; try done.

Lemma digit_num_char d : (0 <= d < 16)%Z -> digit_num (digit_char d) = Some d.
Proof. intros H. hex_cases H. Qed.

Lemma digit_char_val b d :
  (2 <= b <= 16)%Z -> (0 <= d < b)%Z -> digit_val b (digit_char d) = Some d.
Proof.
  intros Hb Hd. unfold digit_val. rewrite digit_num_char by lia. cbn.
  by rewrite (proj2 (Z.ltb_lt d b)) by lia.
Qed.

(** The characters [digits] produces. *)
Definition is_hexlow (c : ascii) : bool := is_digit c || between 97 102 c.

Lemma digit_char_hexlow d : (0 <= d < 16)%Z -> is_hexlow (digit_char d) = true.
Proof. intros H. hex_cases H. Qed.

Lemma digit_char_digit d : (0 <= d < 10)%Z -> is_digit (digit_char d) = true.
Proof. intros H. assert (0 <= d < 16)%Z as H' by lia. hex_cases H'. all: lia. Qed.

Lemma digit_char_not_underscore d : (0 <= d < 16)%Z -> Ascii.eqb (digit_char d) "_"%char = false.
Proof. intros H. hex_cases H. Qed.

(** [digits_go] conses the digits of [n] in front of the accumulator, and parsing
    them back gives [n]. *)
Lemma digits_go_spec fuel b n acc :
  (2 <= b <= 16)%Z -> (0 <= n)%Z -> (n < b ^ Z.of_nat fuel)%Z -> fuel <> O ->
  exists l, digits_go fuel b n acc = l ++ acc /\ l <> [] /\
    Forall (fun c => exists d, (0 <= d < b)%Z /\ c = digit_char d) l /\
    forall a rest, num_go b a (l ++ rest) =
                   num_go b (a * b ^ Z.of_nat (length l) + n) rest.
Proof.
  intros Hb. revert n acc; induction fuel as [|f IH]; [done|].
  intros n acc Hn Hlt _. cbn [digits_go].
  pose proof (Z.mod_pos_bound n b ltac:(lia)) as Hm.
  assert (forall a rest, num_go b a (digit_char (n mod b) :: rest) =
                         num_go b (a * b + n mod b) rest) as Hstep.
  { intros a rest. cbn [num_go]. rewrite digit_char_not_underscore by lia.
    by rewrite digit_char_val by lia. }
  destruct (Z.ltb_spec n b) as [Hs|Hs].
  - exists [digit_char (n mod b)]. split_and!; [done|done|eauto|].
    intros a rest. cbn [app]. rewrite Hstep. f_equal.
    rewrite Z.mod_small by lia. cbn [length]. rewrite Z.pow_1_r. lia.
  - destruct (IH (n / b)%Z (digit_char (n mod b) :: acc)) as (l & -> & Hne & Hl & Hp).
    + apply Z.div_pos; lia.
    + apply Z.div_lt_upper_bound; [lia|]. rewrite Nat2Z.inj_succ, Z.pow_succ_r in Hlt; lia.
    + intros ->. cbn in Hlt. lia.
    + exists (l ++ [digit_char (n mod b)]). split_and!.
      * by rewrite <-app_assoc.
      * by destruct l.
      * apply Forall_app. eauto.
      * intros a rest. rewrite <-app_assoc, Hp. cbn [app]. rewrite Hstep. f_equal.
        rewrite length_app, Nat2Z.inj_add, Z.pow_add_r by lia. cbn [length].
        rewrite Z.pow_1_r. pose proof (Z.div_mod n b ltac:(lia)). nia.
Qed.

Lemma digits_spec b n :
  (2 <= b <= 16)%Z -> (0 <= n)%Z ->
  digits b n <> [] /\
  Forall (fun c => exists d, (0 <= d < b)%Z /\ c = digit_char d) (digits b n) /\
  num b (digits b n) = Some n.
Proof.
  intros Hb Hn. unfold digits.
  destruct (digits_go_spec (S (Z.to_nat (Z.log2 n))) b n []) as (l & -> & Hne & Hl & Hp); try lia.
  - rewrite Nat2Z.inj_succ, Z2Nat.id by apply Z.log2_nonneg.
    destruct (decide (n = 0)%Z) as [->|]; [cbn; lia|].
    pose proof (Z.log2_spec n ltac:(lia)).
    pose proof (Z.pow_le_mono_l 2 b (Z.succ (Z.log2 n)) ltac:(lia)). lia.
  - rewrite app_nil_r. split_and!; [done|done|].
    destruct l as [|c l]; [done|]. specialize (Hp 0%Z []). rewrite app_nil_r in Hp.
    apply Forall_cons in Hl as [[d [Hd ->]] _]. cbn in *.
    rewrite digit_char_not_underscore, digit_char_val in Hp by lia.
    rewrite digit_char_val by lia. cbn in *. done.
Qed.

Lemma digits_hexlow b n :
  (2 <= b <= 16)%Z -> (0 <= n)%Z -> Forall (fun c => is_hexlow c = true) (digits b n).
Proof.
  intros Hb Hn. destruct (digits_spec b n Hb Hn) as (_ & H & _).
  eapply Forall_impl; [exact H|]. intros c (d & Hd & ->). apply digit_char_hexlow. lia.
Qed.

Lemma digits10_digit n :
  (0 <= n)%Z -> Forall (fun c => is_digit c = true) (digits 10 n).
Proof.
  intros Hn. destruct (digits_spec 10 n ltac:(lia) Hn) as (_ & H & _).
  eapply Forall_impl; [exact H|]. intros c (d & Hd & ->). by apply digit_char_digit.
Qed.

Lemma hexlow_chars c :
  is_hexlow c = true ->
  is_space c = false /\ Ascii.eqb c "-"%char = false /\ Ascii.eqb c "+"%char = false /\
  Ascii.eqb c "x"%char = false /\ Ascii.eqb c "X"%char = false.
Proof. revert c. intros [[][][][][][][][]]; vm_compute; auto; discriminate. Qed.

(** An unsigned numeral, possibly after [0x], parses as its magnitude. *)
Lemma py_int_magnitude b s :
  s <> [] -> Forall (fun c => is_hexlow c = true \/ c = "x"%char) s ->
  starts_with "x" s = false -> py_int b s = magnitude b s.
Proof.
  intros Hne H Hx. unfold py_int. rewrite strip_no_space.
  - destruct s as [|c s]; [done|]. apply Forall_cons in H as [[Hc| ->] _]; [|done].
    by apply hexlow_chars in Hc as (_ & -> & -> & _).
  - eapply Forall_impl; [exact H|]. intros c [Hc| ->]; [|done].
    by apply hexlow_chars in Hc as [? _].
Qed.

Lemma hexlow_no_prefix s :
  Forall (fun c => is_hexlow c = true) s ->
  bool_decide (take 2 s = ("0x" : str)) = false /\ bool_decide (take 2 s = ("0X" : str)) = false.
Proof.
  intros H. split; apply bool_decide_eq_false_2; intros E;
    (destruct s as [|a [|c s]]; [done|done|]); cbn in E; injection E as -> ->;
    by repeat apply Forall_cons in H as [? H].
Qed.

Lemma hexlow_py_int b s :
  s <> [] -> Forall (fun c => is_hexlow c = true) s -> (b = 10 \/ b = 16)%Z ->
  py_int b s = num b s.
Proof.
  intros Hne H Hb. rewrite py_int_magnitude; [|done| |].
  - unfold magnitude. destruct (hexlow_no_prefix s H) as [-> ->].
    by destruct Hb as [-> | ->].
  - eapply Forall_impl; [exact H|]. intros c Hc. left; exact Hc.
  - destruct H as [|c s Hc]; [done|]. cbn [starts_with String.list_ascii_of_string].
    destruct (Ascii.eqb_spec "x"%char c) as [<-|]; [by vm_compute in Hc|done].
Qed.

(** Printing in base 10 or 16 and parsing back is the identity. *)
Lemma int_of_digits b n :
  (b = 10 \/ b = 16)%Z -> (0 <= n)%Z -> py_int b (digits b n) = Some n.
Proof.
  intros Hb Hn. destruct (digits_spec b n ltac:(lia) Hn) as (Hne & _ & Hnum).
  rewrite hexlow_py_int; [done|done|apply digits_hexlow; lia|done].
Qed.

Lemma py_int_str_of_Z n : (0 <= n)%Z -> py_int 10 (str_of_Z n) = Some n.
Proof.
  intros Hn. unfold str_of_Z. rewrite (proj2 (Z.ltb_ge n 0)) by done.
  apply int_of_digits; auto.
Qed.

Lemma magnitude_0x s : magnitude 16 ("0x" ++ s) = num_pfx 16 s.
Proof. reflexivity. Qed.

Lemma py_int_hex n : (0 <= n)%Z -> py_int 16 (hex n) = Some n.
Proof.
  intros Hn. unfold hex. rewrite (proj2 (Z.ltb_ge n 0)) by done.
  destruct (digits_spec 16 n ltac:(lia) Hn) as (Hne & Hd & Hnum).
  pose proof (digits_hexlow 16 n ltac:(lia) Hn) as Hh.
  rewrite py_int_magnitude.
  - rewrite magnitude_0x. destruct (digits 16 n) as [|c l] eqn:E; [done|].
    apply Forall_cons in Hd as [(d & Hd & ->) _]. cbn [num_pfx].
    by rewrite digit_char_not_underscore by lia.
  - done.
  - constructor; [by left|]. constructor; [by right|].
    eapply Forall_impl; [exact Hh|]. intros c' Hc'. left; exact Hc'.
  - done.
Qed.

(** ** Lemmas: prefixes and first occurrences *)

(** Stripping on the right leaves a prefix. *)
Lemma rstrip_prefix p s : exists t, s = rstrip p s ++ t.
Proof.
  unfold rstrip. assert (forall r, exists t, r = t ++ drop_while p r) as Hd.
  { induction r as [|c r [t IH]]; [by exists []|]. cbn. destruct (p c); [|by exists []].
    exists (c :: t). cbn. by f_equal. }
  destruct (Hd (reverse s)) as [t Ht]. exists (reverse t).
  by rewrite <-reverse_app, <-Ht, reverse_involutive.
Qed.

(** The first occurrence of [needle] is where it stands, when no earlier one
    overlaps it. *)
Lemma find_str_first needle a b :
  contains needle (a ++ take (pred (length needle)) needle) = false ->
  find_str needle (a ++ needle ++ b) = Some (length a).
Proof.
  induction a as [|c a IH]; intros H.
  - cbn [app length]. destruct (needle ++ b) as [|x l] eqn:E.
    + apply app_eq_nil in E as [-> ->]. done.
    + assert (starts_with needle (x :: l) = true) as Hs by (rewrite <-E; apply starts_with_app).
      cbn [find_str]. by rewrite Hs.
  - cbn [app contains] in H. apply orb_false_iff in H as [H1 H2]. cbn [app find_str length].
    destruct (starts_with needle (c :: a ++ needle ++ b)) eqn:E; [exfalso|by rewrite IH].
    apply starts_with_spec in E as [t E]. assert (length needle <> 0)%nat as Hn.
    { destruct needle; [by cbn in H1|done]. }
    assert (starts_with needle (c :: a ++ take (pred (length needle)) needle) = true); [|congruence].
    apply starts_with_spec. exists (drop (length needle) (c :: a ++ take (pred (length needle)) needle)).
    assert (take (length needle) (c :: a ++ needle ++ b)
            = take (length needle) (c :: a ++ take (pred (length needle)) needle)) as Ht.
    { replace (c :: a ++ needle ++ b) with
        ((c :: a ++ take (pred (length needle)) needle) ++ drop (pred (length needle)) needle ++ b)
        by (cbn [app]; rewrite <-app_assoc, (app_assoc (take _ _)); by rewrite take_drop).
      rewrite take_app_le; [done|]. cbn [length]. rewrite length_app, length_take. lia. }
    rewrite E, take_app_length in Ht. etrans; [symmetry; apply take_drop|]. by rewrite <-Ht.
Qed.

(** A character is not in a closed text. *)
Lemma not_in_str c (l : str) : forallb (fun x => negb (Ascii.eqb c x)) l = true -> c ∉ l.
Proof.
  intros H Hc. rewrite forallb_forall in H. apply list_elem_of_In, H in Hc.
  by rewrite Ascii.eqb_refl in Hc.
Qed.

(** A text without [c] cannot straddle a [c]. *)
Lemma contains_sep needle c a b :
  c ∉ needle -> needle <> [] -> contains needle a = false -> contains needle b = false ->
  contains needle (a ++ c :: b) = false.
Proof.
  intros Hc Hne Ha Hb. apply not_true_is_false. rewrite contains_spec. intros (x & y & E).
  assert (forall s, contains needle s = false -> ~ exists x y, s = x ++ needle ++ y) as Hnot.
  { intros s Hs. rewrite <-contains_spec. by rewrite Hs. }
  apply app_eq_inv in E as [(k & -> & E)|(k & -> & E)].
  - apply app_eq_inv in E as [(k' & -> & E)|(k' & -> & E)].
    + destruct k' as [|z k'].
      * apply (Hnot _ Ha). exists x, []. by rewrite !app_nil_r.
      * injection E as <- _. apply Hc, elem_of_app. right. by left.
    + apply (Hnot _ Ha). by exists x, k'.
  - destruct k as [|z k].
    + destruct needle as [|n needle]; [done|]. injection E as <- _. apply Hc. by left.
    + injection E as <- ->. apply (Hnot _ Hb). by exists k, y.
Qed.

Lemma find_str_none needle s : find_str needle s = None <-> contains needle s = false.
Proof.
  induction s as [|c s IH]; cbn [find_str contains]; destruct (starts_with needle _); cbn; try done.
  rewrite <-IH. by destruct (find_str needle s).
Qed.

(** Stripping the white space around a text. *)
Lemma drop_while_app p w s : Forall (fun c => p c = true) w -> drop_while p (w ++ s) = drop_while p s.
Proof. induction 1 as [|c w Hc _ IH]; [done|]. cbn. by rewrite Hc. Qed.

Lemma rstrip_app p s w : Forall (fun c => p c = true) w -> rstrip p (s ++ w) = rstrip p s.
Proof.
  intros H. unfold rstrip. rewrite reverse_app, drop_while_app; [done|]. by apply Forall_reverse.
Qed.

Lemma rstrip_last p s c : p c = false -> rstrip p (s ++ [c]) = s ++ [c].
Proof.
  intros H. unfold rstrip. rewrite reverse_app. cbn [reverse rev_append app]. cbn [drop_while].
  rewrite H. rewrite reverse_cons, reverse_involutive. done.
Qed.

(** Texts that [strip] leaves alone. *)
Definition stripped (s : str) : Prop :=
  match s with [] => True | c :: _ => is_space c = false end /\
  match reverse s with [] => True | c :: _ => is_space c = false end.

Lemma strip_core w s w' :
  Forall (fun c => is_space c = true) w -> Forall (fun c => is_space c = true) w' ->
  stripped s -> strip (w ++ s ++ w') = s.
Proof.
  intros Hw Hw' [H1 H2]. unfold strip, strip_chars, lstrip. rewrite drop_while_app by done.
  destruct s as [|c s].
  - cbn [app]. by rewrite drop_while_all by done.
  - rewrite drop_while_id by done. rewrite rstrip_app by done. unfold rstrip.
    rewrite drop_while_id by done. apply reverse_involutive.
Qed.

Lemma str_of_Z_inj a b : (0 <= a)%Z -> (0 <= b)%Z -> str_of_Z a = str_of_Z b -> a = b.
Proof.
  intros Ha Hb H. apply py_int_str_of_Z in Ha, Hb. rewrite H in Ha. congruence.
Qed.
