(* ===== verification/PyRe.v ===== *)
(** * The part of Python's [re] the modelled code uses

    A backtracking matcher for the regular expressions that occur in the
    sources, with [re]'s priorities (leftmost match, left alternative first,
    greedy or lazy repetition) and capturing groups, and [match], [search],
    [fullmatch], [findall] and [sub] on top of it.  Repetition is over a
    character class, which is all the sources use, so the matcher is structural.

    [matches] is the declarative meaning of an expression; [rm_sound] and
    [rm_complete] relate the matcher to it. *)

From S2P Require Import Prelude PyStr.
From Stdlib Require Import Ascii.

(** ** Expressions *)

Inductive regex :=
| REps
| RChr (p : ascii -> bool)
| RCat (r1 r2 : regex)
| RAlt (r1 r2 : regex)
| RRep (greedy : bool) (min : nat) (p : ascii -> bool)
| ROpt (r : regex)
| RGrp (n : nat) (r : regex)
| RBol          (* ^ *)
| RMBol         (* ^ with re.MULTILINE *)
| REol          (* $ *)
| REos          (* \Z, the end fullmatch requires *)
| RWordB.       (* \b *)

(** A position in the subject: the reversed text before it, the text after it,
    and the groups captured so far (latest first). *)
Record cur := Cur { bef : str; aft : str; caps : list (nat * str) }.

Definition orelse {A} (o1 o2 : option A) : option A :=
  match o1 with Some x => Some x | None => o2 end.

Definition at_bol (s : cur) : bool := match bef s with [] => true | _ => false end.
Definition at_mbol (s : cur) : bool :=
  match bef s with [] => true | c :: _ => Ascii.eqb c newline end.
(** [$] matches at the end and before a final newline. *)
Definition at_eol (s : cur) : bool :=
  match aft s with [] => true | [c] => Ascii.eqb c newline | _ => false end.
Definition at_eos (s : cur) : bool := match aft s with [] => true | _ => false end.
Definition word_head (s : str) : bool :=
  match s with [] => false | c :: _ => is_word c end.
Definition at_wordb (s : cur) : bool := xorb (word_head (bef s)) (word_head (aft s)).

(** ** The matcher, in continuation-passing style *)

Section Rep.
Context (greedy : bool) (p : ascii -> bool) (cs : list (nat * str)) (k : cur -> option cur).
Fixpoint rep (min : nat) (b a : str) : option cur :=
  match a with
  | [] => match min with O => k (Cur b [] cs) | S _ => None end
  | c :: a' =>
      match min with
      | S m => if p c then rep m (c :: b) a' else None
      | O =>
          if p c then
            if greedy then orelse (rep O (c :: b) a') (k (Cur b a cs))
            else orelse (k (Cur b a cs)) (rep O (c :: b) a')
          else k (Cur b a cs)
      end
  end.
End Rep.

Definition test (b : cur -> bool) (s : cur) (k : cur -> option cur) : option cur :=
  if b s then k s else None.

Definition capture (n : nat) (s s' : cur) : cur :=
  Cur (bef s') (aft s') ((n, take (length (aft s) - length (aft s')) (aft s)) :: caps s').

Fixpoint rm (r : regex) (s : cur) (k : cur -> option cur) : option cur :=
  match r with
  | REps => k s
  | RChr p =>
      match aft s with
      | c :: a => if p c then k (Cur (c :: bef s) a (caps s)) else None
      | [] => None
      end
  | RCat r1 r2 => rm r1 s (fun s' => rm r2 s' k)
  | RAlt r1 r2 => orelse (rm r1 s k) (rm r2 s k)
  | RRep g m p => rep g p (caps s) k m (bef s) (aft s)
  | ROpt r => orelse (rm r s k) (k s)
  | RGrp n r => rm r s (fun s' => k (capture n s s'))
  | RBol => test at_bol s k
  | RMBol => test at_mbol s k
  | REol => test at_eol s k
  | REos => test at_eos s k
  | RWordB => test at_wordb s k
  end.

(** ** Match objects *)

Record rmatch := RMatch { m_pre : str; m_cur : cur; m_subject_aft : str }.

Definition m_start (m : rmatch) : nat := length (m_pre m).
Definition m_end (m : rmatch) : nat := length (bef (m_cur m)).
Definition m_text (m : rmatch) : str :=
  take (length (m_subject_aft m) - length (aft (m_cur m))) (m_subject_aft m).

(** [m.group(n)]; [None] for a group that did not take part. *)
Fixpoint cap_lookup (n : nat) (l : list (nat * str)) : option str :=
  match l with
  | [] => None
  | (i, t) :: l' => if Nat.eqb i n then Some t else cap_lookup n l'
  end.
Definition group (m : rmatch) (n : nat) : option str := cap_lookup n (caps (m_cur m)).
(** The text [findall] reports for a group. *)
Definition grp (m : rmatch) (n : nat) : str := default [] (group m n).

Definition match_at (r : regex) (b a : str) : option rmatch :=
  s ← rm r (Cur b a []) Some; Some (RMatch b s a).

Fixpoint search_from (r : regex) (b a : str) : option rmatch :=
  orelse (match_at r b a)
         (match a with [] => None | c :: a' => search_from r (c :: b) a' end).

(** [re.match], [re.search], [re.fullmatch] *)
Definition re_match (r : regex) (s : str) : option rmatch := match_at r [] s.
Definition re_search (r : regex) (s : str) : option rmatch := search_from r [] s.
Definition re_fullmatch (r : regex) (s : str) : option rmatch := match_at (RCat r REos) [] s.

(** [re.findall]/[re.finditer]: successive leftmost matches.  Every expression
    the sources pass to them matches non-empty text only; after an empty match
    the scan moves on by one character. *)
Fixpoint finditer_go (fuel : nat) (r : regex) (b a : str) : list rmatch :=
  match fuel with
  | O => []
  | S f =>
      match search_from r b a with
      | None => []
      | Some m =>
          m :: (if Nat.eqb (m_end m) (m_start m) then
                  match aft (m_cur m) with
                  | [] => []
                  | c :: a' => finditer_go f r (c :: bef (m_cur m)) a'
                  end
                else finditer_go f r (bef (m_cur m)) (aft (m_cur m)))
      end
  end.
Definition finditer (r : regex) (s : str) : list rmatch := finditer_go (S (length s)) r [] s.

(** [re.sub(r, new, s)] for a replacement text without escapes. *)
Fixpoint sub_go (new s : str) (pos : nat) (ms : list rmatch) : str :=
  match ms with
  | [] => drop pos s
  | m :: ms' => take (m_start m - pos) (drop pos s) ++ new ++ sub_go new s (m_end m) ms'
  end.
Definition re_sub (r : regex) (new s : str) : str := sub_go new s 0 (finditer r s).

(** *** Replacement strings

    What a replacement string with backslashes stands for when the expression has no
    groups: escapes of characters, octal escapes, [\g<0>] for the text matched; the
    other group references and escapes of letters raise.  The exceptions of the class
    [re.error] are [ReError]. *)

Definition BSLASH : ascii := "092"%char.
Definition is_octal (c : ascii) : bool := between 48 55 c.
Definition chr (n : Z) : ascii := ascii_of_N (Z.to_N n).
Definition octal (ds : str) : Z := foldl (fun n c => 8 * n + (code c - 48))%Z 0%Z ds.

(** [str.isidentifier] *)
Definition ident_chr (c : ascii) : bool :=
  is_word c && negb (between 178 179 c || between 185 185 c || between 188 190 c) || between 183 183 c.
Definition is_identifier (s : str) : bool :=
  match s with
  | c :: _ => forallb ident_chr s && negb (is_digit c || between 183 183 c)
  | [] => false
  end.

Definition escapes : list (ascii * Z) :=
  [("a", 7); ("b", 8); ("f", 12); ("n", 10); ("r", 13); ("t", 9); ("v", 11)]%char%Z.

(** What follows a backslash: its text, and how many characters it takes. *)
Definition sub_escape (whole t : str) : res (str * nat) :=
  match t with
  | [] => raise ReError
  | c :: t' =>
      if bool_decide (c = "g"%char) then
        match t' with
        | "<"%char :: t'' =>
            let name := take_while (fun c => negb (Ascii.eqb c ">")) t'' in
            if bool_decide (length name = length t'' \/ name = []) then raise ReError
            else if is_identifier name then raise IndexError
            else match py_int 10 name with
                 | Some 0%Z => Ok (whole, length name + 3)%nat
                 | _ => raise ReError
                 end
        | _ => raise ReError
        end
      else if bool_decide (c = "0"%char) then
        let ds := take_while is_octal (take 2 t') in Ok ([chr (octal ds)], S (length ds))
      else if is_digit c then
        let ds := take_while is_octal (c :: take 2 t') in
        if bool_decide (length ds = 3%nat /\ (octal ds <= 255)%Z) then Ok ([chr (octal ds)], 3%nat)
        else raise ReError
      else match List.find (fun e => Ascii.eqb e.1 c) escapes with
           | Some e => Ok ([chr e.2], 1%nat)
           | None =>
               if bool_decide (c = BSLASH) then Ok ([BSLASH], 1%nat)
               else if between 65 90 c || between 97 122 c then raise ReError
               else Ok ([BSLASH; c], 1%nat)
           end
  end.

Fixpoint sub_template_go (whole t : str) (skip : nat) : res str :=
  match t with
  | [] => Ok []
  | c :: t' =>
      match skip with
      | S k => sub_template_go whole t' k
      | O => if bool_decide (c = BSLASH) then
               e ← sub_escape whole t';
               r ← sub_template_go whole t' e.2;
               Ok (e.1 ++ r)
             else r ← sub_template_go whole t' 0; Ok (c :: r)
      end
  end.
Definition sub_template (whole t : str) : res str := sub_template_go whole t 0.

Example sub_template_ex :
  sub_template "<root>" "a\\b\n\x/\g<0>\041\101\.!" =
    raise ReError /\
  sub_template "<root>" "a\\b\n/\g<0>\041\101\.!" = Ok ("a\b" ++ [newline] ++ "/<root>!A\.!") /\
  sub_template "<root>" "C:\g<root>" = raise IndexError /\
  sub_template "<root>" "C:\1" = raise ReError.
Proof. split_and!; reflexivity. Qed.

(** Without a backslash it stands for itself. *)
Lemma sub_template_plain whole t : BSLASH ∉ t -> sub_template whole t = Ok t.
Proof.
  unfold sub_template. induction t as [|c t IH]; intros H; [done|].
  apply not_elem_of_cons in H as [Hc H]. cbn [sub_template_go].
  rewrite bool_decide_eq_false_2 by done. by rewrite IH.
Qed.

(** ** Abbreviations for writing expressions *)

Definition rseq (l : list regex) : regex := foldr RCat REps l.
Definition lit (t : str) : regex := rseq ((fun c => RChr (Ascii.eqb c)) <$> t).
Definition ralt (l : list regex) : regex :=
  match l with [] => REps | r :: l' => foldl RAlt r l' end.

Definition is_hex (c : ascii) : bool := is_digit c || between 65 70 c || between 97 102 c.
Definition not_space (c : ascii) : bool := negb (is_space c).
Definition dot (c : ascii) : bool := negb (Ascii.eqb c newline).

Definition star (p : ascii -> bool) : regex := RRep true 0 p.
Definition plus (p : ascii -> bool) : regex := RRep true 1 p.
Definition star_lazy (p : ascii -> bool) : regex := RRep false 0 p.
Definition plus_lazy (p : ascii -> bool) : regex := RRep false 1 p.

Example re_ex1 :
  (fun m => (grp m 1, grp m 2)) <$>
    finditer (rseq [lit "x"; RGrp 1 (plus is_digit); lit "="; RGrp 2 (plus is_hex)]) "x1=0a, x22=ff x="
  = [("1" : str, "0a" : str); ("22" : str, "ff" : str)].
Proof. reflexivity. Qed.
Example re_ex2 :
  (m_text <$> re_search (rseq [lit "p:"; RGrp 1 (star_lazy dot); lit ")"]) "(p:a)b)")
  = Some ("p:a)" : str).
Proof. reflexivity. Qed.

(** ** The declarative meaning *)

Definition step (c : ascii) (a : str) (s : cur) : cur := Cur (c :: bef s) a (caps s).

Definition holds (r : regex) : option (cur -> bool) :=
  match r with
  | RBol => Some at_bol | RMBol => Some at_mbol | REol => Some at_eol
  | REos => Some at_eos | RWordB => Some at_wordb | _ => None
  end.

Inductive matches : regex -> cur -> cur -> Prop :=
| M_eps s : matches REps s s
| M_chr p c a s : aft s = c :: a -> p c = true -> matches (RChr p) s (step c a s)
| M_cat r1 r2 s1 s2 s3 : matches r1 s1 s2 -> matches r2 s2 s3 -> matches (RCat r1 r2) s1 s3
| M_alt_l r1 r2 s s' : matches r1 s s' -> matches (RAlt r1 r2) s s'
| M_alt_r r1 r2 s s' : matches r2 s s' -> matches (RAlt r1 r2) s s'
| M_rep g m p l a s :
    aft s = l ++ a -> Forall (fun c => p c = true) l -> (m <= length l)%nat ->
    matches (RRep g m p) s (Cur (reverse l ++ bef s) a (caps s))
| M_opt_some r s s' : matches r s s' -> matches (ROpt r) s s'
| M_opt_none r s : matches (ROpt r) s s
| M_grp n r s s' : matches r s s' -> matches (RGrp n r) s (capture n s s')
| M_test r b s : holds r = Some b -> b s = true -> matches r s s.
#[export] Hint Constructors matches : cheriot.

Lemma orelse_some {A} (o1 o2 : option A) x :
  orelse o1 o2 = Some x -> o1 = Some x \/ o2 = Some x.
Proof. destruct o1; cbn; naive_solver. Qed.
Lemma orelse_is_some {A} (o1 o2 : option A) :
  is_Some o1 \/ is_Some o2 -> is_Some (orelse o1 o2).
Proof. destruct o1; cbn; intros [H|H]; eauto; by destruct H. Qed.

Lemma rep_sound g p cs k m b a x :
  rep g p cs k m b a = Some x ->
  exists l a', a = l ++ a' /\ Forall (fun c => p c = true) l /\ (m <= length l)%nat /\
               k (Cur (reverse l ++ b) a' cs) = Some x.
Proof.
  assert (forall b a, k (Cur b a cs) = Some x ->
    exists l a', a = l ++ a' /\ Forall (fun c => p c = true) l /\ (0 <= length l)%nat /\
               k (Cur (reverse l ++ b) a' cs) = Some x) as Hhere.
  { intros b' a' H. exists [], a'. by split_and!. }
  assert (forall c a b m,
    (exists l a', a = l ++ a' /\ Forall (fun c => p c = true) l /\ (m <= length l)%nat /\
               k (Cur (reverse l ++ c :: b) a' cs) = Some x) -> p c = true ->
    exists l a', c :: a = l ++ a' /\ Forall (fun c => p c = true) l /\ (S m <= length l)%nat /\
               k (Cur (reverse l ++ b) a' cs) = Some x) as Hmore.
  { intros c a' b' m' (l & a'' & -> & Hl & Hm & Hk) Hc. exists (c :: l), a''.
    split_and!; [done|by constructor|cbn; lia|]. by rewrite reverse_cons, <-app_assoc. }
  revert m b; induction a as [|c a IH]; intros m b; cbn [rep].
  - destruct m; [|done]. apply Hhere.
  - destruct m as [|m]; destruct (p c) eqn:Hc; try done; [| |].
    + assert (forall y, rep g p cs k 0 (c :: b) a = Some x -> y = x -> exists l a',
        c :: a = l ++ a' /\ Forall (fun c => p c = true) l /\ (0 <= length l)%nat /\
        k (Cur (reverse l ++ b) a' cs) = Some x) as Hrec.
      { intros y H _. apply IH in H. destruct (Hmore c a b 0 H Hc) as (l & a' & ? & ? & ? & ?).
        exists l, a'. split_and!; try done. lia. }
      destruct g; intros [H|H]%orelse_some; eauto.
    + apply Hhere.
    + intros H%IH. by apply Hmore.
Qed.

Lemma rep_complete g p cs k m b l a :
  Forall (fun c => p c = true) l -> (m <= length l)%nat ->
  is_Some (k (Cur (reverse l ++ b) a cs)) -> is_Some (rep g p cs k m b (l ++ a)).
Proof.
  intros Hl. revert m b; induction Hl as [|c l Hc Hl IH]; intros m b Hm Hk.
  - assert (m = 0)%nat as -> by (cbn in Hm; lia). cbn in Hk. cbn [app].
    destruct a as [|c a]; [done|]. cbn [rep].
    destruct (p c), g; try apply orelse_is_some; auto.
  - rewrite reverse_cons, <-app_assoc in Hk. cbn [app rep]. rewrite Hc.
    destruct m as [|m]; [|apply IH; [cbn in Hm; lia|done]].
    assert (is_Some (rep g p cs k 0 (c :: b) (l ++ a))) as H by (apply IH; [lia|done]).
    destruct g; apply orelse_is_some; auto.
Qed.

Lemma test_sound b s k x : test b s k = Some x -> b s = true /\ k s = Some x.
Proof. unfold test. by destruct (b s). Qed.

(** Whatever the matcher accepts, the declarative meaning accepts. *)
Lemma rm_sound r s k x :
  rm r s k = Some x -> exists s', matches r s s' /\ k s' = Some x.
Proof.
  revert s k; induction r as [|p|r1 IH1 r2 IH2|r1 IH1 r2 IH2|g m p|r IH|n r IH| | | | |];
    intros s k; cbn [rm];
    try (intros [Hb Hk]%test_sound; exists s; split; [eapply M_test; done|done]).
  - eauto with cheriot.
  - destruct (aft s) as [|c a] eqn:E; [done|]. destruct (p c) eqn:Hc; [|done].
    intros H. exists (step c a s). eauto with cheriot.
  - intros (s1 & H1 & H)%IH1. apply IH2 in H as (s2 & H2 & H). eauto with cheriot.
  - intros [(s1 & H1 & H)%IH1|(s1 & H1 & H)%IH2]%orelse_some; eauto with cheriot.
  - intros (l & a & E & Hl & Hm & Hk)%rep_sound.
    exists (Cur (reverse l ++ bef s) a (caps s)). eauto with cheriot.
  - intros [(s1 & H1 & H)%IH|H]%orelse_some; eauto with cheriot.
  - intros (s1 & H1 & H)%IH. eauto with cheriot.
Qed.

(** If the expression can match up to a point where the rest succeeds, the
    matcher finds a match. *)
Lemma rm_complete r s s' k :
  matches r s s' -> is_Some (k s') -> is_Some (rm r s k).
Proof.
  intros H. revert k; induction H as
    [s|p c a s E Hc|r1 r2 s1 s2 s3 H1 IH1 H2 IH2|r1 r2 s s' H IH|r1 r2 s s' H IH
    |g m p l a s E Hl Hm|r s s' H IH|r s|n r s s' H IH|r b s Hr Hb]; intros k Hk; cbn [rm].
  - done.
  - by rewrite E, Hc.
  - apply IH1. by apply IH2.
  - apply orelse_is_some. left. by apply IH.
  - apply orelse_is_some. right. by apply IH.
  - rewrite E. by apply rep_complete.
  - apply orelse_is_some. left. by apply IH.
  - apply orelse_is_some. by right.
  - apply IH. done.
  - destruct r; cbn in Hr; try discriminate Hr; injection Hr as <-; cbn [rm];
      unfold test; by rewrite Hb.
Qed.

(** ** Computing greedy runs

    A greedy repetition takes the maximal run of its class when the rest of the
    expression succeeds there. *)
Lemma rep_greedy_run p cs k m b l a x :
  Forall (fun c => p c = true) l ->
  match a with [] => True | c :: _ => p c = false end -> (m <= length l)%nat ->
  k (Cur (reverse l ++ b) a cs) = Some x -> rep true p cs k m b (l ++ a) = Some x.
Proof.
  intros Hl. revert m b; induction Hl as [|c l Hc Hl IH]; intros m b Ha Hm Hk.
  - assert (m = 0)%nat as -> by (cbn in Hm; lia). cbn [app] in *.
    destruct a as [|c a]; cbn [rep]; [done|]. by rewrite Ha.
  - rewrite reverse_cons, <-app_assoc in Hk. cbn [app rep]. rewrite Hc.
    destruct m as [|m]; [|apply IH; [done|cbn in Hm; lia|done]].
    by rewrite (IH 0%nat (c :: b)) by (done || lia).
Qed.

Lemma rep_empty_run g p cs k b a :
  match a with [] => True | c :: _ => p c = false end ->
  rep g p cs k 0 b a = k (Cur b a cs).
Proof. destruct a as [|c a]; cbn [rep]; [done|]. by intros ->. Qed.

(** A literal matches exactly itself. *)
Lemma rm_lit t b a cs k :
  rm (lit t) (Cur b (t ++ a) cs) k = k (Cur (reverse t ++ b) a cs).
Proof.
  revert b; induction t as [|c t IH]; intros b; [done|].
  unfold lit, rseq in *. cbn [fmap list_fmap foldr rm app aft bef caps].
  rewrite Ascii.eqb_refl, IH. by rewrite reverse_cons, <-app_assoc.
Qed.

Lemma capture_text n b b' l a cs cs' :
  capture n (Cur b (l ++ a) cs) (Cur b' a cs') = Cur b' a ((n, l) :: cs').
Proof.
  unfold capture. cbn [bef aft caps]. f_equal. f_equal. f_equal.
  rewrite length_app, Nat.add_sub. by rewrite take_app_length.
Qed.

(** Matching consumes a prefix of the remaining text. *)
Lemma matches_span r s s' :
  matches r s s' -> exists l, aft s = l ++ aft s' /\ bef s' = reverse l ++ bef s.
Proof.
  induction 1 as [s|p c a s E Hc|r1 r2 s1 s2 s3 H1 (l1 & A1 & B1) H2 (l2 & A2 & B2)
    | | |g m p l a s E Hl Hm| | | |]; try (by eauto); try (by exists []).
  - exists [c]. cbn. eauto.
  - exists (l1 ++ l2). by rewrite A1, A2, B2, B1, reverse_app, <-!app_assoc.
Qed.

(** ** Matching forwards

    The steps that follow a subject of known shape. *)

(** The run of a class ends where the next text begins. *)
Definition stops (p : ascii -> bool) (a : str) : Prop :=
  match a with [] => True | c :: _ => p c = false end.

Lemma stops_app (p q : ascii -> bool) l a :
  l <> [] -> Forall (fun c => q c = true) l -> (forall c, q c = true -> p c = false) ->
  stops p (l ++ a).
Proof. intros Hne H Hpq. destruct H as [|c l Hc _]; [done|]. by apply Hpq. Qed.

Lemma rm_run p m b l a cs k x :
  Forall (fun c => p c = true) l -> stops p a -> (m <= length l)%nat ->
  k (Cur (reverse l ++ b) a cs) = Some x -> rm (RRep true m p) (Cur b (l ++ a) cs) k = Some x.
Proof. intros. cbn [rm bef aft caps]. by apply rep_greedy_run. Qed.

Lemma rm_grp_run n p m b l a cs k x :
  Forall (fun c => p c = true) l -> stops p a -> (m <= length l)%nat ->
  k (Cur (reverse l ++ b) a ((n, l) :: cs)) = Some x ->
  rm (RGrp n (RRep true m p)) (Cur b (l ++ a) cs) k = Some x.
Proof.
  intros Hl Ha Hm Hk. cbn [rm]. apply rm_run; [done..|]. by rewrite capture_text.
Qed.

Lemma rm_cat r1 r2 s k x :
  rm r1 s (fun s' => rm r2 s' k) = Some x -> rm (RCat r1 r2) s k = Some x.
Proof. done. Qed.
Lemma rm_bol a cs k x : k (Cur [] a cs) = Some x -> rm RBol (Cur [] a cs) k = Some x.
Proof. done. Qed.

(** ** What the groups of a match contain

    For an expression whose groups are all at its top level, every group takes
    part in a match, and a group around a character class holds only characters
    of the class. *)

Fixpoint no_group (r : regex) : bool :=
  match r with
  | RCat r1 r2 | RAlt r1 r2 => no_group r1 && no_group r2
  | ROpt r => no_group r
  | RGrp _ _ => false
  | _ => true
  end.
Fixpoint flat_groups (r : regex) : bool :=
  match r with
  | RCat r1 r2 => flat_groups r1 && flat_groups r2
  | RGrp _ r => no_group r
  | r => no_group r
  end.

(** The class and the least length of a group's text. *)
Record grule := GRule { g_num : nat; g_class : ascii -> bool; g_min : nat }.
Definition rule_of (n : nat) (r : regex) : grule :=
  match r with
  | RRep _ m p => GRule n p m
  | RChr p => GRule n p 1
  | _ => GRule n (fun _ => true) 0
  end.
Fixpoint group_rules (r : regex) : list grule :=
  match r with
  | RCat r1 r2 => group_rules r2 ++ group_rules r1
  | RGrp n r => [rule_of n r]
  | _ => []
  end.
Definition obeys (c : nat * str) (g : grule) : Prop :=
  c.1 = g_num g /\ Forall (fun x => g_class g x = true) c.2 /\ (g_min g <= length c.2)%nat.

Lemma matches_no_group r s s' : no_group r = true -> matches r s s' -> caps s' = caps s.
Proof.
  intros Hr H. induction H; cbn in Hr; try (apply andb_true_iff in Hr as [Hr1 Hr2]); auto; try done.
  rewrite IHmatches2, IHmatches1; done.
Qed.

Lemma all_true (l : str) : Forall (fun _ => true = true) l.
Proof. by apply Forall_forall. Qed.

Lemma capture_obeys n r s s' :
  matches r s s' -> obeys (n, take (length (aft s) - length (aft s')) (aft s)) (rule_of n r).
Proof.
  intros H. destruct (matches_span _ _ _ H) as (l & E & _). rewrite E, length_app, Nat.add_sub.
  rewrite take_app_length.
  destruct H as [s|p c a s E' Hc| | | |g m p l' a s E' Hl Hm| | | |];
    try (split_and!; [done|apply all_true|apply Nat.le_0_l]).
  - cbn in E |- *. rewrite E' in E. apply (app_inv_tail a [c] l) in E as <-.
    unfold obeys; cbn. by split_and!; [|constructor|].
  - cbn in E |- *. rewrite E' in E. apply (app_inv_tail a l' l) in E as <-.
    by unfold obeys; cbn.
  - destruct r; try done; (split_and!; [done|apply all_true|apply Nat.le_0_l]).
Qed.

Lemma matches_groups r s s' :
  flat_groups r = true -> matches r s s' ->
  exists new, caps s' = new ++ caps s /\ Forall2 obeys new (group_rules r).
Proof.
  revert s s'; induction r as [|p|r1 IH1 r2 IH2|r1 IH1 r2 IH2|g m p|r IH|n r IH| | | | |];
    intros s s' Hf H;
    try (exists []; split; [by eapply matches_no_group|constructor]).
  - cbn in Hf. apply andb_true_iff in Hf as [Hf1 Hf2]. inversion H; subst; [|discriminate].
    destruct (IH1 _ _ Hf1 H2) as (n1 & E1 & F1). destruct (IH2 _ _ Hf2 H5) as (n2 & E2 & F2).
    exists (n2 ++ n1). split; [by rewrite E2, E1, app_assoc|]. by apply Forall2_app.
  - inversion H; subst; [|discriminate]. cbn [capture caps group_rules].
    exists [(n, take (length (aft s) - length (aft s'0)) (aft s))].
    split; [by rewrite (matches_no_group r s s'0)|].
    constructor; [by apply capture_obeys|constructor].
Qed.

Fixpoint rule_lookup (n : nat) (l : list grule) : option grule :=
  match l with
  | [] => None
  | g :: l' => if Nat.eqb (g_num g) n then Some g else rule_lookup n l'
  end.

Lemma caps_obey new gs n g :
  Forall2 obeys new gs -> rule_lookup n gs = Some g ->
  exists t, cap_lookup n new = Some t /\ obeys (n, t) g.
Proof.
  induction 1 as [|[i t] g' new gs (E & Hc & Hm) H IH]; cbn; [done|]. cbn in E. subst i.
  destruct (Nat.eqb_spec (g_num g') n) as [<-|]; [|done].
  intros [= <-]. exists t. by unfold obeys.
Qed.

(** A match object produced by the expression. *)
Definition match_of (r : regex) (m : rmatch) : Prop :=
  exists s, matches r (Cur (m_pre m) (m_subject_aft m) []) s /\ m_cur m = s.

Lemma match_at_of r b a m : match_at r b a = Some m -> match_of r m /\ m_pre m = b /\ m_subject_aft m = a.
Proof.
  unfold match_at. intros H. destruct (rm r _ Some) as [s|] eqn:E; [|done]. cbn in H.
  injection H as <-. apply rm_sound in E as (s' & Hm & [= ->]). by split; [eexists|].
Qed.

Lemma search_from_of r b a m : search_from r b a = Some m -> match_of r m.
Proof.
  revert b; induction a as [|c a IH]; intros b; cbn [search_from]; intros [H|H]%orelse_some; try done.
  1,2: by apply match_at_of in H as [H _].
  by apply IH in H.
Qed.

Lemma finditer_of r s m : m ∈ finditer r s -> match_of r m.
Proof.
  unfold finditer. generalize (S (length s)). intros n. generalize ([] : str).
  revert s; induction n as [|n IH]; intros s b; cbn [finditer_go]; [by intros H%not_elem_of_nil|].
  destruct (search_from r b s) as [m'|] eqn:E; [|by intros H%not_elem_of_nil].
  intros [->|H]%elem_of_cons; [by eapply search_from_of|].
  repeat case_match; try (by apply not_elem_of_nil in H); by apply IH in H.
Qed.

(** The subject of a match. *)
Definition subject (m : rmatch) : str := reverse (m_pre m) ++ m_subject_aft m.

Lemma search_from_subject r b a m : search_from r b a = Some m -> subject m = reverse b ++ a.
Proof.
  revert b; induction a as [|c a IH]; intros b; cbn [search_from]; intros [H|H]%orelse_some; try done.
  1,2: by apply match_at_of in H as (_ & <- & <-).
  apply IH in H. rewrite H, reverse_cons, <-app_assoc. done.
Qed.

Lemma match_of_end r m :
  match_of r m -> reverse (bef (m_cur m)) ++ aft (m_cur m) = subject m.
Proof.
  intros (s & Hm & ->). apply matches_span in Hm as (l & Ha & Hb). cbn in Ha, Hb.
  unfold subject. by rewrite Ha, Hb, reverse_app, reverse_involutive, <-app_assoc.
Qed.

Lemma finditer_subject r s m : m ∈ finditer r s -> subject m = s.
Proof.
  unfold finditer. generalize (S (length s)). intros n. change s with (reverse [] ++ s) at 2.
  generalize ([] : str).
  revert s; induction n as [|n IH]; intros s b; cbn [finditer_go]; [by intros H%not_elem_of_nil|].
  destruct (search_from r b s) as [m'|] eqn:E; [|by intros H%not_elem_of_nil].
  pose proof (search_from_subject _ _ _ _ E) as Hs.
  pose proof (match_of_end r m' (search_from_of _ _ _ _ E)) as He.
  intros [->|H]%elem_of_cons; [done|].
  destruct (m_end m' =? m_start m')%nat.
  - destruct (aft (m_cur m')) as [|c a]; [by apply not_elem_of_nil in H|].
    apply IH in H. rewrite H, reverse_cons, <-app_assoc. cbn [app]. congruence.
  - apply IH in H. congruence.
Qed.

Lemma matches_cat_inv r1 r2 s s' :
  matches (RCat r1 r2) s s' -> exists s1, matches r1 s s1 /\ matches r2 s1 s'.
Proof. inversion 1; subst; [eauto|discriminate]. Qed.

(** A match at the start of the subject is the first one. *)
Lemma search_from_here r b a m : match_at r b a = Some m -> search_from r b a = Some m.
Proof. intros H. destruct a; cbn [search_from]; by rewrite H. Qed.

Lemma finditer_first r s x :
  rm r (Cur [] s []) Some = Some x -> exists ms, finditer r s = RMatch [] x s :: ms.
Proof.
  intros H. unfold finditer. cbn [finditer_go].
  rewrite (search_from_here r [] s (RMatch [] x s)) by (unfold match_at; by rewrite H).
  by eexists.
Qed.

(** The text of a group of a match. *)
Lemma grp_obeys r m n g :
  match_of r m -> flat_groups r = true -> rule_lookup n (group_rules r) = Some g ->
  Forall (fun x => g_class g x = true) (grp m n) /\ (g_min g <= length (grp m n))%nat.
Proof.
  intros (s & Hm & Es) Hf Hg. destruct (matches_groups _ _ _ Hf Hm) as (new & E & F).
  destruct (caps_obey _ _ _ _ F Hg) as (t & Ht & _ & Hc & Hl).
  unfold grp, group. rewrite Es, E. cbn [caps]. rewrite app_nil_r, Ht. done.
Qed.

(** ** Converting matched digits *)

Lemma hex_chars c :
  is_hex c = true ->
  is_space c = false /\ Ascii.eqb c "-"%char = false /\ Ascii.eqb c "+"%char = false /\
  Ascii.eqb c "x"%char = false /\ Ascii.eqb c "X"%char = false /\
  Ascii.eqb c "_"%char = false /\ exists v, digit_num c = Some v /\ (0 <= v < 16)%Z.
Proof.
  revert c. intros [[][][][][][][][]]; vm_compute; intros H; try discriminate H;
    split_and!; try reflexivity; eexists; (split; [reflexivity|]); split; (discriminate || reflexivity).
Qed.

Lemma digit_chars c :
  is_digit c = true -> is_hex c = true /\ exists v, digit_num c = Some v /\ (0 <= v < 10)%Z.
Proof.
  revert c. intros [[][][][][][][][]]; vm_compute; intros H; try discriminate H;
    (split; [reflexivity|]); eexists; (split; [reflexivity|]); split; (discriminate || reflexivity).
Qed.

(** The digits of a base, as the expressions write them. *)
Definition base_class (b : Z) : ascii -> bool := if (b =? 16)%Z then is_hex else is_digit.

Lemma base_class_hex b s :
  Forall (fun c => base_class b c = true) s -> Forall (fun c => is_hex c = true) s.
Proof.
  unfold base_class. destruct (b =? 16)%Z; [done|]. intros H.
  eapply Forall_impl; [exact H|]. intros c Hc. by apply digit_chars.
Qed.

Lemma base_class_val b c :
  (b = 10 \/ b = 16)%Z -> base_class b c = true -> exists v, digit_val b c = Some v /\ (0 <= v < b)%Z.
Proof.
  intros [-> | ->] Hc; unfold digit_val.
  - apply digit_chars in Hc as (_ & v & -> & Hv). cbn. exists v.
    by rewrite (proj2 (Z.ltb_lt v 10)) by lia.
  - apply hex_chars in Hc as (_ & _ & _ & _ & _ & _ & v & -> & Hv). cbn. exists v.
    by rewrite (proj2 (Z.ltb_lt v 16)) by lia.
Qed.

Lemma num_go_total b s acc :
  (b = 10 \/ b = 16)%Z -> (0 <= acc)%Z -> Forall (fun c => base_class b c = true) s ->
  exists n, num_go b acc s = Some n /\ (0 <= n)%Z.
Proof.
  intros Hb Ha H. revert acc Ha; induction H as [|c s Hc Hs IH]; intros acc Ha; cbn [num_go]; [eauto|].
  assert (is_hex c = true) as Hh.
  { pose proof (base_class_hex b [c] ltac:(by constructor)) as H1. by inversion H1. }
  apply hex_chars in Hh as (_ & _ & _ & _ & _ & -> & _).
  destruct (base_class_val b c Hb Hc) as (v & -> & Hv). cbn. apply IH. nia.
Qed.

Lemma hex_no_prefix s :
  Forall (fun c => is_hex c = true) s ->
  bool_decide (take 2 s = ("0x" : str)) = false /\ bool_decide (take 2 s = ("0X" : str)) = false.
Proof.
  intros H. split; apply bool_decide_eq_false_2; intros E;
    (destruct s as [|a [|b s]]; [discriminate E|discriminate E|]);
    cbn in E; injection E as -> ->; inversion H as [|? ? _ H']; inversion H' as [|? ? Hx _];
    by apply hex_chars in Hx as (_ & _ & _ & ? & ? & _).
Qed.

(** [int()] of a non-empty run of digits of its base returns a natural number. *)
Lemma int_of_total b s :
  (b = 10 \/ b = 16)%Z -> (1 <= length s)%nat -> Forall (fun c => base_class b c = true) s ->
  exists n, int_of b s = Ok n /\ (0 <= n)%Z.
Proof.
  intros Hb Hl H. pose proof (base_class_hex _ _ H) as Hh.
  assert (exists n, num b s = Some n /\ (0 <= n)%Z) as (n & Hn & Hpos).
  { destruct H as [|c s Hc Hs]; [cbn in Hl; lia|]. cbn [num].
    destruct (base_class_val b c Hb Hc) as (v & -> & Hv). cbn. apply num_go_total; [done|lia|done]. }
  exists n. split; [|done]. unfold int_of. apply or_raise_ok. unfold py_int.
  rewrite strip_no_space.
  2:{ eapply Forall_impl; [exact Hh|]. intros c Hc. by apply hex_chars in Hc as [? _]. }
  destruct s as [|c s]; [cbn in Hl; lia|]. inversion Hh as [|? ? Hc _]; subst.
  apply hex_chars in Hc as (_ & -> & -> & _). unfold magnitude.
  destruct (hex_no_prefix _ Hh) as [-> ->]. cbn [orb].
  by destruct Hb as [-> | ->].
Qed.

(** [int()] of a digit group of a match. *)
Lemma int_of_grp r m n b g :
  match_of r m -> flat_groups r = true -> (b = 10 \/ b = 16)%Z ->
  rule_lookup n (group_rules r) = Some g -> g_class g = base_class b -> (1 <= g_min g)%nat ->
  exists v, int_of b (grp m n) = Ok v /\ (0 <= v)%Z.
Proof.
  intros Hm Hf Hb Hg Hc Hmin. destruct (grp_obeys _ _ _ _ Hm Hf Hg) as [Ho Hl].
  rewrite Hc in Ho. apply int_of_total; [done|lia|done].
Qed.

(** ** Literals and alternatives *)

(** Searching for a literal is finding the text. *)
Lemma search_lit n b a :
  search_from (lit n) b a =
  (fun k => RMatch (reverse (take k a) ++ b)
              (Cur (reverse (take k a ++ n) ++ b) (drop (k + length n) a) []) (drop k a)) <$> find_str n a.
Proof.
  assert (forall t b a, match_at (lit t) b a =
    if starts_with t a then Some (RMatch b (Cur (reverse t ++ b) (drop (length t) a) []) a) else None) as Hat.
  { intros t b' a'. unfold match_at. destruct (starts_with t a') eqn:E.
    - apply starts_with_spec in E as [u ->]. rewrite rm_lit. cbn. by rewrite drop_app_length.
    - destruct (rm (lit t) (Cur b' a' []) Some) as [s|] eqn:Em; [exfalso|done].
      apply rm_sound in Em as (s' & Hm & _). assert (exists u, a' = t ++ u) as Hp.
      { revert b' a' s' Hm E. induction t as [|c t IH]; intros b' a' s' Hm E; [by exists a'|].
        change (matches (RCat (RChr (Ascii.eqb c)) (lit t)) (Cur b' a' []) s') in Hm.
        apply matches_cat_inv in Hm as (s1 & H1 & H2). inversion H1 as [|p c' a1 s0 Ea Hc| | | | | | | |]; subst; [|discriminate].
        cbn in Ea; subst a'. apply Ascii.eqb_eq in Hc as <-. cbn [starts_with] in E.
        rewrite Ascii.eqb_refl in E. unfold step in H2. cbn in H2.
        destruct (IH _ _ _ H2 E) as [u ->]. by exists u. }
      apply starts_with_spec in Hp. congruence. }
  revert b; induction a as [|c a IH]; intros b; cbn [search_from find_str]; rewrite Hat;
    destruct (starts_with n _) eqn:E; cbn [orelse fmap option_fmap option_map take reverse].
  - by rewrite app_nil_l.
  - done.
  - by rewrite app_nil_l.
  - rewrite IH. destruct (find_str n a) as [k|]; [|done]. cbn [fmap option_fmap option_map take drop Nat.add].
    rewrite !reverse_app, !reverse_cons, <-!app_assoc. cbn [app]. done.
Qed.

Lemma matches_lit t s s' : matches (lit t) s s' -> aft s = t ++ aft s'.
Proof.
  revert s; induction t as [|c t IH]; intros s.
  - by inversion 1.
  - change (lit (c :: t)) with (RCat (RChr (Ascii.eqb c)) (lit t)).
    intros (s1 & H1 & H2)%matches_cat_inv. apply IH in H2.
    inversion H1 as [|p c' a1 s0 Ea Hc| | | | | | | |]; subst; [|discriminate].
    apply Ascii.eqb_eq in Hc as <-. rewrite Ea. cbn in H2. by rewrite H2.
Qed.

Lemma matches_ralt l s s' : l <> [] -> matches (ralt l) s s' -> exists r, r ∈ l /\ matches r s s'.
Proof.
  destruct l as [|r l]; [done|]. intros _. cbn [ralt]. revert r.
  induction l as [|r' l IH]; intros r H; cbn [foldl] in H.
  - exists r. split; [by left|done].
  - apply IH in H as (x & Hx & H). apply elem_of_cons in Hx as [->|Hx].
    + inversion H; subst; [| |discriminate].
      * exists r. split; [by left|done].
      * exists r'. split; [by right; left|done].
    + exists x. split; [by right; right|done].
Qed.

(** ** The texts groups captured

    A group's text is a stretch of the subject that the expression of a group
    with that number matched. *)
Fixpoint groups_of (r : regex) : list (nat * regex) :=
  match r with
  | RCat r1 r2 | RAlt r1 r2 => groups_of r1 ++ groups_of r2
  | ROpt r => groups_of r
  | RGrp n r => (n, r) :: groups_of r
  | _ => []
  end.

Definition captured (r : regex) (a : str) (n : nat) (t : str) : Prop :=
  exists r0 s1 s2 p, (n, r0) ∈ groups_of r /\ matches r0 s1 s2 /\ aft s1 = t ++ aft s2 /\ a = p ++ aft s1.

Lemma captured_sub r r' a a' p n t :
  groups_of r ⊆ groups_of r' -> a' = p ++ a -> captured r a n t -> captured r' a' n t.
Proof.
  intros Hr -> (r0 & s1 & s2 & q & Hin & Hm & Ht & ->). exists r0, s1, s2, (p ++ q).
  split_and!; [by apply Hr|done|done|by rewrite <-app_assoc].
Qed.

Lemma matches_captured r s s' n t :
  matches r s s' -> (n, t) ∈ caps s' -> (n, t) ∈ caps s \/ captured r (aft s) n t.
Proof.
  induction 1 as [s|p c a s E Hc|r1 r2 s1 s2 s3 H1 IH1 H2 IH2|r1 r2 s s' H IH|r1 r2 s s' H IH
    |g m p l a s E Hl Hm|r s s' H IH|r s|i r s s' H IH|r b s Hr Hb]; intros Hin; try (by left).
  - apply IH2 in Hin as [Hin|Hin].
    + apply IH1 in Hin as [Hin|Hin]; [by left|right]. by eapply (captured_sub r1 _ _ _ []); [set_solver| |].
    + right. apply matches_span in H1 as (l & E & _). eapply captured_sub; [|exact E|exact Hin]. cbn. set_solver.
  - apply IH in Hin as [Hin|Hin]; [by left|right]. by eapply (captured_sub r1 _ _ _ []); [cbn; set_solver| |].
  - apply IH in Hin as [Hin|Hin]; [by left|right]. by eapply (captured_sub r2 _ _ _ []); [cbn; set_solver| |].
  - apply IH in Hin as [Hin|Hin]; [by left|by right].
  - cbn [capture caps] in Hin. apply elem_of_cons in Hin as [[= -> ->]|Hin].
    + right. pose proof (matches_span _ _ _ H) as (l & E & _). exists r, s, s', [].
      split_and!; [by left|done| |done]. rewrite E, length_app, Nat.add_sub, take_app_length. done.
    + apply IH in Hin as [Hin|Hin]; [by left|right].
      by eapply (captured_sub r _ _ _ []); [cbn; set_solver| |].
Qed.

Lemma cap_lookup_in n t l : cap_lookup n l = Some t -> (n, t) ∈ l.
Proof.
  induction l as [|[i u] l IH]; cbn [cap_lookup]; [done|].
  destruct (Nat.eqb_spec i n) as [->|]; [intros [= ->]; by left|]. intros H. right. by apply IH.
Qed.

(** What a group of a match holds, when it holds anything. *)
Lemma grp_captured r m n :
  match_of r m -> grp m n = [] \/ captured r (m_subject_aft m) n (grp m n).
Proof.
  intros (s & Hm & Es). unfold grp, group. rewrite Es.
  destruct (cap_lookup n (caps s)) as [t|] eqn:E; [|by left]. right.
  apply cap_lookup_in in E as Hin.
  apply (matches_captured _ _ _ _ _ Hm) in Hin as [Hin|Hin]; [by apply not_elem_of_nil in Hin|exact Hin].
Qed.

(** It is a stretch of the subject. *)
Lemma grp_factor r m n : match_of r m -> exists p q, subject m = p ++ grp m n ++ q.
Proof.
  intros H. destruct (grp_captured r m n H) as [->|(r0 & s1 & s2 & p & _ & _ & E1 & E2)].
  - by exists [], (subject m).
  - exists (reverse (m_pre m) ++ p), (aft s2). unfold subject. by rewrite E2, E1, <-app_assoc.
Qed.

Lemma matches_class g k p s1 s2 t :
  matches (RRep g k p) s1 s2 -> aft s1 = t ++ aft s2 -> Forall (fun c => p c = true) t.
Proof.
  inversion 1 as [| | | | |g' m' p' l a s0 E Hl Hm| | | |]; subst; [|discriminate].
  cbn. rewrite E. intros Ht%app_inv_tail. by subst.
Qed.

(** A group around a class, when every group of that number is one. *)
Lemma grp_class r m n p :
  match_of r m -> Forall (fun g => g.1 = n -> exists b k, g.2 = RRep b k p) (groups_of r) ->
  Forall (fun c => p c = true) (grp m n).
Proof.
  intros H Hg. destruct (grp_captured r m n H) as [->|(r0 & s1 & s2 & q & Hin & Hm & E1 & _)]; [constructor|].
  rewrite Forall_forall in Hg. destruct (Hg _ Hin eq_refl) as (b & k & Er). cbn in Er. subst r0.
  by eapply matches_class.
Qed.

(** A group that every match captures. *)
Fixpoint captures (n : nat) (r : regex) : bool :=
  match r with
  | RCat r1 r2 => captures n r1 || captures n r2
  | RAlt r1 r2 => captures n r1 && captures n r2
  | RGrp i r => Nat.eqb i n || captures n r
  | _ => false
  end.

Lemma matches_caps_mono r s s' : matches r s s' -> caps s ⊆ caps s'.
Proof. induction 1; cbn [capture caps]; set_solver. Qed.

Lemma matches_captures r s s' n :
  matches r s s' -> captures n r = true -> exists t, (n, t) ∈ caps s'.
Proof.
  induction 1 as [s|p c a s E Hc|r1 r2 s1 s2 s3 H1 IH1 H2 IH2|r1 r2 s s' H IH|r1 r2 s s' H IH
    |g m p l a s E Hl Hm|r s s' H IH|r s|i r s s' H IH|r b s Hr Hb]; cbn [captures]; intros Hn; try discriminate Hn.
  - apply orb_true_iff in Hn as [Hn|Hn]; [|by apply IH2].
    destruct (IH1 Hn) as [t Ht]. exists t. by apply (matches_caps_mono _ _ _ H2).
  - apply andb_true_iff in Hn as [Hn _]. by apply IH.
  - apply andb_true_iff in Hn as [_ Hn]. by apply IH.
  - apply orb_true_iff in Hn as [->%Nat.eqb_eq|Hn].
    + eexists. cbn [capture caps]. by left.
    + destruct (IH Hn) as [t Ht]. exists t. cbn [capture caps]. by right.
  - by destruct r.
Qed.

Lemma cap_lookup_some n t l : (n, t) ∈ l -> is_Some (cap_lookup n l).
Proof.
  induction l as [|[i u] l IH]; [by intros ?%not_elem_of_nil|]. cbn [cap_lookup].
  destruct (Nat.eqb_spec i n); [by eexists|]. intros [[=]|H]%elem_of_cons; [by subst|by apply IH].
Qed.

(** A class that must occur. *)
Lemma grp_class_some r m n p :
  match_of r m -> captures n r = true ->
  Forall (fun g => g.1 = n -> exists b k, g.2 = RRep b (S k) p) (groups_of r) ->
  Forall (fun c => p c = true) (grp m n) /\ grp m n <> [].
Proof.
  intros H Hn Hg. assert (captured r (m_subject_aft m) n (grp m n)) as Hc.
  { pose proof H as (s & Hm & Es). destruct (matches_captures _ _ _ _ Hm Hn) as [t Ht].
    destruct (cap_lookup_some _ _ _ Ht) as [u Hu]. unfold grp, group. rewrite Es, Hu. cbn [default].
    assert ((n, u) ∈ caps s) as Hin by (by apply cap_lookup_in).
    apply (matches_captured _ _ _ _ _ Hm) in Hin as [Hin|Hin]; [by apply not_elem_of_nil in Hin|exact Hin]. }
  destruct Hc as (r0 & s1 & s2 & q & Hin & Hm & E1 & _).
  rewrite Forall_forall in Hg. destruct (Hg _ Hin eq_refl) as (b & k & Er). cbn in Er. subst r0.
  split; [by eapply matches_class|].
  inversion Hm as [| | | | |g' m' p' l a s0 E Hl Hla| | | |]; subst; [|discriminate].
  cbn in E1. rewrite E in E1. apply app_inv_tail in E1 as <-. by destruct l; cbn in Hla; [lia|].
Qed.

Lemma re_search_of r s m : re_search r s = Some m -> match_of r m /\ subject m = s.
Proof. intros H. split; [by eapply search_from_of|by apply (search_from_subject r [] s)]. Qed.
Lemma re_match_of r s m : re_match r s = Some m -> match_of r m /\ subject m = s.
Proof.
  intros (H & Hp & Ha)%match_at_of. split; [done|]. unfold subject. by rewrite Hp, Ha.
Qed.
