(* ===== verification/PyIO.v ===== *)
(** * Files, paths and effects of the scripts

    The state a script runs in is a map from paths to file contents ([fsys]);
    [io] is the monad of operations that change it and may raise.  Also the path
    functions and the newline translation of text files. *)

From S2P Require Import Prelude PyStr.
From Stdlib Require Import Ascii.

(** ** The files *)

Definition fsys := gmap str str.

(** Looking up files. *)
Lemma file_insert (fs : fsys) p t : <[p := t]> fs !! p = Some t.
Proof. apply lookup_insert_eq. Qed.
Lemma file_insert_ne (fs : fsys) p q t : p <> q -> <[p := t]> fs !! q = fs !! q.
Proof. apply lookup_insert_ne. Qed.
Lemma file_delete_ne (fs : fsys) p q : p <> q -> delete p fs !! q = fs !! q.
Proof. apply lookup_delete_ne. Qed.

(** [os.path.join] of two components. *)
Definition path_join (a b : str) : str :=
  if starts_with "/" b then b
  else match a with
       | [] => b
       | _ => if ends_with "/" a then a ++ b else a ++ "/" ++ b
       end.


(** [os.path.splitext(path)[1]]: the last dot of the last component and what
    follows, unless only dots stand before it. *)
Definition basename (path : str) : str :=
  match rsplit1 "/"%char path with Some (_, b) => b | None => path end.
Definition path_ext (path : str) : str :=
  match rsplit1 "."%char (basename path) with
  | Some (stem, ext) => if forallb (Ascii.eqb "."%char) stem then [] else "."%char :: ext
  | None => []
  end.

Example path_ext_ex :
  (path_ext "rtl/a_pkg.sv", path_ext "x.d/.sv", path_ext "a.sv/b", path_ext "b.svh.", path_ext "..a.b")
  = (".sv" : str, [], [], "." : str, ".b" : str).
Proof. reflexivity. Qed.

(** ** Reading text files: universal newlines *)

Definition CR : ascii := "013"%char.
Fixpoint universal_newlines (s : str) : str :=
  match s with
  | [] => []
  | c :: s' =>
      if Ascii.eqb c CR then
        match s' with
        | d :: s'' => if Ascii.eqb d newline then newline :: universal_newlines s''
                      else newline :: universal_newlines s'
        | [] => [newline]
        end
      else c :: universal_newlines s'
  end.

Lemma lines_keep_line a s : newline ∉ a -> lines_keep (a ++ newline :: s) = (a ++ [newline]) :: lines_keep s.
Proof.
  induction a as [|c a IH]; [done|]. intros [Hc Ha]%not_elem_of_cons. cbn [app lines_keep].
  rewrite (proj2 (Ascii.eqb_neq c newline)) by done. by rewrite IH.
Qed.

Lemma universal_line a s : CR ∉ a ->
  universal_newlines (a ++ CR :: newline :: s) = a ++ newline :: universal_newlines s.
Proof.
  induction a as [|c a IH]; [done|]. intros [Hc Ha]%not_elem_of_cons. cbn [app universal_newlines].
  rewrite (proj2 (Ascii.eqb_neq c CR)) by done. by rewrite IH.
Qed.

Lemma universal_clean s : CR ∉ s -> universal_newlines s = s.
Proof.
  induction s as [|c s IH]; [done|]. intros [Hc Hs]%not_elem_of_cons. cbn [universal_newlines].
  rewrite (proj2 (Ascii.eqb_neq c CR)) by done. by rewrite IH.
Qed.

Lemma universal_no_cr s : CR ∉ universal_newlines s.
Proof.
  assert (forall n s, (length s <= n)%nat -> CR ∉ universal_newlines s) as H; [|by apply (H (length s))].
  induction n as [|n IH]; intros t Ht; destruct t as [|c t]; try (apply not_elem_of_nil); cbn in Ht; [lia|].
  cbn [universal_newlines]. destruct (Ascii.eqb_spec c CR) as [->|Hc].
  - destruct t as [|d t]; [by apply not_in_str|]. cbn in Ht.
    destruct (Ascii.eqb d newline); rewrite not_elem_of_cons; (split; [done|]); apply IH; cbn; lia.
  - rewrite not_elem_of_cons. split; [congruence|]. apply IH. lia.
Qed.

(** A text file of lines, and what [readlines] gives. *)
Definition text_of (lines : list str) : str := mjoin ((fun l => l ++ [newline]) <$> lines).
Definition clean_line (l : str) : Prop := (newline ∉ l) /\ (CR ∉ l).

Lemma text_of_cons l lines : text_of (l :: lines) = l ++ newline :: text_of lines.
Proof. unfold text_of. cbn [fmap list_fmap mjoin list_join]. by rewrite <-app_assoc. Qed.

Lemma readlines_text lines :
  Forall clean_line lines ->
  lines_keep (universal_newlines (text_of lines)) = (fun l => l ++ [newline]) <$> lines.
Proof.
  intros H. assert (CR ∉ text_of lines) as Hc.
  { induction H as [|l lines [_ Hl] _ IH]; [apply not_elem_of_nil|]. rewrite text_of_cons.
    rewrite elem_of_app, elem_of_cons. naive_solver. }
  rewrite universal_clean by done. clear Hc.
  induction H as [|l lines [Hl _] _ IH]; [done|]. rewrite text_of_cons, lines_keep_line by done.
  by rewrite IH.
Qed.

(** ** Operations on the state *)

Definition io (A : Type) : Type := fsys -> res A * fsys.

#[export] Instance io_ret : MRet io := fun A a fs => (Ok a, fs).
#[export] Instance io_bind : MBind io := fun A B f m fs =>
  match m fs with
  | (Ok a, fs') => f a fs'
  | (Raise c msg, fs') => (Raise c msg, fs')
  end.

Definition io_lift {A} (r : res A) : io A := fun fs => (r, fs).

(** [try: x = m except E: ...]: [None] when an exception of [E] was raised. *)
Definition io_try {A} (c : exc_class -> bool) (m : io A) : io (option A) := fun fs =>
  match m fs with
  | (Ok a, fs') => (Ok (Some a), fs')
  | (Raise cls msg, fs') => (if c cls then Ok None else Raise cls msg, fs')
  end.

(** [except IOError]: [OSError] and its subclasses. *)
Definition is_oserror (c : exc_class) : bool :=
  match c with OSError | FileNotFoundError => true | _ => false end.
Definition is_runtime (c : exc_class) : bool := match c with RuntimeError => true | _ => false end.

(** [open(path).read()] of a text file. *)
Definition read_text (path : str) : io str := fun fs =>
  (universal_newlines <$> or_raise FileNotFoundError (fs !! path), fs).

(** Run an operation for each element in turn. *)
Fixpoint io_iter {A} (f : A -> io unit) (l : list A) : io unit :=
  match l with
  | [] => mret tt
  | x :: l' => _ ← f x; io_iter f l'
  end.

Lemma io_bind_ok {A B} (m : io A) (f : A -> io B) fs b fs' :
  (m ≫= f) fs = (Ok b, fs') -> exists a fs1, m fs = (Ok a, fs1) /\ f a fs1 = (Ok b, fs').
Proof.
  unfold mbind, io_bind. destruct (m fs) as [[a|c msg] fs1]; [|done]. intros H. by exists a, fs1.
Qed.

(** An operation that reads only. *)
Definition pure_io {A} (m : io A) : Prop := forall fs, (m fs).2 = fs.

(** ** Loops with effects

    An invariant of the steps is an invariant of the loop, whatever the outcome;
    a fact each step establishes and the others keep holds of all elements after
    a loop that did not raise. *)
Section IoIter.
Context {A : Type} (f : A -> io unit).

Lemma io_iter_cons x l fs :
  io_iter f (x :: l) fs =
  match f x fs with (Ok _, fs1) => io_iter f l fs1 | (Raise c m, fs1) => (Raise c m, fs1) end.
Proof. cbn. unfold mbind, io_bind. by destruct (f x fs) as [[?|c m] fs1]. Qed.

Lemma io_iter_inv (I : fsys -> Prop) l fs r fs' :
  (forall x fs r fs', x ∈ l -> I fs -> f x fs = (r, fs') -> I fs') ->
  I fs -> io_iter f l fs = (r, fs') -> I fs'.
Proof.
  revert fs; induction l as [|x l IH]; intros fs Hf HI; [by intros [= _ <-]|].
  rewrite io_iter_cons. destruct (f x fs) as [r1 fs1] eqn:E.
  assert (I fs1) as H1 by (eapply Hf; [by left|exact HI|exact E]).
  destruct r1; [|by intros [= _ <-]]. apply IH; [|done]. intros ??????. eapply Hf; [by right|done..].
Qed.

Lemma io_iter_raise (I : fsys -> Prop) (P : exc_class -> Prop) l fs c m fs' :
  (forall x fs r fs', x ∈ l -> I fs -> f x fs = (r, fs') ->
     match r with Ok _ => I fs' | Raise c _ => P c end) ->
  I fs -> io_iter f l fs = (Raise c m, fs') -> P c.
Proof.
  revert fs; induction l as [|x l IH]; intros fs Hf HI; [done|].
  rewrite io_iter_cons. destruct (f x fs) as [[?|c1 m1] fs1] eqn:E.
  - apply IH; [|apply (Hf _ _ _ _ ltac:(by left) HI E)]. intros y g r g' Hy. apply Hf. by right.
  - intros [= <- _ _]. apply (Hf _ _ _ _ ltac:(by left) HI E).
Qed.

Lemma io_iter_inv_ok (J : fsys -> Prop) l fs fs' :
  (forall x fs fs', x ∈ l -> J fs -> f x fs = (Ok tt, fs') -> J fs') ->
  J fs -> io_iter f l fs = (Ok tt, fs') -> J fs'.
Proof.
  revert fs; induction l as [|x l IH]; intros fs Hf HJ; [by intros [= <-]|].
  rewrite io_iter_cons. destruct (f x fs) as [[[]|c m] fs1] eqn:E; [|done].
  apply IH; [|eapply Hf; [by left|exact HJ|exact E]]. intros ???? . apply Hf. by right.
Qed.

Lemma io_iter_ok (I : fsys -> Prop) (Q : A -> fsys -> Prop) l fs fs' :
  (forall x fs fs', x ∈ l -> I fs -> f x fs = (Ok tt, fs') -> I fs' /\ Q x fs' /\
     forall y, y ∈ l -> Q y fs -> Q y fs') ->
  I fs -> io_iter f l fs = (Ok tt, fs') -> I fs' /\ forall x, x ∈ l -> Q x fs'.
Proof.
  intros Hf. assert (forall l', l' ⊆ l -> forall fs, I fs -> io_iter f l' fs = (Ok tt, fs') ->
    I fs' /\ forall x, x ∈ l' -> Q x fs') as H; [|by apply H].
  induction l' as [|x l' IH]; intros Hl g HI.
  - intros [= <-]. split; [done|]. by intros x H%not_elem_of_nil.
  - rewrite io_iter_cons. destruct (f x g) as [[[]|c m] g1] eqn:E; [|done]. intros Hrest.
    destruct (Hf x g g1) as (HI1 & Hx & _); [apply Hl; by left|done|done|].
    assert (l' ⊆ l) as Hl' by (intros y Hy; apply Hl; by right).
    destruct (IH Hl' g1 HI1 Hrest) as [HI' Hall]. split; [done|].
    intros y [->|Hy]%elem_of_cons; [|by apply Hall].
    apply (io_iter_inv_ok (fun h => I h /\ Q x h) l' g1); [|done|done].
    intros z h h' Hz [HIh HQh] Ez. destruct (Hf z h h' (Hl' z Hz) HIh Ez) as (? & _ & Hk).
    split; [done|]. apply Hk; [apply Hl; by left|done].
Qed.

Lemma io_iter_progress (I : fsys -> Prop) l fs :
  (forall x fs, x ∈ l -> I fs -> exists fs', f x fs = (Ok tt, fs') /\ I fs') ->
  I fs -> exists fs', io_iter f l fs = (Ok tt, fs') /\ I fs'.
Proof.
  revert fs; induction l as [|x l IH]; intros fs Hf HI; [by exists fs|].
  destruct (Hf x fs ltac:(by left) HI) as (fs1 & E & H1). rewrite io_iter_cons, E.
  apply IH; [|done]. intros y g Hy. apply Hf. by right.
Qed.
End IoIter.

Lemma io_iter_ext {A} (f g : A -> io unit) l fs :
  (forall x fs, f x fs = g x fs) -> io_iter f l fs = io_iter g l fs.
Proof.
  intros H. revert fs; induction l as [|x l IH]; intros fs; [done|].
  rewrite !io_iter_cons, H. by destruct (g x fs) as [[?|? ?] ?].
Qed.
