(* ===== verification/PyArgparse.v ===== *)
(** * Command lines: the part of Python's [argparse] the scripts use

    Parsers as lists of actions, and the parsing of a command line with the
    algorithm of [ArgumentParser.parse_args] (CPython 3.11): the arguments are
    classified into options and values, the pattern of the classes is matched
    against the numbers of values the positional arguments ask for, and every
    option takes the values behind it.  Abbreviations of long options, joined
    values ([--opt=value], [-ovalue]), grouped flags, [--], negative numbers and
    sub-commands are covered; argument groups, prefixes other than the dash and
    options with several values, which the scripts do not use, are not.  An error
    ends the program with status 2; help and error texts are left out. *)

From S2P Require Import Prelude PyStr PyRe.
From Stdlib Require Import Ascii.
Local Open Scope Z_scope.

Section Argparse.
(** What the type functions of a script return besides texts and integers. *)
Context {V : Type}.

(** ** Parsers *)

Inductive aval :=
| ANone
| ABool (b : bool)
| AInt (n : Z)
| AStr (s : str)
| AList (l : list aval)
| AObj (v : V).

Definition namespace := list (str * aval).
Fixpoint ns_set (ns : namespace) (k : str) (v : aval) : namespace :=
  match ns with
  | [] => [(k, v)]
  | (k', v') :: ns' => if decide (k' = k) then (k, v) :: ns' else (k', v') :: ns_set ns' k v
  end.

(** The number of values: none, one, any, at least one, a sub-command. *)
Inductive nargs := NZero | NOne | NStar | NPlus | NParser.

(** What is done with the values.  A sub-command's parser is its
    [parse_known_args]: the attributes and the arguments left, [None] when it
    runs out of fuel. *)
Inductive akind :=
| Store
| StoreTrue
| Append
| Help
| SubParsers (table : list (str * (list str -> option (res (namespace * list str))))).

(** An action; its destination tells it from the others of a parser. *)
Record action := Action {
  a_opts : list str; a_dest : str; a_nargs : nargs; a_kind : akind;
  a_type : str -> res aval; a_choices : option (list str);
  a_default : aval; a_required : bool }.

(** The actions in the order they were added, and [set_defaults]. *)
Record parser := Parser { p_actions : list action; p_defaults : namespace }.

Definition type_str (s : str) : res aval := Ok (AStr s).
Definition type_int (s : str) : res aval := n ← int_of 10 s; Ok (AInt n).

Definition help_action : action :=
  Action ["-h" : str; "--help" : str] "help" NZero Help type_str None ANone false.
(** [ArgumentParser()] with these arguments. *)
Definition argument_parser (l : list action) (defaults : namespace) : parser := Parser (help_action :: l) defaults.

(** [add_argument]: an option with one value, a flag, an option that can be given
    many times, a positional argument, and the keywords [required], [type],
    [default], [choices] and [nargs]. *)
Definition option_arg (opts : list str) (dest : str) : action :=
  Action opts dest NOne Store type_str None ANone false.
Definition flag_arg (opts : list str) (dest : str) : action :=
  Action opts dest NZero StoreTrue type_str None (ABool false) false.
Definition append_arg (opts : list str) (dest : str) : action :=
  Action opts dest NOne Append type_str None ANone false.
Definition positional_arg (dest : str) : action :=
  Action [] dest NOne Store type_str None ANone true.
Definition required (a : action) : action :=
  Action (a_opts a) (a_dest a) (a_nargs a) (a_kind a) (a_type a) (a_choices a) (a_default a) true.
Definition typed (t : str -> res aval) (a : action) : action :=
  Action (a_opts a) (a_dest a) (a_nargs a) (a_kind a) t (a_choices a) (a_default a) (a_required a).
Definition with_default (d : aval) (a : action) : action :=
  Action (a_opts a) (a_dest a) (a_nargs a) (a_kind a) (a_type a) (a_choices a) d (a_required a).
Definition with_choices (l : list str) (a : action) : action :=
  Action (a_opts a) (a_dest a) (a_nargs a) (a_kind a) (a_type a) (Some l) (a_default a) (a_required a).
Definition with_nargs (n : nargs) (a : action) : action :=
  Action (a_opts a) (a_dest a) n (a_kind a) (a_type a) (a_choices a) (a_default a) (a_required a).
(** [add_subparsers]: the commands with their parsers. *)
Definition subparsers (dest : str) (table : list (str * (list str -> option (res (namespace * list str))))) : action :=
  Action [] dest NParser (SubParsers table) type_str None ANone false.

(** [args.dest] where a script expects a text, a text or [None], a truth value,
    an integer, or a list of texts. *)
Definition arg_text (ns : namespace) (k : str) : res str :=
  match dict_get ns k with Some (AStr s) => Ok s | Some _ => raise TypeError | None => raise AttributeError end.
Definition arg_opt_text (ns : namespace) (k : str) : res (option str) :=
  match dict_get ns k with
  | Some ANone => Ok None | Some (AStr s) => Ok (Some s) | Some _ => raise TypeError | None => raise AttributeError
  end.
Definition arg_bool (ns : namespace) (k : str) : res bool :=
  match dict_get ns k with Some (ABool b) => Ok b | Some _ => raise TypeError | None => raise AttributeError end.
Definition arg_int (ns : namespace) (k : str) : res Z :=
  match dict_get ns k with Some (AInt n) => Ok n | Some _ => raise TypeError | None => raise AttributeError end.
Definition arg_obj (ns : namespace) (k : str) : res V :=
  match dict_get ns k with Some (AObj v) => Ok v | Some _ => raise TypeError | None => raise AttributeError end.
Definition arg_texts (ns : namespace) (k : str) : res (list str) :=
  match dict_get ns k with
  | Some (AList l) => res_map (fun v => match v with AStr s => Ok s | _ => raise TypeError end) l
  | Some _ => raise TypeError | None => raise AttributeError
  end.

Definition is_positional (a : action) : bool := match a_opts a with [] => true | _ => false end.
(** [_option_string_actions] *)
Definition option_map (p : parser) : list (str * action) :=
  List.flat_map (fun a => (fun o => (o, a)) <$> a_opts a) (p_actions p).
(** [error]: the usage and the message go to standard error. *)
Definition arg_error {A} : res A := raise (SystemExit 2).

(** ** Classifying the arguments *)

(** An option: its action, if known, the option string and the joined value. *)
Definition option_tuple : Type := option action * str * option str.

(** [_get_option_tuples]: what the argument may abbreviate, or a short option
    with its value. *)
Definition get_option_tuples (m : list (str * action)) (arg_string : str) : list option_tuple :=
  match arg_string with
  | c0 :: c1 :: rest =>
      if Ascii.eqb c1 "-" then
        let (option_prefix, explicit_arg) := split1 "="%char arg_string in
        (fun oa => (Some oa.2, oa.1, explicit_arg)) <$>
          List.filter (fun oa : str * action => starts_with option_prefix oa.1) m
      else
        omap (fun oa : str * action =>
          if decide (oa.1 = [c0; c1]) then Some (Some oa.2, oa.1, Some rest)
          else if starts_with arg_string oa.1 then Some (Some oa.2, oa.1, None)
          else None) m
  | _ => []
  end.

(** [^-\d+$|^-\d*\.\d+$] *)
Definition negative_number_re : regex :=
  RAlt (rseq [RBol; lit "-"; plus is_digit; REol])
       (rseq [RBol; lit "-"; star is_digit; lit "."; plus is_digit; REol]).
Definition looks_negative (s : str) : bool :=
  match re_match negative_number_re s with Some _ => true | None => false end.

(** [_parse_optional]: [None] for a value. *)
Definition parse_optional (m : list (str * action)) (arg_string : str) : res (option option_tuple) :=
  match arg_string with
  | [] => Ok None
  | c :: cs =>
      if negb (Ascii.eqb c "-") then Ok None
      else match dict_get m arg_string with
      | Some a => Ok (Some (Some a, arg_string, None))
      | None =>
          match cs with
          | [] => Ok None
          | _ =>
              let joined := match split1 "="%char arg_string with
                            | (o, Some v) => match dict_get m o with
                                             | Some a => Some (Some a, o, Some v)
                                             | None => None
                                             end
                            | _ => None
                            end in
              match joined with
              | Some t => Ok (Some t)
              | None =>
                  match get_option_tuples m arg_string with
                  | [t] => Ok (Some t)
                  | _ :: _ => arg_error
                  | [] =>
                      if looks_negative arg_string && negb (existsb (fun oa => looks_negative oa.1) m) then Ok None
                      else if chr_in arg_string " "%char then Ok None
                      else Ok (Some (None, arg_string, None))
                  end
              end
          end
      end
  end.

(** The arguments with their classes. *)
Inductive aclass := CArg | COpt (t : option_tuple) | CDash.
Definition item : Type := str * aclass.
Definition class_char (i : item) : ascii := match i.2 with CArg => "A" | COpt _ => "O" | CDash => "-" end%char.
Definition is_opt (i : item) : bool := match i.2 with COpt _ => true | _ => false end.

Fixpoint classify (m : list (str * action)) (args : list str) : res (list item) :=
  match args with
  | [] => Ok []
  | a :: args' =>
      if decide (a = ("--" : str)) then Ok ((a, CDash) :: ((fun s => (s, CArg)) <$> args'))
      else
        t ← parse_optional m a;
        items ← classify m args';
        Ok ((a, match t with Some t => COpt t | None => CArg end) :: items)
  end.

(** ** Matching the pattern of classes *)

Definition dashes : regex := star (Ascii.eqb "-").
Definition is_A (c : ascii) : bool := Ascii.eqb c "A".
Definition is_A_dash (c : ascii) : bool := Ascii.eqb c "A" || Ascii.eqb c "-".
Definition is_AO (c : ascii) : bool := Ascii.eqb c "A" || Ascii.eqb c "O".
Definition is_any (c : ascii) : bool := Ascii.eqb c "A" || Ascii.eqb c "O" || Ascii.eqb c "-".

(** [_get_nargs_pattern] without its group. *)
Definition nargs_pattern (positional : bool) (n : nargs) : regex :=
  if positional then
    match n with
    | NZero => rseq [dashes; dashes]
    | NOne => rseq [dashes; lit "A"; dashes]
    | NStar => rseq [dashes; star is_A_dash]
    | NPlus => rseq [dashes; lit "A"; star is_A_dash]
    | NParser => rseq [dashes; lit "A"; star is_any]
    end
  else
    match n with
    | NZero => REps
    | NOne => lit "A"
    | NStar => star is_A
    | NPlus => rseq [lit "A"; star is_A]
    | NParser => rseq [lit "A"; star is_AO]
    end.

(** [_match_argument] *)
Definition match_argument (a : action) (pattern : str) : res nat :=
  match re_match (RGrp 1 (nargs_pattern (is_positional a) (a_nargs a))) pattern with
  | Some m => Ok (length (grp m 1))
  | None => arg_error
  end.

(** [_match_arguments_partial]: the longest initial part of the actions that
    matches, as the numbers of values. *)
Fixpoint groups_pattern (n : nat) (l : list action) : list regex :=
  match l with
  | [] => []
  | a :: l' => RGrp n (nargs_pattern (is_positional a) (a_nargs a)) :: groups_pattern (S n) l'
  end.
Definition actions_pattern (l : list action) : regex := rseq (groups_pattern 1 l).
Fixpoint match_partial (l : list action) (n : nat) (pattern : str) : list nat :=
  match n with
  | O => []
  | S n' =>
      match re_match (actions_pattern (take n l)) pattern with
      | Some m => (fun i => length (grp m i)) <$> seq 1 n
      | None => match_partial l n' pattern
      end
  end.

(** ** Taking an action *)

(** [_get_value]: the errors of a type function that [argparse] reports. *)
Definition get_value (a : action) (s : str) : res aval :=
  match a_type a s with
  | Raise ArgumentTypeError _ | Raise TypeError _ | Raise ValueError _ => arg_error
  | r => r
  end.
Definition check_value (a : action) (v : aval) : res unit :=
  match a_choices a with
  | None => Ok tt
  | Some l => match v with AStr s => if bool_decide (s ∈ l) then Ok tt else arg_error | _ => arg_error end
  end.

Fixpoint remove_first (x : str) (l : list str) : list str :=
  match l with [] => [] | y :: l' => if decide (y = x) then l' else y :: remove_first x l' end.

(** [_get_values] *)
Definition get_values (a : action) (strings : list str) : res aval :=
  match a_nargs a with
  | NParser =>
      vs ← res_map (get_value a) strings;
      v ← py_nth vs 0;
      _ ← check_value a v;
      Ok (AList vs)
  | n =>
      let strings := remove_first "--" strings in
      match n, strings with
      | NOne, [s] => v ← get_value a s; _ ← check_value a v; Ok v
      | NStar, [] =>
          if is_positional a then
            match a_default a with ANone => _ ← check_value a (AList []); Ok (AList []) | d => Ok d end
          else Ok (AList [])
      | _, _ =>
          vs ← res_map (get_value a) strings;
          _ ← res_iter (check_value a) vs;
          Ok (AList vs)
      end
  end.

(** The attributes so far, the destinations of the actions taken, the arguments
    no action took, and those the sub-command left. *)
Record pstate := PState { ps_ns : namespace; ps_seen : list str; ps_extras : list str; ps_unrec : list str }.
Definition with_extras (st : pstate) (l : list str) : pstate :=
  PState (ps_ns st) (ps_seen st) (ps_extras st ++ l) (ps_unrec st).

Definition set_attr (st : pstate) (a : action) (v : aval) : pstate :=
  PState (ns_set (ps_ns st) (a_dest a) v) (a_dest a :: ps_seen st) (ps_extras st) (ps_unrec st).

(** The action itself. *)
Definition perform (a : action) (v : aval) (st : pstate) : option (res pstate) :=
  match a_kind a with
  | Store => Some (Ok (set_attr st a v))
  | StoreTrue => Some (Ok (set_attr st a (ABool true)))
  | Append =>
      let items := match dict_get (ps_ns st) (a_dest a) with Some (AList l) => l | _ => [] end in
      Some (Ok (set_attr st a (AList (items ++ [v]))))
  | Help => Some (raise (SystemExit 0))
  | SubParsers table =>
      match v with
      | AList (AStr name :: rest) =>
          match dict_get table name with
          | None => Some arg_error
          | Some parse =>
              match parse (omap (fun v => match v with AStr s => Some s | _ => None end) rest) with
              | None => None
              | Some (Raise c m) => Some (Raise c m)
              | Some (Ok (sub, more)) =>
                  let st := set_attr st a (AStr name) in
                  Some (Ok (PState (foldl (fun ns kv => ns_set ns kv.1 kv.2) (ps_ns st) sub)
                              (ps_seen st) (ps_extras st) (ps_unrec st ++ more)))
              end
          end
      | _ => Some arg_error
      end
  end.
Definition take_action (a : action) (strings : list str) (st : pstate) : option (res pstate) :=
  match get_values a strings with
  | Raise c m => Some (Raise c m)
  | Ok v => perform a v st
  end.

(** Sequencing parsers that may raise or run out of fuel. *)
Definition then_ {A B} (o : option (res A)) (f : A -> option (res B)) : option (res B) :=
  match o with None => None | Some (Raise c m) => Some (Raise c m) | Some (Ok a) => f a end.

(** [consume_positionals]: every positional takes its number of arguments; what
    is left of the arguments and of the positionals. *)
Fixpoint take_positionals (l : list action) (counts : list nat) (items : list item) (st : pstate)
    : option (res (list item * list action * pstate)) :=
  match l, counts with
  | a :: l', n :: counts' =>
      then_ (take_action a (fst <$> take n items) st) (fun st =>
      take_positionals l' counts' (drop n items) st)
  | _, _ => Some (Ok (items, l, st))
  end.
Definition consume_positionals (positionals : list action) (items : list item) (st : pstate)
    : option (res (list item * list action * pstate)) :=
  take_positionals positionals
    (match_partial positionals (length positionals) (class_char <$> items)) items st.

(** The part of [consume_optional] for an option with a joined value: the flags
    of a group or the option that takes the value, with what they are given, and
    a last option of the group that takes its values from the next arguments. *)
Fixpoint joined_actions (m : list (str * action)) (a : action) (option_string explicit_arg : str)
    : res (list (action * list str) * option action) :=
  n ← match_argument a ["A"%char];
  match n, explicit_arg with
  | O, c :: rest =>
      if bool_decide (option_string !! 1%nat <> Some "-"%char) then
        match dict_get m ["-"%char; c] with
        | None => arg_error
        | Some a' =>
            match rest with
            | [] => Ok ([(a, [])], Some a')
            | _ => r ← joined_actions m a' ["-"%char; c] rest; Ok ((a, []) :: r.1, r.2)
            end
        end
      else arg_error
  | 1%nat, _ => Ok ([(a, [explicit_arg])], None)
  | _, _ => arg_error
  end.

Fixpoint take_actions (l : list (action * list str)) (st : pstate) : option (res pstate) :=
  match l with
  | [] => Some (Ok st)
  | (a, args) :: l' => then_ (take_action a args st) (take_actions l')
  end.

(** An option that takes its values from the arguments behind it. *)
Definition following_values (a : action) (items : list item) : res (list str * list item) :=
  n ← match_argument a (class_char <$> items);
  Ok (fst <$> take n items, drop n items).

(** [consume_optional]: what is left of the arguments behind the option. *)
Definition consume_optional (m : list (str * action)) (arg : str) (t : option_tuple) (items : list item)
    (st : pstate) : option (res (list item * pstate)) :=
  match t with
  | (None, _, _) => Some (Ok (items, with_extras st [arg]))
  | (Some a, option_string, explicit_arg) =>
      let split :=
        match explicit_arg with
        | None => Ok ([], Some a)
        | Some v => joined_actions m a option_string v
        end in
      match split with
      | Raise c e => Some (Raise c e)
      | Ok (l, None) => then_ (take_actions l st) (fun st => Some (Ok (items, st)))
      | Ok (l, Some a') =>
          match following_values a' items with
          | Raise c e => Some (Raise c e)
          | Ok (args, items') =>
              then_ (take_actions (l ++ [(a', args)]) st) (fun st => Some (Ok (items', st)))
          end
      end
  end.

(** ** The loop *)

(** The arguments before the first option, that option and the rest. *)
Fixpoint next_option (items : list item) : list item * option (str * option_tuple * list item) :=
  match items with
  | [] => ([], None)
  | (s, COpt t) :: items' => ([], Some (s, t, items'))
  | i :: items' => let (l, o) := next_option items' in (i :: l, o)
  end.

(** One turn of the loop of [_parse_known_args]: positionals before the next
    option if they can take something, else that option. *)
Definition consume_next (m : list (str * action)) (positionals : list action) (items : list item) (st : pstate)
    (s : str) (t : option_tuple) (before behind : list item)
    : option (res (list item * list action * pstate)) :=
  let optional l st :=
    then_ (consume_optional m s t behind st) (fun r => Some (Ok (r.1, l, r.2))) in
  match before with
  | [] => optional positionals st
  | _ =>
      then_ (consume_positionals positionals items st) (fun r =>
      let '(items', l, st') := r in
      if decide (length items' < length items)%nat then Some (Ok (items', l, st'))
      else optional l (with_extras st' (fst <$> before)))
  end.

Fixpoint parse_loop (fuel : nat) (m : list (str * action)) (positionals : list action)
    (items : list item) (st : pstate) : option (res pstate) :=
  match fuel with
  | O => None
  | S f =>
      match next_option items with
      | (_, None) =>
          then_ (consume_positionals positionals items st) (fun r =>
          let '(items', _, st') := r in Some (Ok (with_extras st' (fst <$> items'))))
      | (before, Some (s, t, behind)) =>
          then_ (consume_next m positionals items st s t before behind) (fun r =>
          let '(items', l, st') := r in parse_loop f m l items' st')
      end
  end.

(** The attributes before parsing: the defaults of the actions, [help] having
    none, then those of [set_defaults]. *)
Definition set_new (ns : namespace) (k : str) (v : aval) : namespace :=
  match dict_get ns k with Some _ => ns | None => ns_set ns k v end.
Definition is_help (a : action) : bool := match a_kind a with Help => true | _ => false end.
Definition initial_namespace (p : parser) : namespace :=
  foldl (fun ns kv => set_new ns kv.1 kv.2)
    (foldl (fun ns a => if is_help a then ns else set_new ns (a_dest a) (a_default a)) [] (p_actions p))
    (p_defaults p).

(** After the loop: an action not taken is an error if it is required, and a
    default given as a text is converted. *)
Definition finish_action (st : pstate) (ns : namespace) (a : action) : res namespace :=
  if bool_decide (a_dest a ∈ ps_seen st) then Ok ns
  else if a_required a then Ok ns
  else match a_default a with
       | AStr s => v ← get_value a s; Ok (ns_set ns (a_dest a) v)
       | _ => Ok ns
       end.
Definition missing (st : pstate) (a : action) : bool :=
  bool_decide (a_dest a ∉ ps_seen st) && a_required a.

Definition finish (p : parser) (st : pstate) : res (namespace * list str) :=
  ns ← res_fold (finish_action st) (ps_ns st) (p_actions p);
  if existsb (missing st) (p_actions p) then arg_error
  else Ok (ns, ps_extras st ++ ps_unrec st).

Definition parse_known_args (p : parser) (args : list str) : option (res (namespace * list str)) :=
  match classify (option_map p) args with
  | Raise c m => Some (Raise c m)
  | Ok items =>
      then_ (parse_loop (S (length items)) (option_map p) (List.filter is_positional (p_actions p))
               items (PState (initial_namespace p) [] [] []))
            (fun st => Some (finish p st))
  end.

(** [parse_args]: the attributes of the command line, or an exit. *)
Definition parse_args (p : parser) (args : list str) : option (res namespace) :=
  then_ (parse_known_args p args) (fun r =>
    match r.2 with [] => Some (Ok r.1) | _ => Some arg_error end).

(** The command line of a script.  The fuel of the loop is never used up
    ([parse_args_total]). *)
Definition parsed (p : parser) (args : list str) : res namespace :=
  default (raise NotImplementedError) (parse_args p args).

(** ** The loop ends *)

(** A parser whose sub-commands' parsers end. *)
Definition total_action (a : action) : Prop :=
  match a_kind a with SubParsers table => Forall (fun e => forall l, e.2 l <> None) table | _ => True end.

Lemma then_total {A B} (o : option (res A)) (f : A -> option (res B)) :
  o <> None -> (forall a, o = Some (Ok a) -> f a <> None) -> then_ o f <> None.
Proof. destruct o as [[a|c m]|]; cbn; intros Ho Hf; [by apply Hf|done|done]. Qed.

Lemma then_some {A B} (o : option (res A)) (f : A -> option (res B)) r :
  then_ o f = Some (Ok r) -> exists a, o = Some (Ok a) /\ f a = Some (Ok r).
Proof. destruct o as [[a|c m]|]; cbn; intros H; [by exists a|done|done]. Qed.

Lemma take_action_total a l st : total_action a -> take_action a l st <> None.
Proof.
  unfold total_action, take_action, perform. destruct (get_values a l) as [v|]; [|done].
  destruct (a_kind a) as [| | | |table]; try done. intros H.
  destruct v as [| | | |[|[]]|]; try done.
  destruct (dict_get table _) as [parse|] eqn:E; [|done].
  apply dict_get_in in E. rewrite Forall_forall in H. specialize (H _ E). cbn in H.
  specialize (H (omap (fun v => match v with AStr s => Some s | _ => None end) l0)).
  by destruct (parse _) as [[[]|]|].
Qed.

Lemma take_positionals_total l counts items st :
  Forall total_action l -> take_positionals l counts items st <> None.
Proof.
  intros H. revert counts items st; induction H as [|a l Ha Hl IH]; intros [|n counts] items st; cbn; try done.
  apply then_total; [by apply take_action_total|]. intros st' _. apply IH.
Qed.

Lemma take_positionals_suffix l counts items st items' l' st' :
  take_positionals l counts items st = Some (Ok (items', l', st')) ->
  items' `suffix_of` items /\ l' ⊆ l.
Proof.
  revert counts items st; induction l as [|a l IH]; intros [|n counts] items st; cbn;
    try (by intros [= <- <- _]).
  intros (st1 & _ & H)%then_some. apply IH in H as [H Hl]. split; [|set_solver].
  etransitivity; [exact H|]. exists (take n items). by rewrite take_drop.
Qed.

Lemma take_actions_total l st : Forall (fun e => total_action e.1) l -> take_actions l st <> None.
Proof.
  intros H. revert st; induction H as [|[a args] l Ha Hl IH]; intros st; cbn; [done|].
  apply then_total; [by apply take_action_total|]. auto.
Qed.

Lemma joined_actions_total m a o v l oa :
  Forall (fun oa => total_action oa.2) m -> total_action a ->
  joined_actions m a o v = Ok (l, oa) ->
  Forall (fun e => total_action e.1) l /\ from_option total_action True oa.
Proof.
  intros Hm. revert a o l; induction v as [|c v IH]; intros a o l Ha; cbn [joined_actions]; intros H; res_inv.
  - destruct a0 as [|[]]; try done. injection H as <- <-. by repeat constructor.
  - destruct a0 as [|[|]]; try done; [|injection H as <- <-; by repeat constructor].
    case_bool_decide; [|done]. destruct (dict_get m ["-"%char; c]) as [a'|] eqn:Eo; [|done].
    apply dict_get_in in Eo. rewrite Forall_forall in Hm. pose proof (Hm _ Eo) as Ha'. cbn in Ha'.
    destruct v as [|c' v].
    + injection H as <- <-. by repeat constructor.
    + res_inv. destruct a0 as [l1 o1]. cbn in *. 
      apply (IH a' ["-"%char; c]) in E0 as [? ?]; [|done]. split; [by constructor|done].
Qed.

Lemma consume_optional_total m s t items st :
  Forall (fun oa => total_action oa.2) m -> from_option total_action True t.1.1 ->
  consume_optional m s t items st <> None.
Proof.
  intros Hm Ht. destruct t as [[[a|] o] v]; [|done]. cbn in Ht. unfold consume_optional.
  assert (forall l oa, (match v with None => Ok ([], Some a) | Some v => joined_actions m a o v end) = Ok (l, oa) ->
            Forall (fun e => total_action e.1) l /\ from_option total_action True oa) as Hl.
  { intros l oa. destruct v as [v|]; [by apply joined_actions_total|]. intros [= <- <-]. by split. }
  destruct (match v with None => _ | Some _ => _ end) as [[l [a'|]]|] eqn:E; [| |done].
  - destruct (Hl _ _ eq_refl) as [H1 H2]. destruct (following_values a' items) as [[args items']|]; [|done].
    apply then_total; [|done]. apply take_actions_total. apply Forall_app. split; [done|]. by apply Forall_singleton.
  - destruct (Hl _ _ eq_refl) as [H1 _]. apply then_total; [|done]. by apply take_actions_total.
Qed.

Lemma consume_optional_suffix m s t items st items' st' :
  consume_optional m s t items st = Some (Ok (items', st')) -> items' `suffix_of` items.
Proof.
  destruct t as [[[a|] o] v]; cbn; [|by intros [= <- _]].
  destruct (match v with None => _ | Some _ => _ end) as [[l [a'|]]|]; [| |done].
  - unfold following_values. destruct (match_argument a' _) as [n|]; cbn; [|done].
    intros (st1 & _ & H)%then_some. injection H as <- <-. exists (take n items). by rewrite take_drop.
  - intros (st1 & _ & H)%then_some. by injection H as <- <-.
Qed.
Lemma next_option_split items before s t behind :
  next_option items = (before, Some (s, t, behind)) -> items = before ++ (s, COpt t) :: behind.
Proof.
  revert before; induction items as [|[a c] items IH]; intros before; cbn [next_option]; [done|].
  destruct c; [|by intros [= <- <- <- <-]|];
    (destruct (next_option items) as [l o]; intros [= <- ->]; cbn; f_equal; by apply IH).
Qed.

Lemma consume_next_total m l items st s t before behind :
  Forall (fun oa => total_action oa.2) m -> Forall total_action l -> from_option total_action True t.1.1 ->
  consume_next m l items st s t before behind <> None.
Proof.
  intros Hm Hl Ht. unfold consume_next.
  assert (forall l st, then_ (consume_optional m s t behind st) (fun r => Some (Ok (r.1, l : list action, r.2))) <> None) as Ho.
  { intros. apply then_total; [by apply consume_optional_total|done]. }
  destruct before; [apply Ho|]. apply then_total; [by apply take_positionals_total|].
  intros [[items' l'] st'] _. case_decide; [done|apply Ho].
Qed.

Lemma consume_next_shrink m l items st s t before behind items' l' st' :
  items = before ++ (s, COpt t) :: behind ->
  consume_next m l items st s t before behind = Some (Ok (items', l', st')) ->
  items' `suffix_of` items /\ (length items' < length items)%nat /\ l' ⊆ l.
Proof.
  intros Ei. unfold consume_next.
  assert (forall l0 st0, then_ (consume_optional m s t behind st0) (fun r => Some (Ok (r.1, l0, r.2)))
            = Some (Ok (items', l', st')) ->
          items' `suffix_of` items /\ (length items' < length items)%nat /\ l' = l0) as Ho.
  { intros l0 st0 ([i1 st1] & H & [= <- <- <-])%then_some. apply consume_optional_suffix in H.
    subst items. pose proof (suffix_length _ _ H). rewrite length_app. cbn [length]. unfold item in *.
    split_and!; [|lia|done]. apply suffix_app_r. by apply suffix_cons_r. }
  destruct before as [|b before]; [intros (? & ? & ->)%Ho; by split_and!|].
  intros ([[i1 l1] st1] & H & Hr)%then_some. apply take_positionals_suffix in H as [Hs H].
  case_decide; [injection Hr as <- <- <-; by split_and!|]. apply Ho in Hr as (? & ? & ->). by split_and!.
Qed.

Definition item_total (i : item) : Prop :=
  match i.2 with COpt t => from_option total_action True t.1.1 | _ => True end.

Lemma next_option_total items before s t behind :
  Forall item_total items -> next_option items = (before, Some (s, t, behind)) ->
  from_option total_action True t.1.1.
Proof.
  intros H E. apply next_option_split in E. subst items.
  apply Forall_app in H as [_ H]. by apply Forall_cons in H as [H _].
Qed.


(** Enough fuel is the number of arguments. *)
Lemma parse_loop_total f m l items st :
  Forall (fun oa => total_action oa.2) m -> Forall total_action l -> Forall item_total items ->
  (length items < f)%nat -> parse_loop f m l items st <> None.
Proof.
  intros Hm. revert l items st; induction f as [|f IH]; intros l items st Hl Hi Hf; [lia|]. cbn [parse_loop].
  destruct (next_option items) as [before [[[s t] behind]|]] eqn:E.
  - pose proof (next_option_total _ _ _ _ _ Hi E) as Ht. apply next_option_split in E.
    apply then_total; [by apply consume_next_total|]. intros [[items' l'] st'] H.
    apply (consume_next_shrink _ _ _ _ _ _ _ _ _ _ _ E) in H as (Hs & Hlt & Hl').
    apply IH; [..|unfold item in *; lia].
    + rewrite !Forall_forall in *. auto.
    + destruct Hs as [k ->]. by apply Forall_app in Hi as [_ Hi].
  - apply then_total; [by apply take_positionals_total|]. by intros [[] ?] _.
Qed.

Lemma option_map_total p : Forall total_action (p_actions p) -> Forall (fun oa => total_action oa.2) (option_map p).
Proof.
  rewrite !Forall_forall. intros H [o a]. unfold option_map. intros Hin%list_elem_of_In.
  apply in_flat_map in Hin as (b & Hb & Hin). apply list_elem_of_In in Hin, Hb.
  apply list_elem_of_fmap in Hin as (o' & [= -> ->] & _). cbn. by apply H.
Qed.

Lemma parse_optional_total m s t :
  Forall (fun oa => total_action oa.2) m -> parse_optional m s = Ok (Some t) ->
  from_option total_action True t.1.1.
Proof.
  intros Hm. rewrite Forall_forall in Hm. unfold parse_optional.
  assert (forall o a, dict_get m o = Some a -> total_action a) as Hg
    by (intros o a Hin%dict_get_in; by apply (Hm (o, a))).
  destruct s as [|c cs]; [done|]. destruct (negb _); [done|].
  destruct (dict_get m (c :: cs)) as [a|] eqn:E; [intros [= <-]; cbn; eauto|].
  destruct cs as [|c1 cs]; [done|].
  destruct (match split1 _ _ with (o, Some v) => _ | _ => None end) as [t'|] eqn:Ej.
  - intros [= ->]. destruct (split1 _ _) as [o [v|]]; [|done].
    destruct (dict_get m o) as [a|] eqn:Eo; [|done]. injection Ej as <-. cbn; eauto.
  - assert (forall t, t ∈ get_option_tuples m (c :: c1 :: cs) -> from_option total_action True t.1.1) as Ht.
    { intros t'. cbn [get_option_tuples]. destruct (Ascii.eqb c1 "-").
      - destruct (split1 _ _) as [o v]. intros ([o' a] & -> & Hin)%list_elem_of_fmap. cbn.
        apply list_elem_of_In, filter_In in Hin as [Hin _]. by apply list_elem_of_In, Hm in Hin.
      - intros ([o' a] & Hin & Ho)%list_elem_of_omap. cbn in Ho.
        apply Hm in Hin. repeat case_match; simplify_eq; done. }
    destruct (get_option_tuples m _) as [|t' [|]]; [|intros [= <-]; apply Ht; set_solver|done].
    repeat (case_match; try done); by intros [= <-].
Qed.

Lemma classify_total m args items :
  Forall (fun oa => total_action oa.2) m -> classify m args = Ok items -> Forall item_total items.
Proof.
  intros Hm. revert items; induction args as [|a args IH]; intros items; cbn [classify].
  - intros [= <-]. constructor.
  - case_decide.
    + intros [= <-]. constructor; [done|]. apply Forall_fmap, Forall_true. done.
    + intros H0. res_inv. constructor; [|by apply IH]. unfold item_total. cbn.
      destruct a0 as [t|]; [|done]. by apply (parse_optional_total m a).
Qed.

Lemma parse_known_args_total p args :
  Forall total_action (p_actions p) -> parse_known_args p args <> None.
Proof.
  intros H. pose proof (option_map_total p H) as Hm. unfold parse_known_args.
  destruct (classify _ args) as [items|] eqn:E; [|done]. apply then_total; [|done].
  apply parse_loop_total; [done| |by eapply classify_total|lia].
  rewrite !Forall_forall in *. intros a Ha%list_elem_of_In. apply filter_In in Ha as [Ha _].
  by apply H, list_elem_of_In.
Qed.

(** Parsing a command line ends: with the attributes or with an exception. *)
Lemma parse_args_total p args :
  Forall total_action (p_actions p) -> exists r, parse_args p args = Some r /\ parsed p args = r.
Proof.
  intros H. unfold parsed. assert (parse_args p args <> None) as Hn.
  { apply then_total; [by apply parse_known_args_total|]. intros [ns [|]] _; done. }
  destruct (parse_args p args) as [r|]; [by exists r|done].
Qed.

(** ** Canonical command lines

    Options with their value behind them or joined to them with [=], flags, and
    short options with the value attached.  What
    such a line means is the list of actions it takes. *)

Inductive opt_use :=
| Given (o v : str)
| Joined (o v : str)
| Flag (o : str)
| Attached (s : str).
Definition use_args (c : opt_use) : list str :=
  match c with Given o v => [o; v] | Joined o v => [o ++ "=" ++ v] | Flag o => [o] | Attached s => [s] end.

(** An argument that cannot be taken for an option. *)
Definition plain_arg (s : str) : Prop := starts_with "-" s = false.
Definition is_plain (s : str) : bool := negb (starts_with "-" s).

Definition is_one (a : action) : bool := match a_nargs a with NOne => true | _ => false end.
Definition is_zero (a : action) : bool := match a_nargs a with NZero => true | _ => false end.
Definition known_option (m : list (str * action)) (o : str) (ok : action -> bool) : option action :=
  if starts_with "-" o && bool_decide (o <> "--") then
    a ← dict_get m o; if negb (is_positional a) && ok a then Some a else None
  else None.
(** The action of a use and what it is given; [None] when the option is not
    one of the parser or takes another number of values, or when the value could
    be an option. *)
Definition use_action (m : list (str * action)) (c : opt_use) : option (action * list str) :=
  match c with
  | Given o v => a ← known_option m o is_one; if is_plain v then Some (a, [v]) else None
  | Joined o v =>
      if bool_decide (o = []) || chr_in o "="%char then None
      else match dict_get m (o ++ "=" ++ v) with
           | Some _ => None
           | None => a ← known_option m o is_one; Some (a, [v])
           end
  | Flag o => a ← known_option m o is_zero; Some (a, [])
  | Attached s =>
      match parse_optional m s with
      | Ok (Some (Some a, _, Some v)) =>
          if bool_decide (s <> "--") && negb (is_positional a) && is_one a then Some (a, [v]) else None
      | _ => None
      end
  end.

Definition use_items (m : list (str * action)) (c : opt_use) : list item :=
  match c with
  | Given o v => [(o, COpt (dict_get m o, o, None)); (v, CArg)]
  | Joined o v => [(o ++ "=" ++ v, COpt (dict_get m o, o, Some v))]
  | Flag o => [(o, COpt (dict_get m o, o, None))]
  | Attached s => [(s, match parse_optional m s with Ok (Some t) => COpt t | _ => CArg end)]
  end.

Lemma known_option_spec m o ok a :
  known_option m o ok = Some a ->
  (exists o', o = "-"%char :: o') /\ o <> "--" /\ dict_get m o = Some a /\ is_positional a = false /\ ok a = true.
Proof.
  unfold known_option. destruct (starts_with "-" o) eqn:E; [|done]. cbn [andb]. case_bool_decide; [|done].
  destruct (dict_get m o) as [b|]; [|done]. cbn. destruct (is_positional b) eqn:Ep, (ok b) eqn:Eo; try done.
  cbn. intros [= <-]. split_and!; try done. apply starts_with_spec in E as [o' ->]. by exists o'.
Qed.

Lemma classify_plain m v args :
  plain_arg v -> classify m (v :: args) = (items ← classify m args; Ok ((v, CArg) :: items)).
Proof.
  intros Hv. cbn [classify]. case_decide as E; [by subst|].
  assert (parse_optional m v = Ok None) as ->; [|done].
  destruct v as [|c v]; [done|]. unfold plain_arg in Hv. cbn in Hv. rewrite andb_true_r in Hv.
  unfold parse_optional. by rewrite Ascii.eqb_sym, Hv.
Qed.

Lemma classify_option m (o : str) t args :
  o <> "--" -> parse_optional m o = Ok (Some t) ->
  classify m (o :: args) = (items ← classify m args; Ok ((o, COpt t) :: items)).
Proof. intros Hn E. cbn [classify]. by rewrite decide_False, E. Qed.

Lemma classify_known m (o : str) a args :
  (exists o', o = "-"%char :: o') -> o <> "--" -> dict_get m o = Some a ->
  classify m (o :: args) = (items ← classify m args; Ok ((o, COpt (dict_get m o, o, None)) :: items)).
Proof.
  intros [o' ->] Hn E. apply classify_option; [done|]. unfold parse_optional. by rewrite E, Ascii.eqb_refl.
Qed.

Lemma classify_uses m cs acts args :
  mapM (use_action m) cs = Some acts ->
  classify m (mjoin (use_args <$> cs) ++ args)
  = (items ← classify m args; Ok (mjoin (use_items m <$> cs) ++ items)).
Proof.
  revert acts; induction cs as [|c cs IH]; intros acts H.
  - cbn [mjoin list_join fmap list_fmap app]. by destruct (classify m args).
  - cbn [mapM] in H. destruct (use_action m c) as [x|] eqn:Ec; [|done]. cbn in H.
    destruct (mapM (use_action m) cs) as [xs|]; [|done]. specialize (IH xs eq_refl).
    change (mjoin (use_args <$> c :: cs)) with (use_args c ++ mjoin (use_args <$> cs)).
    change (mjoin (use_items m <$> c :: cs)) with (use_items m c ++ mjoin (use_items m <$> cs)).
    rewrite <-!app_assoc. destruct c as [o v|o v|o|s]; cbn [use_action] in Ec.
    + destruct (known_option m o is_one) as [a|] eqn:Eo; [|done]. cbn in Ec.
      apply known_option_spec in Eo as (Ho & Hn & Eg & _ & _). unfold is_plain in Ec.
      destruct (starts_with "-" v) eqn:Ev; [done|]. cbn [use_args use_items app].
      rewrite (classify_known m o a), classify_plain, IH by done. by destruct (classify m args).
    + case_bool_decide as En; [done|]. destruct (chr_in o _) eqn:Eq; [done|]. cbn [orb] in Ec.
      destruct (dict_get m (o ++ "=" ++ v)) eqn:Eg'; [done|].
      destruct (known_option m o is_one) as [a|] eqn:Eo; [|done].
      apply known_option_spec in Eo as ([o' Ho] & Hn & Eg & _ & _).
      cbn [use_args use_items app classify].
      rewrite decide_False by (intros E; subst o; destruct o' as [|? [|]]; discriminate).
      assert (parse_optional m (o ++ "=" ++ v) = Ok (Some (Some a, o, Some v))) as ->.
      { assert ("="%char ∉ o) as Hq by (intros Hin; revert Eq; unfold chr_in; by rewrite bool_decide_true).
        unfold parse_optional. rewrite Eg'. change ("=" ++ v) with ("="%char :: v) in *.
        rewrite split1_app, Eg by done. subst o. cbn [app]. rewrite Ascii.eqb_refl. cbn [negb].
        by destruct o'. }
      cbn [mbind res_bind]. rewrite IH, Eg. by destruct (classify m args).
    + destruct (known_option m o is_zero) as [a|] eqn:Eo; [|done].
      apply known_option_spec in Eo as (Ho & Hn & Eg & _ & _). cbn [use_args use_items app].
      rewrite (classify_known m o a), IH by done. by destruct (classify m args).
    + destruct (parse_optional m s) as [[[[[a|] o] [v|]]|]|] eqn:Eo; try done.
      case_bool_decide as Hs; [|done]. cbn [use_args use_items app].
      rewrite (classify_option m s (Some a, o, Some v)), IH, Eo by done. by destruct (classify m args).
Qed.

Definition plain_item (s : str) : item := (s, CArg).

Lemma classify_values m vals :
  Forall plain_arg vals -> classify m vals = Ok (plain_item <$> vals).
Proof.
  induction 1 as [|v vals Hv _ IH]; [done|]. by rewrite classify_plain, IH.
Qed.

Lemma match_argument_zero a s :
  is_positional a = false -> a_nargs a = NZero -> match_argument a s = Ok 0%nat.
Proof.
  intros Hp Hn. unfold match_argument, re_match, match_at. rewrite Hp, Hn. cbn.
  unfold grp, group. cbn. by rewrite Nat.sub_diag.
Qed.

Lemma match_argument_one a s :
  is_positional a = false -> a_nargs a = NOne -> match_argument a ("A"%char :: s) = Ok 1%nat.
Proof.
  intros Hp Hn. unfold match_argument, re_match, match_at. rewrite Hp, Hn.
  cbn [nargs_pattern rm]. change ("A"%char :: s) with (("A" : str) ++ s). rewrite rm_lit.
  cbn [app reverse]. rewrite (capture_text 1 [] (reverse ("A" : str) ++ []) "A" s [] []). done.
Qed.

Lemma joined_one m a o v :
  is_positional a = false -> a_nargs a = NOne -> joined_actions m a o v = Ok ([(a, [v])], None).
Proof. intros Hp Hn. destruct v; cbn [joined_actions]; by rewrite match_argument_one. Qed.

Lemma consume_use m c a args items st :
  use_action m c = Some (a, args) ->
  exists s t behind, use_items m c ++ items = (s, COpt t) :: behind /\
    consume_optional m s t behind st = then_ (take_action a args st) (fun st => Some (Ok (items, st))).
Proof.
  assert (forall (o : option (res pstate)) (f : pstate -> option (res (list item * pstate))),
            then_ (then_ o (fun st => Some (Ok st))) f = then_ o f) as Hthen by by intros [[]|].
  destruct c as [o v|o v|o|s]; cbn [use_action use_items]; intros H.
  - destruct (known_option m o is_one) as [b|] eqn:Eo; [|done]. cbn in H. destruct (is_plain v); [|done].
    injection H as -> <-. apply known_option_spec in Eo as (_ & _ & Eg & Hp & H1).
    unfold is_one in H1. destruct (a_nargs a) eqn:En; try done.
    eexists _, _, _. split; [done|]. rewrite Eg. cbn [consume_optional]. unfold following_values.
    cbn [fmap list_fmap class_char snd]. rewrite match_argument_one by done. cbn. by rewrite Hthen.
  - case_bool_decide; [done|]. destruct (chr_in o _); [done|]. cbn [orb] in H.
    destruct (dict_get m (o ++ "=" ++ v)); [done|].
    destruct (known_option m o is_one) as [b|] eqn:Eo; [|done]. cbn in H.
    injection H as -> <-. apply known_option_spec in Eo as (_ & _ & Eg & Hp & H1).
    unfold is_one in H1. destruct (a_nargs a) eqn:En; try done.
    eexists _, _, _. split; [done|]. rewrite Eg. cbn [consume_optional]. rewrite joined_one by done.
    cbn. by rewrite Hthen.
  - destruct (known_option m o is_zero) as [b|] eqn:Eo; [|done]. cbn in H.
    injection H as -> <-. apply known_option_spec in Eo as (_ & _ & Eg & Hp & H1).
    unfold is_zero in H1. destruct (a_nargs a) eqn:En; try done.
    eexists _, _, _. split; [done|]. rewrite Eg. cbn [consume_optional]. unfold following_values.
    rewrite match_argument_zero by done. cbn. by rewrite Hthen, drop_0.
  - destruct (parse_optional m s) as [[[[[b|] o] [v|]]|]|]; try done. case_bool_decide; [|done]. cbn [andb] in H.
    destruct (is_positional b) eqn:Hp; [done|]. destruct (is_one b) eqn:H1; [|done]. injection H as -> <-.
    unfold is_one in H1. destruct (a_nargs a) eqn:En; try done.
    eexists _, _, _. split; [done|]. cbn [consume_optional]. rewrite joined_one by done. cbn. by rewrite Hthen.
Qed.

Lemma parse_loop_uses m l cs acts f items st :
  mapM (use_action m) cs = Some acts ->
  parse_loop (length cs + f) m l (mjoin (use_items m <$> cs) ++ items) st
  = then_ (take_actions acts st) (fun st => parse_loop f m l items st).
Proof.
  revert acts st; induction cs as [|c cs IH]; intros acts st H; cbn [mapM] in H.
  - by injection H as <-.
  - destruct (use_action m c) as [[a args]|] eqn:Ec; [|done]. cbn in H.
    destruct (mapM (use_action m) cs) as [xs|]; [|done]. injection H as <-.
    change (mjoin (use_items m <$> c :: cs)) with (use_items m c ++ mjoin (use_items m <$> cs)).
    rewrite <-app_assoc.
    destruct (consume_use m c a args (mjoin (use_items m <$> cs) ++ items) st Ec) as (s & t & behind & -> & Ho).
    cbn [length Nat.add parse_loop next_option]. unfold consume_next. rewrite Ho. cbn [take_actions].
    destruct (take_action a args st) as [[st'|]|]; cbn; [|done|done]. by apply IH.
Qed.

(** A value is taken as it is by an action that wants one. *)
Lemma get_values_one a (v : str) :
  a_nargs a = NOne -> v <> "--" -> get_values a [v] = (x ← get_value a v; _ ← check_value a x; Ok x).
Proof. intros Hn Hv. unfold get_values. rewrite Hn. cbn. by rewrite decide_False. Qed.

Lemma plain_not_dashes (v : str) : plain_arg v -> v <> "--".
Proof. by intros H ->. Qed.

Lemma next_option_values vals : next_option (plain_item <$> vals) = (plain_item <$> vals, None).
Proof. induction vals as [|v vals IH]; [done|]. cbn. by rewrite IH. Qed.

Definition counts (l : list action) (n : nat) : list nat := match_partial l (length l) (replicate n "A"%char).

Lemma class_chars_values vals : class_char <$> (plain_item <$> vals) = replicate (length vals) "A"%char.
Proof. induction vals as [|v vals IH]; [done|]. cbn. by f_equal. Qed.

(** What parsing a canonical command line does: the actions of its options in
    order, then the positional arguments. *)
Definition start (p : parser) : pstate := PState (initial_namespace p) [] [] [].
Definition positionals (p : parser) : list action := List.filter is_positional (p_actions p).

Lemma use_items_length m c : (1 <= length (use_items m c))%nat.
Proof. destruct c; cbn; lia. Qed.

Lemma uses_length m cs : (length cs <= length (mjoin (use_items m <$> cs)))%nat.
Proof.
  induction cs as [|c cs IH]; [done|].
  change (mjoin (use_items m <$> c :: cs)) with (use_items m c ++ mjoin (use_items m <$> cs)).
  rewrite length_app. pose proof (use_items_length m c). cbn [length]. lia.
Qed.

Lemma parse_uses p cs acts vals :
  mapM (use_action (option_map p)) cs = Some acts -> Forall plain_arg vals ->
  parse_known_args p (mjoin (use_args <$> cs) ++ vals) =
  then_ (take_actions acts (start p)) (fun st =>
  then_ (take_positionals (positionals p) (counts (positionals p) (length vals)) (plain_item <$> vals) st) (fun r =>
  let '(items, _, st) := r in Some (finish p (with_extras st (fst <$> items))))).
Proof.
  intros Hc Hv. unfold parse_known_args. rewrite (classify_uses _ _ _ _ Hc), classify_values by done.
  cbn [mbind res_bind]. set (items := mjoin (use_items (option_map p) <$> cs)).
  assert (exists f, S (length (items ++ (plain_item <$> vals))) = (length cs + S f)%nat) as [f ->].
  { subst items. exists (length (mjoin (use_items (option_map p) <$> cs) ++ (plain_item <$> vals)) - length cs)%nat.
    rewrite length_app. pose proof (uses_length (option_map p) cs). lia. }
  subst items. rewrite (parse_loop_uses _ _ _ _ _ _ _ Hc). fold (start p) (positionals p).
  destruct (take_actions acts (start p)) as [[st|]|]; [|done|done]. cbn [then_ parse_loop].
  rewrite next_option_values. unfold consume_positionals. rewrite class_chars_values. fold (counts (positionals p) (length vals)).
  destruct (take_positionals _ _ _ st) as [[[[items l] st']|]|]; done.
Qed.

(** Positional arguments of one value, the last one perhaps of more, and how many
    values each takes. *)
Inductive sized : list action -> list nat -> Prop :=
| sized_nil : sized [] []
| sized_one a l sizes :
    is_positional a = true -> a_nargs a = NOne -> sized l sizes -> sized (a :: l) (1%nat :: sizes)
| sized_star a n : is_positional a = true -> a_nargs a = NStar -> sized [a] [n]
| sized_plus a n : is_positional a = true -> a_nargs a = NPlus -> sized [a] [S n].

Definition As (n : nat) : str := replicate n "A"%char.
Fixpoint caps_of (i : nat) (sizes : list nat) (cs : list (nat * str)) : list (nat * str) :=
  match sizes with [] => cs | n :: sizes' => caps_of (S i) sizes' ((i, As n) :: cs) end.

Lemma As_add n k : As (n + k) = As n ++ As k.
Proof. apply replicate_add. Qed.

Lemma no_dash n : match As n with [] => True | c :: _ => Ascii.eqb "-" c = false end.
Proof. by destruct n. Qed.

Lemma rm_dashes b n cs k : rm dashes (Cur b (As n) cs) k = k (Cur b (As n) cs).
Proof. unfold dashes, star. cbn [rm bef aft caps]. apply rep_empty_run, no_dash. Qed.

Lemma rm_star b n cs k x :
  k (Cur (reverse (As n) ++ b) [] cs) = Some x -> rm (star is_A_dash) (Cur b (As n) cs) k = Some x.
Proof.
  intros H. unfold star. rewrite <-(app_nil_r (As n)) at 1. apply rm_run; [by apply Forall_replicate|done|lia|done].
Qed.

Lemma capture_As i b b' n k cs cs' :
  capture i (Cur b (As (n + k)) cs) (Cur b' (As k) cs') = Cur b' (As k) ((i, As n) :: cs').
Proof. rewrite As_add. apply capture_text. Qed.

Lemma sum_cons n l : sum_list (n :: l) = (n + sum_list l)%nat.
Proof. done. Qed.

Lemma rm_sized l sizes i b cs :
  sized l sizes ->
  exists b', rm (rseq (groups_pattern i l)) (Cur b (As (sum_list sizes)) cs) Some
             = Some (Cur b' [] (caps_of i sizes cs)).
Proof.
  intros H. revert i b cs; induction H as [|a l sizes Hp Hn H IH|a n Hp Hn|a n Hp Hn]; intros i b cs;
    rewrite ?sum_cons; cbn [groups_pattern rseq foldr caps_of]; try (rewrite Hp, Hn); cbn [nargs_pattern rseq foldr].
  - by exists b.
  - destruct (IH (S i) ("A"%char :: b) ((i, As 1) :: cs)) as [b' E]. exists b'. cbn [rm]. rewrite rm_dashes.
    change (As (1 + sum_list sizes)) with (("A" : str) ++ As (sum_list sizes)) at 1. rewrite rm_lit, rm_dashes. cbn [rm].
    change (("A" : str) ++ As (sum_list sizes)) with (As (1 + sum_list sizes)). by rewrite capture_As.
  - eexists. cbn [rm]. rewrite rm_dashes. apply rm_star. cbn [rm rseq foldr].
    pose proof (capture_As i b (reverse (As (n + sum_list [])) ++ b) n (sum_list []) cs cs) as Ec. change (sum_list []) with 0%nat in *. rewrite !Nat.add_0_r in *.
    change (As 0) with ([] : str) in Ec. by rewrite Ec.
  - eexists. cbn [rm]. rewrite rm_dashes.
    change (As (S n + sum_list [])) with (("A" : str) ++ As (n + sum_list [])) at 1. rewrite rm_lit. apply rm_star. cbn [rm rseq foldr].
    pose proof (capture_As i b (reverse (As (n + sum_list [])) ++ reverse ("A" : str) ++ b) (S n) (sum_list []) cs cs) as Ec.
    change (sum_list []) with 0%nat in *. rewrite !Nat.add_0_r in *. change (("A" : str) ++ As n) with (As (S n)).
    change (As 0) with ([] : str) in Ec. by rewrite Ec.
Qed.

Lemma caps_of_before i j sizes cs : (j < i)%nat -> cap_lookup j (caps_of i sizes cs) = cap_lookup j cs.
Proof.
  revert i cs; induction sizes as [|n sizes IH]; intros i cs Hj; cbn [caps_of]; [done|].
  rewrite IH by lia. cbn [cap_lookup]. by rewrite (proj2 (Nat.eqb_neq i j)) by lia.
Qed.

Lemma caps_of_sizes i sizes cs :
  (fun j => length (default [] (cap_lookup j (caps_of i sizes cs)))) <$> seq i (length sizes) = sizes.
Proof.
  revert i cs; induction sizes as [|n sizes IH]; intros i cs; [done|].
  cbn [length seq fmap list_fmap caps_of]. rewrite IH, caps_of_before by lia. cbn [cap_lookup].
  rewrite Nat.eqb_refl. unfold As. cbn. by rewrite length_replicate.
Qed.

Lemma sized_length l sizes : sized l sizes -> length l = length sizes.
Proof. by induction 1; cbn; f_equal. Qed.

Lemma counts_sized l sizes : sized l sizes -> counts l (sum_list sizes) = sizes.
Proof.
  intros H. unfold counts. pose proof (sized_length _ _ H) as Hl.
  destruct (rm_sized l sizes 1 [] [] H) as [b E].
  destruct l as [|a l]; [by destruct sizes|]. cbn [length match_partial].
  change (S (length l)) with (length (a :: l)). rewrite (firstn_all (a :: l)).
  unfold re_match, match_at, actions_pattern. unfold As in E. rewrite E. cbn [mbind option_bind].
  etransitivity; [|exact (caps_of_sizes 1 sizes [])]. by rewrite <-Hl.
Qed.

(** The values of the positional arguments, by argument. *)
Fixpoint take_values (l : list action) (vals : list (list str)) (st : pstate) : option (res pstate) :=
  match l, vals with
  | a :: l', v :: vals' => then_ (take_action a v st) (take_values l' vals')
  | _, _ => Some (Ok st)
  end.

Lemma take_positionals_values l (vals : list (list str)) st :
  length l = length vals ->
  take_positionals l (length <$> vals) (plain_item <$> mjoin vals) st =
  then_ (take_values l vals st) (fun st => Some (Ok ([], [], st))).
Proof.
  revert vals st; induction l as [|a l IH]; intros [|v vals] st; cbn [length]; intros Hl; try done.
  cbn [fmap list_fmap take_positionals take_values]. change (mjoin (v :: vals)) with (v ++ mjoin vals).
  change ((fix go (l : list str) : list item := _) (v ++ mjoin vals)) with (plain_item <$> v ++ mjoin vals).
  rewrite fmap_app, take_app_length', drop_app_length' by (by rewrite length_fmap).
  assert (fst <$> (plain_item <$> v) = v) as -> by (clear; induction v as [|x v IH]; cbn; [done|by rewrite IH]).
  destruct (take_action a v st) as [[st'|]|]; cbn [then_]; [|done|done]. apply IH. lia.
Qed.

(** What a canonical command line means: its options, then its positional
    arguments, each with its values. *)
Lemma parsed_line p cs acts vals :
  mapM (use_action (option_map p)) cs = Some acts -> Forall plain_arg (mjoin vals) ->
  sized (positionals p) (length <$> vals) ->
  parse_args p (mjoin (use_args <$> cs) ++ mjoin vals) =
  then_ (take_actions acts (start p)) (fun st =>
  then_ (take_values (positionals p) vals st) (fun st =>
  then_ (Some (finish p (with_extras st []))) (fun r =>
    match r.2 with [] => Some (Ok r.1) | _ => Some arg_error end))).
Proof.
  intros Hc Hv Hs. unfold parse_args. rewrite (parse_uses _ _ _ _ Hc) by done.
  assert (length (mjoin vals) = sum_list (length <$> vals)) as ->.
  { clear. induction vals as [|v vals IH]; [done|]. change (mjoin (v :: vals)) with (v ++ mjoin vals).
    rewrite length_app, IH. done. }
  rewrite (counts_sized _ _ Hs). destruct (take_actions acts (start p)) as [[st|]|]; [|done|done]. cbn [then_].
  rewrite take_positionals_values by (rewrite (sized_length _ _ Hs); apply length_fmap).
  by destruct (take_values _ _ _) as [[]|].
Qed.

(** One turn of the loop. *)
Lemma parse_loop_turn f m l items st before s t behind items' l' st' :
  next_option items = (before, Some (s, t, behind)) ->
  consume_next m l items st s t before behind = Some (Ok (items', l', st')) ->
  parse_loop (S f) m l items st = parse_loop f m l' items' st'.
Proof. intros E H. cbn [parse_loop]. by rewrite E, H. Qed.

(** Positionals in front of an option that take what they want. *)
Lemma consume_next_positionals m l items st s t b before behind items' l' st' :
  take_positionals l (match_partial l (length l) (class_char <$> items)) items st = Some (Ok (items', l', st')) ->
  (length items' < length items)%nat ->
  consume_next m l items st s t (b :: before) behind = Some (Ok (items', l', st')).
Proof. intros H Hl. unfold consume_next, consume_positionals. rewrite H. cbn. by rewrite decide_True. Qed.

(** A positional argument that stores its one value. *)
Lemma take_stored a (v : str) st x :
  a_nargs a = NOne -> a_kind a = Store -> v <> "--" -> a_type a v = Ok x -> check_value a x = Ok tt ->
  take_action a [v] st = Some (Ok (set_attr st a x)).
Proof.
  intros Hn Hk Hv Ht Hc. unfold take_action, perform.
  rewrite get_values_one by done. unfold get_value. rewrite Ht. cbn. by rewrite Hc, Hk.
Qed.

Lemma check_choice a (l : list str) (v : str) : a_choices a = Some l -> v ∈ l -> check_value a (AStr v) = Ok tt.
Proof. intros Hc Hv. unfold check_value. by rewrite Hc, bool_decide_true. Qed.

(** A sub-command: its attributes are added to those of the parser. *)
Lemma take_subparser dest table name parse args sub more st :
  dict_get table name = Some parse -> parse args = Some (Ok (sub, more)) ->
  take_action (subparsers dest table) (name :: args) st =
  Some (Ok (PState (foldl (fun ns kv => ns_set ns kv.1 kv.2) (ns_set (ps_ns st) dest (AStr name)) sub)
              (dest :: ps_seen st) (ps_extras st) (ps_unrec st ++ more))).
Proof.
  intros Hg Hp. unfold take_action, get_values. cbn [a_nargs subparsers].
  assert (forall l, res_map (get_value (subparsers dest table)) l = Ok (AStr <$> l)) as ->
    by (induction l as [|x l IH]; cbn in *; [done|by rewrite IH]).
  cbn [fmap list_fmap mbind res_bind py_nth or_raise lookup list_lookup check_value a_choices subparsers perform a_kind].
  rewrite Hg. assert (omap (fun v => match v with AStr s => Some s | _ => None end) (AStr <$> args) = args) as ->
    by (clear; induction args as [|x l IH]; cbn in *; [done|by rewrite IH]).
  by rewrite Hp.
Qed.

(** What the options of a canonical command line do, piece by piece. *)
Lemma use_given m o v a : known_option m o is_one = Some a -> plain_arg v -> use_action m (Given o v) = Some (a, [v]).
Proof. intros E H. cbn. rewrite E. cbn. unfold is_plain. by rewrite H. Qed.

Lemma joined_unknown (m : list (str * action)) (o v : str) :
  forallb (fun oa => negb (chr_in oa.1 "="%char)) m = true -> dict_get m (o ++ "=" ++ v) = None.
Proof.
  intros Hm. destruct (dict_get m (o ++ "=" ++ v)) as [b|] eqn:Eg; [|done].
  apply dict_get_in, list_elem_of_In in Eg. rewrite forallb_forall in Hm. specialize (Hm _ Eg). cbn in Hm.
  unfold chr_in in Hm. rewrite bool_decide_true in Hm; [done|]. set_solver.
Qed.

Lemma use_joined m (o v : str) a :
  forallb (fun oa => negb (chr_in oa.1 "="%char)) m = true -> known_option m o is_one = Some a ->
  chr_in o "="%char = false -> use_action m (Joined o v) = Some (a, [v]).
Proof.
  intros Hm E He. cbn [use_action]. rewrite He, E, joined_unknown by done. rewrite bool_decide_false; [done|].
  intros ->. discriminate E.
Qed.

Lemma take_flag a st : a_nargs a = NZero -> a_kind a = StoreTrue -> take_action a [] st = Some (Ok (set_attr st a (ABool true))).
Proof. intros Hn Hk. unfold take_action, get_values, perform. by rewrite Hn, Hk. Qed.

Lemma take_actions_cons a args l st st' :
  take_action a args st = Some (Ok st') -> take_actions ((a, args) :: l) st = take_actions l st'.
Proof. intros E. cbn [take_actions]. by rewrite E. Qed.

Lemma remove_first_plain l : Forall plain_arg l -> remove_first "--" l = l.
Proof.
  induction 1 as [|x l Hx _ IH]; [done|]. cbn [remove_first]. rewrite decide_False by by apply plain_not_dashes. by rewrite IH.
Qed.

(** A positional argument for many values stores the list of them. *)
Lemma take_many a l st :
  is_positional a = true -> a_nargs a = NStar \/ a_nargs a = NPlus -> a_kind a = Store ->
  a_type a = type_str -> a_choices a = None -> a_default a = ANone -> Forall plain_arg l ->
  take_action a l st = Some (Ok (set_attr st a (AList (AStr <$> l)))).
Proof.
  intros Hp Hn Hk Ht Hc Hd Hl. unfold take_action, get_values, perform. rewrite Hk.
  assert (forall k, res_map (get_value a) k = Ok (AStr <$> k)) as Hm.
  { unfold get_value. rewrite Ht. induction k as [|x k IH]; cbn in *; [done|]. by rewrite IH. }
  assert (forall k, res_iter (check_value a) k = Ok tt) as Hi.
  { unfold check_value. rewrite Hc. induction k as [|x k IH]; cbn in *; done. }
  destruct Hn as [-> | ->]; cbv zeta; rewrite (remove_first_plain l Hl), ?Hp, ?Hd, Hm; cbn [mbind res_bind].
  - destruct l; [unfold check_value; by rewrite Hc|]. by rewrite Hi.
  - destruct l as [|x [|y l]]; by rewrite Hi.
Qed.

Lemma take_values_cons (a : action) l v vals st st' :
  take_action a v st = Some (Ok st') -> take_values (a :: l) (v :: vals) st = take_values l vals st'.
Proof. intros E. cbn [take_values]. by rewrite E. Qed.

Lemma take_actions_nil st : take_actions [] st = Some (Ok st).
Proof. done. Qed.
Lemma take_values_nil st : take_values [] [] st = Some (Ok st).
Proof. done. Qed.
Lemma then_ok {A B} (a : A) (f : A -> option (res B)) : then_ (Some (Ok a)) f = f a.
Proof. done. Qed.

Lemma arg_texts_list ns k l : dict_get ns k = Some (AList (AStr <$> l)) -> arg_texts ns k = Ok l.
Proof.
  unfold arg_texts. intros ->. induction l as [|x l IH]; [done|]. cbn in *. by rewrite IH.
Qed.

(** ** Options the parser does not know *)

(** The class of such an option with a joined value: it is one, or, with a blank
    in it, a value. *)
Lemma unknown_joined (m : list (str * action)) (o v : str) :
  forallb (fun oa => negb (chr_in oa.1 "="%char)) m = true -> starts_with "--" o = true -> chr_in o "="%char = false ->
  dict_get m o = None -> List.filter (fun oa : str * action => starts_with o oa.1) m = [] ->
  parse_optional m (o ++ "=" ++ v) = Ok None \/
  parse_optional m (o ++ "=" ++ v) = Ok (Some (None, o ++ "=" ++ v, None)).
Proof.
  intros Hm Ho He Hg Hf. pose proof (joined_unknown m o v Hm) as Hj.
  apply starts_with_spec in Ho as [o' ->]. set (s := (("--" : str) ++ o') ++ "=" ++ v) in *.
  assert (split1 "="%char s = (("--" : str) ++ o', Some v)) as Es.
  { apply split1_app. intros Hin. revert He. unfold chr_in. by rewrite bool_decide_true. }
  assert (exists c c' t, s = c :: c' :: t /\ c = "-"%char /\ c' = "-"%char) as (c & c' & t & E & -> & ->)
    by (by eexists _, _, _).
  rewrite E in *. unfold parse_optional. rewrite Ascii.eqb_refl, Hj, Es, Hg. cbn [negb get_option_tuples].
  rewrite Ascii.eqb_refl, Es, Hf. cbn [fmap list_fmap]. destruct (_ && _); [by left|]. destruct (chr_in (_ :: _ :: t) _); [by left|by right].
Qed.

Lemma parse_loop_unknown f m items st s o v :
  parse_loop (S f) m [] ((s, COpt (None, o, v)) :: items) st = parse_loop f m [] items (with_extras st [s]).
Proof. reflexivity. Qed.

Lemma parse_loop_value f m items st s o t behind :
  next_option items = ([], Some (o, t, behind)) ->
  parse_loop (S f) m [] ((s, CArg) :: items) st = parse_loop (S f) m [] items (with_extras st [s]).
Proof.
  intros E. cbn [parse_loop next_option]. rewrite E. unfold consume_next, consume_positionals.
  cbn [take_positionals match_partial length then_]. by rewrite decide_False by lia.
Qed.

Lemma uses_next_option m c cs acts :
  mapM (use_action m) (c :: cs) = Some acts ->
  exists o t behind, next_option (mjoin (use_items m <$> c :: cs)) = ([], Some (o, t, behind)).
Proof.
  intros H. cbn [mapM] in H. destruct (use_action m c) as [[a args]|] eqn:Ec; [|done].
  destruct (consume_use m c a args (mjoin (use_items m <$> cs)) (PState [] [] [] []) Ec) as (o & t & behind & E & _).
  change (mjoin (use_items m <$> c :: cs)) with (use_items m c ++ mjoin (use_items m <$> cs)).
  rewrite E. by eexists _, _, _.
Qed.

(** An argument that is neither an option of the parser nor wanted as a value is
    left over. *)
Lemma parse_stray p us acts c us' acts' (s : str) :
  positionals p = [] -> mapM (use_action (option_map p)) us = Some acts ->
  mapM (use_action (option_map p)) (c :: us') = Some acts' -> s <> "--" ->
  parse_optional (option_map p) s = Ok None \/ parse_optional (option_map p) s = Ok (Some (None, s, None)) ->
  parse_args p (mjoin (use_args <$> us) ++ s :: mjoin (use_args <$> c :: us')) =
  then_ (take_actions acts (start p)) (fun st =>
  then_ (take_actions acts' (with_extras st [s])) (fun st =>
  then_ (Some (finish p (with_extras st []))) (fun r =>
    match r.2 with [] => Some (Ok r.1) | _ => Some arg_error end))).
Proof.
  intros Hp Hu Hu' Hs Hc. set (m := option_map p) in *. set (it := mjoin (use_items m <$> us)).
  pose (it' := mjoin (use_items m <$> c :: us')).
  assert (exists cl, classify m (mjoin (use_args <$> us) ++ s :: mjoin (use_args <$> c :: us')) = Ok (it ++ (s, cl) :: it')
            /\ (cl = CArg \/ cl = COpt (None, s, None))) as (cl & Ec & Hcl).
  { rewrite (classify_uses m us acts) by done. cbn [classify]. rewrite decide_False by done.
    rewrite <-(app_nil_r (mjoin (use_args <$> c :: us'))), (classify_uses m (c :: us') acts') by done.
    cbn [classify mbind res_bind]. rewrite app_nil_r. destruct Hc as [-> | ->]; cbn [mbind res_bind]; eauto. }
  unfold parse_args, parse_known_args. fold m. rewrite Ec. change (List.filter is_positional (p_actions p)) with (positionals p).
  rewrite Hp. fold (start p).
  assert (exists f, S (length (it ++ (s, cl) :: it')) = (length us + S (length (c :: us') + S f))%nat) as [f ->].
  { exists (length it - length us + (length it' - length (c :: us')))%nat. rewrite length_app. cbn [length].
    pose proof (uses_length m us). pose proof (uses_length m (c :: us')). unfold it, it', item in *. cbn [length] in *. lia. }
  subst it. rewrite (parse_loop_uses _ _ _ _ _ _ _ Hu). destruct (take_actions acts (start p)) as [[st|]|]; [|done|done].
  cbn [then_].
  assert (exists f', parse_loop (S (length (c :: us') + S f)) m [] ((s, cl) :: it') st =
    then_ (take_actions acts' (with_extras st [s])) (fun st => parse_loop (S f') m [] [] st)) as [f' ->].
  { assert (forall k st, parse_loop (length (c :: us') + k) m [] it' st =
        then_ (take_actions acts' st) (fun st => parse_loop k m [] [] st)) as Hl
      by (intros; rewrite <-(app_nil_r it'); by apply parse_loop_uses).
    destruct Hcl as [-> | ->].
    - exists (S f). destruct (uses_next_option m c us' acts' Hu') as (o & t & behind & E).
      rewrite (parse_loop_value _ _ _ _ _ _ _ _ E). by rewrite <-(Hl (S (S f))), (Nat.add_succ_r _ (S f)).
    - exists f. rewrite parse_loop_unknown. apply Hl. }
  by destruct (take_actions acts' _) as [[]|].
Qed.

(** An option that collects its values. *)
Lemma take_append a (v : str) st x :
  a_nargs a = NOne -> a_kind a = Append -> v <> "--" -> a_type a v = Ok x -> a_choices a = None ->
  take_action a [v] st =
  Some (Ok (set_attr st a (AList ((match dict_get (ps_ns st) (a_dest a) with Some (AList l) => l | _ => [] end) ++ [x])))).
Proof.
  intros Hn Hk Hv Ht Hc. unfold take_action, perform.
  rewrite get_values_one by done. unfold get_value, check_value. rewrite Ht. cbn. by rewrite Hc, Hk.
Qed.
End Argparse.

Arguments aval V : clear implicits.
Arguments namespace V : clear implicits.
Arguments akind V : clear implicits.
Arguments action V : clear implicits.
Arguments parser V : clear implicits.

(** Canonical command lines step by step: the actions of the options, then the
    attributes they set. *)
Ltac solve_uses :=
  apply mapM_Some;
  repeat first
    [ apply Forall2_nil_2
    | apply Forall2_cons_2;
      [ first [ apply use_given; [reflexivity|solve [done]] | apply use_joined; reflexivity | reflexivity ] | ] ].
Ltac take_steps :=
  repeat first
    [ erewrite take_actions_cons;
      [|first [ apply take_flag; reflexivity
              | apply take_stored; [reflexivity|reflexivity|solve [done | by apply plain_not_dashes]|solve [eauto | reflexivity]
                                   |solve [reflexivity | eauto]]
              | apply take_append; [reflexivity|reflexivity|solve [done | by apply plain_not_dashes]|solve [eauto | reflexivity]
                                   |reflexivity] ]]
    | erewrite take_values_cons;
      [|first [ apply take_stored; [reflexivity|reflexivity|solve [done | by apply plain_not_dashes]|solve [eauto | reflexivity]
                                   |solve [reflexivity | eauto]]
              | apply take_many; [reflexivity|first [left; reflexivity|right; reflexivity]|reflexivity|reflexivity|reflexivity|reflexivity|solve [done]] ]]
    | rewrite take_actions_nil
    | rewrite take_values_nil
    | rewrite then_ok; cbv beta ].
