(* ===== verification/PyFloat.v ===== *)
(** * Python floats

    Double-precision arithmetic on the Standard Library's [spec_float], and the
    conversions between doubles and text: [float(s)] for decimal literals,
    [repr(x)] (the shortest decimal that reads back), [round(x, n)] and two
    decimals of [format].  The conversions are correctly rounded, as CPython's
    are. *)

From S2P Require Import Prelude PyStr.
From Stdlib Require Import Ascii.
From Stdlib Require Export SpecFloat.
Local Open Scope Z_scope.

Definition float := spec_float.
Definition double_of (n : Z) : float := binary_normalize 53 1024 n 0 false.
Definition SFdiv := SpecFloat.SFdiv 53 1024.
Definition SFmul := SpecFloat.SFmul 53 1024.
Definition SFadd := SpecFloat.SFadd 53 1024.

#[export] Instance float_eq_dec : EqDecision float.
Proof. solve_decision. Defined.

(** [x / y] raises for a zero divisor. *)
Definition py_div (x y : float) : res float :=
  match y with S754_zero _ => raise ZeroDivisionError | _ => Ok (SFdiv x y) end.

(** ** The double nearest to a decimal

    [m * 10^e] with a sign; the quotient of two integers is rounded once. *)

Definition scale10 (e : Z) : positive := Z.to_pos (10 ^ e).
Definition of_decimal (neg : bool) (m : Z) (e : Z) : float :=
  match m with
  | Zpos p =>
      if 0 <=? e then SFdiv (S754_finite neg (p * scale10 e) 0) (S754_finite false 1 0)
      else SFdiv (S754_finite neg p 0) (S754_finite false (scale10 (- e)) 0)
  | _ => S754_zero neg
  end.

(** ** [float(s)] *)

(** Digits with single underscores between them, and the text after them. *)
Fixpoint digit_run (acc : Z) (n : nat) (s : str) : Z * nat * str :=
  match s with
  | c :: s' =>
      if is_digit c then digit_run (acc * 10 + (code c - 48)) (S n) s'
      else if Ascii.eqb c "_"%char && negb (Nat.eqb n 0) then
        match s' with
        | d :: s'' => if is_digit d then digit_run (acc * 10 + (code d - 48)) (S n) s'' else (acc, n, s)
        | [] => (acc, n, s)
        end
      else (acc, n, s)
  | [] => (acc, n, [])
  end.

Definition sign_of (s : str) : bool * str :=
  match s with
  | c :: s' => if Ascii.eqb c "-"%char then (true, s') else if Ascii.eqb c "+"%char then (false, s') else (false, s)
  | [] => (false, [])
  end.

Definition exponent (s : str) : option Z :=
  match s with
  | [] => Some 0
  | c :: s' =>
      if Ascii.eqb c "e"%char || Ascii.eqb c "E"%char then
        let '(neg, t) := sign_of s' in
        match digit_run 0 0 t with
        | (v, S _, []) => Some (if neg then - v else v)
        | _ => None
        end
      else None
  end.

Definition unsigned_float (neg : bool) (s : str) : option float :=
  let lower := map (fun c => if between 65 90 c then ascii_of_N (Z.to_N (code c + 32)) else c) s in
  if bool_decide (lower = ("inf" : str)) || bool_decide (lower = ("infinity" : str)) then Some (S754_infinity neg)
  else if bool_decide (lower = ("nan" : str)) then Some S754_nan
  else
    let '(m, n, t) := digit_run 0 0 s in
    match t with
    | c :: t' =>
        if Ascii.eqb c "."%char then
          let '(m', n', t'') :=
            match t' with d :: _ => if is_digit d then digit_run 0 0 t' else (0, 0%nat, t') | [] => (0, 0%nat, []) end in
          if Nat.eqb (n + n') 0 then None
          else e ← exponent t''; Some (of_decimal neg (m * 10 ^ Z.of_nat n' + m') (e - Z.of_nat n'))
        else if Nat.eqb n 0 then None else e ← exponent t; Some (of_decimal neg m e)
    | [] => if Nat.eqb n 0 then None else Some (of_decimal neg m 0)
    end.

Definition py_float (s : str) : option float :=
  let '(neg, t) := sign_of (strip s) in unsigned_float neg t.
Definition float_of (s : str) : res float := or_raise ValueError (py_float s).

(** ** [repr(x)] *)

(** Numerator and denominator of [m * 2^e]. *)
Definition ratio (m : positive) (e : Z) : Z * Z :=
  if 0 <=? e then (Z.shiftl (Z.pos m) e, 1) else (Z.pos m, Z.shiftl 1 (- e)).

(** [v * 10^k], floored, for [v = a / b]. *)
Definition scaled (a b k : Z) : Z :=
  if 0 <=? k then a * 10 ^ k / b else a / (b * 10 ^ (- k)).
(** How far [c / 10^k] is from [a / b], times [b * 10^k]. *)
Definition distance (a b k c : Z) : Z :=
  if 0 <=? k then Z.abs (a * 10 ^ k - c * b) else Z.abs (a - c * b * 10 ^ (- k)).

(** The number of decimal digits before the point, found from the binary
    magnitude ([1 <= v * 10^(1 - d) < 10]). *)
Fixpoint decpt_go (fuel : nat) (a b d : Z) : Z :=
  match fuel with
  | O => d
  | S f =>
      if a * 10 ^ Z.max 0 (- d) <? b * 10 ^ Z.max 0 d then
        if b * 10 ^ Z.max 0 (d - 1) <=? a * 10 ^ Z.max 0 (1 - d) then d else decpt_go f a b (d - 1)
      else decpt_go f a b (d + 1)
  end.
Definition decpt (a b : Z) : Z :=
  decpt_go 40 a b ((Z.log2 a - Z.log2 b) * 1233 / 4096).

(** The nearest [n]-digit decimal that reads back as [x]: the digits and the
    scale. *)
Definition digits_n (x : float) (a b d : Z) (n : Z) : option (Z * Z) :=
  let k := n - d in
  let c := scaled a b k in
  let ok c := bool_decide (of_decimal false c (- k) = x) in
  let near := if distance a b k (c + 1) <? distance a b k c then [c + 1; c] else [c; c + 1] in
  (fun c => (c, k)) <$> List.find ok near.

Fixpoint shortest (fuel : nat) (x : float) (a b d n : Z) : option (Z * Z) :=
  match fuel with
  | O => None
  | S f => match digits_n x a b d n with Some r => Some r | None => shortest f x a b d (n + 1) end
  end.

(** The layout of [repr]: [c / 10^k], scientific for a point far from the
    digits. *)
Definition layout (c k : Z) : str :=
  let ds := str_of_Z c in
  let n := Z.of_nat (length ds) in
  let p := n - k in
  let stripped := rstrip (Ascii.eqb "0"%char) ds in
  if (-4 <? p) && (p <=? 16) then
    if p <=? 0 then "0." ++ replicate (Z.to_nat (- p)) "0"%char ++ stripped
    else
      let frac := drop (Z.to_nat p) stripped in
      take (Z.to_nat p) ds ++ replicate (Z.to_nat (p - n)) "0"%char ++ "." ++
      (match frac with [] => "0" : str | _ => frac end)
  else
    let e := p - 1 in
    take 1 stripped ++ (match drop 1 stripped with [] => [] | f => "." ++ f end) ++ "e" ++
    (if e <? 0 then "-" : str else "+") ++ pad_left "0"%char 2 (str_of_Z (Z.abs e)).

(** 17 digits identify a double, so that a longer search is not needed;
    [None] would be a double that none of them reads back as. *)
Definition float_repr (x : float) : option str :=
  match x with
  | S754_zero s => Some (if s then "-0.0" : str else "0.0")
  | S754_infinity s => Some (if s then "-inf" : str else "inf")
  | S754_nan => Some ("nan" : str)
  | S754_finite s m e =>
      let '(a, b) := ratio m e in
      '(c, k) ← shortest 17 (S754_finite false m e) a b (decpt a b) 1;
      Some ((if s then "-" : str else []) ++ layout c k)
  end.

(** ** Rounding to decimals *)

(** [n / 2^k] to the nearest integer, ties to even. *)
Definition round_shift (n k : Z) : Z :=
  let q := Z.shiftr n k in
  let r := n - Z.shiftl q k in
  let half := Z.shiftl 1 (k - 1) in
  if (half <? r) || ((r =? half) && Z.odd q) then q + 1 else q.

(** [x * 10^n] to the nearest integer, for a finite [x]. *)
Definition times10 (m : positive) (e n : Z) : Z :=
  if 0 <=? e then Z.shiftl (Z.pos m * 10 ^ n) e else round_shift (Z.pos m * 10 ^ n) (- e).

(** [round(x, n)] for [n >= 0]. *)
Definition py_round (x : float) (n : Z) : float :=
  match x with
  | S754_finite s m e => of_decimal s (times10 m e n) (- n)
  | _ => x
  end.

(** [f'{x:0.2f}'] for a non-negative finite double. *)
Definition fmt_2f (x : float) : str :=
  let hundredths := match x with S754_finite _ m e => times10 m e 2 | _ => 0 end in
  str_of_Z (hundredths / 100) ++ "." ++ pad_left "0"%char 2 (str_of_Z (hundredths mod 100)).

Definition reprs (l : list str) : list (option str) := (fun s => x ← py_float s; float_repr x) <$> l.
Example float_ex :
  reprs ["0.1" : str; "-1.50" : str; "1e16" : str; "123456789012345678" : str; "5e-324" : str; "0.0001" : str;
         "1e-5" : str; "1.7976931348623157e308" : str; "1e309" : str; "-0" : str; " .5 " : str; "5." : str; "1_0" : str;
         "9007199254740993" : str; "2.5e-7" : str; "100" : str; "1e22" : str; "9999999999999998" : str]
  = Some <$> (["0.1" : str; "-1.5" : str; "1e+16" : str; "1.2345678901234568e+17" : str; "5e-324" : str; "0.0001" : str;
               "1e-05" : str; "1.7976931348623157e+308" : str; "inf" : str; "-0.0" : str; "0.5" : str; "5.0" : str; "10.0" : str;
               "9007199254740992.0" : str; "2.5e-07" : str; "100.0" : str; "1e+22" : str; "9999999999999998.0" : str]).
Proof. by_compute. Qed.
Example float_bad_ex : reprs ["" : str; "." : str; "1e" : str; "1__0" : str; "0x1" : str; "1 2" : str] = replicate 6 None.
Proof. by_compute. Qed.
Example round_ex :
  (fun s => x ← py_float s; float_repr (py_round x 2)) <$> ["2.675" : str; "0.125" : str; "1234.5678" : str]
  = [Some ("2.67" : str); Some ("0.12" : str); Some ("1234.57" : str)].
Proof. by_compute. Qed.

(** A finite double divided by itself is one. *)
Lemma div_self s m e : SFdiv (S754_finite s m e) (S754_finite s m e) = double_of 1.
Proof.
  unfold SFdiv, SpecFloat.SFdiv, SFdiv_core_binary. rewrite xorb_nilpotent.
  replace (fexp 53 1024 _) with (-53) by (rewrite Z.add_comm, Z.sub_diag; reflexivity).
  rewrite Z.sub_diag. change (Z.min (-53) 0) with (-53). change (0 - -53) with 53. cbn [Z.sub].
  rewrite Z.shiftl_mul_pow2 by done.
  assert (Z.div_eucl (Z.pos m * 2 ^ 53) (Z.pos m) = (2 ^ 53, 0)) as ->;
    [|unfold new_location; by destruct (Z.even (Z.pos m))].
  pose proof (Z.div_mul (2 ^ 53) (Z.pos m) ltac:(done)) as Hd.
  pose proof (Z.mod_mul (2 ^ 53) (Z.pos m) ltac:(done)) as Hm.
  rewrite (Z.mul_comm (2 ^ 53)) in Hd, Hm. unfold Z.div, Z.modulo in Hd, Hm.
  destruct (Z.div_eucl (Z.pos m * 2 ^ 53) (Z.pos m)) as [q r]. congruence.
Qed.
