(* ===== verification/CapDecode.v ===== *)
(** * Capability decoding in the trace comparison

    [expand_perms], [parse_sail_perms] and [parse_ibex_cap] of
    dv/cheriot/scripts/compare_trace.py, the RTL functions they mirror
    ([Module Rtl], from rtl/cheri_pkg.sv), and the proofs that the script's
    decoder agrees with the hardware's and with the CHERIoT bounds formula. *)

From S2P Require Import Prelude Bits PyStr PyRe.
From Stdlib Require Import Ascii.
Local Open Scope Z_scope.

(** ** The script *)

Definition PERM_GL := 0.
Definition PERM_LG := 1.
Definition PERM_SD := 2.
Definition PERM_LM := 3.
Definition PERM_SL := 4.
Definition PERM_LD := 5.
Definition PERM_MC := 6.
Definition PERM_SR := 7.
Definition PERM_EX := 8.
Definition PERM_US := 9.
Definition PERM_SE := 10.
Definition PERM_U0 := 11.

Definition PERM_MC_IMSK := (1 << PERM_LD) .| (1 << PERM_MC) .| (1 << PERM_SD).
Definition PERM_LC_IMSK := (1 << PERM_LD) .| (1 << PERM_MC).
Definition PERM_SC_IMSK := (1 << PERM_SD) .| (1 << PERM_MC).
Definition PERM_DD_IMSK := 0.
Definition PERM_EX_IMSK := (1 << PERM_EX) .| (1 << PERM_MC) .| (1 << PERM_LD).
Definition PERM_SE_IMSK := 0.

Definition expand_perms (cperms_in : Z) : Z :=
  let perms := 0 .| (cperms_in >> 5) in
  let cperms := cperms_in .& 0x1f in
  if (cperms >> 3) =? 0x3 then
    perms .| ((cperms .& 0x1) << PERM_LG)
          .| (((cperms .& 0x2) >> 1) << PERM_LM)
          .| (((cperms .& 0x4) >> 2) << PERM_SL)
          .| PERM_MC_IMSK
  else if (cperms >> 2) =? 0x5 then
    perms .| ((cperms .& 0x1) << PERM_LG)
          .| (((cperms .& 0x2) >> 1) << PERM_LM)
          .| PERM_LC_IMSK
  else if cperms =? 0x10 then
    perms .| PERM_SC_IMSK
  else if (cperms >> 2) =? 0x4 then
    perms .| ((cperms .& 0x1) << PERM_SD)
          .| (((cperms .& 0x2) >> 1) << PERM_LD)
          .| PERM_DD_IMSK
  else if (cperms >> 3) =? 0x1 then
    perms .| ((cperms .& 0x1) << PERM_LG)
          .| (((cperms .& 0x2) >> 1) << PERM_LM)
          .| (((cperms .& 0x4) >> 2) << PERM_SR)
          .| PERM_EX_IMSK
  else if (cperms >> 3) =? 0x0 then
    perms .| ((cperms .& 0x1) << PERM_US)
          .| (((cperms .& 0x2) >> 1) << PERM_SE)
          .| (((cperms .& 0x4) >> 2) << PERM_U0)
          .| PERM_SE_IMSK
  else perms.

(** [re.search(pat, s)] used as a condition. *)
Definition searches (r : regex) (s : str) : bool :=
  match re_search r s with Some _ => true | None => false end.

Definition parse_sail_perms (perm_str : str) : Z :=
  let perms := 0 in
  let perms := if searches (lit "G") perm_str then perms .| (1 << PERM_GL) else perms in
  let perms := if searches (lit "R") perm_str then perms .| (1 << PERM_LD) else perms in
  let perms := if searches (lit "W") perm_str then perms .| (1 << PERM_SD) else perms in
  let perms := if searches (lit "c") perm_str then perms .| (1 << PERM_MC) else perms in
  let perms := if searches (lit "g") perm_str then perms .| (1 << PERM_LG) else perms in
  let perms := if searches (lit "m") perm_str then perms .| (1 << PERM_LM) else perms in
  let perms := if searches (lit "l") perm_str then perms .| (1 << PERM_SL) else perms in
  let perms := if searches (lit "X") perm_str then perms .| (1 << PERM_EX) else perms in
  let perms := if searches (lit "a") perm_str then perms .| (1 << PERM_SR) else perms in
  let perms := if searches (lit "S") perm_str then perms .| (1 << PERM_SE) else perms in
  let perms := if searches (lit "U") perm_str then perms .| (1 << PERM_US) else perms in
  let perms := if searches (lit "0") perm_str then perms .| (1 << PERM_U0) else perms in
  perms.

(** The six-tuple the parsers return: (tag, perms, object type, 0, top, base). *)
Record cap := Cap { c_tag : Z; c_perms : Z; c_otype : Z; c_zero : Z; c_top : Z; c_base : Z }.
#[export] Instance cap_eq_dec : EqDecision cap.
Proof. solve_decision. Defined.

(** The tuple as Python indexes and slices it. *)
Definition cap_tuple (c : cap) : list Z :=
  [c_tag c; c_perms c; c_otype c; c_zero c; c_top c; c_base c].
Definition null_cap : cap := Cap 0 0 0 0 0 0.

Definition parse_ibex_cap (cap_val addr_val : Z) : cap :=
  let tag := cap_val >> 32 in
  let cperms := (cap_val >> 25) .& 0x3f in
  let obj_type := (cap_val >> 22) .& 0x7 in
  let exp := (cap_val >> 18) .& 0xf in
  let exp := if exp =? 15 then 24 else exp in
  let top9 := (cap_val >> 9) .& 0x1ff in
  let base9 := cap_val .& 0x1ff in
  let addrmi9 := (addr_val >> exp) .& 0x1ff in
  let top_cor :=
    if (top9 <? base9) && (addrmi9 <? base9) then 0
    else if (base9 <=? top9) && (base9 <=? addrmi9) then 0
    else if (top9 <? base9) && (base9 <=? addrmi9) then 1
    else -1 in
  let base_cor := if addrmi9 <? base9 then 1 else 0 in
  let top := if exp =? 24 then top9 << exp
             else (top9 << exp) + (((addr_val >> (exp + 9)) + top_cor) << (exp + 9)) in
  let base := if exp =? 24 then base9 << exp
              else (base9 << exp) + (((addr_val >> (exp + 9)) - base_cor) << (exp + 9)) in
  let top := top .& 0x1ffffffff in
  let base := base .& 0xffffffff in
  let perm := expand_perms cperms in
  Cap tag perm obj_type 0 top base.

(** ** The RTL the script mirrors (rtl/cheri_pkg.sv) *)

Module Rtl.

(** [`TEST_IMSK(P, M)] on 12-bit vectors. *)
Definition TEST_IMSK (p m : Z) : bool := trunc 12 (p .| Z.lnot m) =? 2 ^ 12 - 1.

Definition compress_perms (perms : Z) : Z :=
  setb 5 (bit perms PERM_GL) .|
  if TEST_IMSK perms PERM_EX_IMSK then
    setb 0 (bit perms PERM_LG) .| setb 1 (bit perms PERM_LM) .|
    setb 2 (bit perms PERM_SR) .| (1 << 3)
  else if TEST_IMSK perms PERM_MC_IMSK then
    setb 0 (bit perms PERM_LG) .| setb 1 (bit perms PERM_LM) .|
    setb 2 (bit perms PERM_SL) .| (3 << 3)
  else if TEST_IMSK perms PERM_LC_IMSK then
    setb 0 (bit perms PERM_LG) .| setb 1 (bit perms PERM_LM) .| (5 << 2)
  else if TEST_IMSK perms PERM_SC_IMSK then 16
  else if negb ((bit perms PERM_SD .| bit perms PERM_LD) =? 0) then
    setb 0 (bit perms PERM_SD) .| setb 1 (bit perms PERM_LD) .| (4 << 2)
  else
    setb 0 (bit perms PERM_US) .| setb 1 (bit perms PERM_SE) .| setb 2 (bit perms PERM_U0).

Definition get_bound33 (top cor exp addr : Z) : Z :=
  let cor_val := if bit cor 1 =? 1 then 2 ^ 33 - 1 else bit cor 0 in
  let cor_val := trunc 33 (trunc 33 (cor_val << exp) << 9) in
  let mask := trunc 33 (trunc 33 (0x1ffffffff << exp) << 9) in
  let t1 := trunc 33 ((addr .& mask) + cor_val) in
  let t2 := top in
  t1 .| trunc 33 (t2 << exp).

(** The two-bit top correction and the base correction. *)
Definition update_temp_fields (top base addrmi : Z) : Z * Z :=
  let top_hi := top <? base in
  let addr_hi := addrmi <? base in
  (if Bool.eqb top_hi addr_hi then 0 else if top_hi && negb addr_hi then 1 else 3,
   if addr_hi then 1 else 0).

(** [{2{base_cor}}] *)
Definition rep2 (b : Z) : Z := b .| (b << 1).

(** A capability as the register file holds it ([reg_cap_t]). *)
Record reg_cap_t := RegCap {
  r_valid : bool; r_top_cor : Z; r_base_cor : Z; r_exp : Z; r_top : Z; r_base : Z;
  r_otype : Z; r_cperms : Z; r_rsvd : Z }.

(** The metadata word stored to memory, which the tracer prints. *)
Definition reg2memcap_fmt0 (r : reg_cap_t) : Z :=
  let cexp := if r_exp r =? 24 then 15 else trunc 4 (r_exp r) in
  cat [(1, Z.b2z (r_valid r)); (1, r_rsvd r); (6, r_cperms r); (3, r_otype r); (4, cexp);
       (9, r_top r); (9, r_base r)].

End Rtl.

(** ** Fields of a metadata word *)

Definition f_exp (cap_val : Z) : Z :=
  let exp := (cap_val >> 18) .& 0xf in if exp =? 15 then 24 else exp.
Definition f_top9 (cap_val : Z) : Z := (cap_val >> 9) .& 0x1ff.
Definition f_base9 (cap_val : Z) : Z := cap_val .& 0x1ff.
Definition f_addrmi9 (cap_val addr_val : Z) : Z := (addr_val >> f_exp cap_val) .& 0x1ff.
Definition f_cors (cap_val addr_val : Z) : Z * Z :=
  Rtl.update_temp_fields (f_top9 cap_val) (f_base9 cap_val) (f_addrmi9 cap_val addr_val).

(** ** Arithmetic of bit fields *)

Lemma land_ones_mod x w : 0 <= w -> Z.land x (Z.ones w) = x mod 2 ^ w.
Proof. apply Z.land_ones. Qed.

Ltac bits_to_arith :=
  change 0x1ff with (Z.ones 9) in *; change 0xf with (Z.ones 4) in *;
  change 0x1ffffffff with (Z.ones 33) in *; change 0xffffffff with (Z.ones 32) in *;
  rewrite ?Z.land_ones in * by lia;
  rewrite ?Z.shiftr_div_pow2 in * by lia; rewrite ?Z.shiftl_mul_pow2 in * by lia.

Lemma f_exp_range v : 0 <= f_exp v <= 14 \/ f_exp v = 24.
Proof.
  unfold f_exp. cbv zeta.
  change ((v >> 18) .& 0xf) with ((v >> 18) .& Z.ones 4). rewrite Z.land_ones by lia.
  change (2 ^ 4) with 16. pose proof (Z.mod_pos_bound (v >> 18) 16 ltac:(lia)).
  destruct (Z.eqb_spec ((v >> 18) mod 16) 15); lia.
Qed.

Lemma field9_range x : 0 <= Z.land x 0x1ff < 512.
Proof.
  change 0x1ff with (Z.ones 9). rewrite Z.land_ones by lia.
  apply Z.mod_pos_bound. lia.
Qed.

(** The top correction as the script computes it. *)
Definition top_cor_of (top9 base9 addrmi9 : Z) : Z :=
  if (top9 <? base9) && (addrmi9 <? base9) then 0
  else if (base9 <=? top9) && (base9 <=? addrmi9) then 0
  else if (top9 <? base9) && (base9 <=? addrmi9) then 1
  else -1.
Definition base_cor_of (base9 addrmi9 : Z) : Z := if addrmi9 <? base9 then 1 else 0.

(** The script's bounds in closed form: with exponent 24 the address does not
    contribute, because its bits above 33 are zero. *)
Lemma parse_ibex_cap_top v a :
  0 <= a < 2 ^ 32 ->
  c_top (parse_ibex_cap v a) =
  (f_top9 v * 2 ^ f_exp v +
   (a / 2 ^ (f_exp v + 9) + top_cor_of (f_top9 v) (f_base9 v) (f_addrmi9 v a))
   * 2 ^ (f_exp v + 9)) mod 2 ^ 33.
Proof.
  intros Ha. unfold parse_ibex_cap. cbn [c_top]. fold (f_exp v) (f_top9 v) (f_base9 v).
  fold (f_addrmi9 v a). fold (top_cor_of (f_top9 v) (f_base9 v) (f_addrmi9 v a)).
  pose proof (f_exp_range v). change 0x1ffffffff with (Z.ones 33). rewrite Z.land_ones by lia.
  destruct (Z.eqb_spec (f_exp v) 24) as [->|Hne].
  - rewrite Z.shiftl_mul_pow2 by lia. by rewrite Z.add_mod, Z.mod_mul, Z.add_0_r, Z.mod_mod by lia.
  - by rewrite !Z.shiftl_mul_pow2, Z.shiftr_div_pow2 by lia.
Qed.

Lemma parse_ibex_cap_base v a :
  0 <= a < 2 ^ 32 ->
  c_base (parse_ibex_cap v a) =
  (f_base9 v * 2 ^ f_exp v +
   (a / 2 ^ (f_exp v + 9) - base_cor_of (f_base9 v) (f_addrmi9 v a))
   * 2 ^ (f_exp v + 9)) mod 2 ^ 32.
Proof.
  intros Ha. unfold parse_ibex_cap. cbn [c_base]. fold (f_exp v) (f_base9 v).
  fold (f_addrmi9 v a). fold (base_cor_of (f_base9 v) (f_addrmi9 v a)).
  pose proof (f_exp_range v). change 0xffffffff with (Z.ones 32). rewrite Z.land_ones by lia.
  destruct (Z.eqb_spec (f_exp v) 24) as [->|Hne].
  - rewrite Z.shiftl_mul_pow2 by lia. change (2 ^ (24 + 9)) with (2 * 2 ^ 32).
    by rewrite Z.mul_assoc, Z.add_mod, Z.mod_mul, Z.add_0_r, Z.mod_mod by lia.
  - by rewrite !Z.shiftl_mul_pow2, Z.shiftr_div_pow2 by lia.
Qed.

Lemma pow2_add_9 e : 0 <= e -> 2 ^ (e + 9) = 512 * 2 ^ e.
Proof. intros. rewrite Z.pow_add_r by lia. lia. Qed.

Lemma addrmi9_div v a :
  0 <= a -> a / 2 ^ f_exp v = 512 * (a / 2 ^ (f_exp v + 9)) + f_addrmi9 v a.
Proof.
  intros Ha. pose proof (f_exp_range v). unfold f_addrmi9.
  change 0x1ff with (Z.ones 9). rewrite Z.land_ones, Z.shiftr_div_pow2 by lia.
  rewrite pow2_add_9, (Z.mul_comm 512 (2 ^ _)), <-Z.div_div by lia.
  apply Z.div_mod. lia.
Qed.

Lemma mod_sub_l x y n : 0 < n -> (x mod n - y) mod n = (x - y) mod n.
Proof. intros. by rewrite Zminus_mod_idemp_l. Qed.

(** The unmasked base lies at most 2^(e+9) - 1 below the address. *)
Lemma base_below_addr v a :
  0 <= a ->
  0 <= a - (f_base9 v * 2 ^ f_exp v +
     (a / 2 ^ (f_exp v + 9) - base_cor_of (f_base9 v) (f_addrmi9 v a)) * 2 ^ (f_exp v + 9))
    < 2 ^ (f_exp v + 9).
Proof.
  intros Ha. pose proof (f_exp_range v) as He.
  pose proof (addrmi9_div v a Ha) as Hd.
  pose proof (field9_range v) as HB. fold (f_base9 v) in HB.
  pose proof (field9_range (a >> f_exp v)) as HS. fold (f_addrmi9 v a) in HS.
  rewrite pow2_add_9 in * by lia.
  pose proof (Z.div_mod a (2 ^ f_exp v) ltac:(lia)) as Hm.
  pose proof (Z.mod_pos_bound a (2 ^ f_exp v) ltac:(lia)) as Hr.
  set (P := 2 ^ f_exp v) in *. set (q := a / (512 * P)) in *.
  set (s := f_addrmi9 v a) in *. set (B := f_base9 v) in *.
  unfold base_cor_of. destruct (Z.ltb_spec s B); nia.
Qed.

(** The distance between the unmasked bounds. *)
Lemma top_minus_base T B s :
  0 <= T < 512 -> 0 <= B < 512 -> 0 <= s < 512 ->
  T - B + 512 * (top_cor_of T B s + base_cor_of B s) = (T - B) mod 512.
Proof.
  intros HT HB HS.
  assert ((T - B) mod 512 = if T <? B then T - B + 512 else T - B) as ->.
  { destruct (Z.ltb_spec T B).
    - symmetry. apply (Z.mod_unique_pos _ _ (-1)); lia.
    - apply Z.mod_small. lia. }
  unfold top_cor_of, base_cor_of.
  destruct (Z.ltb_spec T B), (Z.ltb_spec s B), (Z.leb_spec B T), (Z.leb_spec B s);
    cbn [andb]; lia.
Qed.

(** ** What the permission encodings mean

    The six formats of the CHERIoT compressed permission field; the flags are the
    explicit bits, the other permissions of a format are implied by it. *)

Inductive perm_format :=
| MemCapRW (lg lm sl : bool)
| MemCapRO (lg lm : bool)
| MemCapWO
| MemData (ld sd : bool)
| Executable (lg lm sr : bool)
| Sealing (us se u0 : bool).

Definition format_of (c : Z) : perm_format :=
  let b := Z.testbit c in
  match b 4, b 3, b 2 with
  | true, true, sl => MemCapRW (b 0) (b 1) sl
  | true, false, true => MemCapRO (b 0) (b 1)
  | true, false, false =>
      if negb (b 0) && negb (b 1) then MemCapWO else MemData (b 1) (b 0)
  | false, true, sr => Executable (b 0) (b 1) sr
  | false, false, u0 => Sealing (b 0) (b 1) u0
  end.

Definition when (b : bool) (p : Z) : list Z := if b then [p] else [].
Definition perms_of (f : perm_format) : list Z :=
  match f with
  | MemCapRW lg lm sl =>
      [PERM_LD; PERM_SD; PERM_MC] ++ when lg PERM_LG ++ when lm PERM_LM ++ when sl PERM_SL
  | MemCapRO lg lm => [PERM_LD; PERM_MC] ++ when lg PERM_LG ++ when lm PERM_LM
  | MemCapWO => [PERM_SD; PERM_MC]
  | MemData ld sd => when ld PERM_LD ++ when sd PERM_SD
  | Executable lg lm sr =>
      [PERM_EX; PERM_LD; PERM_MC] ++ when lg PERM_LG ++ when lm PERM_LM ++ when sr PERM_SR
  | Sealing us se u0 => when us PERM_US ++ when se PERM_SE ++ when u0 PERM_U0
  end.
Definition perm_mask (l : list Z) : Z := foldr (fun i m => (1 << i) .| m) 0 l.

Lemma perm_mask_testbit l i :
  Forall (fun p => 0 <= p) l -> 0 <= i ->
  Z.testbit (perm_mask l) i = bool_decide (i ∈ l).
Proof.
  intros H Hi. induction H as [|p l Hp Hl IH]; cbn [perm_mask foldr].
  - by rewrite Z.bits_0.
  - fold (perm_mask l). rewrite Z.lor_spec, IH, Z.shiftl_1_l, Z.pow2_bits_eqb by lia.
    destruct (Z.eqb_spec p i) as [->|Hne]; cbn.
    + symmetry. apply bool_decide_eq_true_2. apply elem_of_cons. by left.
    + apply bool_decide_ext. rewrite elem_of_cons. naive_solver.
Qed.

(** The twelve letters of a Sail permission string and their bits. *)
Definition sail_letters : list (ascii * Z) :=
  [("G", PERM_GL); ("R", PERM_LD); ("W", PERM_SD); ("c", PERM_MC); ("g", PERM_LG);
   ("m", PERM_LM); ("l", PERM_SL); ("X", PERM_EX); ("a", PERM_SR); ("S", PERM_SE);
   ("U", PERM_US); ("0", PERM_U0)]%char.

(** Searching for a literal is the substring test. *)
Lemma match_at_lit t b a :
  is_Some (match_at (lit t) b a) <-> starts_with t a = true.
Proof.
  rewrite starts_with_spec. unfold match_at. split.
  - intros [m H]. destruct (rm (lit t) (Cur b a []) Some) as [x|] eqn:E; [|done].
    clear H m. revert b a x E; induction t as [|c t IH]; intros b a x E; [by exists a|].
    cbn in E. destruct a as [|d a]; [done|].
    destruct (Ascii.eqb_spec c d) as [->|]; [|done].
    apply IH in E as [u ->]. by exists u.
  - intros [u ->]. rewrite rm_lit. by eexists.
Qed.

Lemma search_from_lit t b a :
  is_Some (search_from (lit t) b a) <-> contains t a = true.
Proof.
  revert b; induction a as [|c a IH]; intros b; cbn [search_from contains].
  - rewrite orb_false_r, <-(match_at_lit t b []). by destruct (match_at (lit t) b []).
  - rewrite orb_true_iff, <-IH, <-(match_at_lit t b (c :: a)).
    destruct (match_at (lit t) b (c :: a)); cbn.
    + split; [by left|done].
    + split; [by right|]. intros [[? [=]]|H]; exact H.
Qed.

Lemma searches_lit t s : searches (lit t) s = contains t s.
Proof.
  unfold searches, re_search. pose proof (search_from_lit t [] s) as H.
  destruct (search_from (lit t) [] s), (contains t s); try done.
  - by destruct (proj1 H (mk_is_Some _ _ eq_refl)).
  - by destruct (proj2 H eq_refl).
Qed.

Lemma contains_chr c s : contains [c] s = bool_decide (c ∈ s).
Proof.
  induction s as [|d s IH]; cbn [contains starts_with].
  - symmetry. apply bool_decide_eq_false_2. apply not_elem_of_nil.
  - rewrite IH, andb_true_r. destruct (Ascii.eqb_spec c d) as [->|]; cbn.
    + symmetry. apply bool_decide_eq_true_2, elem_of_cons. by left.
    + apply bool_decide_ext. rewrite elem_of_cons. naive_solver.
Qed.

(** *** Theorems *)

(** C30 (type: the decoded bounds).  For every metadata word and every 32-bit
    address, when the exponent is not the special value 24, the decoded base is a
    multiple of [2^e] that lies less than [2^(e+9)] below the address (modulo
    2^32), and the decoded length is [(T - B) mod 512] units of [2^e]: the
    CHERIoT bounds formula, so an address inside the representable region always
    decodes to the same bounds. *)
Theorem parse_ibex_cap_bounds (v a : Z) :
  0 <= a < 2 ^ 32 -> f_exp v <> 24 ->
  let c := parse_ibex_cap v a in
  let e := f_exp v in
  0 <= c_base c < 2 ^ 32 /\ 0 <= c_top c < 2 ^ 33 /\
  c_base c mod 2 ^ e = 0 /\
  (a - c_base c) mod 2 ^ 32 < 2 ^ (e + 9) /\
  (c_top c - c_base c) mod 2 ^ 32 = (f_top9 v - f_base9 v) mod 512 * 2 ^ e.
Proof.
  intros Ha He. cbv zeta. rewrite parse_ibex_cap_top, parse_ibex_cap_base by done.
  pose proof (f_exp_range v) as Hr. pose proof (base_below_addr v a ltac:(lia)) as Hb.
  pose proof (field9_range v) as HB. fold (f_base9 v) in HB.
  pose proof (field9_range (v >> 9)) as HT. fold (f_top9 v) in HT.
  pose proof (field9_range (a >> f_exp v)) as HS. fold (f_addrmi9 v a) in HS.
  pose proof (top_minus_base _ _ _ HT HB HS) as Hlen.
  assert (2 ^ 32 = 2 ^ (32 - f_exp v) * 2 ^ f_exp v) as H32
    by (rewrite <-Z.pow_add_r by lia; f_equal; lia).
  assert (2 ^ (f_exp v + 9) <= 2 ^ 23) as Hsmall by (apply Z.pow_le_mono_r; lia).
  split_and!; try (apply Z.mod_pos_bound; lia).
  - rewrite Z.mod_mod_divide by (eexists; exact H32).
    rewrite pow2_add_9, Z.mul_assoc, <-Z.mul_add_distr_r by lia. apply Z.mod_mul. lia.
  - rewrite Zminus_mod_idemp_r, Z.mod_small by lia. lia.
  - rewrite Zminus_mod, Z.mod_mod_divide, Z.mod_mod, <-Zminus_mod by (by exists 2 || lia).
    rewrite pow2_add_9 in Hsmall |- * by lia.
    pose proof (Z.mod_pos_bound (f_top9 v - f_base9 v) 512 ltac:(lia)).
    match goal with |- ?x mod _ = _ =>
      replace x with ((f_top9 v - f_base9 v) mod 512 * 2 ^ f_exp v)
        by (rewrite <-Hlen; ring) end.
    apply Z.mod_small. nia.
Qed.

(** The witness: a 512-byte region at 0x80001000, address 0x80001010. *)
Example parse_ibex_cap_bounds_witness :
  c_base (parse_ibex_cap 0x1fe020000 0x80001010) mod 2 ^ 0 = 0.
Proof.
  refine (proj1 (proj2 (proj2 (parse_ibex_cap_bounds 0x1fe020000 0x80001010 _ _)))).
  - vm_compute. split; congruence.
  - vm_compute. congruence.
Defined.

(** ** Agreement with the RTL *)

(** The correction the RTL encodes in two bits. *)
Definition cor_value (cor : Z) : Z := if cor =? 3 then -1 else cor.

Lemma trunc_shift_twice x e :
  0 <= e -> trunc 33 (trunc 33 (x << e) << 9) = (x * 2 ^ (e + 9)) mod 2 ^ 33.
Proof.
  intros He. unfold trunc. rewrite !Z.shiftl_mul_pow2, pow2_add_9 by lia.
  rewrite Zmult_mod_idemp_l. f_equal. lia.
Qed.

Lemma get_bound33_arith T cor e a :
  0 <= T < 512 -> cor = 0 \/ cor = 1 \/ cor = 3 -> 0 <= e <= 24 -> 0 <= a < 2 ^ 32 ->
  Rtl.get_bound33 T cor e a =
  (T * 2 ^ e + (a / 2 ^ (e + 9) + cor_value cor) * 2 ^ (e + 9)) mod 2 ^ 33.
Proof.
  intros HT Hcor He Ha. unfold Rtl.get_bound33. rewrite !trunc_shift_twice by lia.
  set (m := e + 9). set (N := 2 ^ (33 - m)).
  assert (2 ^ 33 = N * 2 ^ m) as H33 by (unfold N; rewrite <-Z.pow_add_r by lia; f_equal; lia).
  assert (0 < N) as HN by (unfold N; lia).
  assert ((0x1ffffffff * 2 ^ m) mod 2 ^ 33 = Z.ones (33 - m) * 2 ^ m) as ->.
  { rewrite Z.ones_equiv. fold N. rewrite <-Z.sub_1_r. symmetry.
    change 0x1ffffffff with (2 ^ 33 - 1). assert (0 < 2 ^ m) by lia.
    apply (Z.mod_unique_pos _ _ (2 ^ m - 1)); rewrite H33; [nia|ring]. }
  rewrite land_high_mask by (lia || (replace (m + (33 - m)) with 33 by lia; lia)).
  assert (((if bit cor 1 =? 1 then 2 ^ 33 - 1 else bit cor 0) * 2 ^ m) mod 2 ^ 33
          = (cor_value cor * 2 ^ m) mod 2 ^ 33) as ->.
  { destruct Hcor as [-> |[-> | ->]]; [done|done|].
    change (cor_value 3) with (-1). change (if _ =? 1 then _ else _) with (2 ^ 33 - 1).
    rewrite Z.mul_sub_distr_r. rewrite <-Zminus_mod_idemp_l, Z.mul_comm, Z.mod_mul by lia.
    f_equal. lia. }
  assert (trunc 33 (T << e) = T * 2 ^ e) as ->.
  { unfold trunc. rewrite Z.shiftl_mul_pow2 by lia. apply Z.mod_small.
    assert (2 ^ e <= 2 ^ 24) by (apply Z.pow_le_mono_r; lia). nia. }
  unfold trunc. rewrite Zplus_mod_idemp_r, <-Z.mul_add_distr_r, H33.
  rewrite Z.mul_mod_distr_r by lia.
  pose proof (Z.mod_pos_bound (a / 2 ^ m + cor_value cor) N HN) as HJ.
  set (J := (a / 2 ^ m + cor_value cor) mod N) in *.
  assert (0 <= T * 2 ^ e < 2 ^ m) as HTe by (unfold m; rewrite pow2_add_9 by lia; nia).
  rewrite lor_disjoint by lia. rewrite <-H33.
  rewrite <-(Z.add_mod_idemp_r (T * 2 ^ e)), H33, Z.mul_mod_distr_r by lia. fold J.
  symmetry. rewrite Z.add_comm. apply Z.mod_small. nia.
Qed.

(** C10 (equivalence: script and hardware decode the same bounds).  For every
    metadata word and 32-bit address the top and base the script prints are the
    ones the RTL's [get_bound33] computes from the same fields with the
    corrections of [update_temp_fields], including exponent 24, where the script
    takes a branch of its own. *)
Theorem parse_ibex_cap_rtl (v a : Z) :
  0 <= a < 2 ^ 32 ->
  c_top (parse_ibex_cap v a) =
    Rtl.get_bound33 (f_top9 v) (f_cors v a).1 (f_exp v) a /\
  c_base (parse_ibex_cap v a) =
    trunc 32 (Rtl.get_bound33 (f_base9 v) (Rtl.rep2 (f_cors v a).2) (f_exp v) a).
Proof.
  intros Ha. pose proof (f_exp_range v) as He.
  pose proof (field9_range v) as HB. fold (f_base9 v) in HB.
  pose proof (field9_range (v >> 9)) as HT. fold (f_top9 v) in HT.
  rewrite parse_ibex_cap_top, parse_ibex_cap_base by done.
  unfold f_cors, Rtl.update_temp_fields. cbn [fst snd]. split.
  - rewrite get_bound33_arith; [|done| |lia|done].
    + do 3 f_equal. unfold top_cor_of.
      destruct (Z.ltb_spec (f_top9 v) (f_base9 v)), (Z.ltb_spec (f_addrmi9 v a) (f_base9 v)),
        (Z.leb_spec (f_base9 v) (f_top9 v)), (Z.leb_spec (f_base9 v) (f_addrmi9 v a));
        try lia; reflexivity.
    + repeat case_match; auto.
  - unfold trunc. rewrite get_bound33_arith; [|done| |lia|done].
    + rewrite Z.mod_mod_divide by (by exists 2). unfold base_cor_of.
      destruct (f_addrmi9 v a <? f_base9 v).
      * change (cor_value _) with (-1). f_equal; ring.
      * change (cor_value _) with 0. f_equal; ring.
    + destruct (f_addrmi9 v a <? f_base9 v); cbn; auto.
Qed.

Example parse_ibex_cap_rtl_witness :
  c_top (parse_ibex_cap 0x17e3ffc00 0x12345678) =
  Rtl.get_bound33 (f_top9 0x17e3ffc00) (f_cors 0x17e3ffc00 0x12345678).1
    (f_exp 0x17e3ffc00) 0x12345678.
Proof. apply (parse_ibex_cap_rtl 0x17e3ffc00 0x12345678). vm_compute. split; congruence. Defined.

(** (functional: the permission encodings).  A six-bit compressed permission
    field expands to exactly the permissions of its CHERIoT format, plus global
    when bit 5 is set; bit [i] of the result is set iff permission [i] is
    granted. *)
Theorem expand_perms_format (c i : Z) :
  0 <= c < 64 -> 0 <= i ->
  Z.testbit (expand_perms c) i =
    bool_decide (i ∈ when (Z.testbit c 5) PERM_GL ++ perms_of (format_of c)).
Proof.
  intros Hc Hi.
  rewrite (eq_below expand_perms
    (fun c => perm_mask (when (Z.testbit c 5) PERM_GL ++ perms_of (format_of c))) 64)
    by (done || by_compute).
  apply perm_mask_testbit; [|done].
  assert (forallb (fun c => forallb (fun p => 0 <=? p)
    (when (Z.testbit c 5) PERM_GL ++ perms_of (format_of c))) (seqZ 0 64) = true) as H
    by by_compute.
  pose proof (forall_below _ 64 H c Hc) as Hp. cbv beta in Hp.
  rewrite forallb_forall in Hp. apply Forall_forall. intros p Hin%list_elem_of_In%Hp. lia.
Qed.

Example expand_perms_format_witness : Z.testbit (expand_perms 0x3f) PERM_SL = true.
Proof. rewrite (expand_perms_format 0x3f PERM_SL); [reflexivity|lia|vm_compute; congruence]. Defined.

(** C31 (roundtrip: compressed permissions).  The RTL's [compress_perms] undoes
    the script's [expand_perms] on every six-bit field, so no permission
    information is lost in a comparison and distinct fields expand differently. *)
Theorem compress_expand_perms (c : Z) :
  0 <= c < 64 -> Rtl.compress_perms (expand_perms c) = c.
Proof.
  intros Hc.
  apply (eq_below (fun c => Rtl.compress_perms (expand_perms c)) id 64); [by_compute|done].
Qed.

Example compress_expand_perms_witness : Rtl.compress_perms (expand_perms 0x2f) = 0x2f.
Proof. apply (compress_expand_perms 0x2f). lia. Defined.

(** (safety: write xor execute).  No field value expands to both store and
    execute; system-register access implies execute; and sealing, unsealing and
    user permissions never come with a memory permission. *)
Theorem expand_perms_wx (c : Z) :
  0 <= c < 64 ->
  let p := Z.testbit (expand_perms c) in
  (p PERM_EX && p PERM_SD = false) /\ (p PERM_SR = true -> p PERM_EX = true) /\
  ((p PERM_US || p PERM_SE || p PERM_U0) = true ->
   p PERM_LD || p PERM_SD || p PERM_MC || p PERM_EX = false).
Proof.
  intros Hc p.
  pose proof (forall_below (fun c => let p := Z.testbit (expand_perms c) in
    negb (p PERM_EX && p PERM_SD) && implb (p PERM_SR) (p PERM_EX) &&
    implb (p PERM_US || p PERM_SE || p PERM_U0)
      (negb (p PERM_LD || p PERM_SD || p PERM_MC || p PERM_EX))) 64
    ltac:(by_compute) c Hc) as H.
  cbv beta zeta in H. fold p in H.
  apply andb_prop in H as [[H1%negb_true_iff H2]%andb_prop H3].
  split_and!; [done|by intros Hs; rewrite Hs in H2|].
  intros Hs. rewrite Hs in H3. by apply negb_true_iff.
Qed.

Example expand_perms_wx_witness :
  Z.testbit (expand_perms 0x2f) PERM_EX && Z.testbit (expand_perms 0x2f) PERM_SD = false.
Proof. apply (expand_perms_wx 0x2f). lia. Defined.

(** The Sail parser as a fold over its letters. *)
Lemma parse_sail_perms_fold s :
  parse_sail_perms s =
  foldl (fun m lp => if bool_decide (lp.1 ∈ s) then m .| (1 << lp.2) else m) 0 sail_letters.
Proof.
  unfold parse_sail_perms. rewrite !searches_lit.
  cbn [String.list_ascii_of_string]. rewrite !contains_chr. reflexivity.
Qed.

Lemma fold_letters_testbit (s : str) l m i :
  Forall (fun lp => 0 <= lp.2) l -> 0 <= i ->
  Z.testbit (foldl (fun m lp => if bool_decide (lp.1 ∈ s) then m .| (1 << lp.2) else m) m l) i
  = Z.testbit m i || existsb (fun lp => bool_decide (lp.1 ∈ s) && (lp.2 =? i)) l.
Proof.
  intros H Hi. revert m; induction H as [|[c p] l Hp Hl IH]; intros m; cbn in *.
  - by rewrite orb_false_r.
  - rewrite IH. destruct (bool_decide (c ∈ s)); cbn; [|done].
    by rewrite Z.lor_spec, Z.shiftl_1_l, Z.pow2_bits_eqb, orb_assoc by lia.
Qed.

(** (equivalence: Sail and Ibex permissions).  If a Sail permission string
    contains the letter of a permission exactly when a compressed field grants
    it, the two parsers return the same integer. *)
Theorem sail_ibex_perms_agree (s : str) (c : Z) :
  0 <= c < 64 ->
  Forall (fun lp => bool_decide (lp.1 ∈ s) = Z.testbit (expand_perms c) lp.2) sail_letters ->
  parse_sail_perms s = expand_perms c.
Proof.
  intros Hc H. rewrite parse_sail_perms_fold. apply Z.bits_inj'. intros i Hi.
  rewrite fold_letters_testbit, Z.bits_0, orb_false_l;
    [|by repeat constructor|done].
  apply eq_bool_prop_intro. split.
  - intros [[l p] [Hin [Hl Hp]%andb_prop]]%Is_true_true%existsb_exists. cbn [fst snd] in Hl, Hp.
    apply list_elem_of_In in Hin. assert (p = i) as <- by lia. apply Is_true_true.
    rewrite Forall_forall in H. pose proof (H (l, p) Hin) as E. cbn in E. by rewrite <-E.
  - intros Hb%Is_true_true. apply Is_true_true, existsb_exists.
    assert (i < 12) as Hlt.
    { apply Z.nle_gt. intros Hge.
      pose proof (forall_below (fun c => (0 <=? expand_perms c) && (expand_perms c <? 4096)) 64
        ltac:(by_compute) c Hc) as Hr. cbv beta in Hr.
      rewrite (testbit_small _ 12) in Hb; [done|lia|lia|lia]. }
    assert (exists l, In (l, i) sail_letters) as [l Hl].
    { assert (In i [0;1;2;3;4;5;6;7;8;9;10;11]) as Hin by (cbn; lia).
      cbn in Hin. repeat destruct Hin as [<-|Hin]; try done;
        eexists; repeat first [left; reflexivity|right]. }
    exists (l, i). split; [by apply Hl|]. cbn [fst snd]. rewrite Z.eqb_refl, andb_true_r.
    apply list_elem_of_In in Hl. rewrite Forall_forall in H.
    pose proof (H (l, i) Hl) as E. cbn in E. by rewrite E.
Qed.

Example sail_ibex_perms_agree_witness : parse_sail_perms "G R-cgm- X- ---" = expand_perms 0x2b.
Proof. apply (sail_ibex_perms_agree "G R-cgm- X- ---" 0x2b); [lia|repeat constructor]. Defined.

(** (roundtrip: the metadata word).  Parsing the word the RTL's
    [reg2memcap_fmt0] packs for a register capability gives back its tag, its
    expanded permissions and its object type. *)
Theorem parse_ibex_cap_memcap (r : Rtl.reg_cap_t) (a : Z) :
  0 <= Rtl.r_rsvd r < 2 -> 0 <= Rtl.r_cperms r < 64 ->
  0 <= Rtl.r_otype r < 8 -> 0 <= Rtl.r_exp r <= 14 \/ Rtl.r_exp r = 24 ->
  0 <= Rtl.r_top r < 512 -> 0 <= Rtl.r_base r < 512 ->
  let v := Rtl.reg2memcap_fmt0 r in
  c_tag (parse_ibex_cap v a) = Z.b2z (Rtl.r_valid r) /\
  c_perms (parse_ibex_cap v a) = expand_perms (Rtl.r_cperms r) /\
  c_otype (parse_ibex_cap v a) = Rtl.r_otype r /\
  f_exp v = Rtl.r_exp r /\ f_top9 v = Rtl.r_top r /\ f_base9 v = Rtl.r_base r.
Proof.
  intros Hr Hc Ho He Ht Hb v. pose proof (b2z_fits (Rtl.r_valid r)) as Hv.
  set (ex := if Rtl.r_exp r =? 24 then 15 else trunc 4 (Rtl.r_exp r)).
  assert (0 <= ex < 16 /\ (if ex =? 15 then 24 else ex) = Rtl.r_exp r) as [Hex Hexp].
  { unfold ex. destruct (Z.eqb_spec (Rtl.r_exp r) 24); [split; [lia|by cbn]|].
    rewrite trunc_small by lia. destruct (Z.eqb_spec (Rtl.r_exp r) 15); lia. }
  assert (forall k x w, 0 <= w -> (k >> x) .& Z.ones w = part k x w) as Hpart
    by (intros; by apply Z.land_ones).
  unfold parse_ibex_cap, f_exp, f_top9, f_base9. cbv zeta. cbn [c_tag c_perms c_otype].
  change 0x3f with (Z.ones 6). change 0x7 with (Z.ones 3). change 0x1ff with (Z.ones 9).
  change ((v >> 18) .& 0xf) with ((v >> 18) .& Z.ones 4).
  change (v .& Z.ones 9) with ((v >> 0) .& Z.ones 9). rewrite !Hpart by lia.
  assert (v >> 32 = part v 32 1) as ->.
  { unfold part, trunc. symmetry. apply Z.mod_small. rewrite Z.shiftr_div_pow2 by lia.
    assert (0 <= v < 2 ^ 33) by (apply cat_range; fits_tac).
    split; [apply Z.div_pos; lia|apply Z.div_lt_upper_bound; lia]. }
  unfold v, Rtl.reg2memcap_fmt0. cbv zeta. fold ex.
  assert (part (cat [(1, Z.b2z (Rtl.r_valid r)); (1, Rtl.r_rsvd r); (6, Rtl.r_cperms r);
    (3, Rtl.r_otype r); (4, ex); (9, Rtl.r_top r); (9, Rtl.r_base r)]) 18 4 = ex) as -> by part_of 4%nat.
  split_and!; [part_of 0%nat|f_equal; part_of 2%nat|part_of 3%nat|done|part_of 5%nat|part_of 6%nat].
Qed.

Example parse_ibex_cap_memcap_witness :
  c_perms (parse_ibex_cap (Rtl.reg2memcap_fmt0 (Rtl.RegCap true 0 0 24 256 0 0 0x3f 0)) 0) =
  expand_perms 0x3f.
Proof.
  apply (parse_ibex_cap_memcap (Rtl.RegCap true 0 0 24 256 0 0 0x3f 0) 0);
    cbn [Rtl.r_rsvd Rtl.r_cperms Rtl.r_otype Rtl.r_exp Rtl.r_top Rtl.r_base]; lia.
Defined.
