(* ===== verification/TraceObj.v ===== *)
(** * Trace objects and their comparison

    Class [trace_obj] of dv/cheriot/scripts/compare_trace.py: one executed
    instruction of a trace, with [almost_eq], [__eq__] and [__str__], and what
    the comparison does and does not look at. *)

From S2P Require Import Prelude PyStr PyRe CapDecode.
From Stdlib Require Import Ascii.
Local Open Scope Z_scope.

Record trace_obj := TraceObj {
  line_num : Z; valid : Z; cycle : Z; pc : Z; instr : Z; is_clc : Z;
  trap : Z; trap_nxt : Z; trap_pc : Z; intr : Z;
  reg_wr : Z; reg_waddr : Z; reg_wdata : Z; reg_wcap : cap;
  mem_wr : Z; mem_rd : Z; mem_addr : Z; mem_size : Z; mem_data : Z;
  reg_rd1 : Z; reg_raddr1 : Z; reg_rdata1 : Z; reg_rcap1 : cap;
  reg_rd2 : Z; reg_raddr2 : Z; reg_rdata2 : Z; reg_rcap2 : cap;
  uart_wr : Z }.

(** [trace_obj()] *)
Definition new_trace_obj : trace_obj := {|
  line_num := 0; valid := 0; cycle := 0; pc := 0; instr := 0; is_clc := 0;
  trap := 0; trap_nxt := 0; trap_pc := 0; intr := 0;
  reg_wr := 0; reg_waddr := 0; reg_wdata := 0; reg_wcap := null_cap;
  mem_wr := 0; mem_rd := 0; mem_addr := 0; mem_size := 0; mem_data := 0;
  reg_rd1 := 0; reg_raddr1 := 0; reg_rdata1 := 0; reg_rcap1 := null_cap;
  reg_rd2 := 0; reg_raddr2 := 0; reg_rdata2 := 0; reg_rcap2 := null_cap;
  uart_wr := 0 |}.

(** [l[i:j]] for [0 <= i <= j]. *)
Definition slice {A} (i j : nat) (l : list A) : list A := take (j - i) (drop i l).

Definition almost_eq (self other : trace_obj) : bool :=
  let t1 := (valid self =? 1) && (valid other =? 1) && (pc self =? pc other) &&
            (trap self =? trap other) in
  let t2 := (instr self =? instr other) && (reg_wr self =? reg_wr other) &&
            ((reg_wr self =? 0) ||
             ((reg_wr self =? 1) && (reg_waddr self =? reg_waddr other) &&
              (reg_wdata self =? reg_wdata other) &&
              bool_decide (slice 1 5 (cap_tuple (reg_wcap self)) =
                           slice 1 5 (cap_tuple (reg_wcap other))))) in
  let t3 := (mem_wr self =? mem_wr other) && (mem_rd self =? mem_rd other) &&
            (mem_rd self =? 0) && (mem_rd self =? 0) in
  let t4 := (mem_wr self =? mem_wr other) && (mem_wr self =? 1) &&
            (mem_addr self =? mem_addr other) && (mem_size self =? mem_size other) &&
            (mem_data self =? mem_data other) in
  let t5 := (mem_rd self =? mem_rd other) && (mem_rd self =? 1) &&
            (mem_addr self =? mem_addr other) && (mem_size self =? mem_size other) in
  let t6 := (uart_wr self =? 1) && (uart_wr other =? 1) in
  t1 && ((trap self =? 1) || ((trap self =? 0) && t2 && (t3 || t4 || t5 || t6))).

(** [__eq__]: also compares the tag of the written capability. *)
Definition trace_eq (self other : trace_obj) : bool :=
  almost_eq self other && (c_tag (reg_wcap self) =? c_tag (reg_wcap other)).

Definition upper (s : str) : str := to_upper <$> s.
Definition fmt_cap (c : cap) : str :=
  "(" ++ str_of_Z (c_tag c) ++ ", 0x" ++ fmt_x (c_perms c) ++ ", 0x" ++ fmt_x (c_otype c) ++
  ", 0x" ++ fmt_x (c_zero c) ++ ", 0x" ++ fmt_x (c_top c) ++ ", 0x" ++ fmt_x (c_base c) ++ ")".

(** [__str__] *)
Definition trace_str (o : trace_obj) : str :=
  "trace_obj: line " ++ pad_left " "%char 6 (str_of_Z (line_num o)) ++ "," ++
  str_of_Z (valid o) ++ ", " ++ str_of_Z (trap o) ++ ", " ++ str_of_Z (cycle o) ++ ", 0x" ++
  pad_left "0"%char 8 (fmt_x (pc o)) ++ ", 0x" ++ pad_left "0"%char 8 (fmt_x (instr o)) ++ ", " ++
  "[" ++ str_of_Z (reg_wr o) ++ ", " ++ str_of_Z (reg_waddr o) ++ ", 0x" ++
  upper (fmt_x (reg_wdata o)) ++ ", " ++
  fmt_cap (reg_wcap o) ++ "], " ++
  "[" ++ str_of_Z (mem_wr o) ++ ", " ++ str_of_Z (mem_rd o) ++ ", 0x" ++ fmt_x (mem_addr o) ++
  ", 0x" ++ fmt_x (mem_data o) ++ ", " ++ str_of_Z (mem_size o) ++ "]".

(** ** What the comparison decides *)

(** The capability fields the slice [1:5] selects. *)
Definition same_meta (a b : cap) : Prop :=
  c_perms a = c_perms b /\ c_otype a = c_otype b /\ c_zero a = c_zero b /\ c_top a = c_top b.

Lemma slice_meta (a b : cap) :
  slice 1 5 (cap_tuple a) = slice 1 5 (cap_tuple b) <-> same_meta a b.
Proof.
  unfold slice, cap_tuple, same_meta. cbn. split; [by intros [= -> -> -> ->]|].
  by intros (-> & -> & -> & ->).
Qed.

(** The register write agrees. *)
Definition reg_agrees (a b : trace_obj) : Prop :=
  instr a = instr b /\ reg_wr a = reg_wr b /\
  (reg_wr a = 0 \/
   (reg_wr a = 1 /\ reg_waddr a = reg_waddr b /\ reg_wdata a = reg_wdata b /\
    same_meta (reg_wcap a) (reg_wcap b))).

(** The memory access agrees, as the code tests it. *)
Definition mem_agrees (a b : trace_obj) : Prop :=
  (mem_wr a = mem_wr b /\ mem_rd a = mem_rd b /\ mem_rd a = 0) \/
  (mem_wr a = mem_wr b /\ mem_wr a = 1 /\ mem_addr a = mem_addr b /\
   mem_size a = mem_size b /\ mem_data a = mem_data b) \/
  (mem_rd a = mem_rd b /\ mem_rd a = 1 /\ mem_addr a = mem_addr b /\ mem_size a = mem_size b) \/
  (uart_wr a = 1 /\ uart_wr b = 1).

Definition objects_agree (a b : trace_obj) : Prop :=
  valid a = 1 /\ valid b = 1 /\ pc a = pc b /\ trap a = trap b /\
  (trap a = 1 \/ (trap a = 0 /\ reg_agrees a b /\ mem_agrees a b)).

Lemma eqb_is_true x y : Is_true (x =? y) <-> x = y.
Proof. rewrite Is_true_true. apply Z.eqb_eq. Qed.

(** Move between boolean tests and the propositions they decide. *)
Ltac reflect_bools :=
  repeat first [rewrite andb_True | rewrite orb_True | rewrite eqb_is_true
               | rewrite bool_decide_spec | rewrite slice_meta].

Lemma almost_eq_iff (a b : trace_obj) : almost_eq a b = true <-> objects_agree a b.
Proof.
  rewrite <-Is_true_true. unfold almost_eq, objects_agree, reg_agrees, mem_agrees. cbv zeta.
  reflect_bools. tauto.
Qed.

(** (functional: instruction comparison).  [almost_eq] accepts a pair exactly
    when both objects are valid, their program counters and trap flags agree,
    and either both trapped or the instruction, the register write and the
    memory access agree; [__eq__] also asks for the same tag. *)
Theorem almost_eq_spec (a b : trace_obj) :
  (almost_eq a b = true <-> objects_agree a b) /\
  (trace_eq a b = true <-> objects_agree a b /\ c_tag (reg_wcap a) = c_tag (reg_wcap b)).
Proof.
  split; [apply almost_eq_iff|]. unfold trace_eq.
  by rewrite andb_true_iff, almost_eq_iff, Z.eqb_eq.
Qed.

Lemma same_meta_sym a b : same_meta a b -> same_meta b a.
Proof. unfold same_meta. naive_solver. Qed.

Lemma objects_agree_sym a b : objects_agree a b -> objects_agree b a.
Proof.
  unfold objects_agree, reg_agrees, mem_agrees.
  pose proof (same_meta_sym (reg_wcap a) (reg_wcap b)).
  intros (? & ? & ? & Ht & [?|(? & (? & Hw & Hr) & Hm)]); split_and!; try congruence.
  - left. congruence.
  - right. split_and!; try congruence.
    + destruct Hr as [?|(? & ? & ? & ?)]; [left; congruence|right].
      split_and!; auto; congruence.
    + destruct Hm as [(? & ? & ?)|[(? & ? & ? & ? & ?)|[(? & ? & ? & ?)|(? & ?)]]].
      * left. split_and!; congruence.
      * right; left. split_and!; congruence.
      * right; right; left. split_and!; congruence.
      * right; right; right. done.
Qed.

(** (type: comparison is symmetric).  Which trace is called "self" does not
    matter, for [almost_eq] and for [__eq__]. *)
Theorem almost_eq_sym (a b : trace_obj) :
  almost_eq a b = almost_eq b a /\ trace_eq a b = trace_eq b a.
Proof.
  assert (almost_eq a b = almost_eq b a) as E.
  { apply eq_bool_prop_intro. rewrite !Is_true_true, !almost_eq_iff.
    split; apply objects_agree_sym. }
  split; [done|]. unfold trace_eq. by rewrite E, Z.eqb_sym.
Qed.

(** (counterexample to the comment "memory write good"): a store's address,
    size and data are not compared.  For two valid objects that agree in program
    counter, instruction and register write, neither of which trapped and which
    are both stores, [__eq__] holds whatever the stores wrote and wherever. *)
Theorem store_contents_not_compared (a b : trace_obj) :
  valid a = 1 -> valid b = 1 -> pc a = pc b -> trap a = 0 -> trap b = 0 ->
  instr a = instr b -> reg_wr a = 0 -> reg_wr b = 0 ->
  c_tag (reg_wcap a) = c_tag (reg_wcap b) ->
  mem_wr a = 1 -> mem_wr b = 1 -> mem_rd a = 0 -> mem_rd b = 0 ->
  trace_eq a b = true.
Proof.
  intros. unfold trace_eq. apply andb_true_iff. split; [|by apply Z.eqb_eq].
  apply almost_eq_iff. unfold objects_agree, reg_agrees, mem_agrees.
  split_and!; try congruence. right. split_and!; try congruence.
  - left. congruence.
  - left. split_and!; congruence.
Qed.

(** A store object, for the witness. *)
Definition store_obj (addr data : Z) : trace_obj := {|
  line_num := 0; valid := 1; cycle := 0; pc := 0x80000000; instr := 0x00a52023; is_clc := 0;
  trap := 0; trap_nxt := 0; trap_pc := 0; intr := 0;
  reg_wr := 0; reg_waddr := 0; reg_wdata := 0; reg_wcap := null_cap;
  mem_wr := 1; mem_rd := 0; mem_addr := addr; mem_size := 4; mem_data := data;
  reg_rd1 := 0; reg_raddr1 := 0; reg_rdata1 := 0; reg_rcap1 := null_cap;
  reg_rd2 := 0; reg_raddr2 := 0; reg_rdata2 := 0; reg_rcap2 := null_cap;
  uart_wr := 0 |}.

Example store_contents_not_compared_witness :
  trace_eq (store_obj 0x80001000 1) (store_obj 0x90002000 2) = true.
Proof. apply (store_contents_not_compared (store_obj 0x80001000 1) (store_obj 0x90002000 2)); reflexivity. Defined.

(** The object with another base in its written capability. *)
Definition set_wcap_base (o : trace_obj) (b : Z) : trace_obj := {|
  line_num := line_num o; valid := valid o; cycle := cycle o; pc := pc o; instr := instr o;
  is_clc := is_clc o; trap := trap o; trap_nxt := trap_nxt o; trap_pc := trap_pc o;
  intr := intr o; reg_wr := reg_wr o; reg_waddr := reg_waddr o; reg_wdata := reg_wdata o;
  reg_wcap := Cap (c_tag (reg_wcap o)) (c_perms (reg_wcap o)) (c_otype (reg_wcap o))
                  (c_zero (reg_wcap o)) (c_top (reg_wcap o)) b;
  mem_wr := mem_wr o; mem_rd := mem_rd o; mem_addr := mem_addr o; mem_size := mem_size o;
  mem_data := mem_data o; reg_rd1 := reg_rd1 o; reg_raddr1 := reg_raddr1 o;
  reg_rdata1 := reg_rdata1 o; reg_rcap1 := reg_rcap1 o; reg_rd2 := reg_rd2 o;
  reg_raddr2 := reg_raddr2 o; reg_rdata2 := reg_rdata2 o; reg_rcap2 := reg_rcap2 o;
  uart_wr := uart_wr o |}.

(** (safety gap: bounds).  The base of a written capability does not take
    part in [__eq__]: the slice [reg_wcap[1:5]] stops before it. *)
Theorem written_base_not_compared (a b : trace_obj) (base : Z) :
  trace_eq (set_wcap_base a base) b = trace_eq a b.
Proof. reflexivity. Qed.
