(* ===== verification/TraceParse.v ===== *)
(** * Reading the two traces

    [trace_file.load], [ibex_trace_file.find_nxt] and
    [sail_trace_file.find_nxt]/[load] of dv/cheriot/scripts/compare_trace.py:
    from the lines of a log to the next [trace_obj], with the file position as
    explicit state and the exceptions the conversions can raise. *)

From S2P Require Import Prelude Bits PyStr PyRe CapDecode TraceObj.
From Stdlib Require Import Ascii.
Local Open Scope Z_scope.

(** A trace file object after [load]: its lines and [line_ptr]. *)
Record trace_file := TraceFile { lines : list str; line_ptr : nat }.

(** [load]: an existing file is read and split into lines; for a missing file the
    message is printed and the attribute [file] is then missing. *)
Definition load (file : option str) : res trace_file :=
  match file with
  | Some content => Ok (TraceFile (splitlines content) 0)
  | None => raise AttributeError
  end.

Definition b2z (b : bool) : Z := if b then 1 else 0.

(** The [while True] loop both parsers start with: from position [p], skip the
    lines without a match of [r].  [None] means the end of the file. *)
Fixpoint skip_to (r : regex) (ls : list str) (p : nat) : option (rmatch * str * nat) :=
  match ls with
  | [] => None
  | l :: ls' =>
      match finditer r l with
      | [] => skip_to r ls' (S p)
      | m :: _ => Some (m, l, p)
      end
  end.

(** ** The Ibex trace *)

Module Ibex.

Definition pattern1 : regex :=
  rseq [RBol; star is_space; RGrp 1 (plus is_digit); plus is_space; RGrp 2 (plus is_digit);
        plus is_space; RGrp 3 (plus is_hex); plus is_space; RGrp 4 (plus is_hex);
        plus is_space; RGrp 5 (plus not_space)].
Definition pattern2 : regex :=
  rseq [lit "x"; RGrp 1 (plus is_digit); lit "=0x"; RGrp 2 (plus is_hex); lit "+0x";
        RGrp 3 (plus is_hex)].
Definition pattern3 : regex :=
  rseq [lit "x"; RGrp 1 (plus is_digit); lit "=0x"; RGrp 2 (plus is_hex); star is_space].
Definition load_store : regex := RGrp 2 (RAlt (lit "load") (lit "store")).
Definition pattern4 : regex :=
  rseq [lit "PA:0x"; RGrp 1 (plus is_hex); plus is_space; load_store; lit ":0x";
        RGrp 3 (plus is_hex); lit "+0x"; RGrp 4 (plus is_hex)].
Definition pattern5 : regex :=
  rseq [lit "PA:0x"; RGrp 1 (plus is_hex); plus is_space; load_store; lit ":0x";
        RGrp 3 (plus (fun c => is_hex c || Ascii.eqb c "?"%char));
        RGrp 4 (RAlt (plus is_space) REol)].
Definition pattern6 : regex :=
  rseq [lit "x"; RGrp 1 (plus is_digit); lit ":0x"; RGrp 2 (plus is_hex); lit "+0x";
        RGrp 3 (plus is_hex)].

(** The register write: (reg_wr, reg_waddr, reg_wdata, reg_wcap). *)
Definition reg_write (line : str) : res (Z * Z * Z * cap) :=
  match finditer pattern2 line, finditer pattern3 line with
  | m :: _, _ =>
      rd ← int_of 10 (grp m 1);
      wdata ← int_of 16 (grp m 2);
      v ← int_of 16 (grp m 3);
      Ok (b2z (negb (rd =? 0)), rd, wdata, parse_ibex_cap v wdata)
  | [], m :: _ =>
      rd ← int_of 10 (grp m 1);
      wdata ← int_of 16 (grp m 2);
      Ok (b2z (negb (rd =? 0)), rd, wdata, parse_ibex_cap 0 wdata)
  | [], [] => Ok (0, 0, 0, null_cap)
  end.

(** The memory access: (mem_wr, mem_rd, mem_addr, mem_size, mem_data, uart_wr). *)
Definition mem_access := (Z * Z * Z * Z * Z * Z)%type.

(** The capability access ([matches4]). *)
Definition mem_cap (line : str) : res mem_access :=
  match finditer pattern4 line with
  | m :: _ =>
      addr ← int_of 16 (grp m 1);
      data ← int_of 16 (grp m 4 ++ drop 1 (grp m 3));
      Ok (if bool_decide (grp m 2 = ("load" : str)) then (0, 1, addr, 8, data, 0)
          else (1, 0, addr, 8, data, 0))
  | [] => Ok (0, 0, 0, 0, 0, 0)
  end.

(** The access size of a mnemonic; a mnemonic of none of these keeps [size]. *)
Definition size_of (mnemonic : str) (size : Z) : Z :=
  if searches (RAlt (lit "lb") (lit "sb")) mnemonic then 1
  else if searches (RAlt (lit "lh") (lit "sh")) mnemonic then 2
  else if searches (RAlt (lit "lw") (lit "sw")) mnemonic then 4
  else size.

(** The plain access ([matches5]), on top of what [mem_cap] stored. *)
Definition mem_plain (line mnemonic : str) (a : mem_access) : res mem_access :=
  match finditer pattern5 line with
  | m :: _ =>
      let '(wr, rd, _, size, _, uart) := a in
      addr ← int_of 16 (grp m 1);
      data ← int_of 16 (replace "?" "" (grp m 3));
      let is_load := bool_decide (grp m 2 = ("load" : str)) in
      let rd := if is_load then 1 else rd in
      let wr := if is_load then wr else 1 in
      let size := size_of mnemonic size in
      let data := if (size =? 1) && negb (rd =? 0) then data .& 0xff
                  else if (size =? 2) && negb (rd =? 0) then data .& 0xffff
                  else data in
      let uart := if (wr =? 1) && (0x10000000 <=? addr) && (addr <? 0x10000100) then 1
                  else uart in
      Ok (wr, rd, addr, size, data, uart)
  | [] => Ok a
  end.

(** A capability register read: (reg_rd, reg_raddr, reg_rdata, reg_rcap). *)
Definition cap_read (m : rmatch) : res (Z * Z * Z * cap) :=
  rs ← int_of 10 (grp m 1);
  rdata ← int_of 16 (grp m 2);
  v ← int_of 16 (grp m 3);
  Ok (1, rs, rdata, parse_ibex_cap v rdata).
Definition no_read : Z * Z * Z * cap := (0, 0, 0, null_cap).

(** The reads of cs1 and cs2: the second only when there are exactly two. *)
Definition cap_reads (line : str) : res ((Z * Z * Z * cap) * (Z * Z * Z * cap)) :=
  let ms := finditer pattern6 line in
  r1 ← (match ms with m :: _ => cap_read m | [] => Ok no_read end);
  r2 ← (match ms with [_; m] => cap_read m | _ => Ok no_read end);
  Ok (r1, r2).

(** The object of a line that matches [pattern1]. *)
Definition parse_line (m : rmatch) (line : str) (p : nat) : res trace_obj :=
  cyc ← int_of 10 (grp m 2);
  pcv ← int_of 16 (grp m 3);
  ins ← int_of 16 (grp m 4);
  let mnemonic := grp m 5 in
  w ← reg_write line;
  c ← mem_cap line;
  a ← mem_plain line mnemonic c;
  r ← cap_reads line;
  let '(wr, waddr, wdata, wcap) := w in
  let '(mwr, mrd, addr, size, data, uart) := a in
  let '((rd1, ra1, rv1, rc1), (rd2, ra2, rv2, rc2)) := r in
  Ok {| line_num := Z.of_nat p; valid := 1; cycle := cyc; pc := pcv; instr := ins;
        is_clc := 0;
        trap := b2z (searches (lit "-->") mnemonic); trap_nxt := 0; trap_pc := 0;
        intr := b2z (searches (lit "==>") mnemonic);
        reg_wr := wr; reg_waddr := waddr; reg_wdata := wdata; reg_wcap := wcap;
        mem_wr := mwr; mem_rd := mrd; mem_addr := addr; mem_size := size; mem_data := data;
        reg_rd1 := rd1; reg_raddr1 := ra1; reg_rdata1 := rv1; reg_rcap1 := rc1;
        reg_rd2 := rd2; reg_raddr2 := ra2; reg_rdata2 := rv2; reg_rcap2 := rc2;
        uart_wr := uart |}.

(** [ibex_trace_file.find_nxt] *)
Definition find_nxt (f : trace_file) : res (trace_obj * trace_file) :=
  match skip_to pattern1 (drop (line_ptr f) (lines f)) (line_ptr f) with
  | None => Ok (new_trace_obj, TraceFile (lines f) (line_ptr f `max` length (lines f)))
  | Some (m, line, p) =>
      o ← parse_line m line p;
      Ok (o, TraceFile (lines f) (S p))
  end.

End Ibex.

(** ** The Sail trace *)

Module Sail.

Definition pattern1 : regex :=
  rseq [RBol; star is_space; lit "["; RGrp 1 (plus is_digit); lit "]"; plus is_space;
        lit "[M]:"; star is_space; lit "0x"; RGrp 2 (plus is_hex); star is_space;
        lit "(0x"; RGrp 3 (plus is_hex); lit ")"].
Definition pattern2_0 : regex :=
  rseq [lit "x"; RGrp 1 (plus is_digit); star is_space; lit "<-"; star is_space; lit "0x";
        RGrp 2 (plus is_hex); star is_space].
Definition pattern2_1 : regex :=
  rseq [lit "(v:"; RGrp 1 (RChr is_digit); plus is_space; lit "0x"; RGrp 2 (plus is_hex);
        lit "-0x"; RGrp 3 (plus is_hex); plus is_space; lit "l:"; plus not_space;
        plus is_space; lit "o:0x"; RGrp 4 (plus is_hex); plus is_space; lit "p:";
        RGrp 5 (star_lazy dot); lit ")"].
Definition pattern2_2 : regex :=
  rseq [lit "CHERI"; star dot; lit "Violation"; star dot; lit "PC=0x"; RGrp 1 (plus is_hex)].
Definition pattern2_3 : regex := lit "trapping".
Definition arrow : regex := RGrp 2 (RAlt (lit "<-") (lit "->")).
Definition pattern3 : regex :=
  rseq [RAlt (lit "mem") (lit "htif"); lit "["; star_lazy dot; lit "0x";
        RGrp 1 (plus is_hex); lit "]"; star is_space; arrow; star is_space; lit "0x";
        RGrp 3 (plus is_hex)].
Definition pattern4 : regex :=
  rseq [lit "tag["; star_lazy dot; lit "0x"; RGrp 1 (plus is_hex); lit "]"; star is_space;
        arrow; star is_space; RGrp 3 (RChr is_digit)].
Definition pattern5 : regex :=
  rseq [lit "uart["; plus not_space; lit "]"; star is_space; lit "<-"].

(** The three tests that end an instruction's block of lines. *)
Definition fetch_line : regex := rseq [RBol; star is_space; lit "mem[X"].
Definition blank_line : regex := rseq [RBol; star is_space; REol].
Definition response_line : regex :=
  rseq [RBol; RChr not_space; lit "ending"; star dot; lit "response"].

(** [sail_trace_file.load]: the first ten lines decide whether the log is RVFI;
    a shorter file without the word raises. *)
Fixpoint detect_rvfi (ls : list str) (n : nat) : res bool :=
  match n with
  | O => Ok false
  | S n' =>
      match ls with
      | [] => raise IndexError
      | l :: ls' => if searches (lit "RVFI") l then Ok true else detect_rvfi ls' n'
      end
  end.
Definition load (file : option str) : res (trace_file * bool) :=
  f ← TraceParse.load file;
  is_rvfi ← detect_rvfi (lines f) 10;
  Ok (f, is_rvfi).

(** Join the following lines to the instruction until its block ends; the
    terminating line is consumed. *)
Fixpoint gather (is_rvfi : bool) (ls : list str) (p : nat) (full_instr : str) : str * nat :=
  match ls with
  | [] => (full_instr, p)
  | l :: ls' =>
      if negb is_rvfi && searches fetch_line l then (full_instr, S p)
      else if searches blank_line l then (full_instr, S p)
      else if is_rvfi && searches response_line l then (full_instr, S p)
      else gather is_rvfi ls' (S p) (full_instr ++ " " ++ l)
  end.

(** The register write, present only with a capability description. *)
Definition reg_write (full_instr : str) : res (Z * Z * Z * cap) :=
  match finditer pattern2_0 full_instr, finditer pattern2_1 full_instr with
  | m :: _, c :: _ =>
      waddr ← int_of 10 (grp m 1);
      wdata ← int_of 16 (grp m 2);
      tag ← int_of 10 (grp c 1);
      otype ← int_of 16 (grp c 4);
      top ← int_of 16 (grp c 3);
      base ← int_of 16 (grp c 2);
      Ok (1, waddr, wdata, Cap tag (parse_sail_perms (grp c 5)) (otype .& 0x7) 0 top base)
  | _, _ => Ok (0, 0, 0, null_cap)
  end.

(** (trap_pc, trap, trap_nxt) *)
Definition trap_info (full_instr : str) (pcv : Z) : res (Z * Z * Z) :=
  tpc ← (match finditer pattern2_2 full_instr with
         | m :: _ => int_of 16 (grp m 1)
         | [] => Ok pcv
         end);
  let trapping := searches pattern2_3 full_instr in
  Ok (if trapping && (tpc =? pcv) then (tpc, 1, 0)
      else if trapping && negb (tpc =? pcv) then (tpc, 0, 1)
      else (tpc, 0, 0)).

(** (mem_wr, mem_rd, mem_addr, mem_size, mem_data) *)
Definition mem_access (full_instr : str) : res (Z * Z * Z * Z * Z) :=
  a ← (match finditer pattern3 full_instr with
       | m :: _ =>
           addr ← int_of 16 (grp m 1);
           data ← int_of 16 (grp m 3);
           Ok (b2z (bool_decide (grp m 2 = ("<-" : str))),
               b2z (bool_decide (grp m 2 = ("->" : str))),
               addr, Z.of_nat (length (grp m 3)) >> 1, data)
       | [] => Ok (0, 0, 0, 0, 0)
       end);
  let '(wr, rd, addr, size, data) := a in
  match finditer pattern4 full_instr with
  | m :: _ =>
      tag ← int_of 10 (grp m 3);
      Ok (wr, rd, addr, size, data + (tag << 64))
  | [] => Ok (wr, rd, addr, size, data)
  end.

Definition parse_instr (m : rmatch) (full_instr : str) (p : nat) : res trace_obj :=
  cyc ← int_of 10 (grp m 1);
  pcv ← int_of 16 (grp m 2);
  ins ← int_of 16 (grp m 3);
  w ← reg_write full_instr;
  t ← trap_info full_instr pcv;
  a ← mem_access full_instr;
  let '(wr, waddr, wdata, wcap) := w in
  let '(tpc, tr, tn) := t in
  let '(mwr, mrd, addr, size, data) := a in
  Ok {| line_num := Z.of_nat p; valid := 1; cycle := cyc; pc := pcv; instr := ins;
        is_clc := 0; trap := tr; trap_nxt := tn; trap_pc := tpc; intr := 0;
        reg_wr := wr; reg_waddr := waddr; reg_wdata := wdata; reg_wcap := wcap;
        mem_wr := mwr; mem_rd := mrd; mem_addr := addr; mem_size := size; mem_data := data;
        reg_rd1 := 0; reg_raddr1 := 0; reg_rdata1 := 0; reg_rcap1 := null_cap;
        reg_rd2 := 0; reg_raddr2 := 0; reg_rdata2 := 0; reg_rcap2 := null_cap;
        uart_wr := b2z (searches pattern5 full_instr) |}.

(** [sail_trace_file.find_nxt] *)
Definition find_nxt (is_rvfi : bool) (f : trace_file) : res (trace_obj * trace_file) :=
  match skip_to pattern1 (drop (line_ptr f) (lines f)) (line_ptr f) with
  | None => Ok (new_trace_obj, TraceFile (lines f) (line_ptr f `max` length (lines f)))
  | Some (m, line, p) =>
      let '(full_instr, p') := gather is_rvfi (drop (S p) (lines f)) (S p) line in
      o ← parse_instr m full_instr p;
      Ok (o, TraceFile (lines f) p')
  end.

End Sail.

(** ** Progress

    Every call either finds an object and moves past its line, or reports the
    end of the trace with an object that is not valid. *)

Definition progress (f : trace_file) (o : trace_obj) (f' : trace_file) : Prop :=
  lines f' = lines f /\
  ((valid o = 1 /\ (line_ptr f < line_ptr f' <= length (lines f))%nat) \/
   (o = new_trace_obj /\ line_ptr f' = (line_ptr f `max` length (lines f))%nat)).

Lemma skip_to_bounds r ls p m l q :
  skip_to r ls p = Some (m, l, q) ->
  (p <= q < p + length ls)%nat /\ ls !! (q - p)%nat = Some l.
Proof.
  revert p; induction ls as [|l' ls IH]; intros p; cbn [skip_to]; [done|].
  destruct (finditer r l') as [|m' ms].
  - intros [Hq Hl]%IH. cbn [length]. split; [lia|].
    by replace (q - p)%nat with (S (q - S p)) by lia.
  - intros [= -> -> ->]. rewrite Nat.sub_diag. cbn. split; [lia|done].
Qed.

Lemma skip_to_none r ls p :
  skip_to r ls p = None <-> Forall (fun l => finditer r l = []) ls.
Proof.
  revert p; induction ls as [|l ls IH]; intros p; cbn [skip_to]; [done|].
  rewrite Forall_cons, <-(IH (S p)). destruct (finditer r l); naive_solver.
Qed.

Lemma gather_bounds b ls p s s' q :
  Sail.gather b ls p s = (s', q) -> (p <= q <= p + length ls)%nat.
Proof.
  revert p s; induction ls as [|l ls IH]; intros p s; cbn [Sail.gather length].
  - intros [= _ <-]. lia.
  - repeat case_match; try (intros [= _ <-]; lia). intros Hg%IH. lia.
Qed.

Lemma ibex_parse_line_valid m l p o : Ibex.parse_line m l p = Ok o -> valid o = 1.
Proof.
  unfold Ibex.parse_line. intros H. res_inv.
  repeat case_match. by injection H as <-.
Qed.
Lemma ibex_parse_line_fields m l p o :
  Ibex.parse_line m l p = Ok o ->
  int_of 10 (grp m 2) = Ok (cycle o) /\ int_of 16 (grp m 3) = Ok (pc o) /\
  int_of 16 (grp m 4) = Ok (instr o) /\
  trap o = b2z (searches (lit "-->") (grp m 5)) /\
  intr o = b2z (searches (lit "==>") (grp m 5)).
Proof.
  unfold Ibex.parse_line. destruct (int_of 10 (grp m 2)), (int_of 16 (grp m 3)),
    (int_of 16 (grp m 4)); intros H; res_inv.
  repeat case_match. by injection H as <-.
Qed.
Lemma sail_parse_instr_valid m l p o : Sail.parse_instr m l p = Ok o -> valid o = 1.
Proof.
  unfold Sail.parse_instr. intros H. res_inv.
  repeat case_match. by injection H as <-.
Qed.

Lemma ibex_find_nxt_progress f o f' : Ibex.find_nxt f = Ok (o, f') -> progress f o f'.
Proof.
  unfold Ibex.find_nxt, progress.
  destruct (skip_to _ _ _) as [[[m l] p]|] eqn:E; intros H; res_inv; cbn [lines line_ptr].
  - split; [done|]. left. split; [by eapply ibex_parse_line_valid|].
    apply skip_to_bounds in E as [E _]. rewrite length_drop in E. lia.
  - split; [done|by right].
Qed.

Lemma sail_find_nxt_progress b f o f' : Sail.find_nxt b f = Ok (o, f') -> progress f o f'.
Proof.
  unfold Sail.find_nxt, progress.
  destruct (skip_to _ _ _) as [[[m l] p]|] eqn:E.
  - destruct (Sail.gather _ _ _ _) as [full q] eqn:G. intros H; res_inv; cbn [lines line_ptr].
    split; [done|]. left. split; [by eapply sail_parse_instr_valid|].
    apply skip_to_bounds in E as [E _]. apply gather_bounds in G.
    rewrite length_drop in *. lia.
  - intros H; res_inv. split; [done|by right].
Qed.

Lemma progress_valid f o f' : progress f o f' -> valid o = 0 \/ valid o = 1.
Proof. intros [_ [[H _]|[-> _]]]; [by right|by left]. Qed.

(** ** The parsers and exceptions *)

Lemma replace_char_forall (c : ascii) (P : ascii -> Prop) s :
  Forall (fun x => P x \/ x = c) s -> Forall P (replace [c] [] s).
Proof.
  assert (Forall (fun x => P x \/ x = c) s -> Forall P (replace_go [c] [] s 0)) as H.
  { induction s as [|x s IH]; [constructor|]. intros [Hx Hs]%Forall_cons.
    cbn [replace_go starts_with]. destruct (Ascii.eqb_spec c x) as [->|Hn].
    - rewrite andb_true_l. destruct s; by apply IH.
    - cbn. constructor; [naive_solver|by apply IH]. }
  exact H.
Qed.

Lemma first_match r s m ms : finditer r s = m :: ms -> match_of r m.
Proof. intros E. apply (finditer_of r s). rewrite E. by left. Qed.

Lemma skip_to_match r ls p m l q : skip_to r ls p = Some (m, l, q) -> match_of r m.
Proof.
  revert p; induction ls as [|l' ls IH]; intros p; cbn [skip_to]; [done|].
  destruct (finditer r l') eqn:El; [apply IH|]. intros [= <- _ _]. by eapply first_match.
Qed.

(** Convert the digit group [n] of a match of [r]. *)
Ltac convert r n :=
  match goal with
  | |- context [int_of ?b (grp ?m n)] =>
      let v := fresh "v" in
      destruct (int_of_grp r m n b _ ltac:(by eauto using first_match) eq_refl ltac:(auto) eq_refl
                  eq_refl ltac:(cbn; lia)) as (v & -> & _); cbn [mbind res_bind]
  end.

Lemma ibex_reg_write_total line : exists w, Ibex.reg_write line = Ok w.
Proof.
  unfold Ibex.reg_write. destruct (finditer Ibex.pattern2 line) as [|m ms] eqn:E2.
  - destruct (finditer Ibex.pattern3 line) as [|m ms] eqn:E3; [by eexists|].
    convert Ibex.pattern3 1%nat. convert Ibex.pattern3 2%nat. by eexists.
  - convert Ibex.pattern2 1%nat. convert Ibex.pattern2 2%nat. convert Ibex.pattern2 3%nat.
    by eexists.
Qed.

Lemma ibex_cap_read_total m : match_of Ibex.pattern6 m -> exists r, Ibex.cap_read m = Ok r.
Proof.
  intros Hm. unfold Ibex.cap_read. convert Ibex.pattern6 1%nat. convert Ibex.pattern6 2%nat.
  convert Ibex.pattern6 3%nat. by eexists.
Qed.

Lemma ibex_cap_reads_total line : exists r, Ibex.cap_reads line = Ok r.
Proof.
  unfold Ibex.cap_reads. destruct (finditer Ibex.pattern6 line) as [|m [|m2 ms]] eqn:E;
    pose proof (finditer_of Ibex.pattern6 line) as Hall; rewrite E in Hall; [by eexists| |].
  - destruct (ibex_cap_read_total m) as [r ->]; [apply Hall; by left|]. by eexists.
  - destruct (ibex_cap_read_total m) as [r ->]; [apply Hall; by left|]. cbn [mbind res_bind].
    destruct ms as [|? ?]; [|by eexists].
    destruct (ibex_cap_read_total m2) as [r2 ->]; [apply Hall; by right; left|]. by eexists.
Qed.

Lemma drop_forall {A} (P : A -> Prop) n l : Forall P l -> Forall P (drop n l).
Proof. apply Forall_drop. Qed.

Lemma ibex_mem_cap_total line : exists a, Ibex.mem_cap line = Ok a.
Proof.
  unfold Ibex.mem_cap. destruct (finditer Ibex.pattern4 line) as [|m ms] eqn:E; [by eexists|].
  convert Ibex.pattern4 1%nat. apply first_match in E.
  destruct (grp_obeys _ _ 3 _ E eq_refl eq_refl) as [H3 _].
  destruct (grp_obeys _ _ 4 _ E eq_refl eq_refl) as [H4 L4]. cbn in H3, H4, L4.
  destruct (int_of_total 16 (grp m 4 ++ drop 1 (grp m 3))) as (d & -> & _); [by right| | |by eexists].
  - rewrite length_app. lia.
  - apply Forall_app. split; [done|by apply drop_forall].
Qed.

(** The plain access of a line shows no digit at all. *)
Definition only_unknown (line : str) : Prop :=
  exists m ms, finditer Ibex.pattern5 line = m :: ms /\ replace "?" "" (grp m 3) = [].

Lemma ibex_mem_plain_total line mn a :
  (exists a', Ibex.mem_plain line mn a = Ok a') \/
  (only_unknown line /\ Ibex.mem_plain line mn a = raise ValueError).
Proof.
  unfold Ibex.mem_plain, only_unknown.
  destruct (finditer Ibex.pattern5 line) as [|m ms] eqn:E; [by left; eexists|].
  destruct a as [[[[[wr rd] ad] size] da] uart]. convert Ibex.pattern5 1%nat.
  destruct (grp_obeys _ _ 3 _ (first_match _ _ _ _ E) eq_refl eq_refl) as [H3 _]. cbn in H3.
  destruct (replace "?" "" (grp m 3)) as [|c t] eqn:Er.
  - right. split; [by exists m, ms|done].
  - left. destruct (int_of_total 16 (c :: t)) as (v' & -> & _); [by right|cbn; lia| |by eexists].
    rewrite <-Er. apply replace_char_forall. eapply Forall_impl; [exact H3|].
    intros x Hx%orb_true_iff. destruct Hx as [Hx|Hx]; [by left|right]. by apply Ascii.eqb_eq.
Qed.

Lemma ibex_parse_line_cases m line p :
  match_of Ibex.pattern1 m ->
  (exists o, Ibex.parse_line m line p = Ok o) \/
  (only_unknown line /\ Ibex.parse_line m line p = raise ValueError).
Proof.
  intros Hm. unfold Ibex.parse_line. convert Ibex.pattern1 2%nat. convert Ibex.pattern1 3%nat.
  convert Ibex.pattern1 4%nat. cbv zeta.
  destruct (ibex_reg_write_total line) as [[[[? ?] ?] ?] ->]. cbn [mbind res_bind].
  destruct (ibex_mem_cap_total line) as [c0 ->]. cbn [mbind res_bind].
  destruct (ibex_mem_plain_total line (grp m 5) c0) as [[a ->]|[Hu ->]]; cbn [mbind res_bind].
  - left. destruct a as [[[[[? ?] ?] ?] ?] ?].
    destruct (ibex_cap_reads_total line) as [[[[[? ?] ?] ?] [[[? ?] ?] ?]] ->]. by eexists.
  - by right.
Qed.

(** C39 (error behaviour: the Ibex parser).  [find_nxt] either returns an object
    or raises [ValueError], and it raises only on an instruction line whose plain
    memory access shows no digit of its data. *)
Theorem ibex_find_nxt_errors (f : trace_file) :
  (exists o f', Ibex.find_nxt f = Ok (o, f')) \/
  (Ibex.find_nxt f = raise ValueError /\
   exists m line p, skip_to Ibex.pattern1 (drop (line_ptr f) (lines f)) (line_ptr f) = Some (m, line, p) /\
     only_unknown line).
Proof.
  unfold Ibex.find_nxt. destruct (skip_to _ _ _) as [[[m line] p]|] eqn:E; [|by left; eauto].
  pose proof (skip_to_match _ _ _ _ _ _ E) as Hm.
  destruct (ibex_parse_line_cases m line p Hm) as [[o ->]|[Hu ->]]; [by left; eauto|].
  right. split; [done|]. by exists m, line, p.
Qed.

Lemma sail_reg_write_total s : exists w, Sail.reg_write s = Ok w.
Proof.
  unfold Sail.reg_write. destruct (finditer Sail.pattern2_0 s) as [|m ms] eqn:E0; [by eexists|].
  destruct (finditer Sail.pattern2_1 s) as [|c cs] eqn:E1; [by eexists|].
  convert Sail.pattern2_0 1%nat. convert Sail.pattern2_0 2%nat. convert Sail.pattern2_1 1%nat.
  convert Sail.pattern2_1 4%nat. convert Sail.pattern2_1 3%nat. convert Sail.pattern2_1 2%nat.
  by eexists.
Qed.

Lemma sail_trap_info_total s pcv : exists t, Sail.trap_info s pcv = Ok t.
Proof.
  unfold Sail.trap_info. destruct (finditer Sail.pattern2_2 s) as [|m ms] eqn:E; [by eexists|].
  convert Sail.pattern2_2 1%nat. by eexists.
Qed.

Lemma sail_mem_access_total s : exists a, Sail.mem_access s = Ok a.
Proof.
  unfold Sail.mem_access. destruct (finditer Sail.pattern3 s) as [|m ms] eqn:E.
  - cbn [mbind res_bind]. destruct (finditer Sail.pattern4 s) as [|t ts] eqn:E4; [by eexists|].
    convert Sail.pattern4 3%nat. by eexists.
  - convert Sail.pattern3 1%nat. convert Sail.pattern3 3%nat.
    destruct (finditer Sail.pattern4 s) as [|t ts] eqn:E4; [by eexists|].
    convert Sail.pattern4 3%nat. by eexists.
Qed.

(** (error behaviour: the Sail parser).  [find_nxt] returns an object on every
    log: whatever the expressions accept, the conversions accept. *)
Theorem sail_find_nxt_total (is_rvfi : bool) (f : trace_file) :
  exists o f', Sail.find_nxt is_rvfi f = Ok (o, f').
Proof.
  unfold Sail.find_nxt. destruct (skip_to _ _ _) as [[[m line] p]|] eqn:E; [|by eauto].
  pose proof (skip_to_match _ _ _ _ _ _ E) as Hm.
  destruct (Sail.gather _ _ _ _) as [full q]. unfold Sail.parse_instr.
  convert Sail.pattern1 1%nat. convert Sail.pattern1 2%nat. convert Sail.pattern1 3%nat.
  destruct (sail_reg_write_total full) as [[[[? ?] ?] ?] ->]. cbn [mbind res_bind].
  match goal with |- context [Sail.trap_info full ?x] =>
    destruct (sail_trap_info_total full x) as [[[? ?] ?] ->] end. cbn [mbind res_bind].
  destruct (sail_mem_access_total full) as [[[[[? ?] ?] ?] ?] ->]. by eexists _, _.
Qed.

(** The word that marks an RVFI log. *)
Definition mentions_rvfi (l : str) : bool := searches (lit "RVFI") l.

Lemma detect_rvfi_spec ls n :
  Sail.detect_rvfi ls n =
    if existsb mentions_rvfi (take n ls) then Ok true
    else if (length ls <? n)%nat then raise IndexError else Ok false.
Proof.
  revert ls; induction n as [|n IH]; intros ls; cbn [Sail.detect_rvfi]; [by destruct ls|].
  destruct ls as [|l ls]; [done|]. cbn [Sail.detect_rvfi take existsb length]. unfold mentions_rvfi at 1.
  destruct (searches _ l); [done|]. rewrite IH. done.
Qed.

(** (functional and error behaviour: loading a Sail log).  The log is RVFI
    exactly when one of its first ten lines contains the word; a log of fewer
    than ten lines without it raises [IndexError], a missing file
    [AttributeError]. *)
Theorem sail_load_spec (file : option str) :
  Sail.load file =
    match file with
    | None => raise AttributeError
    | Some content =>
        let ls := splitlines content in
        if existsb mentions_rvfi (take 10 ls) then Ok (TraceFile ls 0, true)
        else if (length ls <? 10)%nat then raise IndexError
        else Ok (TraceFile ls 0, false)
    end.
Proof.
  destruct file as [content|]; [|done]. unfold Sail.load. cbn [TraceParse.load mbind res_bind lines].
  rewrite detect_rvfi_spec. cbv zeta. by repeat case_match.
Qed.
