(* ===== verification/CompareTrace.v ===== *)
(** * The comparison of an Ibex trace with a Sail trace

    The main program of dv/cheriot/scripts/compare_trace.py: the loop that reads
    both traces, skips interrupt service routines when asked, hands a trap the
    Sail model reports one instruction early over to the next comparison, tracks
    the registers whose capability the Ibex is expected to revoke, and decides
    the verdict. *)

From S2P Require Import Prelude PyStr PyRe CapDecode TraceObj TraceParse.
From Stdlib Require Import Ascii.
Local Open Scope Z_scope.

(** ** What comparing one pair updates *)

Record tally := Tally {
  cmp_cnt : Z; eq_cnt : Z; neq_cnt : Z; revoke_err_cnt : Z;
  pending : list Z;          (* pending_revoke_regs *)
  out : str }.               (* standard output so far *)

Definition tally0 : tally := Tally 0 0 0 0 (replicate 32 0) [].

Definition nl : str := [newline].

(** [pending_revoke_regs[r] = v]; out of range raises. *)
Definition set_pending (t : tally) (r : Z) (v : Z) : res tally :=
  _ ← py_nth (pending t) (Z.to_nat r);
  Ok (Tally (cmp_cnt t) (eq_cnt t) (neq_cnt t) (revoke_err_cnt t)
            (<[Z.to_nat r := v]> (pending t)) (out t)).
Definition say (t : tally) (msg : str) : tally :=
  Tally (cmp_cnt t) (eq_cnt t) (neq_cnt t) (revoke_err_cnt t) (pending t) (out t ++ msg).
Definition count_eq (t : tally) : tally :=
  Tally (cmp_cnt t) (eq_cnt t + 1) (neq_cnt t) (revoke_err_cnt t) (pending t) (out t).
Definition count_neq (t : tally) : tally :=
  Tally (cmp_cnt t) (eq_cnt t) (neq_cnt t + 1) (revoke_err_cnt t) (pending t) (out t).
Definition count_cmp (t : tally) : tally :=
  Tally (cmp_cnt t + 1) (eq_cnt t) (neq_cnt t) (revoke_err_cnt t) (pending t) (out t).
Definition count_err (t : tally) : tally :=
  Tally (cmp_cnt t) (eq_cnt t) (neq_cnt t) (revoke_err_cnt t + 1) (pending t) (out t).

Definition verified_msg (r pc : Z) : str :=
  "cheriot-ibex: cap revocation for reg c" ++ str_of_Z r ++ " verified at " ++ fmt_x pc ++ nl.
Definition error_msg (cs r pc : Z) : str :=
  "cheriot-ibex: revocation error found for cs" ++ str_of_Z cs ++ " reg c" ++ str_of_Z r ++
  " at " ++ fmt_x pc ++ nl.

(** The check of the first source register. *)
Definition check_cs1 (t : tally) (o : trace_obj) : res tally :=
  p ← py_nth (pending t) (Z.to_nat (reg_raddr1 o));
  if (p =? 1) && (reg_rd1 o =? 1) && (c_tag (reg_rcap1 o) =? 1) then
    Ok (say (count_err t) (error_msg 1 (reg_raddr1 o) (pc o)))
  else if (p =? 1) && (reg_rd1 o =? 1) && (c_tag (reg_rcap1 o) =? 0) then
    t ← set_pending t (reg_raddr1 o) 0;
    Ok (say (count_eq t) (verified_msg (reg_raddr1 o) (pc o)))
  else Ok t.

(** The check of the second source register; its [elif] looks up the first. *)
Definition check_cs2 (t : tally) (o : trace_obj) : res tally :=
  p ← py_nth (pending t) (Z.to_nat (reg_raddr2 o));
  if (p =? 1) && (reg_rd2 o =? 1) && (c_tag (reg_rcap2 o) =? 1) then
    Ok (say (count_err t) (error_msg 2 (reg_raddr2 o) (pc o)))
  else
    p1 ← py_nth (pending t) (Z.to_nat (reg_raddr1 o));
    if (p1 =? 1) && (reg_rd2 o =? 1) && (c_tag (reg_rcap2 o) =? 0) then
      t ← set_pending t (reg_raddr2 o) 0;
      Ok (say (count_eq t) (verified_msg (reg_raddr2 o) (pc o)))
    else Ok t.

(** A write to a pending register cancels its revocation. *)
Definition check_rd (t : tally) (o : trace_obj) : res tally :=
  p ← py_nth (pending t) (Z.to_nat (reg_waddr o));
  if (p =? 1) && (reg_wr o =? 1) then
    t ← set_pending t (reg_waddr o) 0;
    Ok (say (count_eq t)
            ("cheriot-ibex: cap revocation for reg c" ++ str_of_Z (reg_waddr o) ++
             " cancelled by write at " ++ fmt_x (pc o) ++ nl))
  else Ok t.

(** A capability load that differs from the Sail trace at most in its tag. *)
Definition revocation_case (i s : trace_obj) : bool :=
  almost_eq i s && (c_tag (reg_wcap i) =? 1) && (mem_rd i =? 1).

(** The comparison proper. *)
Definition judge (t : tally) (i s : trace_obj) : res tally :=
  if trace_eq i s then Ok (count_eq t)
  else if revocation_case i s then
    t ← set_pending t (reg_waddr i) 1;
    Ok (say t ("cheriot-ibex: cap revocation for reg c" ++ str_of_Z (reg_waddr i) ++
               " started at " ++ fmt_x (pc i) ++ nl))
  else
    Ok (say (count_neq t) ("ibex:  " ++ trace_str i ++ nl ++ "sail:  " ++ trace_str s ++ nl)).

Definition compare_one (t : tally) (i s : trace_obj) : res tally :=
  t ← check_cs1 t i;
  t ← check_cs2 t i;
  t ← check_rd t i;
  t ← judge t i s;
  Ok (count_cmp t).

(** ** The two readers *)

Definition ISR_LIMIT : Z := 0x80040000.
Definition MRET : Z := 0x30200073.

(** [ibex_in_isr], [ibex_isr_cnt], [ibex_dbg_cnt] *)
Record isr_state := Isr { in_isr : Z; isr_cnt : Z; dbg_cnt : Z }.

(** The object is outside every service routine: it is compared. *)
Definition outside_isr (s : isr_state) (o : trace_obj) : bool :=
  (trap o =? 0) && (intr o =? 0) && (in_isr s =? 0) && (pc o <? ISR_LIMIT).

Definition isr_update (s : isr_state) (o : trace_obj) : isr_state :=
  let enters := (trap o =? 1) || (intr o =? 1) in
  let in1 := if enters then 1 else in_isr s in
  let cnt := if enters then isr_cnt s + 1 else isr_cnt s in
  let in2 := if (in1 =? 1) && (instr o =? MRET) then 0 else in1 in
  Isr in2 cnt (if pc o =? ISR_LIMIT then dbg_cnt s + 1 else dbg_cnt s).

(** The lines not yet read. *)
Definition remaining (f : trace_file) : nat := length (lines f) - line_ptr f.

Fixpoint skip_isr_loop (n : nat) (f : trace_file) (s : isr_state)
  : option (res (trace_obj * trace_file * isr_state)) :=
  match n with
  | O => None
  | S n' =>
      match Ibex.find_nxt f with
      | Raise c m => Some (Raise c m)
      | Ok (o, f') =>
          if (valid o =? 0) || outside_isr s o then Some (Ok (o, f', s))
          else skip_isr_loop n' f' (isr_update s o)
      end
  end.

(** The next Ibex object to compare. *)
Definition nxt_ibex (skip_isr : bool) (f : trace_file) (s : isr_state)
  : option (res (trace_obj * trace_file * isr_state)) :=
  if skip_isr then skip_isr_loop (S (remaining f)) f s
  else Some (r ← Ibex.find_nxt f; Ok (fst r, snd r, s)).

(** The object the main loop makes up for a trap the Sail log announced. *)
Definition trap_at (p : Z) : trace_obj := {|
  line_num := 0; valid := 1; cycle := 0; pc := p; instr := 0; is_clc := 0;
  trap := 1; trap_nxt := 0; trap_pc := 0; intr := 0;
  reg_wr := 0; reg_waddr := 0; reg_wdata := 0; reg_wcap := null_cap;
  mem_wr := 0; mem_rd := 0; mem_addr := 0; mem_size := 0; mem_data := 0;
  reg_rd1 := 0; reg_raddr1 := 0; reg_rdata1 := 0; reg_rcap1 := null_cap;
  reg_rd2 := 0; reg_raddr2 := 0; reg_rdata2 := 0; reg_rcap2 := null_cap;
  uart_wr := 0 |}.

(** [outstanding_trap] and [outstanding_trap_pc]: the second is set whenever the
    first is 1. *)
Definition nxt_sail (is_rvfi : bool) (outstanding : option Z) (g : trace_file)
  : res (trace_obj * trace_file) :=
  match outstanding with
  | None => Sail.find_nxt is_rvfi g
  | Some p => Ok (trap_at p, g)
  end.

(** ** The main loop *)

Record st := St {
  ibex_trace : trace_file; sail_trace : trace_file; isr : isr_state;
  outstanding : option Z; counts : tally }.

Definition is_valid (o : trace_obj) : bool := negb (valid o =? 0).

(** One iteration: [inl st] after the break, [inr (pair, st)] otherwise. *)
Definition iter (skip_isr is_rvfi : bool) (s : st)
  : option (res (st + (trace_obj * trace_obj) * st)) :=
  match nxt_ibex skip_isr (ibex_trace s) (isr s) with
  | None => None
  | Some (Raise c m) => Some (Raise c m)
  | Some (Ok (i, f, sr)) => Some (
      '(so, g) ← nxt_sail is_rvfi (outstanding s) (sail_trace s);
      if (valid i =? 0) || (valid so =? 0) then
        Ok (inl (St f g sr (outstanding s) (counts s)))
      else
        t ← compare_one (counts s) i so;
        Ok (inr ((i, so), St f g sr (if trap_nxt so =? 1 then Some (trap_pc so) else None) t)))
  end.

Fixpoint loop (skip_isr is_rvfi : bool) (n : nat) (s : st) : option (res st) :=
  match n with
  | O => None
  | S n' =>
      match iter skip_isr is_rvfi s with
      | None => None
      | Some (Raise c m) => Some (Raise c m)
      | Some (Ok (inl s')) => Some (Ok s')
      | Some (Ok (inr (_, s'))) => loop skip_isr is_rvfi n' s'
      end
  end.

(** ** The verdict *)

Definition lines_left (f : trace_file) : Z :=
  Z.of_nat (length (lines f)) - Z.of_nat (line_ptr f).
Definition revoke_pending (t : tally) : bool :=
  existsb (fun v => negb (v =? 0)) (pending t).

Definition passed (s : st) : bool :=
  (neq_cnt (counts s) =? 0) && negb (revoke_pending (counts s)) &&
  negb ((Z.of_nat (length (lines (ibex_trace s))) =? 0) &&
        (Z.of_nat (length (lines (sail_trace s))) =? 0)) &&
  ((lines_left (ibex_trace s) <? 1000) && (lines_left (sail_trace s) =? 0)).

Definition summary (s : st) : str :=
  let t := counts s in
  str_of_Z (cmp_cnt t) ++ " trace objects compared, " ++ str_of_Z (eq_cnt t) ++ " equal, " ++
  str_of_Z (neq_cnt t) ++ " not equal, " ++ str_of_Z (revoke_err_cnt t) ++
  " revocation errors, " ++ str_of_Z (isr_cnt (isr s)) ++ " ISRs and " ++
  str_of_Z (dbg_cnt (isr s)) ++ " DBG_REQs found in ibex trace" ++ nl ++
  str_of_Z (lines_left (ibex_trace s)) ++ "/" ++
  str_of_Z (Z.of_nat (length (lines (ibex_trace s)))) ++ " lines left in ibex_trace, " ++
  str_of_Z (lines_left (sail_trace s)) ++ "/" ++
  str_of_Z (Z.of_nat (length (lines (sail_trace s)))) ++ " lines left in sail trace" ++ nl ++
  (if revoke_pending t then
     "Pending revocations found!" ++ nl ++
     "[" ++ join ", " (str_of_Z <$> pending t) ++ "]" ++ nl
   else "").

Definition start (f g : trace_file) : st := St f g (Isr 0 0 0) None tally0.

(** The program from the two loads to the verdict and the text it prints after
    them; a missing file is [None]. *)
Definition compare_trace (skip_isr : bool) (ibex_file sail_file : option str)
  : option (res (bool * str)) :=
  match (f ← TraceParse.load ibex_file; gr ← Sail.load sail_file; Ok (f, gr)) with
  | Raise c m => Some (Raise c m)
  | Ok (f, (g, is_rvfi)) =>
      match loop skip_isr is_rvfi (S (remaining f)) (start f g) with
      | None => None
      | Some (Raise c m) => Some (Raise c m)
      | Some (Ok s) => Some (Ok (passed s,
          out (counts s) ++ summary s ++
          (if passed s then "Compare_trace.py: comparison passed :)" else
             "Compare_trace.py: comparison failed :(") ++ nl))
      end
  end.

(** ** Termination

    Every iteration that compares a pair reads at least one line of the Ibex
    trace, so as much fuel as there are unread lines, plus one, is enough. *)

Lemma remaining_lt f o f' :
  progress f o f' -> is_valid o = true -> (remaining f' < remaining f)%nat.
Proof. unfold remaining. intros [-> [[? ?]|[-> _]]]; [lia|done]. Qed.

Lemma remaining_le f o f' : progress f o f' -> (remaining f' <= remaining f)%nat.
Proof. unfold remaining. intros [-> [[_ H]|[_ H]]]; lia. Qed.

Lemma is_valid_eqb o : (valid o =? 0) = negb (is_valid o).
Proof. unfold is_valid. by rewrite negb_involutive. Qed.

(** The inner loop returns, and leaves fewer lines when it found an object. *)
Lemma skip_isr_total n f s :
  (remaining f < n)%nat ->
  exists r, skip_isr_loop n f s = Some r /\
    forall o f' s', r = Ok (o, f', s') ->
      lines f' = lines f /\ (remaining f' <= remaining f)%nat /\
      (is_valid o = true -> (remaining f' < remaining f)%nat).
Proof.
  revert f s; induction n as [|n IH]; intros f s Hn; [lia|]. cbn [skip_isr_loop].
  destruct (Ibex.find_nxt f) as [[o f']|c m] eqn:E; [|eexists; split; [done|done]].
  apply ibex_find_nxt_progress in E. rewrite is_valid_eqb.
  pose proof (remaining_le _ _ _ E). pose proof (remaining_lt _ _ _ E).
  destruct (is_valid o) eqn:Hv; cbn [negb orb].
  - destruct (outside_isr s o).
    + eexists. split; [done|]. intros ? ? ? [= <- <- <-]. destruct E as [-> _]. auto.
    + destruct (IH f' (isr_update s o)) as (r & -> & Hr); [specialize (H0 eq_refl); lia|].
      eexists. split; [done|]. intros o2 f2 s2 ->. destruct (Hr _ _ _ eq_refl) as (? & ? & ?).
      destruct E as [E _]. specialize (H0 eq_refl). split_and!; [congruence|lia|].
      intros Hv2. specialize (H3 Hv2). lia.
  - eexists. split; [done|]. intros ? ? ? [= <- <- <-]. destruct E as [-> _].
    split_and!; [done|done|congruence].
Qed.

Lemma nxt_ibex_total k f s :
  exists r, nxt_ibex k f s = Some r /\
    forall o f' s', r = Ok (o, f', s') ->
      lines f' = lines f /\ (remaining f' <= remaining f)%nat /\
      (is_valid o = true -> (remaining f' < remaining f)%nat).
Proof.
  unfold nxt_ibex. destruct k; [apply skip_isr_total; lia|].
  eexists. split; [done|]. intros o f' s' H. destruct (Ibex.find_nxt f) as [[o1 f1]|] eqn:E; [|done].
  cbn in H. injection H as <- <- <-. apply ibex_find_nxt_progress in E.
  split_and!; [by destruct E|by eapply remaining_le|by eapply remaining_lt].
Qed.

Lemma iter_total k b s :
  exists r, iter k b s = Some r /\
    forall p s', r = Ok (inr (p, s')) ->
      (remaining (ibex_trace s') < remaining (ibex_trace s))%nat.
Proof.
  unfold iter. destruct (nxt_ibex_total k (ibex_trace s) (isr s)) as (r & -> & Hr).
  destruct r as [[[i f] sr]|c m]; [|by eexists].
  eexists. split; [done|]. intros p s' H. destruct (Hr _ _ _ eq_refl) as (_ & _ & Hlt).
  destruct (nxt_sail _ _ _) as [[so g]|]; [|done]. cbn in H. rewrite !is_valid_eqb in H.
  destruct (is_valid i); [|done]. destruct (is_valid so); [|done]. cbn in H.
  res_inv. by apply Hlt.
Qed.

Lemma loop_total k b n s :
  (remaining (ibex_trace s) < n)%nat -> is_Some (loop k b n s).
Proof.
  revert s; induction n as [|n IH]; intros s Hn; [lia|]. cbn [loop].
  destruct (iter_total k b s) as (r & -> & Hr).
  destruct r as [[s'|[p s']]|c m]; [done| |done].
  apply IH. specialize (Hr _ _ eq_refl). lia.
Qed.

(** C24 (termination).  The program ends on every pair of files, with or without
    [--skip_isr]: with a verdict or with an exception. *)
Theorem compare_trace_terminates (skip : bool) (ibex_file sail_file : option str) :
  exists r, compare_trace skip ibex_file sail_file = Some r.
Proof.
  unfold compare_trace. destruct (mbind _ _) as [[f [g b]]|c m]; [|by eexists].
  destruct (loop_total skip b (S (remaining f)) (start f g)) as [r ->]; [cbn; lia|].
  by destruct r; eexists.
Qed.

(** ** The pairs a run compares *)

Definition pair := (trace_obj * trace_obj)%type.

Inductive compared (k b : bool) : st -> list pair -> st -> Prop :=
| compared_end s s' : iter k b s = Some (Ok (inl s')) -> compared k b s [] s'
| compared_step s p s1 ps s' :
    iter k b s = Some (Ok (inr (p, s1))) -> compared k b s1 ps s' ->
    compared k b s (p :: ps) s'.
#[export] Hint Constructors compared : cheriot.

Lemma loop_compared k b n s s' :
  loop k b n s = Some (Ok s') -> exists ps, compared k b s ps s'.
Proof.
  revert s; induction n as [|n IH]; intros s; cbn [loop]; [done|].
  destruct (iter k b s) as [[[s1|[p s1]]|c m]|] eqn:E; try done.
  - intros [= ->]. eauto with cheriot.
  - intros [ps H]%IH. eauto with cheriot.
Qed.

(** The comparisons of a run, as a fold over its pairs. *)
Definition tally_all (t : tally) (ps : list pair) : res tally :=
  res_fold (fun t p => compare_one t p.1 p.2) t ps.

Lemma iter_counts_end k b s s' :
  iter k b s = Some (Ok (inl s')) -> counts s' = counts s.
Proof.
  unfold iter. destruct (nxt_ibex _ _ _) as [[[[i f] sr]|]|]; try done.
  intros [= H]. destruct (nxt_sail _ _ _) as [[so g]|]; [|done]. cbn in H.
  case_match; by res_inv.
Qed.
Lemma iter_counts_step k b s p s' :
  iter k b s = Some (Ok (inr (p, s'))) -> compare_one (counts s) p.1 p.2 = Ok (counts s').
Proof.
  unfold iter. destruct (nxt_ibex _ _ _) as [[[[i f] sr]|]|]; try done.
  intros [= H]. destruct (nxt_sail _ _ _) as [[so g]|]; [|done]. cbn in H.
  case_match; by res_inv.
Qed.

Lemma compared_tally k b s ps s' :
  compared k b s ps s' -> tally_all (counts s) ps = Ok (counts s').
Proof.
  induction 1 as [s s' H|s p s1 ps s' H _ IH]; cbn.
  - by apply iter_counts_end in H as ->.
  - apply iter_counts_step in H. rewrite H. cbn. done.
Qed.

(** ** Refinement: the run zips two object sequences *)

(** All the objects of a trace. *)
Fixpoint objects (nxt : trace_file -> res (trace_obj * trace_file)) (n : nat) (f : trace_file)
  : option (res (list trace_obj)) :=
  match n with
  | O => None
  | S n' =>
      match nxt f with
      | Raise c m => Some (Raise c m)
      | Ok (o, f') =>
          if valid o =? 0 then Some (Ok []) else
            r ← objects nxt n' f'; Some (os ← r; Ok (o :: os))
      end
  end.

(** The Ibex objects outside the service routines. *)
Fixpoint visible (s : isr_state) (os : list trace_obj) : list trace_obj :=
  match os with
  | [] => []
  | o :: os' => if outside_isr s o then o :: visible s os' else visible (isr_update s o) os'
  end.
Definition view (skip : bool) (s : isr_state) (os : list trace_obj) : list trace_obj :=
  if skip then visible s os else os.

(** The Sail objects with the trap entries the log announces made explicit. *)
Fixpoint expand (os : list trace_obj) : list trace_obj :=
  match os with
  | [] => []
  | o :: os' => o :: (if trap_nxt o =? 1 then trap_at (trap_pc o) :: expand os' else expand os')
  end.
Definition expand_from (outst : option Z) (os : list trace_obj) : list trace_obj :=
  match outst with Some p => trap_at p :: expand os | None => expand os end.

Section Refinement.
Context (k b : bool).

Lemma objects_nxt nxt n f os :
  objects nxt n f = Some (Ok os) ->
  exists o f', nxt f = Ok (o, f') /\
    match os with
    | [] => valid o = 0
    | o' :: os' => o' = o /\ valid o <> 0 /\ exists n', objects nxt n' f' = Some (Ok os')
    end.
Proof.
  destruct n as [|n]; [done|]. cbn [objects].
  destruct (nxt f) as [[o f']|c m]; [|done].
  intros H. exists o, f'. split; [done|]. destruct (Z.eqb_spec (valid o) 0).
  - by injection H as <-.
  - destruct (objects nxt n f') as [[os'|]|] eqn:E; try done. cbn in H.
    injection H as <-. eauto.
Qed.

Definition next_of (os : list trace_obj) (r : trace_obj * trace_file * isr_state) : Prop :=
  let '(o, f, s) := r in
  match os with
  | [] => valid o = 0
  | o' :: os' => o' = o /\ valid o <> 0 /\
      exists n rest, objects Ibex.find_nxt n f = Some (Ok rest) /\ os' = view k s rest
  end.

Lemma skip_isr_objects m n f s r os :
  k = true -> objects Ibex.find_nxt n f = Some (Ok os) ->
  skip_isr_loop m f s = Some r -> exists x, r = Ok x /\ next_of (view k s os) x.
Proof.
  intros Hk. revert n f s os; induction m as [|m IH]; intros n f s os Ho; cbn [skip_isr_loop]; [done|].
  apply objects_nxt in Ho as (o & f' & -> & Ho). rewrite Hk in *. cbn [view].
  destruct os as [|o' os].
  - rewrite Ho. intros [= <-]. by exists (o, f', s).
  - destruct Ho as (-> & Hv & n' & Ho). rewrite (proj2 (Z.eqb_neq _ _) Hv). cbn [orb visible].
    destruct (outside_isr s o).
    + intros [= <-]. exists (o, f', s). split; [done|]. cbn. rewrite Hk. eauto 10.
    + by apply (IH n').
Qed.

Lemma nxt_ibex_objects n f s os :
  objects Ibex.find_nxt n f = Some (Ok os) ->
  exists x, nxt_ibex k f s = Some (Ok x) /\ next_of (view k s os) x.
Proof.
  intros Ho. unfold nxt_ibex. destruct k eqn:Hk.
  - destruct (skip_isr_total (S (remaining f)) f s) as (r & E & _); [lia|].
    destruct (skip_isr_objects _ n f s r os Hk Ho E) as (x & -> & Hx). rewrite Hk in Hx. eauto.
  - apply objects_nxt in Ho as (o & f' & -> & Ho). cbn. exists (o, f', s). split; [done|].
    unfold next_of. rewrite Hk. cbn [view].
    destruct os; [done|]. naive_solver.
Qed.

Definition next_sail (os : list trace_obj) (r : trace_obj * trace_file) : Prop :=
  let '(o, g) := r in
  match os with
  | [] => valid o = 0
  | o' :: os' => o' = o /\ valid o <> 0 /\
      exists n rest, objects (Sail.find_nxt b) n g = Some (Ok rest) /\
        os' = expand_from (if trap_nxt o =? 1 then Some (trap_pc o) else None) rest
  end.

Lemma nxt_sail_objects n g outst os :
  objects (Sail.find_nxt b) n g = Some (Ok os) ->
  exists x, nxt_sail b outst g = Ok x /\ next_sail (expand_from outst os) x.
Proof.
  intros Ho. destruct outst as [p|]; cbn [nxt_sail expand_from].
  - eexists. split; [done|]. cbn. eauto 10.
  - apply objects_nxt in Ho as (o & g' & -> & Ho). eexists. split; [done|].
    destruct os as [|o' os]; cbn; [done|]. destruct Ho as (-> & ? & n' & ?).
    split_and!; [done..|]. exists n', os. split; [done|]. by destruct (trap_nxt o =? 1).
Qed.

Lemma loop_zip m f g sr outst t ni ns ios sos r :
  objects Ibex.find_nxt ni f = Some (Ok ios) ->
  objects (Sail.find_nxt b) ns g = Some (Ok sos) ->
  loop k b m (St f g sr outst t) = Some r ->
  counts <$> r = tally_all t (zip (view k sr ios) (expand_from outst sos)).
Proof.
  revert f g sr outst t ni ns ios sos; induction m as [|m IH];
    intros f g sr outst t ni ns ios sos Hi Hs; cbn [loop]; [done|].
  unfold iter. cbn [ibex_trace sail_trace isr counts outstanding].
  destruct (nxt_ibex_objects ni f sr ios Hi) as ([[i f'] sr'] & -> & Hni).
  destruct (nxt_sail_objects ns g outst sos Hs) as ([so g'] & -> & Hns).
  cbn [mbind res_bind].
  destruct (view k sr ios) as [|i0 is0]; cbn in Hni.
  { rewrite Hni. cbn. by intros [= <-]. }
  destruct Hni as (-> & Hvi & ni' & rest & Hi' & ->).
  destruct (expand_from outst sos) as [|s0 ss0]; cbn in Hns.
  { rewrite Hns, orb_true_r. by intros [= <-]. }
  destruct Hns as (-> & Hvs & ns' & rest' & Hs' & ->).
  rewrite (proj2 (Z.eqb_neq _ _) Hvi), (proj2 (Z.eqb_neq _ _) Hvs). cbn.
  destruct (compare_one t i so) as [t'|c e]; cbn; [|by intros [= <-]].
  intros H. exact (IH _ _ _ _ _ _ _ _ _ Hi' Hs' H).
Qed.
End Refinement.

(** C4 (refinement: the loop against object sequences).  When both traces parse
    completely, into the objects [ios] and [sos], the run compares exactly the
    pairs of [ios] without the service routines (all of [ios] when not asked to
    skip them) with [sos] in which every announced trap is followed by a trap
    entry; its counters, pending registers and printed text are the fold of the
    comparison over them, exceptions included. *)
Theorem loop_refines_zip (skip b : bool) (f g : trace_file) (ni ns : nat)
    (ios sos : list trace_obj) :
  objects Ibex.find_nxt ni f = Some (Ok ios) ->
  objects (Sail.find_nxt b) ns g = Some (Ok sos) ->
  exists r, loop skip b (S (remaining f)) (start f g) = Some r /\
    counts <$> r = tally_all tally0 (zip (view skip (Isr 0 0 0) ios) (expand sos)).
Proof.
  intros Hi Hs. destruct (loop_total skip b (S (remaining f)) (start f g)) as [r Hr]; [cbn; lia|].
  exists r. split; [done|]. exact (loop_zip _ _ _ _ _ _ _ _ _ _ _ _ _ Hi Hs Hr).
Qed.

(** A store and a trapping load as the two tools log them. *)
Definition tab : str := ["009"%char].
Definition ibex_log : str :=
  "Time" ++ tab ++ "Cycle" ++ tab ++ "PC" ++ nl ++
  "            100" ++ tab ++ "10" ++ tab ++ "80000000" ++ tab ++ "00a52023" ++ tab ++
  "sw" ++ tab ++ "x10,0(x10)" ++ tab ++ " x10:0x80001000 PA:0x80001000 store:0x00000001" ++ nl ++
  "            110" ++ tab ++ "11" ++ tab ++ "80000004" ++ tab ++ "00052503" ++ tab ++
  "-->lw" ++ tab ++ "x10,0(x10)" ++ nl.
Definition sail_log : str :=
  "[0] [M]: 0x80000000 (0x00A52023) sw a0, 0(a0)" ++ nl ++
  "mem[0x80001000] <- 0x00000001" ++ nl ++
  "trapping, CHERI Violation PC=0x80000004" ++ nl ++ nl ++ nl ++ nl ++ nl ++ nl ++ nl ++ nl.
Definition log_file (s : str) : trace_file := TraceFile (splitlines s) 0.
Definition log_objects (b : bool) : list trace_obj :=
  match objects (if b then Sail.find_nxt false else Ibex.find_nxt) 9
                (log_file (if b then sail_log else ibex_log)) with
  | Some (Ok os) => os
  | _ => []
  end.

Example loop_refines_zip_witness :
  objects Ibex.find_nxt 9 (log_file ibex_log) = Some (Ok (log_objects false)) /\
  objects (Sail.find_nxt false) 9 (log_file sail_log) = Some (Ok (log_objects true)) /\
  (trap <$> expand (log_objects true)) = [0; 1] /\
  exists r, loop false false (S (remaining (log_file ibex_log)))
                 (start (log_file ibex_log) (log_file sail_log)) = Some r /\
    counts <$> r = tally_all tally0
      (zip (view false (Isr 0 0 0) (log_objects false)) (expand (log_objects true))).
Proof.
  split; [vm_compute; reflexivity|]. split; [vm_compute; reflexivity|].
  split; [vm_compute; reflexivity|].
  apply (loop_refines_zip false false (log_file ibex_log) (log_file sail_log) 9 9);
    vm_compute; reflexivity.
Defined.

(** ** The pending registers *)

Definition wf_pending (t : tally) : Prop :=
  length (pending t) = 32%nat /\ Forall (fun v => v = 0 \/ v = 1) (pending t).

(** The registers of an object are register numbers. *)
Definition regs_ok (o : trace_obj) : Prop :=
  (Z.to_nat (reg_raddr1 o) < 32)%nat /\ (Z.to_nat (reg_raddr2 o) < 32)%nat /\
  (Z.to_nat (reg_waddr o) < 32)%nat.

Lemma py_nth_ok {A} (l : list A) i : (i < length l)%nat -> exists x, py_nth l i = Ok x /\ l !! i = Some x.
Proof. intros H. apply lookup_lt_is_Some in H as [x H]. exists x. unfold py_nth. by rewrite H. Qed.

Lemma py_nth_inv {A} (l : list A) i x : py_nth l i = Ok x -> l !! i = Some x.
Proof. apply or_raise_ok. Qed.

Lemma set_pending_ok t r v t' :
  set_pending t r v = Ok t' -> pending t' = <[Z.to_nat r := v]> (pending t).
Proof. unfold set_pending. intros H. by res_inv. Qed.

Ltac open_check :=
  repeat first
    [ res_step
    | match goal with H : (if ?b then _ else _) = Ok _ |- _ => destruct b eqn:? end
    | match goal with H : set_pending _ _ _ = Ok _ |- _ =>
        pose proof (set_pending_ok _ _ _ _ H); revert H; unfold set_pending; intros H end ];
  cbn [pending say count_eq count_neq count_cmp count_err
       cmp_cnt eq_cnt neq_cnt revoke_err_cnt] in *; subst.

Lemma check_cs1_moves t o t' :
  check_cs1 t o = Ok t' ->
  (pending t' = pending t \/
   (pending t' = <[Z.to_nat (reg_raddr1 o) := 0]> (pending t) /\
    reg_rd1 o = 1 /\ c_tag (reg_rcap1 o) = 0)) /\
  neq_cnt t' = neq_cnt t /\ cmp_cnt t' = cmp_cnt t.
Proof. unfold check_cs1. intros H. open_check; rewrite ?andb_true_iff, ?Z.eqb_eq in *; naive_solver. Qed.

Lemma check_cs2_moves t o t' :
  check_cs2 t o = Ok t' ->
  (pending t' = pending t \/
   (pending t' = <[Z.to_nat (reg_raddr2 o) := 0]> (pending t) /\
    reg_rd2 o = 1 /\ c_tag (reg_rcap2 o) = 0 /\
    pending t !! Z.to_nat (reg_raddr1 o) = Some 1)) /\
  neq_cnt t' = neq_cnt t /\ cmp_cnt t' = cmp_cnt t.
Proof.
  unfold check_cs2. intros H. open_check; rewrite ?andb_true_iff, ?Z.eqb_eq in *; try naive_solver.
  all: repeat match goal with E : py_nth _ _ = Ok _ |- _ => apply py_nth_inv in E end.
  all: naive_solver.
Qed.

Lemma check_rd_moves t o t' :
  check_rd t o = Ok t' ->
  (pending t' = pending t \/
   (pending t' = <[Z.to_nat (reg_waddr o) := 0]> (pending t) /\ reg_wr o = 1)) /\
  neq_cnt t' = neq_cnt t /\ cmp_cnt t' = cmp_cnt t.
Proof. unfold check_rd. intros H. open_check; rewrite ?andb_true_iff, ?Z.eqb_eq in *; naive_solver. Qed.

(** A pair the comparison rejects. *)
Definition bad (p : pair) : bool := negb (trace_eq p.1 p.2 || revocation_case p.1 p.2).

Lemma judge_moves t i s t' :
  judge t i s = Ok t' ->
  pending t' = (if trace_eq i s then pending t else
                if revocation_case i s then <[Z.to_nat (reg_waddr i) := 1]> (pending t)
                else pending t) /\
  neq_cnt t' = neq_cnt t + b2z (bad (i, s)) /\ cmp_cnt t' = cmp_cnt t.
Proof.
  unfold judge, bad. cbn [fst snd]. intros H.
  destruct (trace_eq i s) eqn:E1; [|destruct (revocation_case i s) eqn:E2];
    open_check; cbn; rewrite ?Z.add_0_r; auto.
Qed.

(** An instruction that settles a pending register: it reads the register
    without a tag, or writes it. *)
Definition settles (r : nat) (i : trace_obj) : Prop :=
  (Z.to_nat (reg_raddr1 i) = r /\ reg_rd1 i = 1 /\ c_tag (reg_rcap1 i) = 0) \/
  (Z.to_nat (reg_raddr2 i) = r /\ reg_rd2 i = 1 /\ c_tag (reg_rcap2 i) = 0) \/
  (Z.to_nat (reg_waddr i) = r /\ reg_wr i = 1).

Lemma insert_keeps (l l' : list Z) r r' v (P : Prop) :
  l' = l \/ (l' = <[r' := v]> l /\ (r' = r -> P)) ->
  l !! r = Some 1 -> l' !! r = Some 1 \/ P.
Proof.
  intros [->|[-> HP]] H; [by left|].
  destruct (decide (r' = r)) as [|Hn]; [auto|left].
  by rewrite list_lookup_insert_ne.
Qed.

Lemma insert_one_keeps (l : list Z) r r' : l !! r = Some 1 -> <[r' := 1]> l !! r = Some 1.
Proof.
  intros H. destruct (decide (r' = r)) as [<-|Hn]; [|by rewrite list_lookup_insert_ne].
  apply list_lookup_insert_eq. by eapply lookup_lt_Some.
Qed.

(** A pending register stays pending until an instruction settles it. *)
Lemma compare_one_pending t i s t' r :
  compare_one t i s = Ok t' -> pending t !! r = Some 1 ->
  pending t' !! r = Some 1 \/ settles r i.
Proof.
  unfold compare_one. intros H Hr. res_inv.
  apply check_cs1_moves in E as [E _]. apply check_cs2_moves in E0 as [E0 _].
  apply check_rd_moves in E1 as [E1 _]. apply judge_moves in E2 as [E2 _].
  unfold settles. cbn [count_cmp pending]. rewrite E2.
  destruct (insert_keeps (pending t) (pending a) r (Z.to_nat (reg_raddr1 i)) 0 (settles r i))
    as [Hr1|]; [unfold settles; naive_solver|done| |by right].
  destruct (insert_keeps (pending a) (pending a0) r (Z.to_nat (reg_raddr2 i)) 0 (settles r i))
    as [Hr2|]; [unfold settles; naive_solver|done| |by right].
  destruct (insert_keeps (pending a0) (pending a1) r (Z.to_nat (reg_waddr i)) 0 (settles r i))
    as [Hr3|]; [unfold settles; naive_solver|done| |by right].
  left. repeat case_match; auto using insert_one_keeps.
Qed.

Lemma compare_one_counts t i s t' :
  compare_one t i s = Ok t' ->
  cmp_cnt t' = cmp_cnt t + 1 /\ neq_cnt t' = neq_cnt t + b2z (bad (i, s)).
Proof.
  unfold compare_one. intros H. res_inv.
  apply check_cs1_moves in E as (_ & ? & ?). apply check_cs2_moves in E0 as (_ & ? & ?).
  apply check_rd_moves in E1 as (_ & ? & ?). apply judge_moves in E2 as (_ & ? & ?).
  cbn. split; congruence.
Qed.

(** A revocation starts a pending register. *)
Lemma compare_one_starts t i s t' :
  compare_one t i s = Ok t' -> trace_eq i s = false -> revocation_case i s = true ->
  pending t' !! Z.to_nat (reg_waddr i) = Some 1.
Proof.
  unfold compare_one. intros H Hne Hrc. res_inv. cbn [count_cmp pending].
  unfold judge in E2. rewrite Hne, Hrc in E2. unfold set_pending in E2. res_inv.
  cbn. apply list_lookup_insert_eq. apply py_nth_inv in E4. by eapply lookup_lt_Some.
Qed.

Lemma tally_counts t ps t' :
  tally_all t ps = Ok t' ->
  cmp_cnt t' = cmp_cnt t + Z.of_nat (length ps) /\
  neq_cnt t' = neq_cnt t + Z.of_nat (length (filter (fun p => bad p = true) ps)).
Proof.
  revert t; induction ps as [|[i s] ps IH]; intros t; unfold tally_all; cbn [res_fold fst snd].
  - intros [= ->]. cbn. lia.
  - intros H. res_inv. apply compare_one_counts in E as [Hc Hn].
    apply IH in H as [-> ->]. rewrite Hc, Hn, filter_cons.
    destruct (bad (i, s)) eqn:Hb; [rewrite decide_True by done|rewrite decide_False by done];
      cbn [b2z length]; lia.
Qed.

Lemma tally_pending t ps t' r :
  tally_all t ps = Ok t' -> pending t !! r = Some 1 ->
  pending t' !! r = Some 1 \/ Exists (fun p => settles r p.1) ps.
Proof.
  revert t; induction ps as [|[i s] ps IH]; intros t; cbn.
  - intros [= ->]. by left.
  - intros H Hr. res_inv. destruct (compare_one_pending _ _ _ _ r E Hr) as [Hr'|Hs].
    + destruct (IH _ H Hr'); [by left|right; by constructor].
    + right. by constructor.
Qed.

(** (functional: counters).  After a run, [cmp_cnt] is the number of pairs
    compared and [neq_cnt] the number of those that are neither equal nor a
    capability load with the tag still set. *)
Theorem run_counters (skip b : bool) (n : nat) (f g : trace_file) (s : st) :
  loop skip b n (start f g) = Some (Ok s) ->
  exists ps, compared skip b (start f g) ps s /\
    cmp_cnt (counts s) = Z.of_nat (length ps) /\
    neq_cnt (counts s) = Z.of_nat (length (filter (fun p => bad p = true) ps)).
Proof.
  intros [ps H]%loop_compared. exists ps. split; [done|].
  apply compared_tally, tally_counts in H. exact H.
Qed.

(** ** Soundness of the verdict *)

Lemma passed_inv s :
  passed s = true ->
  neq_cnt (counts s) = 0 /\ revoke_pending (counts s) = false /\
  lines_left (ibex_trace s) < 1000 /\ lines_left (sail_trace s) = 0.
Proof.
  unfold passed. rewrite !andb_true_iff, !negb_true_iff, !Z.eqb_eq, Z.ltb_lt. tauto.
Qed.

Lemma revoke_pending_false t r :
  revoke_pending t = false -> pending t !! r <> Some 1.
Proof.
  unfold revoke_pending. intros H Hr. apply list_elem_of_lookup_2, list_elem_of_In in Hr.
  assert (existsb (fun v => negb (v =? 0)) (pending t) = true); [|congruence].
  apply existsb_exists. eauto.
Qed.

Lemma no_bad_pairs (ps : list pair) :
  length (filter (fun p => bad p = true) ps) = 0%nat ->
  Forall (fun p => trace_eq p.1 p.2 = true \/ revocation_case p.1 p.2 = true) ps.
Proof.
  intros H. apply Forall_forall. intros p Hp.
  destruct (bad p) eqn:E.
  - apply nil_length_inv in H. assert (p ∈ filter (fun p => bad p = true) ps) as Hin
      by by apply list_elem_of_filter.
    rewrite H in Hin. by apply not_elem_of_nil in Hin.
  - unfold bad in E. apply negb_false_iff, orb_true_iff in E. done.
Qed.

Lemma tally_revoked t ps t' k p :
  tally_all t ps = Ok t' -> revoke_pending t' = false ->
  ps !! k = Some p -> trace_eq p.1 p.2 = false -> revocation_case p.1 p.2 = true ->
  exists j q, (k < j)%nat /\ ps !! j = Some q /\ settles (Z.to_nat (reg_waddr p.1)) q.1.
Proof.
  intros Ht Hp. revert t k Ht; induction ps as [|[i s] ps IH]; intros t k Ht; [done|].
  cbn in Ht. res_inv. destruct k as [|k]; cbn [lookup list_lookup].
  - intros [= <-] Hne Hrc.
    destruct (tally_pending _ _ _ _ Ht (compare_one_starts _ _ _ _ E Hne Hrc)) as [Hr|Hs].
    + by apply revoke_pending_false in Hr.
    + apply Exists_exists in Hs as (q & Hq & Hs). apply list_elem_of_lookup in Hq as [j Hj].
      exists (S j), q. split; [lia|done].
  - intros Hk Hne Hrc. destruct (IH _ _ Ht Hk Hne Hrc) as (j & q & ? & ? & ?).
    exists (S j), q. split; [lia|done].
Qed.

(** C2 (safety: what a passed comparison means).  When the program reports
    success, every pair it compared agrees in full, or is a capability load that
    agrees except for its tag and whose target register a later instruction
    reads untagged or overwrites; the Sail trace was read to its end and fewer
    than 1000 lines of the Ibex trace were left. *)
Theorem passed_sound (skip : bool) (ibex_file sail_file : option str) (text : str) :
  compare_trace skip ibex_file sail_file = Some (Ok (true, text)) ->
  exists f g b ps s,
    TraceParse.load ibex_file = Ok f /\ Sail.load sail_file = Ok (g, b) /\
    compared skip b (start f g) ps s /\
    (forall k i o, ps !! k = Some (i, o) ->
       trace_eq i o = true \/
       (revocation_case i o = true /\
        exists j q, (k < j)%nat /\ ps !! j = Some q /\ settles (Z.to_nat (reg_waddr i)) q.1)) /\
    lines_left (ibex_trace s) < 1000 /\ lines_left (sail_trace s) = 0.
Proof.
  unfold compare_trace. intros H.
  destruct (TraceParse.load ibex_file) as [f|]; [|done].
  destruct (Sail.load sail_file) as [[g b]|]; [|done]. cbn [mbind res_bind] in H.
  destruct (loop _ _ _ _) as [[s|]|] eqn:E; try done. injection H as Hp _.
  apply loop_compared in E as [ps Hc]. exists f, g, b, ps, s.
  apply passed_inv in Hp as (Hn & Hr & Hl & Hs). split_and!; try done.
  pose proof (compared_tally _ _ _ _ _ Hc) as Ht.
  destruct (tally_counts _ _ _ Ht) as [_ Hneq]. rewrite Hn in Hneq. cbn in Hneq.
  pose proof (no_bad_pairs ps ltac:(lia)) as Hgood. intros k i o Hk.
  pose proof (Forall_lookup_1 _ _ _ _ Hgood Hk) as Hg. cbn in Hg.
  destruct (trace_eq i o) eqn:Heq; [by left|right]. destruct Hg as [|Hg]; [done|].
  split; [done|]. exact (tally_revoked _ _ _ k (i, o) Ht Hr Hk Heq Hg).
Qed.

Definition passed_text : str :=
  match compare_trace false (Some ibex_log) (Some sail_log) with
  | Some (Ok (_, t)) => t
  | _ => []
  end.

Example passed_sound_witness :
  compare_trace false (Some ibex_log) (Some sail_log) = Some (Ok (true, passed_text)) /\
  exists f g b ps s,
    TraceParse.load (Some ibex_log) = Ok f /\ Sail.load (Some sail_log) = Ok (g, b) /\
    compared false b (start f g) ps s /\
    (forall k i o, ps !! k = Some (i, o) ->
       trace_eq i o = true \/
       (revocation_case i o = true /\
        exists j q, (k < j)%nat /\ ps !! j = Some q /\ settles (Z.to_nat (reg_waddr i)) q.1)) /\
    lines_left (ibex_trace s) < 1000 /\ lines_left (sail_trace s) = 0.
Proof.
  split; [vm_compute; reflexivity|].
  apply (passed_sound false (Some ibex_log) (Some sail_log) passed_text).
  vm_compute; reflexivity.
Defined.

Definition end_of (r : option (res st)) (d : st) : st :=
  match r with Some (Ok s) => s | _ => d end.
Definition start0 : st := start (log_file ibex_log) (log_file sail_log).

Example run_counters_witness :
  loop false false 9 start0 = Some (Ok (end_of (loop false false 9 start0) start0)) /\
  exists ps, compared false false start0 ps (end_of (loop false false 9 start0) start0) /\
    cmp_cnt (counts (end_of (loop false false 9 start0) start0)) = Z.of_nat (length ps) /\
    neq_cnt (counts (end_of (loop false false 9 start0) start0)) =
      Z.of_nat (length (filter (fun p => bad p = true) ps)).
Proof.
  split; [vm_compute; reflexivity|].
  apply (run_counters false false 9 (log_file ibex_log) (log_file sail_log)).
  vm_compute; reflexivity.
Defined.

(** ** Errors and invariants of one comparison *)

Lemma set_pending_total t r v :
  (Z.to_nat r < length (pending t))%nat -> exists t', set_pending t r v = Ok t'.
Proof. intros H. unfold set_pending. destruct (py_nth_ok _ _ H) as (x & -> & _). by eexists. Qed.

Ltac check_total t r :=
  let Hl := fresh "Hl" in
  assert (Z.to_nat r < length (pending t))%nat as Hl by lia;
  destruct (py_nth_ok _ _ Hl) as (? & -> & _); cbn [mbind res_bind].

Lemma judge_total t i s :
  (Z.to_nat (reg_waddr i) < length (pending t))%nat -> exists t', judge t i s = Ok t'.
Proof.
  intros H. unfold judge. destruct (set_pending_total t (reg_waddr i) 1 H) as [t' ->].
  repeat case_match; by eexists.
Qed.

Lemma pending_length (l l' : list Z) r v P :
  (l' = l \/ (l' = <[r := v]> l /\ P)) -> length l' = length l.
Proof. by intros [->|[-> _]]; rewrite ?length_insert. Qed.

Lemma check_cs1_total t o :
  length (pending t) = 32%nat -> regs_ok o ->
  exists t', check_cs1 t o = Ok t' /\ length (pending t') = 32%nat.
Proof.
  intros H (H1 & _). unfold check_cs1. check_total t (reg_raddr1 o).
  destruct (set_pending_total t (reg_raddr1 o) 0 Hl) as [t' Ht]. rewrite Ht.
  apply set_pending_ok in Ht. cbn [mbind res_bind].
  repeat case_match; eexists; (split; [done|]); cbn; [done| |done].
  by rewrite Ht, length_insert.
Qed.
Lemma check_cs2_total t o :
  length (pending t) = 32%nat -> regs_ok o ->
  exists t', check_cs2 t o = Ok t' /\ length (pending t') = 32%nat.
Proof.
  intros H (H1 & H2 & _). unfold check_cs2. check_total t (reg_raddr2 o).
  check_total t (reg_raddr1 o).
  destruct (set_pending_total t (reg_raddr2 o) 0 Hl) as [t' Ht]. rewrite Ht.
  apply set_pending_ok in Ht. cbn [mbind res_bind].
  repeat case_match; eexists; (split; [done|]); cbn; [done| |done].
  by rewrite Ht, length_insert.
Qed.
Lemma check_rd_total t o :
  length (pending t) = 32%nat -> regs_ok o ->
  exists t', check_rd t o = Ok t' /\ length (pending t') = 32%nat.
Proof.
  intros H (_ & _ & H3). unfold check_rd. check_total t (reg_waddr o).
  destruct (set_pending_total t (reg_waddr o) 0 Hl) as [t' Ht]. rewrite Ht.
  apply set_pending_ok in Ht. cbn [mbind res_bind].
  repeat case_match; eexists; (split; [done|]); cbn; [|done].
  by rewrite Ht, length_insert.
Qed.

(** (error behaviour and invariant).  As long as the register numbers of the
    Ibex object are below 32 a comparison does not raise, and it keeps the table
    of pending registers at 32 entries. *)
Theorem compare_one_total (t : tally) (i s : trace_obj) :
  length (pending t) = 32%nat -> regs_ok i ->
  exists t', compare_one t i s = Ok t' /\ length (pending t') = 32%nat.
Proof.
  intros Hl Hi. unfold compare_one.
  destruct (check_cs1_total t i Hl Hi) as (t1 & -> & Hl1). cbn [mbind res_bind].
  destruct (check_cs2_total t1 i Hl1 Hi) as (t2 & -> & Hl2). cbn [mbind res_bind].
  destruct (check_rd_total t2 i Hl2 Hi) as (t3 & -> & Hl3). cbn [mbind res_bind].
  destruct (judge_total t3 i s) as [t4 E]; [destruct Hi as (_ & _ & ?); lia|].
  rewrite E. cbn [mbind res_bind]. eexists. split; [done|].
  apply judge_moves in E as [E _]. cbn [count_cmp pending]. rewrite E.
  repeat case_match; rewrite ?length_insert; done.
Qed.

Example compare_one_total_witness :
  exists t', compare_one tally0 (store_obj 0 1) (store_obj 0 1) = Ok t' /\
    length (pending t') = 32%nat.
Proof.
  apply (compare_one_total tally0 (store_obj 0 1) (store_obj 0 1));
    [reflexivity|unfold regs_ok; cbn; lia].
Defined.

(** (counterexample: revocation seen through the second operand).  The branch
    for cs2 looks up the pending entry of cs1, so an instruction that reads a
    pending register untagged as its second operand does not settle it unless
    its first operand is pending as well: the tally is unchanged. *)
Theorem cs2_revocation_not_seen (t : tally) (i : trace_obj) :
  pending t !! Z.to_nat (reg_raddr2 i) = Some 1 -> reg_rd2 i = 1 -> c_tag (reg_rcap2 i) = 0 ->
  pending t !! Z.to_nat (reg_raddr1 i) = Some 0 ->
  check_cs2 t i = Ok t.
Proof.
  intros H2 Hrd Htag H1. unfold check_cs2, py_nth. rewrite H2, H1, Hrd, Htag. reflexivity.
Qed.

(** Reads c1 with its tag and c2, whose revocation is pending, without. *)
Definition cs2_reader : trace_obj := {|
  line_num := 0; valid := 1; cycle := 0; pc := 0x80000000; instr := 0x0020805b; is_clc := 0;
  trap := 0; trap_nxt := 0; trap_pc := 0; intr := 0;
  reg_wr := 0; reg_waddr := 0; reg_wdata := 0; reg_wcap := null_cap;
  mem_wr := 0; mem_rd := 0; mem_addr := 0; mem_size := 0; mem_data := 0;
  reg_rd1 := 1; reg_raddr1 := 1; reg_rdata1 := 0; reg_rcap1 := Cap 1 0 0 0 0 0;
  reg_rd2 := 1; reg_raddr2 := 2; reg_rdata2 := 0; reg_rcap2 := null_cap;
  uart_wr := 0 |}.
Definition c2_pending : tally := Tally 0 0 0 0 (<[2%nat := 1]> (replicate 32 0)) [].

Example cs2_revocation_not_seen_witness : check_cs2 c2_pending cs2_reader = Ok c2_pending.
Proof. apply (cs2_revocation_not_seen c2_pending cs2_reader); reflexivity. Defined.
