(* ===== verification/CompareInv.v ===== *)
(** * Reachable states of the trace comparison

    The main loop of compare_trace.py as a transition relation on its state, and
    the invariant of the states it reaches: where the two readers stand, the
    table of pending registers, the counters and the service-routine flag. *)

From S2P Require Import Prelude PyStr PyRe CapDecode TraceObj TraceParse CompareTrace.
From stdpp Require Import relations.
Local Open Scope Z_scope.

(** ** The transition relation *)

(** An iteration that compares a pair, and the one that leaves the loop. *)
Inductive loop_step (skip b : bool) : st -> st -> Prop :=
| Step_pair s p s' : CompareTrace.iter skip b s = Some (Ok (inr (p, s'))) -> loop_step skip b s s'
| Step_break s s' : CompareTrace.iter skip b s = Some (Ok (inl s')) -> loop_step skip b s s'.
#[export] Hint Constructors loop_step : cheriot.

Lemma loop_reaches skip b n s s' : loop skip b n s = Some (Ok s') -> rtc (loop_step skip b) s s'.
Proof.
  revert s; induction n as [|n IH]; intros s; cbn [loop]; [done|].
  destruct (CompareTrace.iter skip b s) as [[[s1|[p s1]]|c m]|] eqn:E; try done.
  - intros [= ->]. apply rtc_once. eauto with cheriot.
  - intros H%IH. eapply rtc_l; [|exact H]. eauto with cheriot.
Qed.

(** ** The invariant *)

(** The table of pending registers: 32 flags. *)
Definition flags (l : list Z) : Prop := length l = 32%nat /\ Forall (fun v => v = 0 \/ v = 1) l.

(** A reader of the file [f0], somewhere in it. *)
Definition reader_of (f0 f : trace_file) : Prop :=
  lines f = lines f0 /\ (line_ptr f0 <= line_ptr f <= length (lines f0))%nat.

Record loop_inv (f0 g0 : trace_file) (s : st) : Prop := {
  i_ibex : reader_of f0 (ibex_trace s);
  i_sail : reader_of g0 (sail_trace s);
  i_flags : flags (pending (counts s));
  (* each pair took a line of the Ibex trace *)
  i_cmp : 0 <= neq_cnt (counts s) <= cmp_cnt (counts s) /\
          cmp_cnt (counts s) <= Z.of_nat (line_ptr (ibex_trace s)) - Z.of_nat (line_ptr f0);
  i_others : 0 <= eq_cnt (counts s) /\ 0 <= revoke_err_cnt (counts s);
  i_isr : (in_isr (isr s) = 0 \/ in_isr (isr s) = 1) /\ 0 <= dbg_cnt (isr s) /\
          in_isr (isr s) <= isr_cnt (isr s) }.

(** *** The readers *)

Lemma reader_refl f : (line_ptr f <= length (lines f))%nat -> reader_of f f.
Proof. intros H. split; [done|lia]. Qed.

Lemma reader_progress f0 f o f' :
  reader_of f0 f -> progress f o f' ->
  reader_of f0 f' /\ (line_ptr f <= line_ptr f')%nat /\ (is_valid o = true -> (line_ptr f < line_ptr f')%nat).
Proof.
  intros [E H] [E' [[Hv H']|[-> H']]]; rewrite E in *.
  - split_and!; [split; [congruence|lia]|lia|lia].
  - split_and!; [split; [congruence|lia]|lia|done].
Qed.

Definition isr_ok (s : isr_state) : Prop :=
  (in_isr s = 0 \/ in_isr s = 1) /\ 0 <= dbg_cnt s /\ in_isr s <= isr_cnt s.

Lemma isr_update_ok s o : isr_ok s -> isr_ok (isr_update s o).
Proof.
  unfold isr_ok, isr_update. intros (H1 & H2 & H3). cbn [in_isr isr_cnt dbg_cnt].
  repeat case_match; split_and!; lia.
Qed.

Lemma skip_isr_inv f0 n f s o f' s' :
  reader_of f0 f -> isr_ok s -> skip_isr_loop n f s = Some (Ok (o, f', s')) ->
  reader_of f0 f' /\ isr_ok s' /\ (line_ptr f <= line_ptr f')%nat /\ (is_valid o = true -> (line_ptr f < line_ptr f')%nat).
Proof.
  revert f s; induction n as [|n IH]; intros f s Hf Hs; cbn [skip_isr_loop]; [done|].
  destruct (Ibex.find_nxt f) as [[o1 f1]|] eqn:E; [|done].
  destruct (reader_progress _ _ _ _ Hf (ibex_find_nxt_progress _ _ _ E)) as (Hf1 & Hle & Hlt).
  case_match.
  - intros [= <- <- <-]. done.
  - intros H1. destruct (IH f1 _ Hf1 (isr_update_ok _ o1 Hs) H1) as (? & ? & ? & Hv).
    split_and!; [done|done|lia|]. intros Ho. specialize (Hv Ho). lia.
Qed.

Lemma nxt_ibex_inv f0 skip f s o f' s' :
  reader_of f0 f -> isr_ok s -> nxt_ibex skip f s = Some (Ok (o, f', s')) ->
  reader_of f0 f' /\ isr_ok s' /\ (line_ptr f <= line_ptr f')%nat /\ (is_valid o = true -> (line_ptr f < line_ptr f')%nat).
Proof.
  unfold nxt_ibex. intros Hf Hs. destruct skip; [by apply skip_isr_inv|].
  destruct (Ibex.find_nxt f) as [[o1 f1]|] eqn:E; [|done]. intros [= <- <- <-].
  by destruct (reader_progress _ _ _ _ Hf (ibex_find_nxt_progress _ _ _ E)) as (? & ? & ?).
Qed.

Lemma nxt_sail_inv g0 b outst g o g' :
  reader_of g0 g -> nxt_sail b outst g = Ok (o, g') -> reader_of g0 g'.
Proof.
  unfold nxt_sail. intros Hg. destruct outst; [by intros [= _ <-]|].
  intros E%sail_find_nxt_progress. by apply (reader_progress _ _ _ _ Hg E).
Qed.

(** *** The tally *)

Lemma flags_insert l r v : flags l -> v = 0 \/ v = 1 -> flags (<[r := v]> l).
Proof. intros [Hl Hf] Hv. split; [by rewrite length_insert|]. by apply Forall_insert. Qed.

Lemma compare_one_flags t i s t' : flags (pending t) -> compare_one t i s = Ok t' -> flags (pending t').
Proof.
  unfold compare_one. intros Hf H. res_inv.
  apply check_cs1_moves in E as [E _]. apply check_cs2_moves in E0 as [E0 _].
  apply check_rd_moves in E1 as [E1 _]. apply judge_moves in E2 as [E2 _].
  cbn [count_cmp pending]. rewrite E2.
  assert (flags (pending a)) as Ha by (destruct E as [->|[-> _]]; auto using flags_insert).
  assert (flags (pending a0)) as Ha0 by (destruct E0 as [->|[-> _]]; auto using flags_insert).
  assert (flags (pending a1)) as Ha1 by (destruct E1 as [->|[-> _]]; auto using flags_insert).
  repeat case_match; auto using flags_insert.
Qed.

(** The counters only grow. *)
Definition grows (t t' : tally) : Prop :=
  eq_cnt t <= eq_cnt t' /\ revoke_err_cnt t <= revoke_err_cnt t'.
#[export] Instance grows_preorder : PreOrder grows.
Proof. split; [intros t; split; lia|intros t1 t2 t3 [? ?] [? ?]; split; lia]. Qed.

Ltac check_grows :=
  intros H; open_check;
  repeat match goal with E : set_pending _ _ _ = Ok _ |- _ => unfold set_pending in E; res_inv end;
  split; cbn; lia.

Lemma check_cs1_grows t o t' : check_cs1 t o = Ok t' -> grows t t'.
Proof. unfold check_cs1. check_grows. Qed.
Lemma check_cs2_grows t o t' : check_cs2 t o = Ok t' -> grows t t'.
Proof. unfold check_cs2. check_grows. Qed.
Lemma check_rd_grows t o t' : check_rd t o = Ok t' -> grows t t'.
Proof. unfold check_rd. check_grows. Qed.
Lemma judge_grows t i s t' : judge t i s = Ok t' -> grows t t'.
Proof. unfold judge. check_grows. Qed.

Lemma compare_one_grows t i s t' : compare_one t i s = Ok t' -> grows t t'.
Proof.
  unfold compare_one. intros H. res_inv.
  apply check_cs1_grows in E. apply check_cs2_grows in E0. apply check_rd_grows in E1. apply judge_grows in E2.
  rewrite E, E0, E1, E2. split; cbn; lia.
Qed.

(** ** Preservation *)

Lemma step_inv skip b f0 g0 s s' : loop_inv f0 g0 s -> loop_step skip b s s' -> loop_inv f0 g0 s'.
Proof.
  intros [Hf Hg Hl [Hc1 Hc2] Ho Hi] Hstep.
  assert (exists r, CompareTrace.iter skip b s = Some (Ok r) /\ (r = inl s' \/ exists p, r = inr (p, s'))) as (r & E & Hr)
    by (destruct Hstep; eauto).
  clear Hstep. unfold CompareTrace.iter in E.
  destruct (nxt_ibex skip (ibex_trace s) (isr s)) as [[[[o f] sr]|]|] eqn:En; try discriminate E.
  destruct (nxt_ibex_inv _ _ _ _ _ _ _ Hf Hi En) as (Hf' & Hi' & Hle & Hlt).
  injection E as E. res_inv. destruct a as [so g]. apply (nxt_sail_inv _ _ _ _ _ _ Hg) in E0.
  destruct ((valid o =? 0) || (valid so =? 0)) eqn:Ev.
  - injection E as <-. destruct Hr as [[= <-]|[p [=]]].
    split; cbn [ibex_trace sail_trace isr counts]; [done..|split; [done|lia]|done|done].
  - res_inv. destruct Hr as [[=]|[p [= _ <-]]].
    apply orb_false_iff in Ev as [Ev _]. rewrite is_valid_eqb in Ev. apply negb_false_iff in Ev.
    specialize (Hlt Ev). pose proof (compare_one_counts _ _ _ _ E1) as [Hcc Hcn].
    pose proof (compare_one_grows _ _ _ _ E1) as [Hg1 Hg2].
    split; cbn [ibex_trace sail_trace isr counts]; [done|done|by eapply compare_one_flags| |lia|done].
    rewrite Hcc, Hcn. destruct (bad (o, so)); cbn [b2z]; split; lia.
Qed.

Lemma start_inv f g :
  (line_ptr f <= length (lines f))%nat -> (line_ptr g <= length (lines g))%nat -> loop_inv f g (start f g).
Proof.
  intros Hf Hg. split; cbn; try (by apply reader_refl); try lia.
  split; [done|]. repeat (apply Forall_cons; split; [by left|]). apply Forall_nil_2.
Qed.

(** C25 In every state the loop reaches from the start of two trace files, the
    readers are inside their files, every pair compared took a line of the Ibex
    trace, the pending table is 32 flags, no counter is negative and at most as
    many pairs are unequal as were compared, and the loop is in at most one
    service routine, which it has counted. *)
Theorem loop_invariant (skip b : bool) (f g : trace_file) (s : st) :
  (line_ptr f <= length (lines f))%nat -> (line_ptr g <= length (lines g))%nat ->
  rtc (loop_step skip b) (start f g) s -> loop_inv f g s.
Proof.
  intros Hf Hg H. pose proof (start_inv f g Hf Hg) as Hs.
  induction H as [|s1 s2 s3 H12 _ IH]; [done|]. apply IH. by eapply step_inv.
Qed.

Lemma loop_invariant_witness :
  (line_ptr (log_file ibex_log) <= length (lines (log_file ibex_log)))%nat /\
  let s := end_of (loop false false 9 start0) start0 in
  rtc (loop_step false false) start0 s /\ loop_inv (log_file ibex_log) (log_file sail_log) s.
Proof.
  split; [apply le_0_n|]. intros s. assert (rtc (loop_step false false) start0 s) as Hr.
  { apply (loop_reaches false false 9). vm_compute. reflexivity. }
  clearbody s. split; [exact Hr|]. unfold start0 in Hr.
  apply (loop_invariant false false (log_file ibex_log) (log_file sail_log) s); [apply le_0_n|apply le_0_n|exact Hr].
Defined.
