(* ===== verification/CheriPkg.v ===== *)
(** * The capability functions of the core

    The package rtl/cheri_pkg.sv, which the RTL and the tracer share: the three
    forms of a capability ([reg_cap_t] in the register file, [full_cap_t] with its
    bounds decoded, [pcc_cap_t] for the program counter), permissions, bounds,
    addresses, sealing and the comparison of capabilities.  A w-bit [logic] vector
    is an integer in 0 .. 2^w - 1, truncated where SystemVerilog truncates; a
    single control bit is a [bool].  The memory formats are in [CheriMem]; the
    functions [compress_perms], [get_bound33], [update_temp_fields] and
    [reg2memcap_fmt0] are in [CapDecode], next to the script that mirrors them. *)

From S2P Require Import Prelude Bits CapDecode.
Local Open Scope Z_scope.
Export Rtl.

(** ** Widths and constants *)

Definition RESETEXP := 24.
Definition RESETCEXP := 15.

Definition OTYPE_SENTRY_IE_BKWD := 5.
Definition OTYPE_SENTRY_ID_BKWD := 4.
Definition OTYPE_SENTRY_IE_FWD := 3.
Definition OTYPE_SENTRY_ID_FWD := 2.
Definition OTYPE_SENTRY := 1.
Definition OTYPE_UNSEALED := 0.

Definition CPERMS_TX := 0x2f.
Definition CPERMS_TM := 0x3f.
Definition CPERMS_TS := 0x27.

(** ** Capabilities *)

Record full_cap_t := FullCap {
  fc_valid : bool; fc_exp : Z; fc_top33 : Z; fc_base32 : Z; fc_otype : Z; fc_perms : Z;
  fc_top_cor : Z; fc_base_cor : Z; fc_top : Z; fc_base : Z; fc_cperms : Z;
  fc_maska : Z; fc_rsvd : Z; fc_rlen : Z }.

Record pcc_cap_t := PccCap {
  pc_valid : bool; pc_exp : Z; pc_top33 : Z; pc_base32 : Z; pc_otype : Z; pc_perms : Z;
  pc_cperms : Z; pc_rsvd : Z }.

Record bound_req_t := BoundReq {
  bq_top33req : Z; bq_exp1 : Z; bq_exp2 : Z; bq_explen : Z; bq_expb : Z; bq_in_bound : bool }.

Definition NULL_REG_CAP := RegCap false 0 0 0 0 0 0 0 0.
Definition NULL_FULL_CAP := FullCap false 0 0 0 0 0 0 0 0 0 0 0 0 0.
Definition NULL_PCC_CAP := PccCap false 0 0 0 0 0 0 0.

Definition PCC_RESET_CAP := PccCap true RESETEXP 0x100000000 0 OTYPE_UNSEALED 0x1eb CPERMS_TX 0.
Definition MTVEC_RESET_CAP := RegCap true 0 0 RESETEXP 0x100 0 OTYPE_UNSEALED CPERMS_TX 0.
Definition MTDC_RESET_CAP := RegCap true 0 0 RESETEXP 0x100 0 OTYPE_UNSEALED CPERMS_TM 0.
Definition MEPC_RESET_CAP := RegCap true 0 0 RESETEXP 0x100 0 OTYPE_UNSEALED CPERMS_TX 0.
Definition MSCRATCHC_RESET_CAP := RegCap true 0 0 RESETEXP 0x100 0 OTYPE_UNSEALED CPERMS_TS 0.

(** Assignments to the fields the functions below change. *)
Definition reg_with_valid (v : bool) (c : reg_cap_t) : reg_cap_t :=
  RegCap v (r_top_cor c) (r_base_cor c) (r_exp c) (r_top c) (r_base c) (r_otype c)
    (r_cperms c) (r_rsvd c).
Definition with_valid (v : bool) (c : full_cap_t) : full_cap_t :=
  FullCap v (fc_exp c) (fc_top33 c) (fc_base32 c) (fc_otype c) (fc_perms c) (fc_top_cor c)
    (fc_base_cor c) (fc_top c) (fc_base c) (fc_cperms c) (fc_maska c) (fc_rsvd c) (fc_rlen c).
Definition with_otype (o : Z) (c : full_cap_t) : full_cap_t :=
  FullCap (fc_valid c) (fc_exp c) (fc_top33 c) (fc_base32 c) o (fc_perms c) (fc_top_cor c)
    (fc_base_cor c) (fc_top c) (fc_base c) (fc_cperms c) (fc_maska c) (fc_rsvd c) (fc_rlen c).
Definition with_perms (p cp : Z) (c : full_cap_t) : full_cap_t :=
  FullCap (fc_valid c) (fc_exp c) (fc_top33 c) (fc_base32 c) (fc_otype c) p (fc_top_cor c)
    (fc_base_cor c) (fc_top c) (fc_base c) cp (fc_maska c) (fc_rsvd c) (fc_rlen c).
Definition with_cors (cor : Z * Z) (c : full_cap_t) : full_cap_t :=
  FullCap (fc_valid c) (fc_exp c) (fc_top33 c) (fc_base32 c) (fc_otype c) (fc_perms c) cor.1
    cor.2 (fc_top c) (fc_base c) (fc_cperms c) (fc_maska c) (fc_rsvd c) (fc_rlen c).
Definition with_fields (e t b : Z) (c : full_cap_t) : full_cap_t :=
  FullCap (fc_valid c) e (fc_top33 c) (fc_base32 c) (fc_otype c) (fc_perms c) (fc_top_cor c)
    (fc_base_cor c) t b (fc_cperms c) (fc_maska c) (fc_rsvd c) (fc_rlen c).
Definition with_lens (maska rlen : Z) (c : full_cap_t) : full_cap_t :=
  FullCap (fc_valid c) (fc_exp c) (fc_top33 c) (fc_base32 c) (fc_otype c) (fc_perms c)
    (fc_top_cor c) (fc_base_cor c) (fc_top c) (fc_base c) (fc_cperms c) maska (fc_rsvd c) rlen.

(** ** Permissions *)

Definition expand_perms (cperms : Z) : Z :=
  let b := bit cperms in
  setb PERM_GL (b 5) .|
  if slice cperms 4 3 =? 3 then
    setb PERM_LG (b 0) .| setb PERM_LM (b 1) .| setb PERM_SL (b 2) .| PERM_MC_IMSK
  else if slice cperms 4 2 =? 5 then
    setb PERM_LG (b 0) .| setb PERM_LM (b 1) .| PERM_LC_IMSK
  else if slice cperms 4 0 =? 16 then PERM_SC_IMSK
  else if slice cperms 4 2 =? 4 then
    setb PERM_SD (b 0) .| setb PERM_LD (b 1) .| PERM_DD_IMSK
  else if slice cperms 4 3 =? 1 then
    setb PERM_LG (b 0) .| setb PERM_LM (b 1) .| setb PERM_SR (b 2) .| PERM_EX_IMSK
  else if slice cperms 4 3 =? 0 then
    setb PERM_US (b 0) .| setb PERM_SE (b 1) .| setb PERM_U0 (b 2) .| PERM_SE_IMSK
  else 0.

(** The permissions of a loaded capability, as the loading capability requires:
    the bits of [clrperm] say what it lacks. *)
Definition mask_clcperms (cperms_in clrperm : Z) (valid_in sealed : bool) : Z :=
  let clr_gl := Z.testbit clrperm 0 && valid_in in
  let clr_lg := Z.testbit clrperm 0 && valid_in && negb sealed in
  let clr_sdlm := Z.testbit clrperm 1 && valid_in && negb sealed in
  let b := Z.testbit cperms_in in
  let out := assign_bit cperms_in 5 (b 5 && negb clr_gl) in
  if slice cperms_in 4 3 =? 3 then
    let out := assign_bit out 0 (b 0 && negb clr_lg) in
    let out := assign_bit out 1 (b 1 && negb clr_sdlm) in
    (out .& 0x23) .| (setb 2 (if clr_sdlm then 5 else slice cperms_in 4 2))
  else if slice cperms_in 4 2 =? 5 then
    assign_bit (assign_bit out 0 (b 0 && negb clr_lg)) 1 (b 1 && negb clr_sdlm)
  else if slice cperms_in 4 0 =? 16 then
    (out .& 0x20) .| (if clr_sdlm then 0 else slice cperms_in 4 0)
  else if slice cperms_in 4 2 =? 4 then
    assign_bit (assign_bit out 4 (negb (clr_sdlm && negb (b 1)))) 0 (b 0 && negb clr_sdlm)
  else if slice cperms_in 4 3 =? 1 then
    assign_bit (assign_bit out 0 (b 0 && negb clr_lg)) 1 (b 1 && negb clr_sdlm)
  else out.

(** ** Bounds and addresses *)

Definition get_cap_len (c : full_cap_t) : Z :=
  let tmp33 := trunc 33 (fc_top33 c - fc_base32 c) in
  if Z.testbit tmp33 32 then 0xffffffff else slice tmp33 31 0.

(** The variant of [get_bound33] for timing. *)
Definition get_bound33_trial (top cor exp addr : Z) : Z :=
  let cor24 := if Z.testbit cor 1 then Z.ones 24 else bit cor 0 in
  let cor24 := trunc 24 (cor24 << exp) in
  let mask24 := trunc 24 (Z.ones 24 << exp) in
  let t24a := trunc 24 ((slice addr 31 9 .& mask24) + cor24) in
  let t33a := top in
  (t24a << 9) .| trunc 33 (t33a << exp).

Definition set_address (in_cap : full_cap_t) (newptr : Z) (chktop chkbase : bool) : full_cap_t :=
  let mask24 := trunc 24 (Z.ones 24 << fc_exp in_cap) in
  let tmp33 := trunc 33 (newptr - fc_base32 in_cap) in
  let tmp24 := slice tmp33 32 9 .& mask24 in
  let top_lt := newptr <? (slice (fc_top33 in_cap) 32 1 << 1) in
  let out_cap :=
    if any tmp24 || (chktop && negb top_lt) || (chkbase && Z.testbit tmp33 32)
    then with_valid false in_cap else in_cap in
  let ptrmi9 := trunc 9 (newptr >> fc_exp in_cap) in
  with_cors (update_temp_fields (fc_top out_cap) (fc_base out_cap) ptrmi9) out_cap.

(** The number of ones of a thermometer code. *)
Definition thermo_dec32 (a32 : Z) : Z :=
  if Z.testbit a32 31 then 32
  else
    let c4 := bit a32 15 in
    let b16 := if c4 =? 1 then slice a32 31 16 else slice a32 15 0 in
    let c3 := bit b16 7 in
    let b8 := if c3 =? 1 then slice b16 15 8 else slice b16 7 0 in
    let c2 := bit b8 3 in
    let b4 := if c2 =? 1 then slice b8 7 4 else slice b8 3 0 in
    let c1 := bit b4 1 in
    let b2 := if c1 =? 1 then slice b4 3 2 else slice b4 1 0 in
    let c0 := bit b2 0 in
    setb 4 c4 .| setb 3 c3 .| setb 2 c2 .| setb 1 c1 .| setb 0 c0.

(** The loops over the bits, from bit 30 down and from bit 1 up. *)
Definition fill_down (din : Z) (a32 i : Z) : Z :=
  assign_bit a32 i (Z.testbit a32 (i + 1) || Z.testbit din i).
Definition get_size (din : Z) : Z :=
  let a32 := Z.b2z (Z.testbit din 31) << 31 in
  thermo_dec32 (foldl (fill_down din) a32 (reverse (seqZ 0 31))).

Definition fill_up (din : Z) (a32 i : Z) : Z :=
  assign_bit a32 i (Z.testbit a32 (i - 1) || Z.testbit din i).
Definition count_tz (din : Z) : Z :=
  let a32 := bit din 0 in
  thermo_dec32 (notw 32 (foldl (fill_up din) a32 (seqZ 1 31))).

(** ** Setting bounds *)

Definition prep_bound_req (in_cap : full_cap_t) (addr length : Z) : bound_req_t :=
  let top33req := trunc 33 (addr + length) in
  let explen := get_size (slice length 31 9) in
  let sat size_result := if RESETCEXP <=? size_result then RESETEXP else trunc 5 size_result in
  BoundReq top33req (sat explen) (sat (trunc 6 (explen + 1))) explen (count_tz addr)
    (negb ((fc_top33 in_cap <? top33req) || (addr <? fc_base32 in_cap))).

Definition prep_bound_req_it8 (in_cap : full_cap_t) (addr length : Z) : bound_req_t :=
  let top33req := trunc 33 (addr + length) in
  let explen := get_size (slice length 31 9) in
  BoundReq top33req (trunc 5 explen) (trunc 5 (explen + 1)) explen (count_tz addr)
    (negb ((fc_top33 in_cap <? top33req) || (addr <? fc_base32 in_cap))).

(** One of the two parallel paths of [set_bounds]: base, top, length, whether top
    and base are rounded, and whether the top field is the larger one. *)
Record bounds_path := BoundsPath {
  bp_mask : Z; bp_base : Z; bp_top : Z; bp_len : Z; bp_topoff : bool; bp_baseoff : bool;
  bp_tophi : bool }.
Definition set_bounds_path (addr top33req exp : Z) : bounds_path :=
  let mask := trunc 33 (Z.ones 33 << exp) in
  let base := trunc 10 (addr >> exp) in
  let topoff := any (top33req .& notw 33 mask) in
  let baseoff := any (addr .& notw 33 mask) in
  let top := trunc 10 (trunc 10 (top33req >> exp) + Z.b2z topoff) in
  let len := trunc 10 (top - base) in
  BoundsPath mask base top len topoff baseoff (slice base 8 0 <=? slice top 8 0).

Definition set_bounds (in_cap : full_cap_t) (addr : Z) (bound_req : bound_req_t)
    (req_exact : bool) : full_cap_t :=
  let top33req := bq_top33req bound_req in
  let p1 := set_bounds_path addr top33req (bq_exp1 bound_req) in
  let ovrflw := Z.testbit (bp_len p1) 9 in
  let p2 := set_bounds_path addr top33req (bq_exp2 bound_req) in
  let exp := if ovrflw then bq_exp2 bound_req else bq_exp1 bound_req in
  let p := if ovrflw then p2 else p1 in
  let out_cap := with_fields exp (slice (bp_top p) 8 0) (slice (bp_base p) 8 0) in_cap in
  let out_cap := with_lens (slice (bp_mask p) 31 0) (trunc 32 (bp_len p << exp)) out_cap in
  let out_cap := with_cors (if bp_tophi p then 0 else 1, 0) out_cap in
  let out_cap := if req_exact && (bp_topoff p || bp_baseoff p)
                 then with_valid false out_cap else out_cap in
  if bq_in_bound bound_req then out_cap else with_valid false out_cap.

Definition set_bounds_rndn (in_cap : full_cap_t) (addr : Z) (bound_req : bound_req_t)
    : full_cap_t :=
  let explen := bq_explen bound_req in
  let expb := bq_expb bound_req in
  let el_gt_eb := expb <? explen in
  let el_gt_14 := 14 <? explen in
  let eb_gt_14 := 14 <? expb in
  let exp_final := if el_gt_eb && negb eb_gt_14 then expb else if el_gt_14 then 14 else explen in
  let base := trunc 9 (addr >> exp_final) in
  let top := if el_gt_eb || el_gt_14 then trunc 9 (base - 1)
             else trunc 9 (bq_top33req bound_req >> exp_final) in
  let out_cap := with_fields (trunc 5 exp_final) top base in_cap in
  let out_cap := if bq_in_bound bound_req then out_cap else with_valid false out_cap in
  with_cors (if base <=? top then 0 else 1, 0) out_cap.

Definition set_bounds_rndn_it8 (in_cap : full_cap_t) (addr : Z) (bound_req : bound_req_t)
    : full_cap_t :=
  let explen := bq_explen bound_req in
  let expb := bq_expb bound_req in
  let el_gt_eb := expb <? explen in
  let exp_final := if el_gt_eb then expb else explen in
  let base := trunc 9 (addr >> exp_final) in
  let top := if el_gt_eb then trunc 9 (base - 1)
             else trunc 9 (bq_top33req bound_req >> exp_final) in
  let out_cap := with_fields (trunc 5 exp_final) top base in_cap in
  let out_cap := if bq_in_bound bound_req then out_cap else with_valid false out_cap in
  with_cors (if base <=? top then 0 else 1, 0) out_cap.

(** ** Sealing *)

Definition seal_cap (in_cap : full_cap_t) (new_otype : Z) : full_cap_t :=
  with_otype new_otype in_cap.
Definition unseal_cap (in_cap : full_cap_t) : full_cap_t := with_otype OTYPE_UNSEALED in_cap.
Definition is_cap_sealed (in_cap : full_cap_t) : bool := negb (fc_otype in_cap =? OTYPE_UNSEALED).
Definition decode_otype (otype3 : Z) (perm_ex : bool) : Z :=
  (Z.b2z (negb perm_ex && negb (otype3 =? 0)) << 3) .| otype3.

(** ** Conversions between the forms *)

Definition reg2fullcap (c : reg_cap_t) (addr : Z) : full_cap_t :=
  FullCap (r_valid c) (r_exp c)
    (get_bound33 (r_top c) (r_top_cor c) (r_exp c) addr)
    (trunc 32 (get_bound33 (r_base c) (rep2 (r_base_cor c)) (r_exp c) addr))
    (r_otype c) (expand_perms (r_cperms c)) (r_top_cor c) (r_base_cor c) (r_top c) (r_base c)
    (r_cperms c) 0 (r_rsvd c) 0.

Definition full2regcap (c : full_cap_t) : reg_cap_t :=
  RegCap (fc_valid c) (fc_top_cor c) (fc_base_cor c) (fc_exp c) (fc_top c) (fc_base c)
    (fc_otype c) (fc_cperms c) (fc_rsvd c).

Definition pcc2fullcap (c : pcc_cap_t) : full_cap_t :=
  FullCap (pc_valid c) (pc_exp c) (pc_top33 c) (pc_base32 c) (pc_otype c) (pc_perms c) 0 0
    (trunc 9 (pc_top33 c >> pc_exp c)) (trunc 9 (pc_base32 c >> pc_exp c)) (pc_cperms c) 0
    (pc_rsvd c) 0.

Definition full2pcap (c : full_cap_t) : pcc_cap_t :=
  PccCap (fc_valid c) (fc_exp c) (fc_top33 c) (fc_base32 c) (fc_otype c) (fc_perms c)
    (fc_cperms c) (fc_rsvd c).

Definition pcc2mepcc (c : pcc_cap_t) (address : Z) (clrtag : bool) : reg_cap_t :=
  let reg_cap := full2regcap (set_address (pcc2fullcap c) address false false) in
  if clrtag then reg_with_valid false reg_cap else reg_cap.

(** ** The register as a vector *)

Definition reg2vec (c : reg_cap_t) : Z :=
  cat [(1, Z.b2z (r_valid c)); (2, r_top_cor c); (1, r_base_cor c); (5, r_exp c); (9, r_top c);
       (9, r_base c); (3, r_otype c); (1, r_rsvd c); (6, r_cperms c)].

Definition vec2reg (v : Z) : reg_cap_t :=
  RegCap (any (part v 36 1)) (part v 34 2) (part v 33 1) (part v 28 5) (part v 19 9)
    (part v 10 9) (part v 7 3) (part v 0 6) (part v 6 1).

Definition is_equal (cap_a cap_b : full_cap_t) (addra addrb : Z) : bool :=
  Bool.eqb (fc_valid cap_a) (fc_valid cap_b) &&
  (fc_top cap_a =? fc_top cap_b) && (fc_base cap_a =? fc_base cap_b) &&
  (fc_cperms cap_a =? fc_cperms cap_b) && (fc_rsvd cap_a =? fc_rsvd cap_b) &&
  (fc_exp cap_a =? fc_exp cap_b) && (fc_otype cap_a =? fc_otype cap_b) &&
  (addra =? addrb).

Definition and_regcap_tag (in_cap : reg_cap_t) (tag_mask : bool) : reg_cap_t :=
  reg_with_valid (r_valid in_cap && tag_mask) in_cap.

(** ** Causes of violations *)

Definition PVIO_TAG := 0.
Definition PVIO_SEAL := 1.
Definition PVIO_EX := 2.
Definition PVIO_LD := 3.
Definition PVIO_SD := 4.
Definition PVIO_SC := 5.
Definition PVIO_ASR := 6.
Definition PVIO_ALIGN := 7.

Definition vio_cause_enc (bound_vio : bool) (perm_vio_vec : Z) : Z :=
  if Z.testbit perm_vio_vec PVIO_TAG then 0x2
  else if Z.testbit perm_vio_vec PVIO_SEAL then 0x3
  else if Z.testbit perm_vio_vec PVIO_EX then 0x11
  else if Z.testbit perm_vio_vec PVIO_LD then 0x12
  else if Z.testbit perm_vio_vec PVIO_SD then 0x13
  else if Z.testbit perm_vio_vec PVIO_SC then 0x15
  else if Z.testbit perm_vio_vec PVIO_ASR then 0x18
  else if bound_vio then 0x1
  else 0x0.

Example size_ex : map get_size [0; 1; 2; 255; 256; 0x7fffff] = [0; 1; 2; 8; 9; 23].
Proof. by_compute. Qed.
Example tz_ex : map count_tz [0; 1; 2; 0x80000000; 0x30] = [32; 0; 1; 31; 4].
Proof. by_compute. Qed.

(** *** Sizes and trailing zeros *)

Lemma thermo_dec32_ones k : 0 <= k <= 32 -> thermo_dec32 (Z.ones k) = k.
Proof. intros Hk. apply (eq_below (fun k => thermo_dec32 (Z.ones k)) id 33); [by_compute|lia]. Qed.

Lemma fill_down_fold din n a :
  0 <= din -> 0 <= n ->
  (forall j, n <= j -> Z.testbit a j = (2 ^ j <=? din)) ->
  forall j, 0 <= j ->
    Z.testbit (foldl (fill_down din) a (reverse (seqZ 0 n))) j = (2 ^ j <=? din).
Proof.
  intros Hd Hn. revert a. pattern n. apply natlike_ind; [| |done]; clear n Hn.
  - intros a Ha j Hj. by apply Ha.
  - intros n Hn IH a Ha. rewrite <-Z.add_1_r, seqZ_snoc, Z.add_0_l, reverse_snoc by done.
    cbn [foldl]. apply IH. intros j Hj. unfold fill_down.
    rewrite assign_bit_spec by lia. destruct (Z.eqb_spec j n) as [->|Hne]; [|apply Ha; lia].
    rewrite Ha by lia. destruct (Z.leb_spec (2 ^ (n + 1)) din) as [H|H]; cbn [orb].
    + symmetry. apply Z.leb_le. rewrite Z.pow_add_r in H by lia. lia.
    + apply testbit_pow2_le; lia.
Qed.

Lemma get_size_log2 din :
  0 <= din < 2 ^ 32 -> get_size din = if din =? 0 then 0 else Z.log2 din + 1.
Proof.
  intros Hd. set (k := if din =? 0 then 0 else Z.log2 din + 1).
  assert (forall j, 0 <= j -> (2 ^ j <=? din) = (j <? k)) as Hk.
  { intros j Hj. unfold k. destruct (Z.eqb_spec din 0) as [->|Hz].
    - apply eq_true_iff_eq. rewrite Z.leb_le, Z.ltb_lt. lia.
    - apply eq_true_iff_eq. rewrite Z.leb_le, Z.ltb_lt, Z.log2_le_pow2 by lia. lia. }
  assert (0 <= k <= 32) as Hr.
  { unfold k. destruct (Z.eqb_spec din 0); [lia|].
    pose proof (Z.log2_nonneg din). assert (Z.log2 din < 32) by (apply Z.log2_lt_pow2; lia). lia. }
  unfold get_size. replace (foldl _ _ _) with (Z.ones k); [by apply thermo_dec32_ones|].
  apply Z.bits_inj'. intros j Hj. rewrite testbit_ones by lia.
  rewrite fill_down_fold; [by rewrite Hk|lia|lia| |done].
  clear j Hj. intros j Hj. rewrite Z.shiftl_spec by lia.
  destruct (Z.eq_dec j 31) as [->|Hne].
  - rewrite Z.sub_diag, Z.b2z_bit0. apply testbit_pow2_le; lia.
  - rewrite Hk by lia. destruct (Z.ltb_spec j k); [lia|].
    apply (testbit_small _ 1); [destruct (Z.testbit din 31); cbn; lia|lia|lia].
Qed.

Lemma get_size_spec din :
  0 <= din < 2 ^ 32 ->
  0 <= get_size din <= 32 /\ din < 2 ^ get_size din /\
  (get_size din <> 0 -> 2 ^ (get_size din - 1) <= din).
Proof.
  intros Hd. rewrite get_size_log2 by done. destruct (Z.eqb_spec din 0) as [->|Hz]; [lia|].
  pose proof (Z.log2_nonneg din). pose proof (Z.log2_spec din ltac:(lia)) as Hs.
  assert (Z.log2 din < 32) by (apply Z.log2_lt_pow2; lia).
  rewrite Z.add_simpl_r. unfold Z.succ in Hs. split_and!; lia.
Qed.

Lemma mod_pow2_succ din j :
  0 <= j -> din mod 2 ^ (j + 1) = din mod 2 ^ j + 2 ^ j * Z.b2z (Z.testbit din j).
Proof.
  intros Hj. rewrite Z.pow_add_r, Z.rem_mul_r by lia. f_equal. f_equal.
  rewrite <-Z.shiftr_div_pow2, <-Z.bit0_mod by done. by rewrite Z.shiftr_spec, Z.add_0_l.
Qed.

Lemma fill_up_fold din n :
  0 <= n -> forall j, 0 <= j ->
  Z.testbit (foldl (fill_up din) (bit din 0) (seqZ 1 n)) j =
    (j <=? n) && negb (din mod 2 ^ (j + 1) =? 0).
Proof.
  intros Hn. pattern n. apply natlike_ind; [| |done]; clear n Hn.
  - intros j Hj. cbn [seqZ foldl]. change (seqZ 1 0) with (@nil Z). cbn [foldl].
    unfold bit. rewrite Z.shiftr_0_r. change 1 with (Z.ones 1) at 1.
    rewrite Z.land_ones, <-Z.bit0_mod by lia. destruct (Z.leb_spec j 0).
    + replace j with 0 by lia. rewrite Z.b2z_bit0. cbn [andb]. change (2 ^ (0 + 1)) with 2.
      rewrite <-Z.bit0_mod. by destruct (Z.testbit din 0).
    + apply (testbit_small _ 1); [destruct (Z.testbit din 0); cbn; lia|lia|lia].
  - intros n Hn IH j Hj.
    rewrite <-(Z.add_1_r n), seqZ_snoc, (Z.add_comm 1 n), foldl_app by done. cbn [foldl]. unfold fill_up at 1. rewrite assign_bit_spec by lia.
    rewrite Z.add_simpl_r, IH, Z.leb_refl by done. destruct (Z.eqb_spec j (n + 1)) as [->|Hne].
    + rewrite (proj2 (Z.leb_le (n + 1) (n + 1))) by lia. cbn [andb].
      rewrite (mod_pow2_succ din (n + 1)) by lia.
      pose proof (Z.mod_pos_bound din (2 ^ (n + 1)) ltac:(lia)).
      destruct (Z.testbit din (n + 1)); cbn [Z.b2z]; rewrite ?orb_true_r, ?orb_false_r.
      * symmetry. apply negb_true_iff, Z.eqb_neq. lia.
      * by rewrite Z.mul_0_r, Z.add_0_r.
    + rewrite IH by done. destruct (Z.leb_spec j n), (Z.leb_spec j (n + 1)); lia || done.
Qed.

(** The number of trailing zeros, at most 32. *)
Lemma count_tz_spec din :
  0 <= din ->
  0 <= count_tz din <= 32 /\ din mod 2 ^ count_tz din = 0 /\
  (count_tz din < 32 -> din mod 2 ^ (count_tz din + 1) <> 0).
Proof.
  intros Hd.
  assert (exists k, 0 <= k <= 32 /\ din mod 2 ^ k = 0 /\ (k < 32 -> din mod 2 ^ (k + 1) <> 0))
    as [k (Hk & Hz & Hm)].
  { assert (forall n, 0 <= n -> n <= 32 ->
      (exists k, 0 <= k < n /\ din mod 2 ^ k = 0 /\ din mod 2 ^ (k + 1) <> 0) \/
      din mod 2 ^ n = 0) as H.
    { intros n Hn. pattern n. apply natlike_ind; [| |done]; clear n Hn.
      - intros _. right. apply Z.mod_1_r.
      - intros n Hn IH Hle. destruct IH as [(k & Hk & Hz & Hm)|Hz]; [lia| |].
        + left. exists k. split_and!; try done; lia.
        + destruct (Z.eq_dec (din mod 2 ^ Z.succ n) 0); [by right|].
          left. exists n. rewrite Z.add_1_r. split_and!; try done; lia. }
    destruct (H 32 ltac:(lia) ltac:(lia)) as [(k & Hk & Hz & Hm)|Hz].
    - exists k. split_and!; try done; lia.
    - exists 32. split_and!; try done; lia. }
  assert (count_tz din = k) as ->; [|done].
  unfold count_tz. cbv zeta. replace (notw _ _) with (Z.ones k); [by apply thermo_dec32_ones|].
  assert (forall j, 0 <= j -> j < k -> din mod 2 ^ (j + 1) = 0) as Hlow.
  { intros j Hj Hlt. apply Z.mod_divide; [lia|]. apply Z.mod_divide in Hz; [|lia].
    etrans; [|exact Hz]. exists (2 ^ (k - (j + 1))). rewrite <-Z.pow_add_r by lia. f_equal. lia. }
  assert (forall j, k <= j -> j < 32 -> din mod 2 ^ (j + 1) <> 0) as Hhigh.
  { intros j Hj Hlt E. apply Hm; [lia|]. apply Z.mod_divide; [lia|].
    apply Z.mod_divide in E; [|lia]. etrans; [|exact E].
    exists (2 ^ (j - k)). rewrite <-Z.pow_add_r by lia. f_equal. lia. }
  apply Z.bits_inj'. intros j Hj. rewrite testbit_ones by lia. unfold notw, trunc.
  destruct (Z.lt_ge_cases j 32) as [H32|H32].
  - rewrite Z.mod_pow2_bits_low, Z.lnot_spec by lia.
    change 31 with (30 + 1) at 1. rewrite (fill_up_fold din 31) by lia.
    rewrite (proj2 (Z.leb_le j 31)) by lia. cbn [andb]. rewrite negb_involutive.
    destruct (Z.ltb_spec j k).
    + symmetry. apply Z.eqb_eq. by apply Hlow.
    + symmetry. apply Z.eqb_neq. by apply Hhigh.
  - rewrite Z.mod_pow2_bits_high by lia. apply Z.ltb_ge. lia.
Qed.

(** ** Permissions *)

(** [p] grants no more than [q]. *)
Definition perms_le (p q : Z) : Prop := p .& q = p.
#[export] Instance perms_le_preorder : PreOrder perms_le.
Proof.
  split.
  - intros p. apply Z.land_diag.
  - intros p q r Hpq Hqr. unfold perms_le in *. by rewrite <-Hpq, <-Z.land_assoc, Hqr.
Qed.

Lemma perms_le_spec p q :
  0 <= p -> perms_le p q <-> forall i, 0 <= i -> Z.testbit p i = true -> Z.testbit q i = true.
Proof.
  intros Hp. unfold perms_le. split.
  - intros H i Hi Hb. rewrite <-H, Z.land_spec, andb_true_iff in Hb. naive_solver.
  - intros H. apply Z.bits_inj'. intros i Hi. rewrite Z.land_spec.
    destruct (Z.testbit p i) eqn:E; [|done]. by rewrite H.
Qed.

Lemma perms_le_land p q : perms_le (p .& q) p.
Proof. unfold perms_le. by rewrite (Z.land_comm p q), <-Z.land_assoc, Z.land_diag. Qed.

Lemma expand_perms_script c : 0 <= c < 64 -> expand_perms c = CapDecode.expand_perms c.
Proof. apply (eq_below expand_perms CapDecode.expand_perms 64). by_compute. Qed.

Lemma expand_perms_range c : 0 <= c < 64 -> 0 <= expand_perms c < 4096.
Proof.
  intros Hc.
  pose proof (forall_below (fun c => (0 <=? expand_perms c) && (expand_perms c <? 4096)) 64
    ltac:(by_compute) c Hc). cbv beta in *. lia.
Qed.

Lemma compress_expand c : 0 <= c < 64 -> compress_perms (expand_perms c) = c.
Proof. apply (eq_below (fun c => compress_perms (expand_perms c)) id 64). by_compute. Qed.

Lemma compress_perms_le p :
  0 <= p < 4096 ->
  0 <= compress_perms p < 64 /\ perms_le (expand_perms (compress_perms p)) p.
Proof.
  intros Hp.
  pose proof (forall_below (fun p => let c := compress_perms p in
    (0 <=? c) && (c <? 64) && (expand_perms c .& p =? expand_perms c)) 4096
    ltac:(by_compute) p Hp) as H. cbv beta zeta in H.
  apply andb_prop in H as [H1 H2%Z.eqb_eq]. split; [lia|done].
Qed.

Lemma compress_and_le p q :
  0 <= p < 4096 -> 0 <= q ->
  0 <= compress_perms (p .& q) < 64 /\ perms_le (expand_perms (compress_perms (p .& q))) p.
Proof.
  intros Hp Hq.
  assert (0 <= p .& q < 4096) as Hr.
  { split; [apply Z.land_nonneg; lia|].
    pose proof (Z.land_nonneg p q) as Hnn. destruct (Z.eq_dec (p .& q) 0) as [->|Hz]; [lia|].
    change 4096 with (2 ^ 12). apply Z.log2_lt_pow2; [lia|].
    eapply Z.le_lt_trans; [apply Z.log2_land; lia|].
    destruct (Z.eq_dec p 0) as [->|]; [by rewrite Z.land_0_l in Hz|].
    assert (Z.log2 p < 12) by (apply Z.log2_lt_pow2; lia). lia. }
  destruct (compress_perms_le _ Hr) as [Hc Hle]. split; [done|].
  etrans; [exact Hle|]. apply perms_le_land.
Qed.

(** What a loading capability lacking load-global or load-mutable removes. *)
Definition removed_perms (clrperm : Z) (valid_in sealed : bool) : Z :=
  let on (b : bool) l := if b then perm_mask l else 0 in
  on (Z.testbit clrperm 0 && valid_in) [PERM_GL] .|
  on (Z.testbit clrperm 0 && valid_in && negb sealed) [PERM_LG] .|
  on (Z.testbit clrperm 1 && valid_in && negb sealed) [PERM_SD; PERM_LM].

Lemma mask_clcperms_spec c clrperm v s :
  0 <= c < 64 ->
  mask_clcperms c clrperm v s =
    compress_perms (expand_perms c .& notw 12 (removed_perms clrperm v s)).
Proof.
  unfold mask_clcperms, removed_perms.
  revert c. destruct (Z.testbit clrperm 0), (Z.testbit clrperm 1), v, s; apply eq_below; by_compute.
Qed.
Lemma mask_clcperms_le c clrperm v s :
  0 <= c < 64 ->
  0 <= mask_clcperms c clrperm v s < 64 /\
  perms_le (expand_perms (mask_clcperms c clrperm v s)) (expand_perms c).
Proof.
  intros Hc. rewrite mask_clcperms_spec by done.
  apply compress_and_le; [by apply expand_perms_range|]. apply trunc_range. lia.
Qed.

(** (equivalence: the permissions of a loaded capability).  The case analysis
    on encoded permissions in [mask_clcperms] computes what decoding, removing and
    encoding would: for every field and every capability loaded through, global
    and load-global go when load-global is lacking, store and load-mutable go when
    load-mutable is lacking (the last three only from unsealed capabilities), and
    what no format can express without them goes too. *)
Theorem mask_clcperms_removes (c clrperm : Z) (v s : bool) :
  0 <= c < 64 ->
  mask_clcperms c clrperm v s =
    compress_perms (expand_perms c .& notw 12 (removed_perms clrperm v s)) /\
  perms_le (expand_perms (mask_clcperms c clrperm v s)) (expand_perms c).
Proof.
  intros Hc. split; [by apply mask_clcperms_spec|by apply mask_clcperms_le].
Qed.

Example mask_clcperms_removes_witness :
  expand_perms (mask_clcperms 0x3f 3 true false) = (1 << PERM_LD) .| (1 << PERM_MC).
Proof.
  rewrite (proj1 (mask_clcperms_removes 0x3f 3 true false ltac:(lia))). by_compute.
Defined.

(** *** Registers as vectors *)

(** The widths of the fields and the values the corrections take. *)
Record reg_range (c : reg_cap_t) : Prop := {
  rr_top_cor : r_top_cor c = 0 \/ r_top_cor c = 1 \/ r_top_cor c = 3;
  rr_base_cor : r_base_cor c = 0 \/ r_base_cor c = 1;
  rr_exp : 0 <= r_exp c <= 24;
  rr_top : 0 <= r_top c < 512;
  rr_base : 0 <= r_base c < 512;
  rr_otype : 0 <= r_otype c < 8;
  rr_cperms : 0 <= r_cperms c < 64;
  rr_rsvd : 0 <= r_rsvd c < 2 }.

(** (roundtrip: registers as vectors).  [vec2reg] reads back every capability
    [reg2vec] writes, in 37 bits. *)
Theorem vec2reg_reg2vec (c : reg_cap_t) :
  reg_range c -> vec2reg (reg2vec c) = c /\ 0 <= reg2vec c < 2 ^ 37.
Proof.
  intros [Ht Hb He HT HB Ho Hc Hr]. pose proof (b2z_fits (r_valid c)).
  assert (0 <= r_top_cor c < 2 ^ 2) by lia. assert (0 <= r_base_cor c < 2 ^ 1) by lia.
  split; [|change (2 ^ 37) with (2 ^ cat_width [(1, Z.b2z (r_valid c)); (2, r_top_cor c);
    (1, r_base_cor c); (5, r_exp c); (9, r_top c); (9, r_base c); (3, r_otype c);
    (1, r_rsvd c); (6, r_cperms c)]); apply cat_range; fits_tac].
  destruct c as [v tc bc e t b o cp rs]; cbn [r_valid r_top_cor r_base_cor r_exp r_top r_base
    r_otype r_cperms r_rsvd] in *. unfold vec2reg, reg2vec.
  cbn [r_valid r_top_cor r_base_cor r_exp r_top r_base r_otype r_cperms r_rsvd].
  f_equal; [rewrite <-(any_b2z v) at 2; f_equal; part_of 0%nat|part_of 1%nat|part_of 2%nat|part_of 3%nat|
    part_of 4%nat|part_of 5%nat|part_of 6%nat|part_of 8%nat|part_of 7%nat].
Qed.

Example vec2reg_reg2vec_witness : vec2reg (reg2vec MTDC_RESET_CAP) = MTDC_RESET_CAP.
Proof.
  apply (vec2reg_reg2vec MTDC_RESET_CAP).
  constructor; cbv [MTDC_RESET_CAP r_top_cor r_base_cor r_exp r_top r_base r_otype r_cperms
    r_rsvd RESETEXP OTYPE_UNSEALED CPERMS_TM]; lia.
Defined.
