(* ===== verification/CheriBounds.v ===== *)
(** * The bounds of capabilities

    What the encoding of bounds in rtl/cheri_pkg.sv means and that the operations
    on it keep the meaning.  A capability's exponent [e] and its fields [T] and [B]
    describe the region from [b * 2^e] to [(b + (T - B) mod 512) * 2^e], where [B]
    is [b] modulo 512 ([region]); an address is representable when it lies in the
    window of [2^(e+9)] bytes from the base ([window]).  [decode_region] says that
    the corrections of [update_temp_fields] recover the region from every
    representable address, and the theorems on [set_bounds], [set_bounds_rndn] and
    [set_address] follow from it.  [it8] selects the encoding with every exponent
    up to 24 (the parameter CheriCapIT8); the other one has 0 to 14 and 24. *)

From S2P Require Import Prelude Bits CapDecode CheriPkg.
Local Open Scope Z_scope.

(** ** Regions *)

Record region (e T B b : Z) : Prop := {
  rg_exp : 0 <= e <= 24;
  rg_top : 0 <= T < 512;
  rg_base : b mod 512 = B;
  rg_nonneg : 0 <= b;
  rg_start : b * 2 ^ e < 2 ^ 32;
  rg_limit : (b + (T - B) mod 512) * 2 ^ e <= 2 ^ 32 }.

Definition region_base (e b : Z) : Z := b * 2 ^ e.
Definition region_top (e T B b : Z) : Z := (b + (T - B) mod 512) * 2 ^ e.
Definition window (e b a : Z) : Prop := e = 24 \/ b * 2 ^ e <= a < b * 2 ^ e + 2 ^ (e + 9).
Definition exp_allowed (it8 : bool) (e : Z) : Prop :=
  0 <= e <= 24 /\ (it8 = true \/ e <= 14 \/ e = 24).

(** The middle bits of an address. *)
Definition addrmi9 (e a : Z) : Z := trunc 9 (a >> e).

Lemma addrmi9_quot e a : 0 <= e -> 0 <= a -> a / 2 ^ e = 512 * (a / 2 ^ (e + 9)) + addrmi9 e a.
Proof.
  intros He Ha. unfold addrmi9, trunc. rewrite Z.shiftr_div_pow2 by lia.
  rewrite pow2_add_9, (Z.mul_comm 512 (2 ^ _)), <-Z.div_div by lia.
  apply Z.div_mod. lia.
Qed.
Lemma addrmi9_range e a : 0 <= addrmi9 e a < 512.
Proof. apply (trunc_range 9). lia. Qed.

Lemma mod512_cases T B :
  0 <= T < 512 -> 0 <= B < 512 -> (T - B) mod 512 = if T <? B then T - B + 512 else T - B.
Proof.
  intros HT HB. destruct (Z.ltb_spec T B).
  - symmetry. apply (Z.mod_unique_pos _ _ (-1)); lia.
  - apply Z.mod_small. lia.
Qed.

(** The number of windows below a representable address. *)
Lemma window_quotient e B b a :
  0 <= e <= 24 -> e <> 24 -> b mod 512 = B -> 0 <= a -> window e b a ->
  a / 2 ^ (e + 9) = b / 512 + (if addrmi9 e a <? B then 1 else 0).
Proof.
  intros He Hne HB Ha [|Hw]; [done|].
  pose proof (addrmi9_quot e a ltac:(lia) Ha) as Hd. pose proof (addrmi9_range e a) as Hs.
  pose proof (Z.div_mod b 512 ltac:(lia)) as Hb. rewrite HB in Hb.
  pose proof (Z.mod_pos_bound b 512 ltac:(lia)) as HBr. rewrite HB in HBr.
  rewrite pow2_add_9 in Hw, Hd |- * by lia.
  assert (b <= a / 2 ^ e) by (apply Z.div_le_lower_bound; lia).
  assert (a / 2 ^ e < b + 512) by (apply Z.div_lt_upper_bound; lia).
  destruct (Z.ltb_spec (addrmi9 e a) B); lia.
Qed.

(** From every representable 32-bit address the fields decode to the region. *)
Lemma decode_region e T B b a :
  region e T B b -> 0 <= a < 2 ^ 32 -> window e b a ->
  let cor := update_temp_fields T B (addrmi9 e a) in
  get_bound33 T cor.1 e a = region_top e T B b /\
  trunc 32 (get_bound33 B (rep2 cor.2) e a) = region_base e b.
Proof.
  intros [He HT HB Hb0 Hs Hlim] Ha Hw. cbv zeta.
  pose proof (Z.mod_pos_bound b 512 ltac:(lia)) as HBr. rewrite HB in HBr.
  assert (0 < 2 ^ e) as Hp by lia.
  set (c := update_temp_fields T B (addrmi9 e a)).
  assert (c.1 = 0 \/ c.1 = 1 \/ c.1 = 3) as Hc1
    by (unfold c, update_temp_fields; repeat case_match; cbn; auto).
  assert (rep2 c.2 = 0 \/ rep2 c.2 = 1 \/ rep2 c.2 = 3) as Hc2
    by (unfold c, update_temp_fields; cbn [snd]; case_match; auto).
  rewrite !get_bound33_arith by done. unfold trunc. rewrite Z.mod_mod_divide by (by exists 2).
  unfold region_top, region_base. rewrite mod512_cases in * by lia.
  destruct (Z.eq_dec e 24) as [->|Hne].
  - assert (b = B) as -> by (rewrite <-HB; symmetry; apply Z.mod_small; lia).
    change (2 ^ (24 + 9)) with (2 ^ 33). rewrite Z.mod_add by lia.
    change (2 ^ 33) with (2 * 2 ^ 32) at 3. rewrite (Z.mul_assoc _ 2), Z.mod_add by lia.
    destruct (Z.ltb_spec T B); [lia|]. rewrite Z.add_sub_assoc, Z.add_simpl_l.
    split; apply Z.mod_small; lia.
  - rewrite (window_quotient e B b a) by (done || lia). rewrite pow2_add_9 by lia.
    pose proof (Z.div_mod b 512 ltac:(lia)) as Hd. rewrite HB in Hd.
    assert (forall x, x = b * 2 ^ e -> x mod 2 ^ 32 = b * 2 ^ e) as Hbase
      by (intros ? ->; apply Z.mod_small; nia).
    assert (forall x n, 0 <= n -> n * 2 ^ e <= 2 ^ 32 -> x = n * 2 ^ e -> x mod 2 ^ 33 = n * 2 ^ e)
      as Htop by (intros ? n ? ? ->; apply Z.mod_small; nia).
    unfold c, update_temp_fields. cbn [fst snd].
    destruct (Z.ltb_spec T B), (Z.ltb_spec (addrmi9 e a) B); cbn [Bool.eqb andb negb] in *;
      change (cor_value 0) with 0; change (cor_value 1) with 1; change (cor_value 3) with (-1);
      change (cor_value (rep2 1)) with (-1); change (cor_value (rep2 0)) with 0;
      (split; [apply Htop|apply Hbase]); first [assumption|lia|nia].
Qed.

(** ** The abstract specification of [set_bounds]

    A request for the bytes from [a] up to [r] is rounded out to the multiples of
    [2^e]; [fits e a r] says that the rounded region has less than 512 units. *)

Definition cdiv (x m : Z) : Z := (x + m - 1) / m.
Definition fits_exp (e a r : Z) : Prop := cdiv r (2 ^ e) - a / 2 ^ e <= 511.
#[export] Instance fits_exp_dec e a r : Decision (fits_exp e a r).
Proof. unfold fits_exp. apply _. Defined.
Definition best_exp (it8 : bool) (a r e : Z) : Prop :=
  exp_allowed it8 e /\ fits_exp e a r /\
  forall e', exp_allowed it8 e' -> fits_exp e' a r -> e <= e'.

(** The request as the execution unit prepares it. *)
Definition bound_req1 (it8 : bool) (c : full_cap_t) (addr length : Z) : bound_req_t :=
  if it8 then prep_bound_req_it8 c addr length else prep_bound_req c addr length.

Lemma cdiv_div x m : 0 < m -> cdiv x m = x / m + Z.b2z (negb (x mod m =? 0)).
Proof.
  intros Hm. unfold cdiv. pose proof (Z.div_mod x m ltac:(lia)) as Hd.
  pose proof (Z.mod_pos_bound x m Hm) as Hr. destruct (Z.eqb_spec (x mod m) 0) as [E|E]; cbn [negb Z.b2z].
  - symmetry. apply (Z.div_unique_pos _ _ _ (m - 1)); lia.
  - symmetry. apply (Z.div_unique_pos _ _ _ (x mod m - 1)); lia.
Qed.

Lemma cdiv_bounds x m : 0 < m -> x <= cdiv x m * m < x + m.
Proof.
  intros Hm. unfold cdiv. pose proof (Z.div_mod (x + m - 1) m ltac:(lia)).
  pose proof (Z.mod_pos_bound (x + m - 1) m Hm). lia.
Qed.

Lemma div_bounds x m : 0 < m -> x - m < x / m * m <= x.
Proof.
  intros Hm. pose proof (Z.div_mod x m ltac:(lia)). pose proof (Z.mod_pos_bound x m Hm). lia.
Qed.

Lemma cdiv_le x m n : 0 < m -> x <= n * m -> cdiv x m <= n.
Proof. intros Hm Hx. pose proof (cdiv_bounds x m Hm). nia. Qed.
Lemma div_ge x m n : 0 < m -> n * m <= x -> n <= x / m.
Proof. intros Hm Hx. apply Z.div_le_lower_bound; lia. Qed.

(** The length of a request decides which exponents can fit. *)
Lemma fits_length e a r : 0 <= e -> fits_exp e a r -> r - a < 2 ^ (e + 9).
Proof.
  intros He H. unfold fits_exp in H. rewrite pow2_add_9 by done.
  pose proof (cdiv_bounds r (2 ^ e) ltac:(lia)). pose proof (div_bounds a (2 ^ e) ltac:(lia)). nia.
Qed.
Lemma length_fits e a r : 0 <= e -> r - a < 2 ^ (e + 8) -> fits_exp e a r.
Proof.
  intros He H. unfold fits_exp. rewrite Z.pow_add_r in H by lia. change (2 ^ 8) with 256 in H.
  pose proof (cdiv_bounds r (2 ^ e) ltac:(lia)). pose proof (div_bounds a (2 ^ e) ltac:(lia)). nia.
Qed.
Lemma length_units e a r : 0 <= e -> r - a < 2 ^ (e + 9) -> cdiv r (2 ^ e) - a / 2 ^ e <= 513.
Proof.
  intros He H. rewrite pow2_add_9 in H by lia.
  pose proof (cdiv_bounds r (2 ^ e) ltac:(lia)). pose proof (div_bounds a (2 ^ e) ltac:(lia)). nia.
Qed.

Lemma exp_cases e : 0 <= e <= 24 -> In e (seqZ 0 25).
Proof. intros. apply list_elem_of_In, elem_of_seqZ. lia. Qed.

Lemma low_mask e : 0 <= e <= 24 -> notw 33 (trunc 33 (Z.ones 33 << e)) = Z.ones e.
Proof. intros He. apply (eq_below (fun e => notw 33 (trunc 33 (Z.ones 33 << e))) Z.ones 25);
  [by_compute|lia]. Qed.

Lemma any_low_bits x e : 0 <= e <= 24 ->
  any (x .& notw 33 (trunc 33 (Z.ones 33 << e))) = negb (x mod 2 ^ e =? 0).
Proof. intros He. unfold any. by rewrite low_mask, Z.land_ones by lia. Qed.

(** *** The two paths *)

Lemma path_fields a r e :
  0 <= e <= 24 ->
  let p := set_bounds_path a r e in
  bp_base p = (a / 2 ^ e) mod 1024 /\ bp_top p = cdiv r (2 ^ e) mod 1024 /\
  bp_len p = (cdiv r (2 ^ e) - a / 2 ^ e) mod 1024 /\
  bp_topoff p = negb (r mod 2 ^ e =? 0) /\ bp_baseoff p = negb (a mod 2 ^ e =? 0) /\
  bp_tophi p = ((a / 2 ^ e) mod 512 <=? cdiv r (2 ^ e) mod 512).
Proof.
  intros He. cbv zeta. unfold set_bounds_path. cbv zeta. cbn [bp_base bp_top bp_len bp_topoff
    bp_baseoff bp_tophi]. rewrite !any_low_bits by done. unfold trunc.
  rewrite !Z.shiftr_div_pow2 by lia. change (2 ^ 10) with 1024.
  rewrite Zplus_mod_idemp_l, <-cdiv_div, <-Zminus_mod by lia.
  rewrite !slice_low. change (2 ^ (8 + 1)) with 512.
  rewrite !(Z.mod_mod_divide _ 1024 512) by (by exists 2). done.
Qed.

Lemma path_overflow a r e :
  0 <= e <= 24 -> a <= r -> cdiv r (2 ^ e) - a / 2 ^ e <= 513 ->
  Z.testbit (bp_len (set_bounds_path a r e)) 9 = negb (bool_decide (fits_exp e a r)).
Proof.
  intros He Har Hle. destruct (path_fields a r e He) as (_ & _ & -> & _).
  assert (0 <= cdiv r (2 ^ e) - a / 2 ^ e).
  { pose proof (cdiv_bounds r (2 ^ e) ltac:(lia)). pose proof (div_bounds a (2 ^ e) ltac:(lia)). nia. }
  rewrite Z.mod_small by lia. unfold fits_exp. case_bool_decide; cbn [negb].
  - apply (testbit_small _ 9); lia.
  - rewrite testbit_pow2_le by lia. apply Z.leb_le. lia.
Qed.

(** The fields of a path whose exponent fits describe the rounded region, seen
    from the requested address. *)
Lemma path_region a r e :
  0 <= e <= 24 -> 0 <= a < 2 ^ 32 -> a <= r <= 2 ^ 32 -> fits_exp e a r ->
  let p := set_bounds_path a r e in
  let T := slice (bp_top p) 8 0 in
  let B := slice (bp_base p) 8 0 in
  region e T B (a / 2 ^ e) /\ region_top e T B (a / 2 ^ e) = cdiv r (2 ^ e) * 2 ^ e /\
  update_temp_fields T B (addrmi9 e a) = (if bp_tophi p then 0 else 1, 0) /\
  window e (a / 2 ^ e) a.
Proof.
  intros He Ha Hr Hf p T B. destruct (path_fields a r e He) as (Eb & Et & _ & _ & _ & Eh).
  assert (T = cdiv r (2 ^ e) mod 512) as ET.
  { unfold T, p. rewrite Et, slice_low. apply Z.mod_mod_divide. by exists 2. }
  assert (B = (a / 2 ^ e) mod 512) as EB.
  { unfold B, p. rewrite Eb, slice_low. apply Z.mod_mod_divide. by exists 2. }
  pose proof (cdiv_bounds r (2 ^ e) ltac:(lia)) as Hc.
  pose proof (div_bounds a (2 ^ e) ltac:(lia)) as Hd.
  assert (0 <= cdiv r (2 ^ e) - a / 2 ^ e) by nia.
  assert ((T - B) mod 512 = cdiv r (2 ^ e) - a / 2 ^ e) as El
    by (rewrite ET, EB, <-Zminus_mod; apply Z.mod_small; unfold fits_exp in Hf; lia).
  assert (cdiv r (2 ^ e) * 2 ^ e <= 2 ^ 32) as Hlim.
  { assert (2 ^ 32 = 2 ^ (32 - e) * 2 ^ e) as E32 by (rewrite <-Z.pow_add_r by lia; f_equal; lia).
    rewrite E32 in *. pose proof (cdiv_le r (2 ^ e) (2 ^ (32 - e)) ltac:(lia) ltac:(lia)). nia. }
  split_and!.
  - split; [done|rewrite ET; apply Z.mod_pos_bound; lia|done|apply Z.div_pos; lia|lia|].
    rewrite El. replace (_ + _) with (cdiv r (2 ^ e)) by lia. done.
  - unfold region_top. rewrite El. f_equal. lia.
  - assert (addrmi9 e a = B) as ->.
    { unfold addrmi9, trunc. rewrite Z.shiftr_div_pow2 by lia. done. }
    unfold update_temp_fields. rewrite Z.ltb_irrefl. unfold p. rewrite Eh, <-ET, <-EB.
    f_equal. destruct (Z.ltb_spec T B), (Z.leb_spec B T); try lia; done.
  - right. rewrite pow2_add_9 by lia. nia.
Qed.

(** *** The exponents of a request *)

Lemma slice_31_9 len : 0 <= len < 2 ^ 32 -> slice len 31 9 = len / 512 /\ 0 <= len / 512 < 2 ^ 23.
Proof.
  intros Hl. rewrite slice_div by lia. change (2 ^ 9) with 512. change (31 - 9 + 1) with 23.
  assert (0 <= len / 512 < 2 ^ 23)
    by (split; [apply Z.div_pos; lia|apply Z.div_lt_upper_bound; lia]).
  split; [apply Z.mod_small|]; done.
Qed.

(** [explen] is the exponent of a length. *)
Lemma explen_spec len :
  0 <= len < 2 ^ 32 ->
  let k := get_size (slice len 31 9) in
  0 <= k <= 23 /\ len < 2 ^ (k + 9) /\ (k <> 0 -> 2 ^ (k + 8) <= len).
Proof.
  intros Hl. destruct (slice_31_9 len Hl) as [-> Hs]. cbv zeta.
  destruct (get_size_spec (len / 512) ltac:(lia)) as (Hr & Hlt & Hge).
  set (k := get_size (len / 512)) in *. pose proof (Z.div_mod len 512 ltac:(lia)).
  pose proof (Z.mod_pos_bound len 512 ltac:(lia)). split_and!.
  - lia.
  - assert (k <> 0 -> k - 1 < 23) by (intros; apply (Z.pow_lt_mono_r_iff 2); lia). lia.
  - rewrite pow2_add_9 by lia. lia.
  - intros Hk. specialize (Hge Hk). replace (k + 8) with (k - 1 + 9) by lia.
    rewrite pow2_add_9 by lia. lia.
Qed.

Lemma explen_least len e :
  0 <= len < 2 ^ 32 -> 0 <= e -> len < 2 ^ (e + 9) -> get_size (slice len 31 9) <= e.
Proof.
  intros Hl He Hlt. destruct (explen_spec len Hl) as (Hr & _ & Hge).
  destruct (Z.eq_dec (get_size (slice len 31 9)) 0) as [E|E]; [lia|].
  specialize (Hge E). assert (get_size (slice len 31 9) + 8 < e + 9); [|lia].
  apply (Z.pow_lt_mono_r_iff 2); lia.
Qed.

Lemma prep_exps it8 c a len :
  0 <= len < 2 ^ 32 ->
  let q := bound_req1 it8 c a len in
  exp_allowed it8 (bq_exp1 q) /\ exp_allowed it8 (bq_exp2 q) /\
  len < 2 ^ (bq_exp1 q + 9) /\ len < 2 ^ (bq_exp2 q + 8) /\
  forall e, exp_allowed it8 e -> len < 2 ^ (e + 9) ->
    bq_exp1 q <= e /\ (bq_exp1 q <> e -> bq_exp2 q <= e).
Proof.
  intros Hl. destruct (explen_spec len Hl) as (Hr & Hlt & _).
  pose proof (explen_least len) as Hleast. cbv zeta. unfold bound_req1, exp_allowed.
  destruct it8; unfold prep_bound_req_it8, prep_bound_req; cbv zeta; cbn [bq_exp1 bq_exp2];
    set (k := get_size (slice len 31 9)) in *.
  - rewrite !trunc_small by lia. split_and!; [lia|lia|auto|lia|lia|auto|done| |].
    + replace (k + 1 + 8) with (k + 9) by lia. done.
    + intros e [He _] Hle. specialize (Hleast e Hl ltac:(lia) Hle). lia.
  - unfold RESETCEXP, RESETEXP. rewrite !(trunc_small 6) by lia.
    assert (forall x, 0 <= x <= 24 -> (if 15 <=? x then 24 else trunc 5 x) = if 15 <=? x then 24 else x)
      as Hsat by (intros x Hx; destruct (15 <=? x); [done|apply trunc_small; lia]).
    rewrite !Hsat by lia.
    assert (2 ^ 32 <= 2 ^ (24 + 9)) by (apply Z.pow_le_mono_r; lia).
    destruct (Z.leb_spec 15 k), (Z.leb_spec 15 (k + 1)); try lia; split_and!; try lia; try done;
      try (replace (k + 1 + 8) with (k + 9) by lia; done);
      intros e He Hle; specialize (Hleast e Hl ltac:(lia) Hle); lia.
Qed.

(** ** Capabilities with a region *)

(** In the encoding with eight-bit tops the region of a capability with an exponent
    has at least 256 units; the top bit of its length is not stored. *)
Definition normal (it8 : bool) (e T B : Z) : Prop :=
  it8 = true -> e = 0 \/ 256 <= (T - B) mod 512.

(** The decoded bounds of a full capability are the region of its fields. *)
Record full_region (it8 : bool) (c : full_cap_t) (b : Z) : Prop := {
  fr_exp : exp_allowed it8 (fc_exp c);
  fr_normal : normal it8 (fc_exp c) (fc_top c) (fc_base c);
  fr_region : region (fc_exp c) (fc_top c) (fc_base c) b;
  fr_base32 : fc_base32 c = region_base (fc_exp c) b;
  fr_top33 : fc_top33 c = region_top (fc_exp c) (fc_top c) (fc_base c) b }.

(** A register and its address: the corrections are those of the address, which is
    representable. *)
Record cap_ok (it8 : bool) (c : reg_cap_t) (a : Z) : Prop := {
  ok_range : reg_range c;
  ok_addr : 0 <= a < 2 ^ 32;
  ok_exp : exp_allowed it8 (r_exp c);
  ok_normal : normal it8 (r_exp c) (r_top c) (r_base c);
  ok_cors : (r_top_cor c, r_base_cor c) =
    update_temp_fields (r_top c) (r_base c) (addrmi9 (r_exp c) a);
  ok_region : exists b, region (r_exp c) (r_top c) (r_base c) b /\ window (r_exp c) b a }.

Lemma decode_cap e T B b a c :
  region e T B b -> 0 <= a < 2 ^ 32 -> window e b a ->
  r_exp c = e -> r_top c = T -> r_base c = B ->
  (r_top_cor c, r_base_cor c) = update_temp_fields T B (addrmi9 e a) ->
  fc_base32 (reg2fullcap c a) = region_base e b /\
  fc_top33 (reg2fullcap c a) = region_top e T B b.
Proof.
  intros Hr Ha Hw He HT HB Hc. destruct (decode_region e T B b a Hr Ha Hw) as [Et Eb].
  rewrite <-Hc in Et, Eb. cbn [fst snd] in Et, Eb.
  unfold reg2fullcap. cbn [fc_base32 fc_top33]. by rewrite He, HT, HB.
Qed.

Lemma cap_ok_region it8 c a :
  cap_ok it8 c a ->
  exists b, full_region it8 (reg2fullcap c a) b /\ window (r_exp c) b a.
Proof.
  intros [_ Ha He Hn Hc (b & Hr & Hw)]. exists b. split; [|done].
  destruct (decode_cap _ _ _ b a c Hr Ha Hw eq_refl eq_refl eq_refl Hc) as [Eb Et].
  split; done.
Qed.

Lemma region_bounds e T B b :
  region e T B b ->
  0 <= region_base e b < 2 ^ 32 /\ region_base e b <= region_top e T B b <= 2 ^ 32.
Proof.
  intros [He HT HB Hb Hs Hl]. unfold region_base, region_top.
  pose proof (Z.mod_pos_bound (T - B) 512 ltac:(lia)). assert (0 < 2 ^ e) by lia. nia.
Qed.

(** A request inside a region fits at the exponent of the region. *)
Lemma region_fits e T B b a r :
  region e T B b -> region_base e b <= a -> r <= region_top e T B b -> fits_exp e a r.
Proof.
  intros [He HT HB Hb Hs Hl] Ha Hr. unfold region_base, region_top, fits_exp in *.
  pose proof (Z.mod_pos_bound (T - B) 512 ltac:(lia)).
  pose proof (cdiv_le r (2 ^ e) _ ltac:(lia) Hr). pose proof (div_ge a (2 ^ e) b ltac:(lia) Ha). lia.
Qed.

(** Rounding out at a smaller exponent stays inside. *)
Lemma round_inside e e' lo hi a r :
  0 <= e' <= e -> lo * 2 ^ e <= a -> r <= hi * 2 ^ e ->
  lo * 2 ^ e <= a / 2 ^ e' * 2 ^ e' /\ cdiv r (2 ^ e') * 2 ^ e' <= hi * 2 ^ e.
Proof.
  intros He Ha Hr. assert (2 ^ e = 2 ^ (e - e') * 2 ^ e') as E
    by (rewrite <-Z.pow_add_r by lia; f_equal; lia).
  rewrite E, !Z.mul_assoc in *.
  pose proof (div_ge a (2 ^ e') _ ltac:(lia) Ha). pose proof (cdiv_le r (2 ^ e') _ ltac:(lia) Hr).
  assert (0 < 2 ^ e') by lia. nia.
Qed.

Lemma bound_req1_fields it8 c a len :
  0 <= a < 2 ^ 32 -> 0 <= len < 2 ^ 32 ->
  let q := bound_req1 it8 c a len in
  bq_top33req q = a + len /\
  bq_in_bound q = negb ((fc_top33 c <? a + len) || (a <? fc_base32 c)) /\
  bq_explen q = get_size (slice len 31 9) /\ bq_expb q = count_tz a.
Proof.
  intros Ha Hl. cbv zeta. unfold bound_req1.
  destruct it8; unfold prep_bound_req_it8, prep_bound_req; cbv zeta;
    cbn [bq_top33req bq_in_bound bq_explen bq_expb]; rewrite (trunc_small 33) by lia; done.
Qed.

(** [set_bounds] takes the path of the best exponent. *)
Lemma set_bounds_choice it8 c a len exact :
  0 <= a < 2 ^ 32 -> 0 <= len < 2 ^ 32 ->
  let out := set_bounds c a (bound_req1 it8 c a len) exact in
  let p := set_bounds_path a (a + len) (fc_exp out) in
  best_exp it8 a (a + len) (fc_exp out) /\
  fc_top out = slice (bp_top p) 8 0 /\ fc_base out = slice (bp_base p) 8 0 /\
  (fc_top_cor out, fc_base_cor out) = (if bp_tophi p then 0 else 1, 0) /\
  fc_valid out = fc_valid c && negb (exact && (bp_topoff p || bp_baseoff p)) &&
                 bq_in_bound (bound_req1 it8 c a len) /\
  fc_rlen out = trunc 32 (bp_len p << fc_exp out) /\
  fc_maska out = slice (bp_mask p) 31 0.
Proof.
  intros Ha Hl. cbv zeta. set (q := bound_req1 it8 c a len).
  destruct (bound_req1_fields it8 c a len Ha Hl) as (Er & _). fold q in Er.
  destruct (prep_exps it8 c a len Hl) as (H1 & H2 & L1 & L2 & Hmin). fold q in H1, H2, L1, L2, Hmin.
  pose proof (length_units (bq_exp1 q) a (a + len) (proj1 (proj1 H1)) ltac:(lia)) as Hu.
  pose proof (path_overflow a (a + len) (bq_exp1 q) (proj1 H1) ltac:(lia) Hu) as Hov.
  pose proof (length_fits (bq_exp2 q) a (a + len) (proj1 (proj1 H2)) ltac:(lia)) as Hf2.
  unfold set_bounds. cbv zeta. rewrite Er, Hov.
  assert (forall e, exp_allowed it8 e -> fits_exp e a (a + len) ->
    bq_exp1 q <= e /\ (bq_exp1 q <> e -> bq_exp2 q <= e)) as Hm.
  { intros e He Hf. apply Hmin; [done|]. pose proof (fits_length e a (a + len) (proj1 (proj1 He)) Hf). lia. }
  set (e := if negb (bool_decide (fits_exp (bq_exp1 q) a (a + len))) then bq_exp2 q else bq_exp1 q).
  assert (best_exp it8 a (a + len) e) as Hbest.
  { unfold e, best_exp. case_bool_decide as Hf; cbn [negb].
    - split_and!; try apply H1; [done|]. intros e' He Hf'. by apply Hm.
    - split_and!; try apply H2; [done|]. intros e' He Hf'. apply Hm; [done|done|]. by intros <-. }
  assert ((if negb (bool_decide (fits_exp (bq_exp1 q) a (a + len)))
           then set_bounds_path a (a + len) (bq_exp2 q)
           else set_bounds_path a (a + len) (bq_exp1 q)) = set_bounds_path a (a + len) e) as ->
    by (unfold e; by case_bool_decide).
  destruct (exact && _) eqn:E, (bq_in_bound q);
    cbn [with_valid with_cors with_lens with_fields fc_valid fc_exp fc_top fc_base fc_top_cor
      fc_base_cor fc_rlen fc_maska fst snd]; rewrite E; cbn [negb];
    rewrite ?andb_false_r, ?andb_true_r; done.
Qed.

(** The best exponent leaves at least 256 units when a smaller one is allowed. *)
Lemma best_normal it8 a r e T B :
  best_exp it8 a r e -> region_top e T B (a / 2 ^ e) = cdiv r (2 ^ e) * 2 ^ e ->
  normal it8 e T B.
Proof.
  intros ((He & _) & _ & Hmin) Ht ->. destruct (Z.eq_dec e 0); [by left|right].
  assert (~ fits_exp (e - 1) a r) as Hn.
  { intros Hf. specialize (Hmin (e - 1) ltac:(split; [lia|by left]) Hf). lia. }
  unfold fits_exp in Hn. unfold region_top in Ht. apply Z.mul_reg_r in Ht; [|lia].
  assert (2 ^ e = 2 * 2 ^ (e - 1)) as E2 by (rewrite <-Z.pow_succ_r by lia; f_equal; lia).
  pose proof (cdiv_bounds r (2 ^ e) ltac:(lia)). pose proof (div_bounds a (2 ^ e) ltac:(lia)).
  pose proof (cdiv_le r (2 ^ (e - 1)) (2 * cdiv r (2 ^ e)) ltac:(lia) ltac:(lia)).
  pose proof (div_ge a (2 ^ (e - 1)) (2 * (a / 2 ^ e)) ltac:(lia) ltac:(lia)). lia.
Qed.

(** What the result of [set_bounds] is, as a region seen from the address. *)
Lemma set_bounds_region it8 c a len exact :
  0 <= a < 2 ^ 32 -> 0 <= len < 2 ^ 32 -> a + len <= 2 ^ 32 ->
  let out := set_bounds c a (bound_req1 it8 c a len) exact in
  let e := fc_exp out in
  region e (fc_top out) (fc_base out) (a / 2 ^ e) /\ window e (a / 2 ^ e) a /\
  normal it8 e (fc_top out) (fc_base out) /\
  region_top e (fc_top out) (fc_base out) (a / 2 ^ e) = cdiv (a + len) (2 ^ e) * 2 ^ e /\
  (fc_top_cor out, fc_base_cor out) =
    update_temp_fields (fc_top out) (fc_base out) (addrmi9 e a) /\
  fc_valid out = fc_valid c && negb (exact && negb ((a mod 2 ^ e =? 0) && ((a + len) mod 2 ^ e =? 0)))
                 && negb ((fc_top33 c <? a + len) || (a <? fc_base32 c)).
Proof.
  intros Ha Hl Hlim. destruct (set_bounds_choice it8 c a len exact Ha Hl) as
    (Hbest & Et & Eb & Ec & Ev & _). cbv zeta in *.
  pose proof Hbest as ((He & _) & Hf & _).
  set (out := set_bounds c a _ exact) in *. clearbody out.
  destruct (path_region a (a + len) (fc_exp out) He Ha ltac:(lia) Hf) as (Hr & Htop & Hc & Hw).
  destruct (path_fields a (a + len) (fc_exp out) He) as (_ & _ & _ & Eto & Ebo & _).
  destruct (bound_req1_fields it8 c a len Ha Hl) as (_ & Ein & _).
  pose proof (best_normal _ _ _ _ _ _ Hbest Htop) as Hnorm.
  rewrite Et, Eb, Ec, Ev, Eto, Ebo, Ein, <-negb_andb, (andb_comm (_ =? 0) (a mod _ =? 0)).
  split_and!; done.
Qed.

(** The invariant as a program. *)
Definition cap_okb (it8 : bool) (c : reg_cap_t) (a : Z) : bool :=
  let e := r_exp c in
  let T := r_top c in
  let B := r_base c in
  let b := fc_base32 (reg2fullcap c a) / 2 ^ e in
  bool_decide
    ((r_top_cor c = 0 \/ r_top_cor c = 1 \/ r_top_cor c = 3) /\
     (r_base_cor c = 0 \/ r_base_cor c = 1) /\ 0 <= e <= 24 /\ 0 <= T < 512 /\ 0 <= B < 512 /\
     0 <= r_otype c < 8 /\ 0 <= r_cperms c < 64 /\ 0 <= r_rsvd c < 2 /\ 0 <= a < 2 ^ 32 /\
     (it8 = true \/ e <= 14 \/ e = 24) /\ (it8 = false \/ e = 0 \/ 256 <= (T - B) mod 512) /\
     (r_top_cor c, r_base_cor c) = update_temp_fields T B (addrmi9 e a) /\
     b mod 512 = B /\ 0 <= b /\ b * 2 ^ e < 2 ^ 32 /\ (b + (T - B) mod 512) * 2 ^ e <= 2 ^ 32 /\
     (e = 24 \/ b * 2 ^ e <= a < b * 2 ^ e + 2 ^ (e + 9))).

Lemma cap_okb_ok it8 c a : cap_okb it8 c a = true -> cap_ok it8 c a.
Proof.
  unfold cap_okb. cbv zeta. rewrite bool_decide_eq_true. unfold normal.
  intros (? & ? & ? & ? & ? & ? & ? & ? & ? & ? & Hn & ? & ?).
  split; try (split; done); try done; [intros ->; by destruct Hn|].
  exists (fc_base32 (reg2fullcap c a) / 2 ^ r_exp c). split; [split|]; naive_solver.
Qed.

Ltac cap_ok_tac := apply cap_okb_ok; by_compute.

(** The reset values are capabilities over the whole address space. *)
Lemma reset_caps_ok it8 :
  Forall (fun c => cap_ok it8 c 0)
    [MTVEC_RESET_CAP; MTDC_RESET_CAP; MEPC_RESET_CAP; MSCRATCHC_RESET_CAP].
Proof.
  destruct it8; repeat (apply List.Forall_cons; [cap_ok_tac|]); apply List.Forall_nil.
Qed.

(** The decoded bounds of the result. *)
Lemma set_bounds_result it8 c a len exact :
  0 <= a < 2 ^ 32 -> 0 <= len < 2 ^ 32 -> a + len <= 2 ^ 32 ->
  let out := set_bounds c a (bound_req1 it8 c a len) exact in
  let decoded := reg2fullcap (full2regcap out) a in
  let e := fc_exp out in
  fc_base32 decoded = a / 2 ^ e * 2 ^ e /\ fc_top33 decoded = cdiv (a + len) (2 ^ e) * 2 ^ e /\
  full_region it8 decoded (a / 2 ^ e).
Proof.
  intros Ha Hl Hlim. cbv zeta.
  destruct (set_bounds_region it8 c a len exact Ha Hl Hlim) as (Hr & Hw & Hn & Et & Ec & _).
  destruct (set_bounds_choice it8 c a len exact Ha Hl) as ((Hexp & _) & _).
  cbv zeta in *. set (out := set_bounds c a _ exact) in *. clearbody out.
  destruct (decode_cap _ _ _ _ a (full2regcap out) Hr Ha Hw eq_refl eq_refl eq_refl Ec) as [Eb Et'].
  rewrite Eb, Et', Et. by split_and!.
Qed.

(** A tagged result stays inside a source with a region. *)
Lemma set_bounds_inside it8 c b a len exact :
  full_region it8 c b -> 0 <= a < 2 ^ 32 -> 0 <= len < 2 ^ 32 ->
  let out := set_bounds c a (bound_req1 it8 c a len) exact in
  let e := fc_exp out in
  fc_valid out = true ->
  fc_valid c = true /\ a + len <= 2 ^ 32 /\
  fc_base32 c <= a / 2 ^ e * 2 ^ e /\ cdiv (a + len) (2 ^ e) * 2 ^ e <= fc_top33 c.
Proof.
  intros [Hexp _ Hreg Eb Et] Ha Hl. cbv zeta. intros Hv.
  pose proof (region_bounds _ _ _ _ Hreg) as Hrb. rewrite <-Eb, <-Et in Hrb.
  destruct (bound_req1_fields it8 c a len Ha Hl) as (_ & Ein & _).
  destruct (set_bounds_choice it8 c a len exact Ha Hl) as ((Hexp' & _ & Hmin) & _ & _ & _ & Hv' & _).
  cbv zeta in *. rewrite Hv in Hv'. symmetry in Hv'.
  apply andb_prop in Hv' as [[Hvc _]%andb_prop Hin]. rewrite Ein in Hin.
  apply negb_true_iff, orb_false_iff in Hin as [Htop%Z.ltb_ge Hbase%Z.ltb_ge].
  set (out := set_bounds c a _ exact) in *. clearbody out.
  assert (0 <= fc_exp out <= fc_exp c) as He.
  { split; [apply Hexp'|]. apply Hmin; [done|].
    apply (region_fits (fc_exp c) (fc_top c) (fc_base c) b); [done|by rewrite <-Eb|by rewrite <-Et]. }
  rewrite Eb in *. rewrite Et in *. unfold region_base, region_top in *.
  destruct (round_inside (fc_exp c) (fc_exp out) b _ a (a + len) He Hbase Htop) as [H1 H2].
  split_and!; done || lia.
Qed.

(** *** Theorems *)

(** C7 (refinement: setting bounds).  For every request that ends inside the
    address space, [set_bounds] implements the abstract rule "round out to the
    smallest exponent that fits": the decoded bounds of the result are the address
    rounded down and its end rounded up to [2^e], where [e] is the least exponent
    of the encoding with less than 512 units in between; it is tagged exactly when
    the source is, the request lies inside its bounds, and, when exactness is
    asked for, nothing was rounded. *)
Theorem set_bounds_spec (it8 : bool) (c : full_cap_t) (a len : Z) (exact : bool) :
  0 <= a < 2 ^ 32 -> 0 <= len < 2 ^ 32 -> a + len <= 2 ^ 32 ->
  let out := set_bounds c a (bound_req1 it8 c a len) exact in
  let decoded := reg2fullcap (full2regcap out) a in
  let e := fc_exp out in
  best_exp it8 a (a + len) e /\
  fc_base32 decoded = a / 2 ^ e * 2 ^ e /\
  fc_top33 decoded = cdiv (a + len) (2 ^ e) * 2 ^ e /\
  fc_valid decoded =
    fc_valid c && negb (exact && negb ((a mod 2 ^ e =? 0) && ((a + len) mod 2 ^ e =? 0)))
    && negb ((fc_top33 c <? a + len) || (a <? fc_base32 c)).
Proof.
  intros Ha Hl Hlim. cbv zeta.
  destruct (set_bounds_region it8 c a len exact Ha Hl Hlim) as (_ & _ & _ & _ & _ & Ev).
  destruct (set_bounds_choice it8 c a len exact Ha Hl) as (Hbest & _).
  destruct (set_bounds_result it8 c a len exact Ha Hl Hlim) as (Eb & Et & _).
  split; [exact Hbest|]. by split_and!.
Qed.

Definition root_cap : full_cap_t := reg2fullcap MTDC_RESET_CAP 0.

Example set_bounds_spec_witness :
  let out := set_bounds root_cap 0x80001003 (bound_req1 false root_cap 0x80001003 0x1000) false in
  fc_base32 (reg2fullcap (full2regcap out) 0x80001003) = 0x80001000.
Proof.
  destruct (set_bounds_spec false root_cap 0x80001003 0x1000 false ltac:(lia) ltac:(lia) ltac:(lia))
    as (_ & Eb & _). cbv zeta. rewrite Eb. by_compute.
Defined.

(** C9 (safety: bounds only shrink).  If the source describes a region, a tagged
    result of [set_bounds] covers the request and stays inside the bounds of the
    source, although what is compared with them is the request before rounding;
    an exact result has exactly the bounds of the request. *)
Theorem set_bounds_monotone (it8 : bool) (c : full_cap_t) (b a len : Z) (exact : bool) :
  full_region it8 c b -> 0 <= a < 2 ^ 32 -> 0 <= len < 2 ^ 32 ->
  let out := set_bounds c a (bound_req1 it8 c a len) exact in
  let decoded := reg2fullcap (full2regcap out) a in
  fc_valid out = true ->
  fc_valid c = true /\
  fc_base32 c <= fc_base32 decoded <= a /\ a + len <= fc_top33 decoded <= fc_top33 c /\
  (exact = true -> fc_base32 decoded = a /\ fc_top33 decoded = a + len).
Proof.
  intros Hc Ha Hl. cbv zeta. intros Hv.
  destruct (set_bounds_inside it8 c b a len exact Hc Ha Hl Hv) as (Hvc & Hlim & Hb & Ht).
  destruct (set_bounds_result it8 c a len exact Ha Hl Hlim) as (-> & -> & Hr).
  destruct (set_bounds_region it8 c a len exact Ha Hl Hlim) as (_ & _ & _ & _ & _ & Ev).
  cbv zeta in *. set (out := set_bounds c a _ exact) in *. clearbody out.
  assert (0 <= fc_exp out) as He by apply (rg_exp _ _ _ _ (fr_region _ _ _ Hr)).
  pose proof (div_bounds a (2 ^ fc_exp out) ltac:(lia)).
  pose proof (cdiv_bounds (a + len) (2 ^ fc_exp out) ltac:(lia)).
  split_and!; try done; try lia. intros ->. rewrite Hv in Ev. symmetry in Ev.
  apply andb_prop in Ev as [[_ Hx]%andb_prop _]. apply negb_true_iff in Hx. cbn [andb] in Hx.
  apply negb_false_iff, andb_prop in Hx as [Hx%Z.eqb_eq Hy%Z.eqb_eq].
  rewrite cdiv_div, Hy by lia. cbn [Z.eqb negb Z.b2z]. rewrite Z.add_0_r.
  apply Z.div_exact in Hx; [|lia]. apply Z.div_exact in Hy; [|lia].
  rewrite !(Z.mul_comm (_ / _)), <-Hx, <-Hy. done.
Qed.

Lemma root_cap_region it8 : full_region it8 root_cap 0.
Proof.
  destruct (cap_ok_region it8 MTDC_RESET_CAP 0) as (b & Hr & _); [destruct it8; cap_ok_tac|].
  unfold root_cap in *. destruct Hr as [He Hn Hr Hb Ht]. assert (b = 0) as ->; [|by split].
  assert (fc_base32 (reg2fullcap MTDC_RESET_CAP 0) = 0) as E by by_compute.
  rewrite E in Hb. unfold region_base in Hb. change (fc_exp _) with 24 in Hb. lia.
Qed.

Example set_bounds_monotone_witness :
  let out := set_bounds root_cap 0x80001008 (bound_req1 true root_cap 0x80001008 0x1238) false in
  0x80001008 + 0x1238 <= fc_top33 (reg2fullcap (full2regcap out) 0x80001008) <= 2 ^ 32.
Proof.
  pose proof (set_bounds_monotone true root_cap 0 0x80001008 0x1238 false (root_cap_region true)
    ltac:(lia) ltac:(lia) ltac:(by_compute)) as (_ & _ & H & _).
  exact H.
Defined.

(** ** Moving the address *)

#[export] Instance window_dec e b a : Decision (window e b a).
Proof. unfold window. apply _. Defined.

Lemma high_mask e : 0 <= e <= 24 -> trunc 24 (Z.ones 24 << e) = Z.ones (24 - e) * 2 ^ e.
Proof. intros He. apply (eq_below (fun e => trunc 24 (Z.ones 24 << e))
  (fun e => Z.ones (24 - e) * 2 ^ e) 25); [by_compute|lia]. Qed.

(** The representability check looks at the distance from the base. *)
Lemma representable_check d e :
  0 <= e <= 24 -> 0 <= d < 2 ^ 33 ->
  any (slice d 32 9 .& trunc 24 (Z.ones 24 << e)) = negb (d <? 2 ^ (e + 9)).
Proof.
  intros He Hd. rewrite high_mask, slice_div by lia. change (2 ^ 9) with 512.
  change (32 - 9 + 1) with 24.
  assert (0 <= d / 512 < 2 ^ 24)
    by (split; [apply Z.div_pos; lia|apply Z.div_lt_upper_bound; lia]).
  rewrite (Z.mod_small (d / 512)) by done.
  rewrite land_high_mask by (lia || by replace (e + (24 - e)) with 24 by lia).
  unfold any. f_equal. apply eq_true_iff_eq. rewrite Z.eqb_eq, Z.ltb_lt, pow2_add_9 by lia.
  rewrite Z.div_div by lia. pose proof (Z.div_mod d (512 * 2 ^ e) ltac:(lia)).
  pose proof (Z.mod_pos_bound d (512 * 2 ^ e) ltac:(lia)).
  assert (0 <= d / (512 * 2 ^ e)) by (apply Z.div_pos; lia).
  split; intros Hx; [|rewrite Z.div_small by lia; lia].
  assert (d / (512 * 2 ^ e) = 0) by (apply Z.mul_eq_0 in Hx; lia). nia.
Qed.

Lemma window_distance e b a :
  0 <= e <= 24 -> 0 <= b * 2 ^ e < 2 ^ 32 -> 0 <= a < 2 ^ 32 ->
  ((a - b * 2 ^ e) mod 2 ^ 33 <? 2 ^ (e + 9)) = bool_decide (window e b a).
Proof.
  intros He Hb Ha. unfold window. apply eq_true_iff_eq.
  rewrite Z.ltb_lt, bool_decide_eq_true. destruct (Z.eq_dec e 24) as [->|Hne].
  - split; [by left|intros _]. apply Z.mod_pos_bound. lia.
  - assert (2 ^ (e + 9) <= 2 ^ 32) by (apply Z.pow_le_mono_r; lia).
    destruct (Z.lt_ge_cases (a - b * 2 ^ e) 0) as [Hlt|Hge].
    + rewrite <-(Z.mod_add _ 1 (2 ^ 33)), Z.mod_small by lia. lia.
    + rewrite Z.mod_small by lia. lia.
Qed.

Lemma set_address_fields c p ct cb :
  let out := set_address c p ct cb in
  fc_exp out = fc_exp c /\ fc_top out = fc_top c /\ fc_base out = fc_base c /\
  fc_otype out = fc_otype c /\ fc_cperms out = fc_cperms c /\ fc_rsvd out = fc_rsvd c /\
  fc_perms out = fc_perms c /\
  (fc_top_cor out, fc_base_cor out) =
    update_temp_fields (fc_top c) (fc_base c) (addrmi9 (fc_exp c) p).
Proof.
  unfold set_address. cbv zeta. unfold addrmi9.
  case_match; cbn [with_valid with_cors fc_exp fc_top fc_base fc_otype fc_cperms fc_rsvd fc_perms
    fc_top_cor fc_base_cor]; by rewrite <-surjective_pairing.
Qed.

(** When the tag survives. *)
Lemma set_address_valid it8 c b p chktop chkbase :
  full_region it8 c b -> 0 <= p < 2 ^ 32 ->
  fc_valid (set_address c p chktop chkbase) =
    fc_valid c && bool_decide (window (fc_exp c) b p) &&
    negb (chktop && negb (p <? 2 * (fc_top33 c / 2))) && negb (chkbase && (p <? fc_base32 c)).
Proof.
  intros [Hexp _ Hreg Eb Et] Hp. pose proof (region_bounds _ _ _ _ Hreg) as Hrb.
  pose proof (rg_exp _ _ _ _ Hreg) as He. unfold set_address. cbv zeta. cbn [with_cors fc_valid].
  rewrite representable_check by (done || (apply trunc_range; lia)). unfold trunc.
  rewrite Eb at 1. unfold region_base. rewrite window_distance by (done || apply Hrb).
  assert ((slice (fc_top33 c) 32 1 << 1) = 2 * (fc_top33 c / 2)) as ->.
  { rewrite slice_div, Z.shiftl_mul_pow2 by lia. change (2 ^ 1) with 2.
    rewrite Z.mod_small; [lia|]. rewrite Et. split; [apply Z.div_pos; lia|].
    apply Z.div_lt_upper_bound; lia. }
  assert (Z.testbit ((p - fc_base32 c) mod 2 ^ 33) 32 = (p <? fc_base32 c)) as ->.
  { rewrite Eb. apply eq_true_iff_eq.
    pose proof (Z.mod_pos_bound (p - region_base (fc_exp c) b) (2 ^ 33) ltac:(lia)).
    rewrite testbit_pow2_le, Z.leb_le, Z.ltb_lt by lia.
    destruct (Z.lt_ge_cases (p - region_base (fc_exp c) b) 0).
    - rewrite <-(Z.mod_add _ 1 (2 ^ 33)), Z.mod_small by lia. lia.
    - rewrite Z.mod_small by lia. lia. }
  destruct (bool_decide _), (chktop && _), (chkbase && _); cbn [negb orb andb with_valid fc_valid];
    by rewrite ?andb_true_r, ?andb_false_r.
Qed.

(** From a representable address the bounds are the same. *)
Lemma set_address_decode it8 c b p chktop chkbase :
  full_region it8 c b -> 0 <= p < 2 ^ 32 -> window (fc_exp c) b p ->
  let decoded := reg2fullcap (full2regcap (set_address c p chktop chkbase)) p in
  fc_base32 decoded = fc_base32 c /\ fc_top33 decoded = fc_top33 c /\ full_region it8 decoded b.
Proof.
  intros [Hexp Hnorm Hreg Eb Et] Hp Hw. cbv zeta.
  destruct (set_address_fields c p chktop chkbase) as (Ee & ET & EB & _ & _ & _ & _ & Ec).
  destruct (decode_cap _ _ _ b p (full2regcap (set_address c p chktop chkbase))
    Hreg Hp Hw Ee ET EB Ec) as [Eb' Et'].
  rewrite Eb', Et', Eb, Et. split_and!; [done|done|].
  set (out := set_address c p chktop chkbase) in *. clearbody out.
  split; cbn [reg2fullcap full2regcap fc_exp fc_top fc_base r_exp r_top r_base];
    rewrite ?Ee, ?ET, ?EB; done.
Qed.

(** C36 (functional: moving the address).  For a capability with a region,
    [set_address] keeps the tag exactly when the new address is representable and
    passes the checks asked for: below the top, with its last bit dropped, and
    not below the base.  From every representable address the result decodes to
    the same bounds. *)
Theorem set_address_spec (it8 : bool) (c : full_cap_t) (b p : Z) (chktop chkbase : bool) :
  full_region it8 c b -> 0 <= p < 2 ^ 32 ->
  let out := set_address c p chktop chkbase in
  let decoded := reg2fullcap (full2regcap out) p in
  fc_valid out =
    fc_valid c && bool_decide (window (fc_exp c) b p) &&
    negb (chktop && negb (p <? 2 * (fc_top33 c / 2))) && negb (chkbase && (p <? fc_base32 c)) /\
  (window (fc_exp c) b p ->
   fc_base32 decoded = fc_base32 c /\ fc_top33 decoded = fc_top33 c).
Proof.
  intros Hc Hp. cbv zeta. split; [by apply (set_address_valid it8)|]. intros Hw.
  by destruct (set_address_decode it8 c b p chktop chkbase Hc Hp Hw) as (Eb & Et & _).
Qed.

Example set_address_spec_witness :
  fc_valid (set_address root_cap 0xfffffffc false false) = true.
Proof.
  rewrite (proj1 (set_address_spec false root_cap 0 0xfffffffc false false
    (root_cap_region false) ltac:(lia))). by_compute.
Defined.

(** ** The program counter capability *)

(** Going through [pcc_cap_t] loses only the corrections. *)
Lemma pcc_fields e T B b : region e T B b ->
  trunc 9 (region_top e T B b >> e) = T /\ trunc 9 (region_base e b >> e) = B.
Proof.
  intros [He HT HB Hb Hs Hl]. unfold region_top, region_base, trunc.
  rewrite !Z.shiftr_div_pow2, !Z.div_mul by lia. change (2 ^ 9) with 512. split; [|done].
  rewrite Zplus_mod_idemp_r. rewrite <-HB, Zplus_mod, Zminus_mod_idemp_r, <-Zplus_mod.
  replace (b + (T - b)) with T by lia. by apply Z.mod_small.
Qed.

Lemma pcc2fullcap_region it8 c b :
  full_region it8 c b -> full_region it8 (pcc2fullcap (full2pcap c)) b.
Proof.
  intros [Hexp Hnorm Hreg Eb Et]. destruct (pcc_fields _ _ _ _ Hreg) as [ET EB].
  rewrite <-Et in ET. rewrite <-Eb in EB.
  split; cbn [pcc2fullcap full2pcap fc_exp fc_top fc_base fc_base32 fc_top33 pc_exp pc_top33 pc_base32];
    rewrite ?ET, ?EB; done.
Qed.

Lemma pcc_reset_region it8 : full_region it8 (pcc2fullcap PCC_RESET_CAP) 0.
Proof.
  apply (pcc2fullcap_region it8 (reg2fullcap MEPC_RESET_CAP 0) 0).
  pose proof (root_cap_region it8) as [H1 H2 H3 H4 H5]. split; done.
Qed.

(** ** Rounding down *)

(** The request of set_bounds_rndn as the execution unit selects it. *)
Definition rndn (it8 : bool) (c : full_cap_t) (a : Z) (q : bound_req_t) : full_cap_t :=
  if it8 then set_bounds_rndn_it8 c a q else set_bounds_rndn c a q.

(** The exponent [set_bounds_rndn] takes. *)
Definition rndn_exp (it8 : bool) (explen expb : Z) : Z :=
  let e := Z.min explen expb in if it8 then e else Z.min e 14.

(** The request may have been prepared for another capability [d]: only the check of
    the bounds depends on it. *)
Lemma rndn_fields it8 c d a len :
  0 <= a < 2 ^ 32 -> 0 <= len < 2 ^ 32 ->
  let q := bound_req1 it8 d a len in
  let out := rndn it8 c a q in
  let k := get_size (slice len 31 9) in
  let e := rndn_exp it8 k (count_tz a) in
  fc_exp out = e /\ fc_base out = (a / 2 ^ e) mod 512 /\
  fc_top out = (if e <? k then fc_base out - 1 else (a + len) / 2 ^ e) mod 512 /\
  (fc_top_cor out, fc_base_cor out) = (if fc_base out <=? fc_top out then 0 else 1, 0) /\
  fc_valid out = fc_valid c && bq_in_bound q.
Proof.
  intros Ha Hl. cbv zeta. destruct (bound_req1_fields it8 d a len Ha Hl) as (Er & _ & Ek & Eb).
  destruct (explen_spec len Hl) as (Hk & _). destruct (count_tz_spec a ltac:(lia)) as (Hb & _).
  set (q := bound_req1 it8 d a len) in *. set (k := get_size (slice len 31 9)) in *.
  assert (0 <= rndn_exp it8 k (count_tz a) <= 23) as He by (unfold rndn_exp; destruct it8; lia).
  unfold rndn, set_bounds_rndn, set_bounds_rndn_it8. cbv zeta. rewrite Er, Ek, Eb.
  set (tz := count_tz a) in *. set (e := rndn_exp it8 k tz) in *.
  assert ((if tz <? k then tz else k) = e \/ it8 = false) as E1
    by (unfold e, rndn_exp; destruct it8; [left|by right]; destruct (Z.ltb_spec tz k); lia).
  assert ((tz <? k) = (e <? k) \/ it8 = false) as E2.
  { unfold e, rndn_exp; destruct it8; [left|by right]. apply eq_true_iff_eq.
    rewrite !Z.ltb_lt. lia. }
  assert ((if (tz <? k) && negb (14 <? tz) then tz else if 14 <? k then 14 else k) = e \/ it8 = true) as E3.
  { unfold e, rndn_exp; destruct it8; [by right|left].
    destruct (Z.ltb_spec tz k), (Z.ltb_spec 14 tz), (Z.ltb_spec 14 k); cbn [andb negb]; lia. }
  assert ((tz <? k) || (14 <? k) = (e <? k) \/ it8 = true) as E4.
  { unfold e, rndn_exp; destruct it8; [by right|left]. apply eq_true_iff_eq.
    rewrite orb_true_iff, !Z.ltb_lt. lia. }
  destruct it8.
  - destruct E1 as [E1|]; [|done]. destruct E2 as [E2|]; [|done].
    rewrite E1, E2, (trunc_small 5 e), !Z.shiftr_div_pow2 by lia.
    change (2 ^ 9) with 512. unfold trunc. change (2 ^ 9) with 512.
    destruct (bq_in_bound q), (e <? k);
      cbn [with_fields with_valid with_cors fc_exp fc_top fc_base fc_top_cor fc_base_cor fc_valid
        fst snd]; by rewrite ?andb_true_r, ?andb_false_r.
  - destruct E3 as [E3|]; [|done]. destruct E4 as [E4|]; [|done].
    rewrite E3, E4, (trunc_small 5 e), !Z.shiftr_div_pow2 by lia.
    unfold trunc. change (2 ^ 9) with 512.
    destruct (bq_in_bound q), (e <? k);
      cbn [with_fields with_valid with_cors fc_exp fc_top fc_base fc_top_cor fc_base_cor fc_valid
        fst snd]; by rewrite ?andb_true_r, ?andb_false_r.
Qed.

Lemma rndn_exp_range it8 a len :
  0 <= a < 2 ^ 32 -> 0 <= len < 2 ^ 32 ->
  let k := get_size (slice len 31 9) in
  let e := rndn_exp it8 k (count_tz a) in
  exp_allowed it8 e /\ 0 <= e <= 23 /\ a mod 2 ^ e = 0 /\
  (if e <? k then 512 <= len / 2 ^ e else len / 2 ^ e <= 511) /\
  (e = 0 \/ 256 <= len / 2 ^ e).
Proof.
  intros Ha Hl. destruct (explen_spec len Hl) as (Hk & Hlt & Hge). cbv zeta.
  destruct (count_tz_spec a ltac:(lia)) as (Hb & Hz & _).
  set (k := get_size (slice len 31 9)) in *. set (tz := count_tz a) in *.
  set (e := rndn_exp it8 k tz).
  assert (0 <= e <= 23 /\ e <= tz /\ e <= k /\ (it8 = true \/ e <= 14)) as (He & Htz & Hek & He8)
    by (unfold e, rndn_exp; destruct it8; split_and!; auto; lia).
  split_and!; try lia.
  - split; [lia|]. naive_solver.
  - apply Z.mod_divide; [lia|]. apply Z.mod_divide in Hz; [|lia]. etrans; [|exact Hz].
    exists (2 ^ (tz - e)). rewrite <-Z.pow_add_r by lia. f_equal. lia.
  - destruct (Z.ltb_spec e k).
    + apply Z.div_le_lower_bound; [lia|].
      assert (2 ^ (e + 9) <= 2 ^ (k + 8)) by (apply Z.pow_le_mono_r; lia).
      rewrite pow2_add_9 in * by lia. specialize (Hge ltac:(lia)). lia.
    + assert (e = k) as -> by lia. rewrite pow2_add_9 in Hlt by lia.
      assert (len / 2 ^ k < 512) by (apply Z.div_lt_upper_bound; lia). lia.
  - destruct (Z.eq_dec e 0); [auto|]. right. apply Z.div_le_lower_bound; [lia|].
    assert (2 ^ (e + 8) <= 2 ^ (k + 8)) as Hp by (apply Z.pow_le_mono_r; lia).
    rewrite Z.pow_add_r in Hp at 1 by lia. specialize (Hge ltac:(lia)). lia.
Qed.

(** The decoded result. *)
Lemma rndn_result it8 c d a len :
  0 <= a < 2 ^ 32 -> 0 <= len < 2 ^ 32 -> a + len <= 2 ^ 32 ->
  let out := rndn it8 c a (bound_req1 it8 d a len) in
  let decoded := reg2fullcap (full2regcap out) a in
  let e := rndn_exp it8 (get_size (slice len 31 9)) (count_tz a) in
  fc_base32 decoded = a /\
  fc_top33 decoded = a + Z.min (len / 2 ^ e) 511 * 2 ^ e /\ fc_top33 decoded <= a + len /\
  fc_valid decoded = fc_valid c && negb ((fc_top33 d <? a + len) || (a <? fc_base32 d)) /\
  full_region it8 decoded (a / 2 ^ e) /\ window e (a / 2 ^ e) a /\ fc_exp out = e /\
  (fc_top_cor out, fc_base_cor out) =
    update_temp_fields (fc_top out) (fc_base out) (addrmi9 e a).
Proof.
  intros Ha Hl Hlim. cbv zeta.
  destruct (rndn_fields it8 c d a len Ha Hl) as (Ee & EB & ET & Ec & Ev). cbv zeta in *.
  destruct (rndn_exp_range it8 a len Ha Hl) as (Hexp & He & Hz & Hlen & Hnorm). cbv zeta in *.
  destruct (bound_req1_fields it8 d a len Ha Hl) as (_ & Ein & _). rewrite Ein in Ev.
  set (out := rndn it8 c a _) in *. clearbody out.
  set (e := rndn_exp it8 _ _) in *. set (k := get_size _) in *. clearbody e k.
  set (B := fc_base out) in *. set (T := fc_top out) in *.
  set (n := Z.min (len / 2 ^ e) 511).
  assert (0 <= len / 2 ^ e) as Hn0 by (apply Z.div_pos; lia).
  apply Z.div_exact in Hz; [|lia]. rewrite Z.mul_comm in Hz.
  assert ((T - B) mod 512 = n /\ 0 <= T < 512) as [Hu HT].
  { assert (T = (a / 2 ^ e + n) mod 512 /\ 0 <= n <= 511) as [-> Hn].
    { unfold n. rewrite ET. destruct (e <? k).
      - rewrite Z.min_r, EB by lia. split; [|lia]. rewrite Zminus_mod_idemp_l.
        rewrite <-(Z.mod_add (a / 2 ^ e - 1) 1 512) by lia. f_equal. lia.
      - rewrite Z.min_l by lia. split; [|lia]. f_equal. rewrite Hz at 1.
        rewrite Z.div_add_l by lia. done. }
    split; [|apply Z.mod_pos_bound; lia]. rewrite EB, <-Zminus_mod, Z.add_simpl_l.
    apply Z.mod_small. lia. }
  pose proof (div_bounds len (2 ^ e) ltac:(lia)) as Hdl.
  assert (n * 2 ^ e <= len) by (unfold n; nia).
  assert (region e T B (a / 2 ^ e)) as Hreg.
  { split; [lia|done|done|apply Z.div_pos; lia|lia|]. rewrite Hu. lia. }
  assert (window e (a / 2 ^ e) a) as Hw by (right; rewrite <-Hz, pow2_add_9; lia).
  assert (addrmi9 e a = B) as Hmi.
  { unfold addrmi9, trunc. rewrite Z.shiftr_div_pow2 by lia. done. }
  assert ((fc_top_cor out, fc_base_cor out) = update_temp_fields T B (addrmi9 e a)) as Ecor.
  { rewrite Hmi, Ec. unfold update_temp_fields. rewrite Z.ltb_irrefl.
    destruct (Z.leb_spec B T), (Z.ltb_spec T B); try lia; done. }
  destruct (decode_cap _ _ _ _ a (full2regcap out) Hreg Ha Hw Ee eq_refl eq_refl Ecor) as [Eb Et].
  rewrite Eb, Et. unfold region_base, region_top. rewrite Hu, Z.mul_add_distr_r, <-Hz.
  assert (normal it8 e T B)
    by (intros ->; destruct Hnorm as [|]; [by left|right; rewrite Hu; unfold n; lia]).
  assert (full_region it8 (reg2fullcap (full2regcap out) a) (a / 2 ^ e)) as Hfull
    by (split; cbn [reg2fullcap full2regcap fc_exp fc_top fc_base r_exp r_top r_base];
        rewrite ?Ee; done).
  split_and!; done || lia.
Qed.

Lemma rndn_inside it8 c b a len :
  full_region it8 c b -> 0 <= a < 2 ^ 32 -> 0 <= len < 2 ^ 32 ->
  fc_valid (rndn it8 c a (bound_req1 it8 c a len)) = true ->
  fc_valid c = true /\ fc_base32 c <= a /\ a + len <= fc_top33 c /\ a + len <= 2 ^ 32.
Proof.
  intros [_ _ Hreg Eb Et] Ha Hl Hv.
  destruct (rndn_fields it8 c c a len Ha Hl) as (_ & _ & _ & _ & Ev).
  destruct (bound_req1_fields it8 c a len Ha Hl) as (_ & Ein & _). cbv zeta in *.
  rewrite Hv, Ein in Ev. symmetry in Ev. apply andb_prop in Ev as [Hvc Hin].
  apply negb_true_iff, orb_false_iff in Hin as [Htop%Z.ltb_ge Hbase%Z.ltb_ge].
  pose proof (region_bounds _ _ _ _ Hreg). split_and!; done || lia.
Qed.

(** No region that starts at the address and ends inside the request is longer; in the
    original encoding lengths of [2 ^ 24] and more could also have exponent 24, which
    the function does not use. *)
Lemma rndn_longest it8 a len e T B b :
  0 <= a < 2 ^ 32 -> 0 <= len < 2 ^ 32 ->
  region e T B b -> exp_allowed it8 e -> it8 = true \/ e <= 14 \/ len < 2 ^ 24 ->
  region_base e b = a -> region_top e T B b <= a + len ->
  let x := rndn_exp it8 (get_size (slice len 31 9)) (count_tz a) in
  region_top e T B b <= a + Z.min (len / 2 ^ x) 511 * 2 ^ x.
Proof.
  intros Ha Hl [He _ _ Hb _ _] [_ Hall] H24 Eb Ht. cbv zeta.
  destruct (rndn_exp_range it8 a len Ha Hl) as (_ & Hx & _ & Hlen & H256). cbv zeta in *.
  destruct (count_tz_spec a ltac:(lia)) as (Htz0 & _ & Hmax).
  set (k := get_size (slice len 31 9)) in *. set (tz := count_tz a) in *.
  set (x := rndn_exp it8 k tz) in *. unfold region_base in Eb. unfold region_top in *.
  pose proof (Z.mod_pos_bound (T - B) 512 ltac:(lia)) as Hn. set (n := (T - B) mod 512) in *.
  rewrite Z.mul_add_distr_r, Eb in *. pose proof (div_bounds len (2 ^ x) ltac:(lia)) as Hd.
  destruct (Z.le_gt_cases e x) as [Hex|Hex].
  - destruct (Z.ltb_spec x k) as [Hxk|Hxk].
    + rewrite Z.min_r by lia. assert (2 ^ e <= 2 ^ x) by (apply Z.pow_le_mono_r; lia). nia.
    + rewrite Z.min_l by lia. destruct (Z.eq_dec e x) as [->|Hne].
      * pose proof (div_ge len (2 ^ x) n ltac:(lia) ltac:(lia)). nia.
      * assert (2 * 2 ^ e <= 2 ^ x) by (rewrite <-Z.pow_succ_r by lia; apply Z.pow_le_mono_r; lia).
        assert (256 <= len / 2 ^ x) by (destruct H256; lia). nia.
  - assert (n = 0 \/ e <= tz /\ x = k) as [->|[Htz Hxk]].
    { assert (e <= tz) as Htz.
      { destruct (Z.le_gt_cases e tz) as [|Hlt]; [done|]. exfalso. apply (Hmax ltac:(lia)).
        apply Z.mod_divide; [lia|]. rewrite <-Eb. exists (b * 2 ^ (e - (tz + 1))).
        rewrite <-Z.mul_assoc, <-Z.pow_add_r by lia. do 2 f_equal. lia. }
      assert (it8 = true \/ e <= 14 \/ len < n * 2 ^ e \/ n = 0) as Hcase.
      { destruct Hall as [|[|E24]]; auto. destruct H24 as [|[|H24]]; auto. right; right.
        rewrite E24. clear -Hn H24. lia. }
      assert (it8 = true \/ e <= 14 \/ n = 0) as [H|[H|H]]; [| | |by left].
      { destruct Hcase as [|[|[|]]]; auto. lia. }
      - right. split; [done|]. clear -Hex Htz H. unfold x, rndn_exp in *. subst it8. lia.
      - right. split; [done|]. clear -Hex Htz H. unfold x, rndn_exp in *. destruct it8; lia. }
    + rewrite Z.mul_0_l. assert (0 <= len / 2 ^ x) by (apply Z.div_pos; lia). nia.
    + rewrite (proj2 (Z.ltb_ge x k)) in Hlen by lia. rewrite Z.min_l by lia.
      assert (n * 2 ^ e = n * 2 ^ (e - x) * 2 ^ x) as Ee
        by (rewrite <-Z.mul_assoc, <-Z.pow_add_r by lia; do 2 f_equal; lia).
      rewrite Ee in *. pose proof (div_ge len (2 ^ x) (n * 2 ^ (e - x)) ltac:(lia) ltac:(lia)). nia.
Qed.

(** C32 (functional: rounding down).  If the source describes a region, a tagged result
    of [set_bounds_rndn] starts at exactly the address and ends inside the request,
    and so inside the source, and its length is the longest representable: no region
    that starts at the address and ends inside the request is longer.  (In the original
    encoding, requests of [2 ^ 24] and more are served with exponents up to 14 only, so
    there the length is the longest among those.) *)
Theorem set_bounds_rndn_spec (it8 : bool) (c : full_cap_t) (b a len : Z) :
  full_region it8 c b -> 0 <= a < 2 ^ 32 -> 0 <= len < 2 ^ 32 ->
  let out := rndn it8 c a (bound_req1 it8 c a len) in
  let decoded := reg2fullcap (full2regcap out) a in
  let e := rndn_exp it8 (get_size (slice len 31 9)) (count_tz a) in
  fc_valid out = true ->
  fc_valid c = true /\ fc_base32 c <= fc_base32 decoded /\ fc_base32 decoded = a /\
  fc_top33 decoded = a + Z.min (len / 2 ^ e) 511 * 2 ^ e /\
  fc_top33 decoded <= a + len <= fc_top33 c /\
  (forall e' T B b', region e' T B b' -> exp_allowed it8 e' ->
     it8 = true \/ e' <= 14 \/ len < 2 ^ 24 ->
     region_base e' b' = a -> region_top e' T B b' <= a + len ->
     region_top e' T B b' <= fc_top33 decoded).
Proof.
  intros Hc Ha Hl. cbv zeta. intros Hv.
  destruct (rndn_inside it8 c b a len Hc Ha Hl Hv) as (Hvc & Hb & Ht & Hlim).
  destruct (rndn_result it8 c c a len Ha Hl Hlim) as (-> & Et & Hle & _).
  split_and!; try done. intros e' T B b' Hr He H24 Eb Et'. rewrite Et. by apply rndn_longest.
Qed.

Example set_bounds_rndn_spec_witness :
  let out := rndn false root_cap 0x80001800 (bound_req1 false root_cap 0x80001800 0x123456) in
  fc_base32 (reg2fullcap (full2regcap out) 0x80001800) = 0x80001800.
Proof.
  apply (set_bounds_rndn_spec false root_cap 0 0x80001800 0x123456 (root_cap_region false));
    [lia|lia|by_compute].
Defined.

(** ** Representable lengths

    CRRL and CRAM: the length and the mask [set_bounds] computes for the length at
    address 0. *)
Definition crrl_cap (it8 : bool) (len : Z) : full_cap_t :=
  set_bounds NULL_FULL_CAP 0 (bound_req1 it8 NULL_FULL_CAP 0 len) false.

Lemma mask_low e : 0 <= e <= 24 -> slice (trunc 33 (Z.ones 33 << e)) 31 0 = Z.ones (32 - e) * 2 ^ e.
Proof. intros He. apply (eq_below (fun e => slice (trunc 33 (Z.ones 33 << e)) 31 0)
  (fun e => Z.ones (32 - e) * 2 ^ e) 25); [by_compute|lia]. Qed.

Lemma crrl_fields it8 len :
  0 <= len < 2 ^ 32 ->
  let e := fc_exp (crrl_cap it8 len) in
  best_exp it8 0 len e /\
  fc_rlen (crrl_cap it8 len) = (cdiv len (2 ^ e) * 2 ^ e) mod 2 ^ 32 /\
  fc_maska (crrl_cap it8 len) = Z.ones (32 - e) * 2 ^ e.
Proof.
  intros Hl. unfold crrl_cap.
  destruct (set_bounds_choice it8 NULL_FULL_CAP 0 len false ltac:(lia) Hl) as
    (Hbest & _ & _ & _ & _ & Er & Em). cbv zeta in *. rewrite Z.add_0_l in *.
  set (e := fc_exp _) in *. destruct Hbest as ((He & Ha) & Hf & Hm). split_and!; try done.
  - rewrite Er. destruct (path_fields 0 len e He) as (_ & _ & El & _). rewrite El.
    unfold fits_exp in Hf. rewrite Z.div_0_l, Z.sub_0_r in * by lia.
    pose proof (cdiv_bounds len (2 ^ e) ltac:(lia)).
    assert (0 <= cdiv len (2 ^ e)) by nia.
    rewrite Z.mod_small, Z.shiftl_mul_pow2 by lia. done.
  - rewrite Em. unfold set_bounds_path. cbn [bp_mask]. by apply mask_low.
Qed.

(** The length covers the request, unless it is rounded up to [2 ^ 32], and no shorter
    one does. *)
Lemma crrl_covers it8 len :
  0 <= len < 2 ^ 32 ->
  let rlen := fc_rlen (crrl_cap it8 len) in
  len <= rlen \/ rlen = 0 /\ 255 * 2 ^ 24 < len.
Proof.
  intros Hl. destruct (crrl_fields it8 len Hl) as (((He & _) & Hf & _) & Er & _). cbv zeta in *.
  rewrite Er. clear Er. set (e := fc_exp _) in *. clearbody e. unfold fits_exp in Hf.
  rewrite Z.div_0_l, Z.sub_0_r in Hf by lia. pose proof (cdiv_bounds len (2 ^ e) ltac:(lia)) as Hc.
  assert (2 ^ 32 = 2 ^ (32 - e) * 2 ^ e) as E32 by (rewrite <-Z.pow_add_r by lia; f_equal; lia).
  pose proof (cdiv_le len (2 ^ e) (2 ^ (32 - e)) ltac:(lia) ltac:(lia)) as Hle.
  set (m := cdiv len (2 ^ e)) in *. clearbody m. assert (m * 2 ^ e <= 2 ^ 32) as Hm by nia.
  apply Z.le_lteq in Hm as [Hm|Hm]; [left; rewrite Z.mod_small; lia|right]. rewrite Hm.
  split; [done|]. assert (e = 24) as ->; [|lia]. destruct (Z.le_gt_cases e 23); [|lia].
  assert (2 ^ e <= 2 ^ 23) by (apply Z.pow_le_mono_r; lia). nia.
Qed.

Lemma crrl_least it8 len e n :
  0 <= len < 2 ^ 32 -> exp_allowed it8 e -> 0 <= n <= 511 -> len <= n * 2 ^ e ->
  fc_rlen (crrl_cap it8 len) <= n * 2 ^ e.
Proof.
  intros Hl Hall Hn Hlen. destruct (crrl_fields it8 len Hl) as (((Hx & _) & _ & Hmin) & Er & _).
  cbv zeta in *. rewrite Er. clear Er. set (x := fc_exp _) in *. clearbody x.
  pose proof (cdiv_le len (2 ^ e) n ltac:(destruct Hall; lia) Hlen) as Hc.
  assert (x <= e) as Hxe.
  { apply Hmin; [done|]. unfold fits_exp. rewrite Z.div_0_l by (destruct Hall; lia). lia. }
  pose proof (cdiv_bounds len (2 ^ x) ltac:(lia)).
  etrans; [apply Z.mod_le; [nia|lia]|].
  assert (n * 2 ^ e = n * 2 ^ (e - x) * 2 ^ x) as ->
    by (rewrite <-Z.mul_assoc, <-Z.pow_add_r by lia; do 2 f_equal; lia).
  apply Z.mul_le_mono_nonneg_r; [lia|]. apply cdiv_le; [lia|].
  rewrite <-Z.mul_assoc, <-Z.pow_add_r by lia. by replace (e - x + x) with e by lia.
Qed.

(** An address aligned as the mask says is bounded exactly to the length. *)
Lemma crrl_exact it8 c a len :
  0 <= len < 2 ^ 32 -> 0 <= a < 2 ^ 32 ->
  let rlen := fc_rlen (crrl_cap it8 len) in
  let out := set_bounds c a (bound_req1 it8 c a rlen) true in
  let decoded := reg2fullcap (full2regcap out) a in
  a .& fc_maska (crrl_cap it8 len) = a ->
  fc_base32 c <= a -> a + rlen <= fc_top33 c <= 2 ^ 32 ->
  fc_valid out = fc_valid c /\ fc_base32 decoded = a /\ fc_top33 decoded = a + rlen.
Proof.
  intros Hl Ha rlen out decoded Hmask Hbase Htop.
  destruct (crrl_fields it8 len Hl) as (((He & Hall) & Hf & _) & Er & Em).
  cbv zeta in *. fold rlen in Er. set (e := fc_exp (crrl_cap it8 len)) in *.
  assert (a mod 2 ^ e = 0) as Ha0.
  { rewrite Em, land_high_mask in Hmask by (lia || by replace (e + (32 - e)) with 32 by lia).
    rewrite <-Hmask. apply Z.mod_mul. lia. }
  assert (0 <= rlen < 2 ^ 32) as Hr by (rewrite Er; apply Z.mod_pos_bound; lia).
  assert (rlen mod 2 ^ e = 0 /\ rlen / 2 ^ e <= 511) as [Hr0 Hr1].
  { assert (2 ^ 32 = 2 ^ (32 - e) * 2 ^ e) as E32 by (rewrite <-Z.pow_add_r by lia; f_equal; lia).
    rewrite E32, Z.mul_mod_distr_r in Er by lia. rewrite Er. split; [apply Z.mod_mul; lia|].
    rewrite Z.div_mul by lia. unfold fits_exp in Hf. rewrite Z.div_0_l, Z.sub_0_r in Hf by lia.
    pose proof (cdiv_bounds len (2 ^ e) ltac:(lia)).
    etrans; [apply Z.mod_le; [nia|lia]|done]. }
  assert ((a + rlen) mod 2 ^ e = 0) as Har by (by rewrite Z.add_mod, Ha0, Hr0 by lia).
  pose proof (set_bounds_region it8 c a rlen true Ha Hr ltac:(lia)) as Hreg.
  pose proof (set_bounds_choice it8 c a rlen true Ha Hr) as Hch.
  cbv zeta in Hreg, Hch. fold out in Hreg, Hch.
  destruct Hreg as (Hreg & Hw & _ & Etop & Ec & Ev), Hch as (((He' & Hall') & _ & Hmin) & _).
  destruct (decode_cap _ _ _ _ a (full2regcap out) Hreg Ha Hw eq_refl eq_refl eq_refl Ec) as [Eb Et].
  fold decoded in Eb, Et. rewrite Etop in Et. unfold region_base in Eb.
  assert (fc_exp out <= e) as Hle.
  { apply Hmin; [by split|]. unfold fits_exp. rewrite cdiv_div, Har by lia. cbn [Z.eqb negb Z.b2z].
    rewrite Z.add_0_r. apply Z.div_exact in Ha0; [|lia]. rewrite Ha0 at 1.
    rewrite (Z.mul_comm (2 ^ e)), Z.div_add_l by lia. lia. }
  assert (forall x, x mod 2 ^ e = 0 -> x mod 2 ^ fc_exp out = 0) as Hdown.
  { intros x Hx. apply Z.mod_divide; [lia|]. apply Z.mod_divide in Hx; [|lia]. etrans; [|exact Hx].
    exists (2 ^ (e - fc_exp out)). rewrite <-Z.pow_add_r by lia. f_equal. lia. }
  pose proof (Hdown a Ha0) as Ha1. pose proof (Hdown _ Har) as Hr2.
  rewrite Ev, Eb, Et, cdiv_div, Ha1, Hr2 by lia. cbn [Z.eqb negb andb Z.b2z].
  rewrite (proj2 (Z.ltb_ge _ _)), (proj2 (Z.ltb_ge _ _)) by lia. cbn [orb negb].
  rewrite !andb_true_r, Z.add_0_r. apply Z.div_exact in Ha1; [|lia]. apply Z.div_exact in Hr2; [|lia].
  rewrite !(Z.mul_comm (_ / _)), <-Ha1, <-Hr2. done.
Qed.

(** C34 (functional: representable lengths and alignment).  The length CRRL returns
    covers the request, unless the request is above [255 * 2 ^ 24] and rounded up to
    [2 ^ 32], which wraps to 0; no representable length that covers the request is
    smaller; and an address aligned as the mask of CRAM says can be bounded exactly to
    it: CSETBOUNDSEXACT with that address and length, inside the bounds of a tagged
    capability, keeps the tag and gives precisely these bounds. *)
Theorem representable_length_exact (it8 : bool) (len : Z) :
  0 <= len < 2 ^ 32 ->
  let rlen := fc_rlen (crrl_cap it8 len) in
  (len <= rlen \/ rlen = 0 /\ 255 * 2 ^ 24 < len) /\
  (forall e n, exp_allowed it8 e -> 0 <= n <= 511 -> len <= n * 2 ^ e -> rlen <= n * 2 ^ e) /\
  (forall c a, 0 <= a < 2 ^ 32 -> a .& fc_maska (crrl_cap it8 len) = a ->
     fc_base32 c <= a -> a + rlen <= fc_top33 c <= 2 ^ 32 ->
     let out := set_bounds c a (bound_req1 it8 c a rlen) true in
     let decoded := reg2fullcap (full2regcap out) a in
     fc_valid out = fc_valid c /\ fc_base32 decoded = a /\ fc_top33 decoded = a + rlen).
Proof.
  intros Hl. cbv zeta. split_and!.
  - by apply crrl_covers.
  - intros e n. by apply crrl_least.
  - intros c a Ha Hm Hb Ht. by apply (crrl_exact it8 c a len).
Qed.

Example representable_length_exact_witness :
  let rlen := fc_rlen (crrl_cap false 0x12345) in
  0x12345 <= rlen /\
  fc_valid (set_bounds root_cap 0x80000000 (bound_req1 false root_cap 0x80000000 rlen) true) = true.
Proof.
  destruct (representable_length_exact false 0x12345 ltac:(lia)) as (H & _ & He). cbv zeta in *. split.
  - destruct H as [H|[_ H]]; [exact H|]. exfalso. revert H. by vm_compute.
  - apply (He root_cap 0x80000000); [lia|by_compute| |]; vm_compute; repeat split; congruence.
Defined.
