(* ===== verification/CheriMem.v ===== *)
(** * Capabilities in memory

    The memory formats of rtl/cheri_pkg.sv and their use in
    rtl/ibex_load_store_unit.sv: a capability and its address are stored as two
    33-bit words (the tag on top) in format 0, which keeps the address as it is, or
    format 1, which spreads it over both words, each in the original and in the
    IT8 encoding.  Loading what was stored gives the capability back, less what the
    loading capability does not permit ([load_store_cap]). *)

From S2P Require Import Prelude Bits CapDecode CheriPkg CheriBounds.
Local Open Scope Z_scope.

(** ** The formats *)

(** The exponent, top and base of the IT8 encoding, from the five-bit exponent
    field, the eight bits of the top and the base. *)
Definition it8_exp (cexp : Z) : Z :=
  Z.lxor cexp (rep 5 (negb (cexp =? 0))).
Definition it8_top (cexp btop base8 top8 : Z) : Z :=
  let tcin := top8 <? base8 in
  let ltop := negb (cexp =? 0) in
  let ttop := xorb (xorb ltop tcin) (btop =? 1) in
  cat [(1, Z.b2z ttop); (8, top8)].
Definition it8_cors (top btop base8 top8 addrmi9 : Z) : Z * Z :=
  let tcin := top8 <? base8 in
  let ttop := Z.testbit top 8 in
  let base9 := cat [(1, btop); (8, base8)] in
  let top_hi := if xorb (btop =? 1) ttop then negb ttop else tcin in
  let addr_hi := addrmi9 <? base9 in
  (if Bool.eqb top_hi addr_hi then 0 else if top_hi && negb addr_hi then 1 else 3,
   if addr_hi then 1 else 0).

Definition mem2regcap_fmt0 (msw addr33 clrperm : Z) : reg_cap_t :=
  let valid_in := Z.testbit msw 32 && Z.testbit addr33 32 in
  let valid := valid_in && negb (Z.testbit clrperm 3) in
  let tmp5 := part msw 18 4 in
  let exp := if tmp5 =? RESETCEXP then RESETEXP else tmp5 in
  let top := part msw 9 9 in
  let base := part msw 0 9 in
  let otype := part msw 22 3 in
  let sealed := negb (otype =? OTYPE_UNSEALED) in
  let cperms := mask_clcperms (part msw 25 6) clrperm valid sealed in
  let addrmi9 := trunc 9 (slice addr33 31 0 >> exp) in
  let tmp3 := update_temp_fields top base addrmi9 in
  RegCap valid tmp3.1 tmp3.2 exp top base otype cperms (part msw 31 1).

Definition mem2regcap_it8_fmt0 (msw addr33 clrperm : Z) : reg_cap_t :=
  let valid_in := Z.testbit msw 32 && Z.testbit addr33 32 in
  let valid := valid_in && negb (Z.testbit clrperm 3) in
  let cexp := part msw 17 5 in
  let btop := part msw 8 1 in
  let base8 := part msw 0 8 in
  let top8 := part msw 9 8 in
  let exp := it8_exp cexp in
  let top := it8_top cexp btop base8 top8 in
  let base := cat [(1, btop); (8, base8)] in
  let otype := part msw 22 3 in
  let sealed := negb (otype =? OTYPE_UNSEALED) in
  let cperms := mask_clcperms (part msw 25 6) clrperm valid sealed in
  let addrmi9 := trunc 9 (slice addr33 31 0 >> exp) in
  let cors := it8_cors top btop base8 top8 addrmi9 in
  RegCap valid cors.1 cors.2 exp top base otype cperms (part msw 31 1).

(** [ltop] and [denorm] of a register. *)
Definition it8_denorm (c : reg_cap_t) : bool :=
  let cor := r_top_cor c =? rep2 (r_base_cor c) in
  let top10 := cat [(1, Z.b2z (negb cor)); (9, r_top c)] in
  let len10 := trunc 10 (top10 - r_base c) in
  let ltop := Z.testbit len10 9 || Z.testbit len10 8 in
  (r_exp c =? 0) && negb ltop.
Definition it8_cexp (c : reg_cap_t) : Z := Z.lxor (r_exp c) (rep 5 (negb (it8_denorm c))).

Definition reg2memcap_it8_fmt0 (c : reg_cap_t) : Z :=
  cat [(1, Z.b2z (r_valid c)); (1, r_rsvd c); (6, r_cperms c); (3, r_otype c);
       (5, it8_cexp c); (8, slice (r_top c) 7 0); (9, r_base c)].

Definition mem2regcap_fmt1 (msw lsw clrperm : Z) : reg_cap_t :=
  let valid_in := Z.testbit msw 32 && Z.testbit lsw 32 in
  let valid := valid_in && negb (Z.testbit clrperm 3) in
  let cexp := slice lsw 30 27 in
  let exp := if cexp =? RESETCEXP then RESETEXP else cexp in
  let base := slice lsw 26 18 in
  let top := slice lsw 17 9 in
  let addrmi9 := if cexp =? RESETCEXP then slice lsw 8 1 else slice lsw 8 0 in
  let otype := slice msw 25 23 in
  let sealed := negb (otype =? OTYPE_UNSEALED) in
  let cperms := mask_clcperms (slice msw 31 26) clrperm valid sealed in
  let tmp3 := update_temp_fields top base addrmi9 in
  RegCap valid tmp3.1 tmp3.2 exp top base otype cperms (slice lsw 31 31).

(** [exp[4] & exp[3]]: the exponents from 24. *)
Definition exp_ge_24 (e : Z) : bool := Z.testbit e 4 && Z.testbit e 3.

Definition mem2regcap_it8_fmt1 (msw lsw clrperm : Z) : reg_cap_t :=
  let valid_in := Z.testbit msw 32 && Z.testbit lsw 32 in
  let valid := valid_in && negb (Z.testbit clrperm 3) in
  let cexp := slice lsw 30 26 in
  let btop := slice lsw 17 17 in
  let base8 := slice lsw 16 9 in
  let top8 := slice lsw 25 18 in
  let exp := it8_exp cexp in
  let top := it8_top cexp btop base8 top8 in
  let base := cat [(1, btop); (8, base8)] in
  let addrmi9 := if exp_ge_24 exp then slice lsw 8 1 else slice lsw 8 0 in
  let otype := slice msw 25 23 in
  let sealed := negb (otype =? OTYPE_UNSEALED) in
  let cperms := mask_clcperms (slice msw 31 26) clrperm valid sealed in
  let cors := it8_cors top btop base8 top8 addrmi9 in
  RegCap valid cors.1 cors.2 exp top base otype cperms (slice lsw 31 31).

(** The address of a loaded capability in format 1, 33 bits. *)
Definition mem2regaddr_fmt1 (msw lsw : Z) (c : reg_cap_t) : Z :=
  let mask1 := trunc 32 (Z.ones 32 << r_exp c) in
  let mask2 := trunc 32 (mask1 << 9) in
  let addr :=
    if exp_ge_24 (r_exp c) then
      let addrmi := cat [(9, slice lsw 8 0); (23, 0)] in
      let addrlo := slice msw 22 0 in
      addrmi .| addrlo
    else
      let addrmi := trunc 32 (slice lsw 8 0 << r_exp c) in
      let addrhi := trunc 32 (slice msw 22 0 << 9) .& mask2 in
      let addrlo := slice msw 22 0 .& notw 32 mask1 in
      addrhi .| addrmi .| addrlo in
  cat [(1, part lsw 32 1); (32, addr)].

(** The two parts of the address in format 1: for the upper and the lower word. *)
Definition fmt1_addr (e addr : Z) (large : bool) : Z * Z :=
  if large then (slice addr 22 0, slice addr 31 23)
  else
    let mask1 := trunc 32 (Z.ones 32 << e) in
    let mask2 := trunc 32 (mask1 << 9) in
    (trunc 23 ((addr .& notw 32 mask1) .| ((addr .& mask2) >> 9)), trunc 9 (addr >> e)).

Definition reg2mem_fmt1 (c : reg_cap_t) (addr : Z) : Z :=
  let a := fmt1_addr (r_exp c) addr (r_exp c =? RESETEXP) in
  let cexp := if r_exp c =? RESETEXP then RESETCEXP else trunc 4 (r_exp c) in
  let msw := cat [(1, Z.b2z (r_valid c)); (6, r_cperms c); (3, r_otype c); (23, a.1)] in
  let lsw := cat [(1, Z.b2z (r_valid c)); (1, r_rsvd c); (4, cexp); (9, r_base c); (9, r_top c);
                  (9, a.2)] in
  cat [(33, msw); (33, lsw)].

Definition reg2mem_it8_fmt1 (c : reg_cap_t) (addr : Z) : Z :=
  let a := fmt1_addr (r_exp c) addr (exp_ge_24 (r_exp c)) in
  let msw := cat [(1, Z.b2z (r_valid c)); (6, r_cperms c); (3, r_otype c); (23, a.1)] in
  let lsw := cat [(1, Z.b2z (r_valid c)); (1, r_rsvd c); (5, it8_cexp c); (8, slice (r_top c) 7 0);
                  (9, r_base c); (9, a.2)] in
  cat [(33, msw); (33, lsw)].

(** ** Storing and loading

    The two words the load-store unit writes for a capability, the lower one
    first, and what it returns for the words it reads (the bits of [clrperm] say
    what the loading capability lacks). *)
Definition store_words (MemCapFmt CheriCapIT8 : bool) (lsu_wcap : reg_cap_t) (lsu_wdata : Z) : Z * Z :=
  if MemCapFmt then
    let mem_capaddr := if CheriCapIT8 then reg2mem_it8_fmt1 lsu_wcap (slice lsu_wdata 31 0)
                       else reg2mem_fmt1 lsu_wcap (slice lsu_wdata 31 0) in
    (slice mem_capaddr 32 0, slice mem_capaddr 65 33)
  else (lsu_wdata, if CheriCapIT8 then reg2memcap_it8_fmt0 lsu_wcap else reg2memcap_fmt0 lsu_wcap).

Definition load_words (MemCapFmt CheriCapIT8 : bool) (lsw msw clrperm : Z) : reg_cap_t * Z :=
  if MemCapFmt then
    let lsu_rcap := if CheriCapIT8 then mem2regcap_it8_fmt1 msw lsw clrperm
                    else mem2regcap_fmt1 msw lsw clrperm in
    (lsu_rcap, mem2regaddr_fmt1 msw lsw lsu_rcap)
  else (if CheriCapIT8 then mem2regcap_it8_fmt0 msw lsw clrperm else mem2regcap_fmt0 msw lsw clrperm,
        lsw).

(** ** Round trips *)

(** Nine bits as one and eight. *)
Lemma cat_split l x r :
  cat (l ++ (9, x) :: r) = cat (l ++ (1, x / 256) :: (8, x mod 256) :: r).
Proof.
  unfold cat. rewrite !foldl_app. cbn [foldl fst snd]. f_equal.
  pose proof (Z.div_mod x 256 ltac:(lia)). change (2 ^ 9) with 512. change (2 ^ 8) with 256.
  change (2 ^ 1) with 2. lia.
Qed.
Lemma split9 x : 0 <= x < 512 -> 0 <= x / 256 < 2 ^ 1 /\ 0 <= x mod 256 < 2 ^ 8.
Proof.
  intros Hx. split; [|apply Z.mod_pos_bound; lia].
  split; [apply Z.div_pos; lia|apply Z.div_lt_upper_bound; lia].
Qed.

(** *** The IT8 encoding of bounds *)

Lemma it8_denorm_len c :
  reg_range c ->
  (exists s, (r_top_cor c, r_base_cor c) = update_temp_fields (r_top c) (r_base c) s) ->
  it8_denorm c = (r_exp c =? 0) && ((r_top c - r_base c) mod 512 <? 256).
Proof.
  intros [_ _ _ HT HB _ _ _] [s Es]. unfold it8_denorm. cbv zeta. f_equal.
  unfold update_temp_fields in Es. injection Es as Et Eb.
  assert (trunc 10 (cat [(1, Z.b2z (negb (r_top_cor c =? rep2 (r_base_cor c)))); (9, r_top c)] -
    r_base c) = (r_top c - r_base c) mod 512) as ->.
  { unfold cat. cbn [foldl fst snd]. rewrite Z.mul_0_l, Z.add_0_l, Et, Eb. change (2 ^ 9) with 512.
    rewrite mod512_cases by done. unfold trunc. change (2 ^ 10) with 1024.
    destruct (Z.ltb_spec (r_top c) (r_base c)), (Z.ltb_spec s (r_base c));
      change (rep2 0) with 0; change (rep2 1) with 3; cbn [Bool.eqb andb negb Z.eqb Pos.eqb Z.b2z];
      (rewrite Z.mod_small by lia; lia). }
  pose proof (Z.mod_pos_bound (r_top c - r_base c) 512 ltac:(lia)) as Hr.
  set (n := (r_top c - r_base c) mod 512) in *. clearbody n.
  rewrite (testbit_small n 9 9), orb_false_l by lia. rewrite testbit_pow2_le by lia.
  change (2 ^ 8) with 256. destruct (Z.leb_spec 256 n), (Z.ltb_spec n 256); lia || done.
Qed.

(** What the decoder reads from the fields of an encoded register. *)
Lemma it8_decode c s :
  reg_range c -> normal true (r_exp c) (r_top c) (r_base c) ->
  (exists s, (r_top_cor c, r_base_cor c) = update_temp_fields (r_top c) (r_base c) s) ->
  let top := it8_top (it8_cexp c) (r_base c / 256) (r_base c mod 256) (r_top c mod 256) in
  0 <= it8_cexp c < 2 ^ 5 /\ it8_exp (it8_cexp c) = r_exp c /\ top = r_top c /\
  cat [(1, r_base c / 256); (8, r_base c mod 256)] = r_base c /\
  it8_cors top (r_base c / 256) (r_base c mod 256) (r_top c mod 256) s =
    update_temp_fields (r_top c) (r_base c) s.
Proof.
  intros Hrange Hnorm Hs. pose proof (it8_denorm_len c Hrange Hs) as Hd.
  destruct Hrange as [_ _ He HT HB _ _ _]. specialize (Hnorm eq_refl).
  set (T := r_top c) in *. set (B := r_base c) in *. set (e := r_exp c) in *.
  assert (0 <= it8_cexp c < 2 ^ 5 /\ it8_exp (it8_cexp c) = e /\
    (it8_cexp c =? 0) = negb (256 <=? (T - B) mod 512)) as (Hcr & Hexp & Hz).
  { unfold it8_cexp. fold e. rewrite Hd.
    assert ((e =? 0) && ((T - B) mod 512 <? 256) = ((T - B) mod 512 <? 256)) as ->.
    { destruct (Z.eqb_spec e 0); [done|]. destruct Hnorm; [done|].
      destruct (Z.ltb_spec ((T - B) mod 512) 256); [lia|done]. }
    rewrite <-Z.ltb_antisym.
    assert ((T - B) mod 512 < 256 -> e = 0) as Hlow by (intros; destruct Hnorm; lia).
    destruct (Z.ltb_spec ((T - B) mod 512) 256) as [Hl|Hl]; cbn [negb].
    - rewrite (Hlow Hl). done.
    - unfold it8_exp. revert e He Hnorm Hlow Hd. intros e He _ _ _.
      pose proof (forall_below (fun e => let x := Z.lxor e (rep 5 true) in
        (0 <=? x) && (x <? 32) && (Z.lxor x (rep 5 (negb (x =? 0))) =? e) && negb (x =? 0)) 25
        ltac:(by_compute) e ltac:(lia)) as H. cbv beta zeta in H.
      apply andb_prop in H as [[[H1 H2]%andb_prop H3]%andb_prop H4].
      split_and!; [lia|lia|lia|]. by apply negb_true_iff. }
  destruct (split9 T HT) as [HT1 HT8], (split9 B HB) as [HB1 HB8].
  pose proof (Z.div_mod T 256 ltac:(lia)) as ET. pose proof (Z.div_mod B 256 ltac:(lia)) as EB.
  set (t1 := T / 256) in *. set (t8 := T mod 256) in *. set (b1 := B / 256) in *.
  set (b8 := B mod 256) in *.
  assert (it8_top (it8_cexp c) b1 b8 t8 = T) as Etop.
  { unfold it8_top. cbv zeta. rewrite Hz, negb_involutive. unfold cat. cbn [foldl fst snd].
    rewrite Z.mul_0_l, Z.add_0_l, mod512_cases by done. change (2 ^ 8) with 256.
    destruct (Z.ltb_spec t8 b8), (Z.eqb_spec b1 1), (Z.ltb_spec T B);
      match goal with |- context [256 <=? ?x] => destruct (Z.leb_spec 256 x) end;
      cbn [xorb Z.b2z]; lia. }
  rewrite Etop. split_and!; try done; try lia.
  - unfold cat. cbn [foldl fst snd]. change (2 ^ 8) with 256. change (2 ^ 1) with 2. lia.
  - unfold it8_cors, update_temp_fields. cbv zeta.
    assert (cat [(1, b1); (8, b8)] = B) as ->
      by (unfold cat; cbn [foldl fst snd]; change (2 ^ 8) with 256; change (2 ^ 1) with 2; lia).
    assert (Z.testbit T 8 = (t1 =? 1)) as ->.
    { rewrite testbit_pow2_le by lia. change (2 ^ 8) with 256.
      destruct (Z.leb_spec 256 T), (Z.eqb_spec t1 1); lia || done. }
    assert ((if xorb (b1 =? 1) (t1 =? 1) then negb (t1 =? 1) else t8 <? b8) = (T <? B)) as ->.
    { destruct (Z.eqb_spec b1 1), (Z.eqb_spec t1 1), (Z.ltb_spec t8 b8), (Z.ltb_spec T B);
        cbn [xorb negb]; lia || done. }
    done.
Qed.

(** *** The address in format 1 *)

Lemma exp_ge_24_eq e : 0 <= e <= 24 -> exp_ge_24 e = (e =? 24).
Proof. intros He. apply (eq_below exp_ge_24 (fun e => e =? 24) 25); [by_compute|lia]. Qed.

Lemma low_mask32 e : 0 <= e <= 24 -> notw 32 (trunc 32 (Z.ones 32 << e)) = Z.ones e.
Proof. intros He. apply (eq_below (fun e => notw 32 (trunc 32 (Z.ones 32 << e))) Z.ones 25);
  [by_compute|lia]. Qed.
Lemma high_mask32 e : 0 <= e <= 23 ->
  trunc 32 (trunc 32 (Z.ones 32 << e) << 9) = Z.ones (23 - e) * 2 ^ (e + 9).
Proof. intros He. apply (eq_below (fun e => trunc 32 (trunc 32 (Z.ones 32 << e) << 9))
  (fun e => Z.ones (23 - e) * 2 ^ (e + 9)) 24); [by_compute|lia]. Qed.

(** An address as its low bits, the middle nine and the rest. *)
Lemma addr_split e a :
  0 <= e <= 23 -> 0 <= a < 2 ^ 32 ->
  a = a / 2 ^ (e + 9) * 2 ^ (e + 9) + (addrmi9 e a * 2 ^ e + a mod 2 ^ e) /\
  0 <= a / 2 ^ (e + 9) < 2 ^ (23 - e).
Proof.
  intros He Ha. pose proof (addrmi9_quot e a ltac:(lia) ltac:(lia)) as Hd.
  pose proof (Z.div_mod a (2 ^ e) ltac:(lia)) as Hm. split.
  - rewrite pow2_add_9 in * by lia. lia.
  - split; [apply Z.div_pos; lia|]. apply Z.div_lt_upper_bound; [lia|].
    rewrite <-Z.pow_add_r by lia. replace (e + 9 + (23 - e)) with 32 by lia. lia.
Qed.

Lemma fmt1_addr_small e a :
  0 <= e <= 23 -> 0 <= a < 2 ^ 32 ->
  fmt1_addr e a false = (a / 2 ^ (e + 9) * 2 ^ e + a mod 2 ^ e, addrmi9 e a) /\
  0 <= a / 2 ^ (e + 9) * 2 ^ e + a mod 2 ^ e < 2 ^ 23.
Proof.
  intros He Ha. destruct (addr_split e a He Ha) as [_ Hq].
  pose proof (Z.mod_pos_bound a (2 ^ e) ltac:(lia)) as Hlo.
  assert (2 ^ 23 = 2 ^ (23 - e) * 2 ^ e) as E23 by (rewrite <-Z.pow_add_r by lia; f_equal; lia).
  assert (0 <= a / 2 ^ (e + 9) * 2 ^ e + a mod 2 ^ e < 2 ^ 23) as Hr by nia.
  split; [|done]. unfold fmt1_addr. cbv zeta. f_equal.
  rewrite low_mask32, high_mask32, Z.land_ones by lia.
  rewrite land_high_mask by (lia || by replace (e + 9 + (23 - e)) with 32 by lia).
  rewrite (Z.shiftr_div_pow2 _ 9), (Z.pow_add_r 2 e 9), Z.mul_assoc, Z.div_mul, Z.lor_comm by lia.
  rewrite <-Z.pow_add_r, lor_disjoint by lia. by apply trunc_small.
Qed.

Lemma fmt1_addr_large a : 0 <= a < 2 ^ 32 ->
  fmt1_addr 24 a true = (a mod 2 ^ 23, a / 2 ^ 23) /\ 0 <= a / 2 ^ 23 < 2 ^ 9 /\
  addrmi9 24 a = (a / 2 ^ 23 / 2) mod 2 ^ 8.
Proof.
  intros Ha. assert (0 <= a / 2 ^ 23 < 2 ^ 9) as Hr
    by (split; [apply Z.div_pos; lia|apply Z.div_lt_upper_bound; lia]).
  split_and!; try lia.
  - unfold fmt1_addr. rewrite slice_low, slice_div by lia. f_equal. by apply Z.mod_small.
  - unfold addrmi9, trunc. rewrite Z.shiftr_div_pow2, Z.div_div by lia.
    change (2 ^ 23 * 2) with (2 ^ 24).
    assert (0 <= a / 2 ^ 24 < 2 ^ 8) by (split; [apply Z.div_pos; lia|apply Z.div_lt_upper_bound; lia]).
    by rewrite !Z.mod_small by lia.
Qed.

(** The address comes back from its two parts. *)
Lemma mem2regaddr_small msw lsw c a :
  0 <= r_exp c <= 23 -> 0 <= a < 2 ^ 32 ->
  slice msw 22 0 = a / 2 ^ (r_exp c + 9) * 2 ^ r_exp c + a mod 2 ^ r_exp c ->
  slice lsw 8 0 = addrmi9 (r_exp c) a ->
  mem2regaddr_fmt1 msw lsw c = cat [(1, part lsw 32 1); (32, a)].
Proof.
  intros He Ha Em El. unfold mem2regaddr_fmt1. cbv zeta. do 4 f_equal.
  rewrite exp_ge_24_eq, (proj2 (Z.eqb_neq _ 24)), Em, El by lia.
  set (e := r_exp c) in *. destruct (addr_split e a He Ha) as [Esplit Hq].
  destruct (fmt1_addr_small e a He Ha) as [_ Hm].
  pose proof (Z.mod_pos_bound a (2 ^ e) ltac:(lia)) as Hlo. pose proof (addrmi9_range e a) as Hmi.
  assert (2 ^ (e + 9) <= 2 ^ 32) by (apply Z.pow_le_mono_r; lia).
  rewrite pow2_add_9 in * by lia.
  assert (trunc 32 (addrmi9 e a << e) = addrmi9 e a * 2 ^ e) as ->
    by (rewrite Z.shiftl_mul_pow2 by lia; apply trunc_small; nia).
  rewrite low_mask32, high_mask32, Z.land_ones by lia.
  set (q := a / (512 * 2 ^ e)) in *.
  assert ((q * 2 ^ e + a mod 2 ^ e) mod 2 ^ e = a mod 2 ^ e) as -> by (apply field_mod; lia).
  assert (trunc 32 ((q * 2 ^ e + a mod 2 ^ e) << 9) = (q * 2 ^ e + a mod 2 ^ e) * 2 ^ 9) as ->
    by (rewrite Z.shiftl_mul_pow2 by lia; apply trunc_small; lia).
  rewrite land_high_mask by (lia || (replace (e + 9 + (23 - e)) with 32 by lia; lia)).
  rewrite (Z.pow_add_r 2 e 9), Z.div_mul_cancel_r, field_div by lia.
  rewrite <-Z.pow_add_r, (lor_disjoint q) by (rewrite ?pow2_add_9; nia).
  rewrite pow2_add_9, Z.mul_assoc, <-Z.mul_add_distr_r, lor_disjoint by lia. lia.
Qed.

Lemma mem2regaddr_large msw lsw c a :
  r_exp c = 24 -> 0 <= a < 2 ^ 32 ->
  slice msw 22 0 = a mod 2 ^ 23 -> slice lsw 8 0 = a / 2 ^ 23 ->
  mem2regaddr_fmt1 msw lsw c = cat [(1, part lsw 32 1); (32, a)].
Proof.
  intros He Ha Em El. unfold mem2regaddr_fmt1. cbv zeta. do 4 f_equal.
  rewrite He, Em, El. change (exp_ge_24 24) with true. cbv iota.
  unfold cat. cbn [foldl fst snd]. rewrite Z.mul_0_l, Z.add_0_l, Z.add_0_r.
  pose proof (Z.div_mod a (2 ^ 23) ltac:(lia)). pose proof (Z.mod_pos_bound a (2 ^ 23) ltac:(lia)).
  rewrite lor_disjoint by lia. lia.
Qed.

(** *** The round trip *)

(** What arrives of a stored capability: without its tag if the loading capability
    may not load capabilities, and with the permissions it lacks removed. *)
Definition loaded_cap (clrperm : Z) (c : reg_cap_t) : reg_cap_t :=
  let valid := r_valid c && negb (Z.testbit clrperm 3) in
  RegCap valid (r_top_cor c) (r_base_cor c) (r_exp c) (r_top c) (r_base c) (r_otype c)
    (mask_clcperms (r_cperms c) clrperm valid (negb (r_otype c =? OTYPE_UNSEALED))) (r_rsvd c).

(** The word of the data bus: the tag and the address. *)
Definition tagged (c : reg_cap_t) (a : Z) : Z := cat [(1, Z.b2z (r_valid c)); (32, a)].

Lemma tagged_parts c a :
  0 <= a < 2 ^ 32 ->
  Z.testbit (tagged c a) 32 = r_valid c /\ slice (tagged c a) 31 0 = a.
Proof.
  intros Ha. pose proof (b2z_fits (r_valid c)).
  split; [apply (cat_testbit 0%nat)|apply (cat_nth 1%nat)]; try reflexivity; cbn [drop]; fits_tac.
Qed.

Lemma mem2regcap_eq v tc bc e t b o cp rs v' tc' bc' e' t' b' o' cp' rs' :
  v = v' -> (tc, bc) = (tc', bc') -> e = e' -> t = t' -> b = b' -> o = o' -> cp = cp' -> rs = rs' ->
  RegCap v tc bc e t b o cp rs = RegCap v' tc' bc' e' t' b' o' cp' rs'.
Proof. by intros -> [= -> ->] -> -> -> -> -> ->. Qed.

Lemma fmt0_roundtrip c a clrperm :
  cap_ok false c a ->
  mem2regcap_fmt0 (reg2memcap_fmt0 c) (tagged c a) clrperm = loaded_cap clrperm c.
Proof.
  intros [[_ _ _ HT HB Ho Hcp Hrs] Ha [He Hall] _ Hc _]. pose proof (b2z_fits (r_valid c)).
  destruct (tagged_parts c a Ha) as [Ev Ea].
  set (cexp := if r_exp c =? 24 then 15 else trunc 4 (r_exp c)).
  assert (0 <= cexp < 16 /\ (if cexp =? 15 then 24 else cexp) = r_exp c) as [Hcx Hexp].
  { unfold cexp. destruct (Z.eqb_spec (r_exp c) 24); [split; [lia|by cbn]|].
    rewrite trunc_small by (destruct Hall as [|[|]]; done || lia).
    destruct (Z.eqb_spec (r_exp c) 15); destruct Hall as [|[|]]; done || lia. }
  unfold mem2regcap_fmt0, reg2memcap_fmt0. cbv zeta. fold cexp.
  set (w := cat _). set (k := Z.testbit w 32 && _).
  assert (Z.testbit w 32 = r_valid c) as E32
    by (apply (cat_testbit 0%nat); [done|done|cbn [drop]; fits_tac]).
  assert (part w 18 4 = cexp) as E18 by part_of 4%nat.
  assert (part w 22 3 = r_otype c) as E22 by part_of 3%nat.
  assert (part w 25 6 = r_cperms c) as E25 by part_of 2%nat.
  assert (part w 9 9 = r_top c) as E9 by part_of 5%nat.
  assert (part w 0 9 = r_base c) as E0 by part_of 6%nat.
  assert (part w 31 1 = r_rsvd c) as E31 by part_of 1%nat.
  assert (k = r_valid c) as -> by (unfold k; by rewrite E32, Ev, andb_diag).
  rewrite E18, E22, E25, E9, E0, E31, Ea. unfold RESETCEXP, RESETEXP. rewrite Hexp.
  by apply mem2regcap_eq.
Qed.

(** The encoded bounds of a register in the IT8 formats. *)
Lemma cap_ok_decode_it8 c a s :
  cap_ok true c a ->
  let top := it8_top (it8_cexp c) (r_base c / 256) (r_base c mod 256) (r_top c mod 256) in
  0 <= it8_cexp c < 2 ^ 5 /\ it8_exp (it8_cexp c) = r_exp c /\ top = r_top c /\
  cat [(1, r_base c / 256); (8, r_base c mod 256)] = r_base c /\
  it8_cors top (r_base c / 256) (r_base c mod 256) (r_top c mod 256) s =
    update_temp_fields (r_top c) (r_base c) s.
Proof. intros [Hr _ _ Hn Hc _]. apply it8_decode; [done|done|by eexists]. Qed.

Lemma fmt0_it8_roundtrip c a clrperm :
  cap_ok true c a ->
  mem2regcap_it8_fmt0 (reg2memcap_it8_fmt0 c) (tagged c a) clrperm = loaded_cap clrperm c.
Proof.
  intros Hok. pose proof (fun s => cap_ok_decode_it8 c a s Hok) as Hd.
  destruct Hok as [[_ _ _ HT HB Ho Hcp Hrs] Ha _ _ Hc _]. pose proof (b2z_fits (r_valid c)).
  destruct (tagged_parts c a Ha) as [Ev Ea]. cbv zeta in Hd.
  destruct (Hd 0) as (Hcx & Hexp & Htop & Hbase & _). pose proof (split9 _ HB) as [HB1 HB8].
  assert (slice (r_top c) 7 0 = r_top c mod 256) as ET by apply slice_low.
  pose proof (split9 _ HT) as [_ HT8].
  unfold mem2regcap_it8_fmt0, reg2memcap_it8_fmt0. cbv zeta. rewrite ET.
  set (w := cat _). set (k := Z.testbit w 32 && _).
  assert (w = cat [(1, Z.b2z (r_valid c)); (1, r_rsvd c); (6, r_cperms c); (3, r_otype c);
    (5, it8_cexp c); (8, r_top c mod 256); (1, r_base c / 256); (8, r_base c mod 256)]) as Ew
    by apply (cat_split [_; _; _; _; _; _] _ []).
  clearbody w.
  assert (Z.testbit w 32 = r_valid c) as E32
    by (rewrite Ew; apply (cat_testbit 0%nat); [done|done|cbn [drop]; fits_tac]).
  assert (part w 17 5 = it8_cexp c) as E17 by (rewrite Ew; part_of 4%nat).
  assert (part w 22 3 = r_otype c) as E22 by (rewrite Ew; part_of 3%nat).
  assert (part w 25 6 = r_cperms c) as E25 by (rewrite Ew; part_of 2%nat).
  assert (part w 9 8 = r_top c mod 256) as E9 by (rewrite Ew; part_of 5%nat).
  assert (part w 8 1 = r_base c / 256) as E8 by (rewrite Ew; part_of 6%nat).
  assert (part w 0 8 = r_base c mod 256) as E0 by (rewrite Ew; part_of 7%nat).
  assert (part w 31 1 = r_rsvd c) as E31 by (rewrite Ew; part_of 1%nat).
  assert (k = r_valid c) as -> by (unfold k; by rewrite E32, Ev, andb_diag).
  rewrite E17, E22, E25, E9, E8, E0, E31, Ea, Hexp, Htop, Hbase.
  apply mem2regcap_eq; try done.
  destruct (Hd (trunc 9 (a >> r_exp c))) as (_ & _ & _ & _ & Hcors).
  rewrite Htop in Hcors. by rewrite <-surjective_pairing, Hcors, Hc.
Qed.

(** The two words of format 1. *)
Lemma words_of_pair msw lsw :
  0 <= msw < 2 ^ 33 -> 0 <= lsw < 2 ^ 33 ->
  slice (cat [(33, msw); (33, lsw)]) 32 0 = lsw /\ slice (cat [(33, msw); (33, lsw)]) 65 33 = msw.
Proof.
  intros Hm Hl. split; [apply (cat_nth 1%nat)|apply (cat_nth 0%nat)]; try reflexivity;
    cbn [drop]; fits_tac.
Qed.

(** What both encodings of format 1 read of the address parts. *)
Lemma fmt1_addr_parts e a :
  0 <= e <= 24 -> 0 <= a < 2 ^ 32 ->
  let p := fmt1_addr e a (e =? 24) in
  0 <= p.1 < 2 ^ 23 /\ 0 <= p.2 < 2 ^ 9 /\
  addrmi9 e a = (if e =? 24 then (p.2 / 2) mod 2 ^ 8 else p.2) /\
  forall c msw lsw, r_exp c = e -> slice msw 22 0 = p.1 -> slice lsw 8 0 = p.2 ->
    mem2regaddr_fmt1 msw lsw c = cat [(1, part lsw 32 1); (32, a)].
Proof.
  intros He Ha. cbv zeta. destruct (Z.eqb_spec e 24) as [->|E].
  - destruct (fmt1_addr_large a Ha) as (-> & Hr & Hmi). cbn [fst snd].
    pose proof (Z.mod_pos_bound a (2 ^ 23) ltac:(lia)). split_and!; try lia.
    intros c msw lsw Ec Em El. by apply mem2regaddr_large.
  - destruct (fmt1_addr_small e a ltac:(lia) Ha) as [-> Hr]. cbn [fst snd].
    pose proof (addrmi9_range e a). change (2 ^ 9) with 512. split_and!; try lia.
    intros c msw lsw <- Em El. apply mem2regaddr_small; done || lia.
Qed.

Lemma slice_slice_8_1 x y : slice x 8 0 = y -> slice x 8 1 = (y / 2) mod 2 ^ 8.
Proof.
  intros <-. rewrite slice_low, slice_div by lia. change (2 ^ (8 + 1)) with 512.
  change (8 - 1 + 1) with 8. change (2 ^ 1) with 2. change (2 ^ 8) with 256.
  pose proof (Z.div_mod x 512 ltac:(lia)). pose proof (Z.mod_pos_bound x 512 ltac:(lia)).
  pose proof (Z.div_mod (x mod 512) 2 ltac:(lia)). pose proof (Z.mod_pos_bound (x mod 512) 2 ltac:(lia)).
  assert (x / 2 = 256 * (x / 512) + x mod 512 / 2) as ->.
  { symmetry. apply (Z.div_unique_pos _ _ _ ((x mod 512) mod 2)); lia. }
  by rewrite Z.add_comm, (Z.mul_comm 256), Z.mod_add by lia.
Qed.

Lemma fmt1_roundtrip c a clrperm :
  cap_ok false c a ->
  let w := reg2mem_fmt1 c a in
  let msw := slice w 65 33 in
  let lsw := slice w 32 0 in
  mem2regcap_fmt1 msw lsw clrperm = loaded_cap clrperm c /\
  mem2regaddr_fmt1 msw lsw (loaded_cap clrperm c) = tagged c a.
Proof.
  intros [[_ _ _ HT HB Ho Hcp Hrs] Ha [He Hall] _ Hc _]. pose proof (b2z_fits (r_valid c)).
  destruct (fmt1_addr_parts (r_exp c) a He Ha) as (Hp1 & Hp2 & Hmi & Haddr). cbv zeta in *.
  unfold reg2mem_fmt1. cbv zeta. unfold RESETEXP, RESETCEXP.
  set (p := fmt1_addr _ _ _) in *. clearbody p.
  set (cexp := if r_exp c =? 24 then 15 else trunc 4 (r_exp c)).
  assert (0 <= cexp < 2 ^ 4 /\ (cexp =? 15) = (r_exp c =? 24) /\
    (if cexp =? 15 then 24 else cexp) = r_exp c) as (Hcx & Hsel & Hexp).
  { unfold cexp. destruct (Z.eqb_spec (r_exp c) 24); [by split_and!|].
    rewrite trunc_small by (destruct Hall as [|[|]]; done || lia).
    destruct (Z.eqb_spec (r_exp c) 15); destruct Hall as [|[|]]; done || lia. }
  clearbody cexp.
  set (msw := cat [(1, Z.b2z (r_valid c)); (6, r_cperms c); (3, r_otype c); (23, p.1)]).
  set (lsw := cat [(1, Z.b2z (r_valid c)); (1, r_rsvd c); (4, cexp); (9, r_base c); (9, r_top c);
    (9, p.2)]).
  destruct (words_of_pair msw lsw) as [-> ->]; [apply cat_range; fits_tac..|].
  assert (slice lsw 8 0 = p.2) as E8 by part_of 5%nat.
  assert (part lsw 32 1 = Z.b2z (r_valid c)) as E32 by part_of 0%nat. split.
  2: { unfold tagged. rewrite <-E32. apply Haddr; [done|part_of 3%nat|done]. }
  unfold mem2regcap_fmt1. cbv zeta. set (k := Z.testbit msw 32 && _).
  assert (k = r_valid c) as ->.
  { unfold k, msw, lsw. rewrite !(cat_testbit 0%nat _ 32 (r_valid c)) by (reflexivity || (cbn [drop]; fits_tac)).
    apply andb_diag. }
  assert (slice lsw 30 27 = cexp) as E27 by part_of 2%nat.
  assert (slice lsw 26 18 = r_base c) as E18 by part_of 3%nat.
  assert (slice lsw 17 9 = r_top c) as E9 by part_of 4%nat.
  assert (slice lsw 31 31 = r_rsvd c) as E31 by part_of 1%nat.
  assert (slice msw 31 26 = r_cperms c) as M26 by part_of 1%nat.
  assert (slice msw 25 23 = r_otype c) as M23 by part_of 2%nat.
  rewrite E27, E18, E9, E31, M26, M23, E8, (slice_slice_8_1 lsw _ E8).
  unfold RESETCEXP, RESETEXP. rewrite Hexp, Hsel, <-Hmi.
  by apply mem2regcap_eq.
Qed.

Lemma fmt1_it8_roundtrip c a clrperm :
  cap_ok true c a ->
  let w := reg2mem_it8_fmt1 c a in
  let msw := slice w 65 33 in
  let lsw := slice w 32 0 in
  mem2regcap_it8_fmt1 msw lsw clrperm = loaded_cap clrperm c /\
  mem2regaddr_fmt1 msw lsw (loaded_cap clrperm c) = tagged c a.
Proof.
  intros Hok. pose proof (fun s => cap_ok_decode_it8 c a s Hok) as Hd. cbv zeta in Hd.
  destruct Hok as [[_ _ He HT HB Ho Hcp Hrs] Ha _ _ Hc _]. pose proof (b2z_fits (r_valid c)).
  destruct (Hd 0) as (Hcx & Hexp & Htop & Hbase & _).
  destruct (split9 _ HB) as [HB1 HB8], (split9 _ HT) as [_ HT8].
  assert (slice (r_top c) 7 0 = r_top c mod 256) as ET by apply slice_low.
  destruct (fmt1_addr_parts (r_exp c) a He Ha) as (Hp1 & Hp2 & Hmi & Haddr). cbv zeta in *.
  unfold reg2mem_it8_fmt1. cbv zeta. rewrite (exp_ge_24_eq _ He), ET.
  set (p := fmt1_addr _ _ _) in *. clearbody p.
  set (msw := cat [(1, Z.b2z (r_valid c)); (6, r_cperms c); (3, r_otype c); (23, p.1)]).
  set (lsw := cat [(1, _); (1, r_rsvd c); _; _; _; _]).
  assert (lsw = cat [(1, Z.b2z (r_valid c)); (1, r_rsvd c); (5, it8_cexp c); (8, r_top c mod 256);
    (1, r_base c / 256); (8, r_base c mod 256); (9, p.2)]) as El
    by apply (cat_split [_; _; _; _] _ [_]).
  destruct (words_of_pair msw lsw) as [-> ->]; [apply cat_range; fits_tac..|].
  clearbody lsw.
  assert (slice lsw 8 0 = p.2) as E8 by (rewrite El; part_of 6%nat).
  assert (part lsw 32 1 = Z.b2z (r_valid c)) as E32 by (rewrite El; part_of 0%nat). split.
  2: { unfold tagged. rewrite <-E32. apply Haddr; [done|part_of 3%nat|done]. }
  unfold mem2regcap_it8_fmt1. cbv zeta. set (k := Z.testbit msw 32 && _).
  assert (k = r_valid c) as ->.
  { unfold k, msw. rewrite El, !(cat_testbit 0%nat _ 32 (r_valid c)) by (reflexivity || (cbn [drop]; fits_tac)).
    apply andb_diag. }
  assert (slice lsw 30 26 = it8_cexp c) as E26 by (rewrite El; part_of 2%nat).
  assert (slice lsw 17 17 = r_base c / 256) as E17 by (rewrite El; part_of 4%nat).
  assert (slice lsw 16 9 = r_base c mod 256) as E9 by (rewrite El; part_of 5%nat).
  assert (slice lsw 25 18 = r_top c mod 256) as E18 by (rewrite El; part_of 3%nat).
  assert (slice lsw 31 31 = r_rsvd c) as E31 by (rewrite El; part_of 1%nat).
  assert (slice msw 31 26 = r_cperms c) as M26 by part_of 1%nat.
  assert (slice msw 25 23 = r_otype c) as M23 by part_of 2%nat.
  rewrite E26, E17, E9, E18, E31, M26, M23, E8, (slice_slice_8_1 lsw _ E8), Hexp, Htop, Hbase.
  rewrite (exp_ge_24_eq _ He), <-Hmi. apply mem2regcap_eq; try done.
  destruct (Hd (addrmi9 (r_exp c) a)) as (_ & _ & _ & _ & Hcors). rewrite Htop in Hcors.
  by rewrite <-surjective_pairing, Hcors, Hc.
Qed.

Lemma words_roundtrip (MemCapFmt CheriCapIT8 : bool) c a clrperm :
  cap_ok CheriCapIT8 c a ->
  let w := store_words MemCapFmt CheriCapIT8 c (tagged c a) in
  load_words MemCapFmt CheriCapIT8 w.1 w.2 clrperm = (loaded_cap clrperm c, tagged c a).
Proof.
  intros Hok. destruct (tagged_parts c a (ok_addr _ _ _ Hok)) as [_ Ea].
  unfold store_words, load_words. cbv zeta. rewrite Ea.
  destruct MemCapFmt, CheriCapIT8; cbn [fst snd].
  - destruct (fmt1_it8_roundtrip c a clrperm Hok) as [E1 E2]. cbv zeta in *. by rewrite E1, E2.
  - destruct (fmt1_roundtrip c a clrperm Hok) as [E1 E2]. cbv zeta in *. by rewrite E1, E2.
  - by rewrite fmt0_it8_roundtrip.
  - by rewrite fmt0_roundtrip.
Qed.

(** A capability loaded with all permissions comes back as it is. *)
Lemma mask_none c v s : 0 <= c < 64 -> mask_clcperms c 0 v s = c.
Proof. destruct v, s; apply (eq_below (fun c => mask_clcperms c 0 _ _) (fun c => c)); by_compute. Qed.
Lemma loaded_cap_all c : 0 <= r_cperms c < 64 -> loaded_cap 0 c = c.
Proof. intros Hc. unfold loaded_cap. rewrite mask_none, andb_true_r by done. by destruct c. Qed.

(** What is stored depends on the corrections only through the length of the bounds. *)
Lemma store_words_cors (MemCapFmt CheriCapIT8 : bool) c tc bc w s s' :
  reg_range c -> (r_top_cor c, r_base_cor c) = update_temp_fields (r_top c) (r_base c) s ->
  (tc, bc) = update_temp_fields (r_top c) (r_base c) s' ->
  let c' := RegCap (r_valid c) tc bc (r_exp c) (r_top c) (r_base c) (r_otype c) (r_cperms c) (r_rsvd c) in
  reg_range c' ->
  store_words MemCapFmt CheriCapIT8 c' w = store_words MemCapFmt CheriCapIT8 c w.
Proof.
  intros Hr Hs Hs' c' Hr'.
  assert (it8_cexp c' = it8_cexp c) as E.
  { unfold it8_cexp. rewrite !it8_denorm_len; [done|done|by eexists|done|by eexists]. }
  unfold store_words, reg2mem_it8_fmt1, reg2memcap_it8_fmt0. rewrite E. by destruct MemCapFmt, CheriCapIT8.
Qed.

(** *** Theorems *)

(** C13 (roundtrip: capabilities through memory).  In both memory formats and both
    encodings, what the load-store unit reads back of the two words it wrote for a
    capability is the register and the address it was given, less the tag and the
    permissions the loading capability does not let through. *)
Theorem load_store_cap (MemCapFmt CheriCapIT8 : bool) (c : reg_cap_t) (a clrperm : Z) :
  cap_ok CheriCapIT8 c a ->
  let w := store_words MemCapFmt CheriCapIT8 c (tagged c a) in
  load_words MemCapFmt CheriCapIT8 w.1 w.2 clrperm = (loaded_cap clrperm c, tagged c a).
Proof.
  intros Hok. by apply words_roundtrip.
Qed.

Example load_store_cap_witness :
  load_words true true
    (store_words true true MTDC_RESET_CAP (tagged MTDC_RESET_CAP 0x80001234)).1
    (store_words true true MTDC_RESET_CAP (tagged MTDC_RESET_CAP 0x80001234)).2 0
  = (loaded_cap 0 MTDC_RESET_CAP, tagged MTDC_RESET_CAP 0x80001234).
Proof. apply (load_store_cap true true MTDC_RESET_CAP 0x80001234). cap_ok_tac. Defined.
