(* ===== verification/CheriEx.v ===== *)
(** * The CHERI execution unit

    rtl/cheri_ex.sv: the block [main_ex] with what each instruction writes, the
    shared adder, [set_address_comb] and [set_bounds_comb], the checks of
    capabilities ([check_cheri]) and of RV32 loads and stores ([check_rv32]), and
    the operands of rtl/cheri_decoder.sv.  An instruction is the operator its bit
    of [cheri_operator_i] selects; [one_operator] shows that the decoder sets at
    most one.  The section variables are the parameters of the module. *)

From S2P Require Import Prelude Bits CapDecode CheriPkg CheriBounds CheriMem.
Local Open Scope Z_scope.

Inductive cheri_op_e :=
| CGET_PERM | CGET_TYPE | CGET_BASE | CGET_LEN | CGET_TAG | CGET_TOP | CGET_HIGH | CGET_ADDR
| CSEAL | CUNSEAL | CAND_PERM | CSET_ADDR | CINC_ADDR | CINC_ADDR_IMM
| CSET_BOUNDS | CSET_BOUNDS_EX | CSET_BOUNDS_IMM | CIS_SUBSET | CIS_EQUAL | CMOVE_CAP | CSUB_CAP
| CCLEAR_TAG | CLOAD_CAP | CSET_HIGH | CSTORE_CAP | CCSR_RW | CJALR | CJAL | CAUIPCC | CAUICGP
| CRRL | CRAM | CSET_BOUNDS_RNDN.
#[export] Instance cheri_op_eq_dec : EqDecision cheri_op_e.
Proof. solve_decision. Defined.

Definition CHERI_SCR_MEPCC := 31.
Definition CHERI_SCR_MTCC := 28.
Definition CHERI_SCR_ZTOPC := 27.

(** ** The decoder *)

Record decoder_in := DecoderIn {
  instr_rdata : Z; cheri_opcode_en : bool; cheri_auipcc_en : bool; cheri_auicgp_en : bool;
  cheri_jalr_en : bool; cheri_jal_en : bool; cheri_cload_en : bool; cheri_cstore_en : bool }.

(** The bit of [cheri_operator_o] of an operator. *)
Definition cheri_operator (d : decoder_in) (op : cheri_op_e) : bool :=
  let func3_op := slice (instr_rdata d) 14 12 in
  let func7_op := slice (instr_rdata d) 31 25 in
  let imm5_op := slice (instr_rdata d) 24 20 in
  let fmt2 f := cheri_opcode_en d && (func3_op =? 0) && (func7_op =? f) in
  let fmt3 f := cheri_opcode_en d && (func3_op =? 0) && (func7_op =? 0x7f) && (imm5_op =? f) in
  match op with
  | CCSR_RW => fmt2 0x01
  | CSET_BOUNDS => fmt2 0x08
  | CSET_BOUNDS_EX => fmt2 0x09
  | CSET_BOUNDS_RNDN => fmt2 0x0a
  | CSEAL => fmt2 0x0b
  | CUNSEAL => fmt2 0x0c
  | CAND_PERM => fmt2 0x0d
  | CSET_ADDR => fmt2 0x10
  | CINC_ADDR => fmt2 0x11
  | CSUB_CAP => fmt2 0x14
  | CSET_HIGH => fmt2 0x16
  | CIS_SUBSET => fmt2 0x20
  | CIS_EQUAL => fmt2 0x21
  | CGET_PERM => fmt3 0x00
  | CGET_TYPE => fmt3 0x01
  | CGET_BASE => fmt3 0x02
  | CGET_HIGH => fmt3 0x17
  | CGET_TOP => fmt3 0x18
  | CGET_LEN => fmt3 0x03
  | CGET_TAG => fmt3 0x04
  | CRRL => fmt3 0x08
  | CRAM => fmt3 0x09
  | CGET_ADDR => fmt3 0x0f
  | CMOVE_CAP => fmt3 0x0a
  | CCLEAR_TAG => fmt3 0x0b
  | CINC_ADDR_IMM => cheri_opcode_en d && (func3_op =? 1)
  | CSET_BOUNDS_IMM => cheri_opcode_en d && (func3_op =? 2)
  | CAUIPCC => cheri_auipcc_en d
  | CAUICGP => cheri_auicgp_en d
  | CJALR => cheri_jalr_en d
  | CJAL => cheri_jal_en d
  | CLOAD_CAP => cheri_cload_en d
  | CSTORE_CAP => cheri_cstore_en d
  end.

(** The immediates and the register of a special capability register access. *)
Definition cheri_cs2_dec (d : decoder_in) (op : cheri_op_e) : Z :=
  match op with CCSR_RW => slice (instr_rdata d) 24 20 | _ => 0 end.
Definition cheri_imm12 (d : decoder_in) (op : cheri_op_e) : Z :=
  let func7_op := slice (instr_rdata d) 31 25 in
  match op with
  | CJALR | CSET_BOUNDS_IMM | CINC_ADDR_IMM | CLOAD_CAP =>
      cat [(7, func7_op); (5, slice (instr_rdata d) 24 20)]
  | CSTORE_CAP => cat [(7, func7_op); (5, slice (instr_rdata d) 11 7)]
  | _ => 0
  end.
Definition cheri_imm20 (d : decoder_in) (op : cheri_op_e) : Z :=
  match op with CAUIPCC | CAUICGP => slice (instr_rdata d) 31 12 | _ => 0 end.
Definition cheri_imm21 (d : decoder_in) (op : cheri_op_e) : Z :=
  let r := instr_rdata d in
  match op with
  | CJAL => cat [(1, bit r 31); (8, slice r 19 12); (1, bit r 20); (10, slice r 30 21); (1, 0)]
  | _ => 0
  end.

(** Which operators take more than one cycle. *)
Definition cheri_multicycle_dec (CheriSBND2 CheriPPLBC tsafe_en : bool) (op : cheri_op_e) : bool :=
  match op with
  | CLOAD_CAP => tsafe_en && negb CheriPPLBC
  | CSET_BOUNDS | CSET_BOUNDS_IMM | CSET_BOUNDS_EX | CRRL | CRAM => CheriSBND2
  | _ => false
  end.

(** ** Inputs and outputs *)

Record ex_in := ExIn {
  cheri_pmode_i : bool; cheri_tsafe_en_i : bool; debug_mode_i : bool; csr_dbg_tclr_fault_i : bool;
  lsu_req_done_i : bool;
  rf_raddr_a_i : Z; rf_rdata_a : Z; rf_rcap_a : reg_cap_t;
  rf_rdata_b : Z; rf_rcap_b : reg_cap_t; rf_waddr_i : Z;
  pcc_cap_i : pcc_cap_t; pc_id_i : Z; instr_is_compressed_i : bool;
  cheri_imm12_i : Z; cheri_imm20_i : Z; cheri_imm21_i : Z; cheri_cs2_dec_i : Z;
  csr_rdata_i : Z; csr_rcap_i : reg_cap_t; csr_mstatus_mie_i : bool;
  ztop_rdata_i : Z; ztop_rcap_i : reg_cap_t;
  bound_req_q : bound_req_t; set_bounds_done_q : bool }.

Record csr_port := CsrPort {
  csr_access_o : bool; csr_addr_o : Z; csr_wdata_o : Z; csr_wcap_o : reg_cap_t; csr_op_en : bool }.
Record branch_port := BranchPort {
  branch_req : bool; branch_req_spec : bool; branch_target_o : Z; pcc_cap_o : pcc_cap_t;
  csr_set_mie : bool; csr_clr_mie : bool }.
Record ztop_port := ZtopPort { ztop_wr : bool; ztop_wdata_o : Z; ztop_wfcap_o : full_cap_t }.
Record load_port := LoadPort { lc_ctag : bool; lc_csdlm : bool; lc_cglg : bool; rf_trsv_en : bool }.

Record ex_out := ExOut {
  cheri_rf_we : bool; result_data_o : Z; result_cap_o : reg_cap_t; csc_wcap : reg_cap_t;
  cheri_ex_valid : bool; cheri_wb_err : bool;
  o_csr : csr_port; o_branch : branch_port; o_ztop : ztop_port; o_load : load_port }.

Definition no_csr := CsrPort false 0 0 NULL_REG_CAP false.
Definition no_branch := BranchPort false false 0 NULL_PCC_CAP false false.
Definition no_ztop := ZtopPort false 0 NULL_FULL_CAP.
Definition no_load := LoadPort false false false false.

(** The outputs of an instruction that writes a register, and of one that gives an
    integer. *)
Definition writes (we ex_valid wb_err : bool) (data : Z) (cap : reg_cap_t) : ex_out :=
  ExOut we data cap NULL_REG_CAP ex_valid wb_err no_csr no_branch no_ztop no_load.
Definition integer (data : Z) : ex_out := writes true true false data NULL_REG_CAP.

(** ** The unit *)

Section Unit.
Context (MemCapFmt CheriCapIT8 CheriSBND2 CheriPPLBC : bool).
Context (op : cheri_op_e) (i : ex_in).

Definition rf_fullcap_a : full_cap_t := reg2fullcap (rf_rcap_a i) (rf_rdata_a i).
Definition rf_fullcap_b : full_cap_t := reg2fullcap (rf_rcap_b i) (rf_rdata_b i).
Definition perm_a (p : Z) : bool := Z.testbit (fc_perms rf_fullcap_a) p.
Definition perm_b (p : Z) : bool := Z.testbit (fc_perms rf_fullcap_b) p.

(** *** Addresses *)

(** Sign extension of a w-bit immediate to 32 bits. *)
Definition sext (w x : Z) : Z := cat [(32 - w, rep (32 - w) (Z.testbit x (w - 1))); (w, x)].

Definition is_cap : bool := match op with CLOAD_CAP | CSTORE_CAP => true | _ => false end.
Definition cs1_imm : Z :=
  match op with CLOAD_CAP | CSTORE_CAP | CJALR => sext 12 (cheri_imm12_i i) | _ => 0 end.
Definition cs1_addr_plusimm : Z := trunc 32 (rf_rdata_a i + cs1_imm).
Definition pc_id_nxt : Z := trunc 32 (pc_id_i i + if instr_is_compressed_i i then 2 else 4).

Definition addr_result : Z :=
  let imm20 := cat [(1, bit (cheri_imm20_i i) 19); (20, cheri_imm20_i i); (11, 0)] in
  let tmp32a :=
    match op with
    | CJALR => sext 12 (cheri_imm12_i i)
    | CJAL => sext 21 (cheri_imm21_i i)
    | CAUIPCC | CAUICGP => imm20
    | CSET_ADDR | CINC_ADDR => rf_rdata_b i
    | CINC_ADDR_IMM => sext 12 (cheri_imm12_i i)
    | _ => 0
    end in
  let tmp32b :=
    match op with
    | CJALR => rf_rdata_a i
    | CJAL | CAUIPCC => pc_id_i i
    | CAUICGP => rf_rdata_a i
    | CSET_ADDR => 0
    | CINC_ADDR | CINC_ADDR_IMM => rf_rdata_a i
    | _ => 0
    end in
  trunc 32 (tmp32a + tmp32b).

(** What a special capability register is written with: mtcc and mepcc drop the
    low bits of the address. *)
Definition scr_wdata : Z :=
  if cheri_cs2_dec_i i =? CHERI_SCR_MTCC then slice (rf_rdata_a i) 31 2 << 2
  else if cheri_cs2_dec_i i =? CHERI_SCR_MEPCC then slice (rf_rdata_a i) 31 1 << 1
  else rf_rdata_a i.
Definition scr_legalization : bool :=
  (cheri_cs2_dec_i i =? CHERI_SCR_MTCC) || (cheri_cs2_dec_i i =? CHERI_SCR_MEPCC).

(** set_address_comb *)
Definition setaddr1_outcap : full_cap_t :=
  let '(tfcap1, taddr1) :=
    match op with
    | CJAL | CJALR => (pcc2fullcap (pcc_cap_i i), pc_id_nxt)
    | CAUIPCC => (pcc2fullcap (pcc_cap_i i), addr_result)
    | CSET_ADDR | CINC_ADDR | CINC_ADDR_IMM | CAUICGP => (rf_fullcap_a, addr_result)
    | CCSR_RW => if scr_legalization then (rf_fullcap_a, scr_wdata) else (NULL_FULL_CAP, 0)
    | _ => (NULL_FULL_CAP, 0)
    end in
  set_address tfcap1 taddr1 false false.

(** *** Bounds: set_bounds_comb *)

Definition bounds_operands : full_cap_t * Z * Z * bool :=
  match op with
  | CSET_BOUNDS | CSET_BOUNDS_RNDN => (rf_fullcap_a, rf_rdata_a i, rf_rdata_b i, false)
  | CSET_BOUNDS_EX => (rf_fullcap_a, rf_rdata_a i, rf_rdata_b i, true)
  | CSET_BOUNDS_IMM => (rf_fullcap_a, rf_rdata_a i, cheri_imm12_i i, false)
  | CRRL | CRAM => (NULL_FULL_CAP, 0, rf_rdata_a i, false)
  | _ => (NULL_FULL_CAP, 0, 0, false)
  end.

(** The request of this cycle, which the two-cycle option stores until the next. *)
Definition this_request : bound_req_t :=
  let '(tfcap3, tmp_addr, newlen, req_exact) := bounds_operands in
  bound_req1 CheriCapIT8 tfcap3 tmp_addr newlen.
Definition bound_req2 : bound_req_t := if CheriSBND2 then bound_req_q i else this_request.
Definition set_bounds_done : bool := if CheriSBND2 then set_bounds_done_q i else true.

Definition setbounds_outcap : full_cap_t :=
  let '(tfcap3, tmp_addr, newlen, req_exact) := bounds_operands in
  set_bounds tfcap3 tmp_addr bound_req2 req_exact.
Definition setbounds_rndn_outcap : full_cap_t :=
  let '(tfcap3, tmp_addr, newlen, req_exact) := bounds_operands in
  rndn CheriCapIT8 tfcap3 tmp_addr bound_req2.

(** What the registers of the two-cycle option hold after this cycle, in which the
    instruction executes. *)
Definition next_bound_req : bound_req_t * bool :=
  (this_request,
   match op with
   | CSET_BOUNDS | CSET_BOUNDS_IMM | CSET_BOUNDS_EX | CRRL | CRAM => negb (set_bounds_done_q i)
   | _ => false
   end).

(** *** Checks of capabilities: check_cheri *)

Definition addr_bound_vio : bool :=
  let base_chkaddr :=
    match op with
    | CSEAL => rf_rdata_b i
    | CUNSEAL => decode_otype (fc_otype rf_fullcap_a) (perm_a PERM_EX)
    | CIS_SUBSET => fc_base32 rf_fullcap_b
    | _ => cs1_addr_plusimm
    end in
  let top_chkaddr :=
    match op with
    | CIS_SUBSET => fc_top33 rf_fullcap_b
    | CLOAD_CAP | CSTORE_CAP => slice base_chkaddr 31 3 << 3
    | _ => base_chkaddr
    end in
  let '(top_bound, base_bound) :=
    match op with
    | CSEAL | CUNSEAL => (fc_top33 rf_fullcap_b, fc_base32 rf_fullcap_b)
    | CLOAD_CAP | CSTORE_CAP => (slice (fc_top33 rf_fullcap_a) 32 3 << 3, fc_base32 rf_fullcap_a)
    | _ => (fc_top33 rf_fullcap_a, fc_base32 rf_fullcap_a)
    end in
  let top_vio := top_bound <? top_chkaddr in
  let base_vio := base_chkaddr <? base_bound in
  let top_equal := top_chkaddr =? top_bound in
  if debug_mode_i i then false
  else
    match op with
    | CLOAD_CAP | CSTORE_CAP | CSEAL | CUNSEAL => top_vio || base_vio || top_equal
    | CIS_SUBSET => top_vio || base_vio
    | _ => false
    end.

(** Sentries: forward, forward inheriting or changing the interrupt posture, and
    backward. *)
Definition otype_is (c : full_cap_t) (l : list Z) : bool := existsb (fun o => fc_otype c =? o) l.
Definition cs1_otype_0 : bool := fc_otype rf_fullcap_a =? 0.
Definition cs1_otype_1 : bool := perm_a PERM_EX && otype_is rf_fullcap_a [1].
Definition cs1_otype_45 : bool := perm_a PERM_EX && otype_is rf_fullcap_a [4; 5].
Definition cs1_otype_23 : bool := perm_a PERM_EX && otype_is rf_fullcap_a [2; 3].

Definition cs2_bad_type : bool :=
  let b := rf_rdata_b i in
  if perm_a PERM_EX then any (slice b 31 3) || (slice b 2 0 =? 0)
  else any (slice b 31 4) || (slice b 3 0 <=? 8).

Definition vio (bits : list (Z * bool)) : Z :=
  foldr (fun '(k, b) v => setb k (Z.b2z b) .| v) 0 bits.

Definition perm_vio_vec : Z :=
  let misaligned := any (slice cs1_addr_plusimm 2 0) in
  match op with
  | CLOAD_CAP =>
      vio [(PVIO_TAG, negb (fc_valid rf_fullcap_a)); (PVIO_SEAL, is_cap_sealed rf_fullcap_a);
           (PVIO_LD, negb (perm_a PERM_LD)); (PVIO_ALIGN, misaligned)]
  | CSTORE_CAP =>
      vio [(PVIO_TAG, negb (fc_valid rf_fullcap_a)); (PVIO_SEAL, is_cap_sealed rf_fullcap_a);
           (PVIO_SD, negb (perm_a PERM_SD));
           (PVIO_SC, negb (perm_a PERM_MC) && fc_valid rf_fullcap_b); (PVIO_ALIGN, misaligned)]
  | CSEAL =>
      vio [(PVIO_TAG, negb (fc_valid rf_fullcap_b));
           (PVIO_SEAL, is_cap_sealed rf_fullcap_a || is_cap_sealed rf_fullcap_b ||
                       negb (perm_b PERM_SE) || cs2_bad_type)]
  | CUNSEAL =>
      vio [(PVIO_TAG, negb (fc_valid rf_fullcap_b));
           (PVIO_SEAL, negb (is_cap_sealed rf_fullcap_a) || is_cap_sealed rf_fullcap_b ||
                       negb (perm_b PERM_US))]
  | CJALR =>
      let ra := rf_raddr_a_i i in
      let rd := rf_waddr_i i in
      vio [(PVIO_TAG, negb (fc_valid rf_fullcap_a));
           (PVIO_SEAL, (is_cap_sealed rf_fullcap_a && any (cheri_imm12_i i)) ||
              negb (((rd =? 0) && (ra =? 1) && cs1_otype_45) ||
                    ((rd =? 0) && negb (ra =? 1) && (cs1_otype_0 || cs1_otype_1)) ||
                    ((rd =? 1) && (cs1_otype_0 || cs1_otype_23)) ||
                    (negb (rd =? 0) && (cs1_otype_0 || cs1_otype_1))));
           (PVIO_EX, negb (perm_a PERM_EX))]
  | CCSR_RW => vio [(PVIO_ASR, negb (Z.testbit (pc_perms (pcc_cap_i i)) PERM_SR))]
  | _ => 0
  end.
Definition perm_vio : bool := any perm_vio_vec.

(** Storing a local capability needs store-local; otherwise its tag is cleared. *)
Definition perm_vio_slc : bool :=
  match op with
  | CSTORE_CAP => negb (perm_a PERM_SL) && fc_valid rf_fullcap_b && negb (perm_b PERM_GL)
  | _ => false
  end.
Definition illegal_scr_addr : bool :=
  match op with
  | CCSR_RW => negb (debug_mode_i i) && (cheri_cs2_dec_i i <? 27)
  | _ => false
  end.

Definition cheri_lsu_err : bool :=
  cheri_pmode_i i && negb (debug_mode_i i) &&
  (addr_bound_vio || perm_vio || (csr_dbg_tclr_fault_i i && perm_vio_slc)).

(** The address bounds with the end of the access, for the reported cause. *)
Definition addr_bound_vio_ext : bool :=
  if is_cap then addr_bound_vio || (fc_top33 rf_fullcap_a <? cs1_addr_plusimm + 8)
  else addr_bound_vio.
Definition cheri_err_cause : Z := vio_cause_enc addr_bound_vio_ext perm_vio_vec.

(** *** Checks of RV32 loads and stores: check_rv32 *)

(** The type of the access (0 a word, 1 a half word, else a byte), whether it is a
    store, its address, and whether it is the second half of an unaligned one. *)
Definition rv32_size (lsu_type : Z) : Z :=
  if lsu_type =? 0 then 4 else if lsu_type =? 1 then 2 else 1.
Definition addr_bound_vio_rv32 (lsu_type addr : Z) (addr_incr_req : bool) : bool :=
  let top33 := fc_top33 rf_fullcap_a in
  let top_size_ok :=
    if lsu_type =? 0 then any (slice top33 32 2)
    else if lsu_type =? 1 then any (slice top33 32 1) else any (slice top33 32 0) in
  let top_bound := trunc 33 (top33 - rv32_size lsu_type) in
  let top_vio := (top_bound <? addr) || negb top_size_ok in
  let base_vio := addr <? fc_base32 rf_fullcap_a in
  (top_vio || base_vio) && negb addr_incr_req.
Definition perm_vio_vec_rv32 (lsu_we : bool) : Z :=
  vio [(PVIO_TAG, negb (fc_valid rf_fullcap_a)); (PVIO_SEAL, is_cap_sealed rf_fullcap_a);
       (PVIO_LD, negb lsu_we && negb (perm_a PERM_LD)); (PVIO_SD, lsu_we && negb (perm_a PERM_SD))].
Definition rv32_lsu_err (lsu_type : Z) (lsu_we : bool) (addr : Z) (addr_incr_req : bool) : bool :=
  cheri_pmode_i i && negb (debug_mode_i i) &&
  (addr_bound_vio_rv32 lsu_type addr addr_incr_req || any (perm_vio_vec_rv32 lsu_we)).
Definition rv32_err_cause (lsu_type : Z) (lsu_we : bool) (addr : Z) (addr_incr_req : bool) : Z :=
  vio_cause_enc (addr_bound_vio_rv32 lsu_type addr addr_incr_req) (perm_vio_vec_rv32 lsu_we).

(** *** The instructions: main_ex *)

(** Setting an address: a sealed capability loses its tag. *)
Definition ex_set_addr : ex_out :=
  let auipcc := bool_decide (op = CAUIPCC) in
  let clr_sealed := negb auipcc && is_cap_sealed rf_fullcap_a in
  let cap := full2regcap (with_valid (fc_valid setaddr1_outcap && negb clr_sealed) setaddr1_outcap) in
  let instr_fault :=
    csr_dbg_tclr_fault_i i && (fc_valid rf_fullcap_a || auipcc) && negb (r_valid cap) in
  writes (negb instr_fault) true instr_fault addr_result cap.

Definition ex_set_bounds : ex_out :=
  let tfcap := match op with CSET_BOUNDS_RNDN => setbounds_rndn_outcap | _ => setbounds_outcap end in
  let tfcap := with_valid (fc_valid tfcap && negb (is_cap_sealed rf_fullcap_a)) tfcap in
  match op with
  | CRRL => writes true set_bounds_done false (fc_rlen tfcap) NULL_REG_CAP
  | CRAM => writes true set_bounds_done false (fc_maska tfcap) NULL_REG_CAP
  | _ =>
      let cap := full2regcap tfcap in
      let instr_fault := csr_dbg_tclr_fault_i i && fc_valid rf_fullcap_a && negb (r_valid cap) in
      writes (negb instr_fault) set_bounds_done instr_fault (rf_rdata_a i) cap
  end.

Definition ex_seal : ex_out :=
  let cap :=
    match op with
    | CSEAL => full2regcap (seal_cap rf_fullcap_a (slice (rf_rdata_b i) 2 0))
    | _ =>
        let tfcap := unseal_cap rf_fullcap_a in
        let perms := assign_bit (fc_perms tfcap) PERM_GL (perm_a PERM_GL && perm_b PERM_GL) in
        full2regcap (with_perms perms (compress_perms perms) tfcap)
    end in
  writes true true false (rf_rdata_a i)
    (reg_with_valid (r_valid cap && negb addr_bound_vio && negb perm_vio) cap).

Definition ex_and_perm : ex_out :=
  let mask := slice (rf_rdata_b i) 11 0 in
  let perms := fc_perms rf_fullcap_a .& mask in
  let tfcap := with_perms perms (compress_perms perms) rf_fullcap_a in
  let pmask := assign_bit mask PERM_GL true in
  let valid := fc_valid tfcap && (negb (is_cap_sealed rf_fullcap_a) || (pmask =? Z.ones 12)) in
  writes true true false (rf_rdata_a i) (full2regcap (with_valid valid tfcap)).

(** Writing mtcc or mepcc clears the tag of what cannot be jumped to. *)
Definition scr_wcap : reg_cap_t :=
  if scr_legalization then
    let low := if cheri_cs2_dec_i i =? CHERI_SCR_MTCC then slice (rf_rdata_a i) 1 0
               else slice (rf_rdata_a i) 0 0 in
    reg_with_valid
      (if any low || negb (perm_a PERM_EX) || any (fc_otype rf_fullcap_a) then false
       else fc_valid rf_fullcap_a) (full2regcap setaddr1_outcap)
  else rf_rcap_a i.

Definition ex_csr_rw : ex_out :=
  let is_ztop := cheri_cs2_dec_i i =? CHERI_SCR_ZTOPC in
  let is_write := negb (rf_raddr_a_i i =? 0) in
  let instr_fault := perm_vio || illegal_scr_addr in
  let csr := CsrPort (negb instr_fault) (cheri_cs2_dec_i i) scr_wdata scr_wcap
               (negb instr_fault && is_write && negb is_ztop) in
  let '(data, cap, ztop) :=
    if is_ztop then
      (ztop_rdata_i i, ztop_rcap_i i,
       ZtopPort (negb instr_fault && is_write) (rf_rdata_a i) rf_fullcap_a)
    else (csr_rdata_i i, csr_rcap_i i, no_ztop) in
  ExOut (negb instr_fault) data cap NULL_REG_CAP true instr_fault csr no_branch ztop no_load.

Definition ex_jump : ex_out :=
  let jalr := bool_decide (op = CJALR) in
  let seal_type := if csr_mstatus_mie_i i then OTYPE_SENTRY_IE_BKWD else OTYPE_SENTRY_ID_BKWD in
  let tfcap := if rf_waddr_i i =? 1 then seal_cap setaddr1_outcap seal_type else setaddr1_outcap in
  let instr_fault := perm_vio in
  let branch := BranchPort (negb instr_fault && jalr) (negb instr_fault)
    (slice addr_result 31 1 << 1) (full2pcap (unseal_cap rf_fullcap_a))
    (negb instr_fault && jalr && otype_is rf_fullcap_a [OTYPE_SENTRY_IE_FWD; OTYPE_SENTRY_IE_BKWD])
    (negb instr_fault && jalr && otype_is rf_fullcap_a [OTYPE_SENTRY_ID_FWD; OTYPE_SENTRY_ID_BKWD]) in
  ExOut (negb instr_fault) pc_id_nxt (full2regcap tfcap) NULL_REG_CAP true instr_fault
    no_csr branch no_ztop no_load.

Definition ex_get_high : ex_out :=
  let tmp66 :=
    if MemCapFmt then
      if CheriCapIT8 then reg2mem_it8_fmt1 (rf_rcap_a i) (rf_rdata_a i)
      else reg2mem_fmt1 (rf_rcap_a i) (rf_rdata_a i)
    else
      cat [(33, if CheriCapIT8 then reg2memcap_it8_fmt0 (rf_rcap_a i) else reg2memcap_fmt0 (rf_rcap_a i));
           (1, 0); (32, rf_rdata_a i)] in
  integer (slice tmp66 64 33).

Definition ex_set_high : ex_out :=
  let mem2regcap := if CheriCapIT8 then mem2regcap_it8_fmt0 else mem2regcap_fmt0 in
  writes true true false (rf_rdata_a i)
    (mem2regcap (cat [(1, 0); (32, rf_rdata_b i)]) (cat [(1, 0); (32, rf_rdata_a i)]) 0).

Definition ex_load : ex_out :=
  ExOut false 0 NULL_REG_CAP NULL_REG_CAP true false no_csr no_branch no_ztop
    (LoadPort (negb (perm_a PERM_MC)) (negb (perm_a PERM_LM)) (negb (perm_a PERM_LG))
       (CheriPPLBC && cheri_tsafe_en_i i && lsu_req_done_i i)).

Definition ex_store : ex_out :=
  ExOut false 0 NULL_REG_CAP
    (reg_with_valid (r_valid (rf_rcap_b i) && negb perm_vio_slc) (rf_rcap_b i))
    true false no_csr no_branch no_ztop no_load.

Definition main_ex : ex_out :=
  match op with
  | CGET_PERM => integer (fc_perms rf_fullcap_a)
  | CGET_TYPE => integer (decode_otype (fc_otype rf_fullcap_a) (perm_a PERM_EX))
  | CGET_BASE => integer (fc_base32 rf_fullcap_a)
  | CGET_TOP => integer (if Z.testbit (fc_top33 rf_fullcap_a) 32 then 0xffffffff
                         else slice (fc_top33 rf_fullcap_a) 31 0)
  | CGET_LEN => integer (get_cap_len rf_fullcap_a)
  | CGET_TAG => integer (Z.b2z (fc_valid rf_fullcap_a))
  | CGET_ADDR => integer (rf_rdata_a i)
  | CGET_HIGH => ex_get_high
  | CSEAL | CUNSEAL => ex_seal
  | CAND_PERM => ex_and_perm
  | CSET_HIGH => ex_set_high
  | CSET_ADDR | CINC_ADDR | CINC_ADDR_IMM | CAUIPCC | CAUICGP => ex_set_addr
  | CSET_BOUNDS | CSET_BOUNDS_IMM | CSET_BOUNDS_EX | CRRL | CRAM | CSET_BOUNDS_RNDN => ex_set_bounds
  | CCLEAR_TAG => writes true true false (rf_rdata_a i) (reg_with_valid false (rf_rcap_a i))
  | CIS_SUBSET =>
      integer (Z.b2z (Bool.eqb (fc_valid rf_fullcap_a) (fc_valid rf_fullcap_b) &&
        negb addr_bound_vio &&
        (fc_perms rf_fullcap_a .| notw 12 (fc_perms rf_fullcap_b) =? Z.ones 12)))
  | CIS_EQUAL =>
      integer (Z.b2z (is_equal rf_fullcap_a rf_fullcap_b (rf_rdata_a i) (rf_rdata_b i)))
  | CSUB_CAP => integer (trunc 32 (rf_rdata_a i - rf_rdata_b i))
  | CMOVE_CAP => writes true true false (rf_rdata_a i) (rf_rcap_a i)
  | CLOAD_CAP => ex_load
  | CSTORE_CAP => ex_store
  | CCSR_RW => ex_csr_rw
  | CJALR | CJAL => ex_jump
  end.

(** The permissions a load of a capability is masked with. *)
Definition lsu_lc_clrperm : Z :=
  if debug_mode_i i then 0
  else
    let p := o_load main_ex in
    cat [(1, Z.b2z (lc_ctag p)); (1, 0); (1, Z.b2z (lc_csdlm p)); (1, Z.b2z (lc_cglg p))].

End Unit.

(** Forwarding from the write-back stage: register 0 is never forwarded. *)
Definition fwd_data_merger (fwd_we : bool) (fwd_waddr fwd_wdata : Z) (fwd_wcap : reg_cap_t)
    (raddr rdata : Z) (rcap : reg_cap_t) : Z * reg_cap_t :=
  if (raddr =? fwd_waddr) && fwd_we && any raddr then (fwd_wdata, fwd_wcap) else (rdata, rcap).

(** ** The decoder selects one operator

    The reference is the opcode map read the other way: from the instruction word to
    the operator. *)

Definition fmt3_operator (f : Z) : option cheri_op_e :=
  match f with
  | 0 => Some CGET_PERM | 1 => Some CGET_TYPE | 2 => Some CGET_BASE | 3 => Some CGET_LEN
  | 4 => Some CGET_TAG | 8 => Some CRRL | 9 => Some CRAM | 10 => Some CMOVE_CAP
  | 11 => Some CCLEAR_TAG | 15 => Some CGET_ADDR | 23 => Some CGET_HIGH | 24 => Some CGET_TOP
  | _ => None
  end.
Definition fmt2_operator (f imm5 : Z) : option cheri_op_e :=
  match f with
  | 0x01 => Some CCSR_RW | 0x08 => Some CSET_BOUNDS | 0x09 => Some CSET_BOUNDS_EX
  | 0x0a => Some CSET_BOUNDS_RNDN | 0x0b => Some CSEAL | 0x0c => Some CUNSEAL
  | 0x0d => Some CAND_PERM | 0x10 => Some CSET_ADDR | 0x11 => Some CINC_ADDR
  | 0x14 => Some CSUB_CAP | 0x16 => Some CSET_HIGH | 0x20 => Some CIS_SUBSET
  | 0x21 => Some CIS_EQUAL | 0x7f => fmt3_operator imm5
  | _ => None
  end.
Definition the_operator (d : decoder_in) : option cheri_op_e :=
  if cheri_opcode_en d then
    match slice (instr_rdata d) 14 12 with
    | 0 => fmt2_operator (slice (instr_rdata d) 31 25) (slice (instr_rdata d) 24 20)
    | 1 => Some CINC_ADDR_IMM
    | 2 => Some CSET_BOUNDS_IMM
    | _ => None
    end
  else if cheri_auipcc_en d then Some CAUIPCC
  else if cheri_auicgp_en d then Some CAUICGP
  else if cheri_jalr_en d then Some CJALR
  else if cheri_jal_en d then Some CJAL
  else if cheri_cload_en d then Some CLOAD_CAP
  else if cheri_cstore_en d then Some CSTORE_CAP
  else None.

(** The enables of the main decoder, which sets at most one: each is in the branch of
    one opcode. *)
Definition enables (d : decoder_in) : list bool :=
  [cheri_opcode_en d; cheri_auipcc_en d; cheri_auicgp_en d; cheri_jalr_en d; cheri_jal_en d;
   cheri_cload_en d; cheri_cstore_en d].
Definition one_enable (d : decoder_in) : Prop :=
  (length (List.filter id (enables d)) <= 1)%nat.

Lemma operator_selected d op :
  one_enable d -> cheri_operator d op = true -> the_operator d = Some op.
Proof.
  unfold one_enable, enables, the_operator. destruct d as [w e1 e2 e3 e4 e5 e6 e7].
  cbn [instr_rdata cheri_opcode_en cheri_auipcc_en cheri_auicgp_en cheri_jalr_en cheri_jal_en
    cheri_cload_en cheri_cstore_en].
  intros Hone Hop. unfold cheri_operator in Hop.
  cbn [instr_rdata cheri_opcode_en cheri_auipcc_en cheri_auicgp_en cheri_jalr_en cheri_jal_en
    cheri_cload_en cheri_cstore_en] in Hop.
  destruct op; repeat match goal with
    | H : _ && _ = true |- _ => apply andb_prop in H as [H ?]
    | H : (_ =? _) = true |- _ => apply Z.eqb_eq in H
    end; subst;
    repeat match goal with H : slice w _ _ = _ |- _ => rewrite H; clear H end; try done;
    repeat match goal with e : bool |- _ => destruct e; cbn in *; try done; try lia end.
Qed.

Lemma selected_operator d op : the_operator d = Some op -> cheri_operator d op = true.
Proof.
  unfold the_operator, fmt2_operator, fmt3_operator, cheri_operator.
  destruct (cheri_opcode_en d); [|repeat case_match; congruence].
  set (f3 := slice _ 14 12). set (f7 := slice _ 31 25). set (f5 := slice _ 24 20).
  intros H. repeat case_match; simplify_eq; done.
Qed.

(** C33 (equivalence: the operators of the decoder).  When the main decoder enables at
    most one class of instruction, the bit of an operator is set exactly when the
    opcode map gives that operator, so at most one bit is set. *)
Theorem one_operator (d : decoder_in) (op : cheri_op_e) :
  one_enable d -> cheri_operator d op = bool_decide (the_operator d = Some op).
Proof.
  intros Hone. case_bool_decide as H.
  - by apply selected_operator.
  - apply not_true_is_false. intros Hop. apply H. by apply operator_selected.
Qed.

(** csetbounds c10, c11, a2 *)
Example one_operator_witness :
  cheri_operator (DecoderIn 0x10c5855b true false false false false false false) CSET_BOUNDS = true.
Proof.
  rewrite (one_operator _ CSET_BOUNDS); [by_compute|]. unfold one_enable. cbn. lia.
Defined.
