(* ===== verification/CheriAuth.v ===== *)
(** * The authority of capabilities

    What the instructions of CheriEx.v do to the authority of capabilities: the
    addresses a capability covers and its permissions ([authority], ordered by
    [auth_le]).  A result [derives] from an operand when it is well formed and its
    authority is at most the operand's; [instruction_monotone] says that every tagged
    output of every instruction derives from an operand or from the program counter.
    The other theorems are on sealed capabilities and on the checks of memory
    accesses. *)

From S2P Require Import Prelude Bits CapDecode CheriPkg CheriBounds CheriMem CheriEx.
Local Open Scope Z_scope.

(** ** Authority

    What a capability lets its holder do: the addresses from its base up to its
    top, with its permissions. *)

Record authority := Auth { au_base : Z; au_top : Z; au_perms : Z }.
Definition auth_of (c : full_cap_t) : authority := Auth (fc_base32 c) (fc_top33 c) (fc_perms c).
Definition reg_auth (c : reg_cap_t) (a : Z) : authority := auth_of (reg2fullcap c a).

Definition auth_le (x y : authority) : Prop :=
  au_base y <= au_base x /\ au_top x <= au_top y /\ perms_le (au_perms x) (au_perms y).
#[export] Instance auth_le_preorder : PreOrder auth_le.
Proof.
  split.
  - intros x. unfold auth_le. split_and!; [lia|lia|reflexivity].
  - intros x y z (H1 & H2 & H3) (H4 & H5 & H6). unfold auth_le.
    split_and!; [lia|lia|by etrans].
Qed.

(** A full capability as the unit expands it from a register or from the program
    counter. *)
Record full_ok (it8 : bool) (c : full_cap_t) (b : Z) : Prop := {
  fo_region : full_region it8 c b;
  fo_cperms : 0 <= fc_cperms c < 64;
  fo_perms : fc_perms c = expand_perms (fc_cperms c);
  fo_otype : 0 <= fc_otype c < 8;
  fo_rsvd : 0 <= fc_rsvd c < 2 }.
Definition pcc_ok (it8 : bool) (p : pcc_cap_t) : Prop := exists b, full_ok it8 (pcc2fullcap p) b.

Lemma cap_ok_full it8 c a :
  cap_ok it8 c a -> exists b, full_ok it8 (reg2fullcap c a) b /\ window (r_exp c) b a.
Proof.
  intros Hok. destruct (cap_ok_region it8 c a Hok) as (b & Hr & Hw). exists b.
  destruct Hok as [[_ _ _ _ _ Ho Hc Hs] _ _ _ _ _]. by split.
Qed.

Lemma cap_ok_intro it8 c a b :
  full_region it8 (reg2fullcap c a) b -> window (r_exp c) b a -> 0 <= a < 2 ^ 32 ->
  (r_top_cor c, r_base_cor c) = update_temp_fields (r_top c) (r_base c) (addrmi9 (r_exp c) a) ->
  0 <= r_otype c < 8 -> 0 <= r_cperms c < 64 -> 0 <= r_rsvd c < 2 ->
  cap_ok it8 c a.
Proof.
  intros [Hexp Hnorm Hreg _ _] Hw Ha Hc Ho Hp Hs.
  cbn [reg2fullcap fc_exp fc_top fc_base] in *. pose proof Hreg as [He HT HB Hb _ _].
  assert (0 <= r_base c < 512) by (rewrite <-HB; apply Z.mod_pos_bound; lia).
  split; try done; [|by exists b].
  unfold update_temp_fields in Hc. injection Hc as Et Eb.
  split; try done; [rewrite Et|rewrite Eb]; repeat case_match; auto.
Qed.

(** The result [r] at address [a] is a capability whose authority comes from [src]. *)
Definition derives (it8 : bool) (r : reg_cap_t) (a : Z) (src : full_cap_t) : Prop :=
  cap_ok it8 r a /\ fc_valid src = true /\ auth_le (reg_auth r a) (auth_of src).

(** Changing the object type or giving up permissions keeps a capability. *)
Lemma cap_ok_fields it8 r r' a :
  cap_ok it8 r a -> r_top_cor r' = r_top_cor r -> r_base_cor r' = r_base_cor r ->
  r_exp r' = r_exp r -> r_top r' = r_top r -> r_base r' = r_base r -> r_rsvd r' = r_rsvd r ->
  0 <= r_otype r' < 8 -> 0 <= r_cperms r' < 64 -> cap_ok it8 r' a.
Proof.
  intros [[H1 H2 H3 H4 H5 H6 H7 H8] Ha He Hn Hc Hr] E1 E2 E3 E4 E5 E6 Ho Hp.
  rewrite <-E1, <-E2, <-E3, <-E4, <-E5, <-E6 in *. by split.
Qed.

Lemma reg_auth_fields r r' a :
  r_top_cor r' = r_top_cor r -> r_base_cor r' = r_base_cor r ->
  r_exp r' = r_exp r -> r_top r' = r_top r -> r_base r' = r_base r ->
  perms_le (expand_perms (r_cperms r')) (expand_perms (r_cperms r)) ->
  auth_le (reg_auth r' a) (reg_auth r a).
Proof.
  intros E1 E2 E3 E4 E5 Hp. unfold reg_auth, auth_of, reg2fullcap, auth_le.
  cbn [fc_base32 fc_top33 fc_perms au_base au_top au_perms]. rewrite E1, E2, E3, E4, E5.
  split_and!; [lia|lia|done].
Qed.

Lemma derives_fields it8 r r' a src :
  derives it8 r a src -> r_top_cor r' = r_top_cor r -> r_base_cor r' = r_base_cor r ->
  r_exp r' = r_exp r -> r_top r' = r_top r -> r_base r' = r_base r -> r_rsvd r' = r_rsvd r ->
  0 <= r_otype r' < 8 -> 0 <= r_cperms r' < 64 ->
  perms_le (expand_perms (r_cperms r')) (expand_perms (r_cperms r)) ->
  derives it8 r' a src.
Proof.
  intros (Hok & Hv & Hle) E1 E2 E3 E4 E5 E6 Ho Hp Hpl. split_and!; [|done|].
  - by apply (cap_ok_fields it8 r).
  - etrans; [|exact Hle]. by apply reg_auth_fields.
Qed.

Lemma derives_refl it8 c a : cap_ok it8 c a -> r_valid c = true -> derives it8 c a (reg2fullcap c a).
Proof. intros Hok Hv. split_and!; [done|done|reflexivity]. Qed.

Lemma derives_reg it8 r c a :
  cap_ok it8 c a -> r_valid c = true -> r_top_cor r = r_top_cor c -> r_base_cor r = r_base_cor c ->
  r_exp r = r_exp c -> r_top r = r_top c -> r_base r = r_base c -> r_rsvd r = r_rsvd c ->
  0 <= r_otype r < 8 -> 0 <= r_cperms r < 64 ->
  perms_le (expand_perms (r_cperms r)) (expand_perms (r_cperms c)) ->
  derives it8 r a (reg2fullcap c a).
Proof. intros Hok Hv. apply derives_fields. by apply derives_refl. Qed.

(** Moving the address. *)
Lemma set_address_valid_src c p ct cb : fc_valid (set_address c p ct cb) = true -> fc_valid c = true.
Proof.
  unfold set_address. cbv zeta. cbn [with_cors fc_valid].
  destruct (_ || _ || _); cbn [with_valid fc_valid]; done.
Qed.

Lemma set_address_derives it8 c b p :
  full_ok it8 c b -> 0 <= p < 2 ^ 32 -> fc_valid (set_address c p false false) = true ->
  derives it8 (full2regcap (set_address c p false false)) p c.
Proof.
  intros [Hc Hcp Hp Ho Hs] Hpr Hv. rewrite (set_address_valid it8 c b p) in Hv by done.
  cbn [andb negb] in Hv. rewrite !andb_true_r in Hv.
  apply andb_prop in Hv as [Hvc Hw%bool_decide_eq_true_1].
  destruct (set_address_decode it8 c b p false false Hc Hpr Hw) as (Eb & Et & Hr).
  destruct (set_address_fields c p false false) as (Ee & ET & EB & Eo & Ecp & Ers & _ & Ec).
  set (out := set_address c p false false) in *. clearbody out. split_and!; [|done|].
  - apply (cap_ok_intro it8 _ p b); cbn [full2regcap r_exp r_top_cor r_base_cor r_top r_base
      r_otype r_cperms r_rsvd]; rewrite ?Ee, ?ET, ?EB, ?Eo, ?Ecp, ?Ers; done.
  - unfold reg_auth, auth_of, auth_le. cbn [au_base au_top au_perms]. rewrite Eb, Et.
    split_and!; [lia|lia|]. cbn [reg2fullcap full2regcap fc_perms r_cperms].
    rewrite Ecp, <-Hp. reflexivity.
Qed.

(** Bounds: both instructions. *)
Lemma set_bounds_other_fields it8 c a len exact :
  let out := set_bounds c a (bound_req1 it8 c a len) exact in
  fc_otype out = fc_otype c /\ fc_cperms out = fc_cperms c /\ fc_rsvd out = fc_rsvd c.
Proof.
  cbv zeta. unfold set_bounds. cbv zeta.
  destruct (exact && _), (bq_in_bound _); cbn [with_valid with_cors with_lens with_fields fc_otype
    fc_cperms fc_rsvd]; done.
Qed.
Lemma rndn_other_fields it8 c a q :
  let out := rndn it8 c a q in
  fc_otype out = fc_otype c /\ fc_cperms out = fc_cperms c /\ fc_rsvd out = fc_rsvd c.
Proof.
  cbv zeta. unfold rndn, set_bounds_rndn_it8, set_bounds_rndn. cbv zeta.
  destruct it8, (bq_in_bound _); cbn [with_valid with_cors with_lens with_fields fc_otype
    fc_cperms fc_rsvd]; done.
Qed.

Lemma set_bounds_derives it8 c b a len exact :
  full_ok it8 c b -> 0 <= a < 2 ^ 32 -> 0 <= len < 2 ^ 32 ->
  let out := set_bounds c a (bound_req1 it8 c a len) exact in
  fc_valid out = true -> derives it8 (full2regcap out) a c.
Proof.
  intros [Hc Hcp Hp Ho Hs] Ha Hl. cbv zeta. intros Hv.
  destruct (set_bounds_inside it8 c b a len exact Hc Ha Hl Hv) as (Hvc & Hlim & Hb & Ht).
  destruct (set_bounds_result it8 c a len exact Ha Hl Hlim) as (Eb & Et & Hr).
  destruct (set_bounds_region it8 c a len exact Ha Hl Hlim) as (_ & Hw & _ & _ & Ec & _).
  destruct (set_bounds_other_fields it8 c a len exact) as (Eo & Ecp & Ers).
  cbv zeta in *. set (out := set_bounds c a _ exact) in *. clearbody out.
  split_and!; [|done|].
  - apply (cap_ok_intro it8 _ a (a / 2 ^ fc_exp out)); cbn [full2regcap r_exp r_top_cor r_base_cor
      r_top r_base r_otype r_cperms r_rsvd]; rewrite ?Eo, ?Ecp, ?Ers; done.
  - unfold reg_auth, auth_of, auth_le. cbn [au_base au_top au_perms]. rewrite Eb, Et.
    split_and!; [lia|lia|]. cbn [reg2fullcap full2regcap fc_perms r_cperms].
    rewrite Ecp, <-Hp. reflexivity.
Qed.

Lemma rndn_cap_ok it8 c d b a len :
  full_ok it8 c b -> 0 <= a < 2 ^ 32 -> 0 <= len < 2 ^ 32 -> a + len <= 2 ^ 32 ->
  cap_ok it8 (full2regcap (rndn it8 c a (bound_req1 it8 d a len))) a.
Proof.
  intros [Hc Hcp Hp Ho Hs] Ha Hl Hlim.
  destruct (rndn_result it8 c d a len Ha Hl Hlim) as (_ & _ & _ & _ & Hr & Hw & Ee & Ec).
  destruct (rndn_other_fields it8 c a (bound_req1 it8 d a len)) as (Eo & Ecp & Ers).
  cbv zeta in *. set (out := rndn it8 c a _) in *. clearbody out. set (e := rndn_exp _ _ _) in *.
  apply (cap_ok_intro it8 _ a (a / 2 ^ e)); cbn [full2regcap r_exp r_top_cor r_base_cor
    r_top r_base r_otype r_cperms r_rsvd]; rewrite ?Eo, ?Ecp, ?Ers, ?Ee; done.
Qed.

Lemma rndn_derives it8 c b a len :
  full_ok it8 c b -> 0 <= a < 2 ^ 32 -> 0 <= len < 2 ^ 32 ->
  let out := rndn it8 c a (bound_req1 it8 c a len) in
  fc_valid out = true -> derives it8 (full2regcap out) a c.
Proof.
  intros Hok Ha Hl. cbv zeta. intros Hv. destruct (Hok) as [Hc Hcp Hp Ho Hs].
  destruct (rndn_inside it8 c b a len Hc Ha Hl Hv) as (Hvc & Hb & Ht & Hlim).
  destruct (rndn_result it8 c c a len Ha Hl Hlim) as (Eb & Et & Hle & _).
  destruct (rndn_other_fields it8 c a (bound_req1 it8 c a len)) as (Eo & Ecp & Ers).
  split_and!; [by apply (rndn_cap_ok it8 c c b)|done|].
  unfold reg_auth, auth_of, auth_le. cbn [au_base au_top au_perms]. cbv zeta in *. rewrite Eb.
  split_and!; [lia|lia|]. cbn [reg2fullcap full2regcap fc_perms r_cperms].
  rewrite Ecp, <-Hp. reflexivity.
Qed.

(** ** What each instruction derives *)

Section Derivation.
Context (MemCapFmt it8 CheriPPLBC : bool).

(** The inputs: tagged operands are capabilities, and values have their widths. *)
Record in_ok (i : ex_in) : Prop := {
  in_a : r_valid (rf_rcap_a i) = true -> cap_ok it8 (rf_rcap_a i) (rf_rdata_a i);
  in_b : r_valid (rf_rcap_b i) = true -> cap_ok it8 (rf_rcap_b i) (rf_rdata_b i);
  in_pcc : pc_valid (pcc_cap_i i) = true -> pcc_ok it8 (pcc_cap_i i);
  in_rdata_a : 0 <= rf_rdata_a i < 2 ^ 32;
  in_rdata_b : 0 <= rf_rdata_b i < 2 ^ 32;
  in_imm12 : 0 <= cheri_imm12_i i < 2 ^ 12 }.

Local Abbreviation ex op i := (main_ex MemCapFmt it8 false CheriPPLBC op i).

Lemma addr_result_range op i : 0 <= addr_result op i < 2 ^ 32.
Proof. apply trunc_range. lia. Qed.
Lemma pc_id_nxt_range i : 0 <= pc_id_nxt i < 2 ^ 32.
Proof. apply trunc_range. lia. Qed.

(** The source of a result: the first operand or the program counter. *)
Definition from_a (i : ex_in) (o : ex_out) : Prop :=
  derives it8 (result_cap_o o) (result_data_o o) (rf_fullcap_a i).
Definition from_pcc (i : ex_in) (o : ex_out) : Prop :=
  derives it8 (result_cap_o o) (result_data_o o) (pcc2fullcap (pcc_cap_i i)).

Lemma in_a_full i : in_ok i -> r_valid (rf_rcap_a i) = true ->
  exists b, full_ok it8 (rf_fullcap_a i) b.
Proof. intros Hi Hv. destruct (cap_ok_full _ _ _ (in_a i Hi Hv)) as (b & Hb & _). by exists b. Qed.

(** A tag that survives a conjunction. *)
Lemma fc_valid_with v c : fc_valid (with_valid v c) = v.
Proof. done. Qed.

Lemma ex_set_addr_derives op i :
  in_ok i -> In op [CSET_ADDR; CINC_ADDR; CINC_ADDR_IMM; CAUIPCC; CAUICGP] ->
  r_valid (result_cap_o (ex op i)) = true ->
  if bool_decide (op = CAUIPCC) then from_pcc i (ex op i) else from_a i (ex op i).
Proof.
  intros Hi Hop Hv. pose proof (addr_result_range op i) as Hp.
  assert (exists src, setaddr1_outcap op i = set_address src (addr_result op i) false false /\
    src = (if bool_decide (op = CAUIPCC) then pcc2fullcap (pcc_cap_i i) else rf_fullcap_a i))
    as (src & Eset & Esrc).
  { unfold setaddr1_outcap. cbn [In] in Hop. destruct Hop as [<-|[<-|[<-|[<-|[<-|[]]]]]];
      cbn; by eexists. }
  assert (ex op i = ex_set_addr op i) as Eex
    by (cbn [In] in Hop; by destruct Hop as [<-|[<-|[<-|[<-|[<-|[]]]]]]).
  rewrite Eex in *. unfold ex_set_addr, from_a, from_pcc in *. cbv zeta in *.
  cbn [writes result_cap_o result_data_o] in *. rewrite Eset in *.
  cbn [full2regcap with_valid fc_valid r_valid] in Hv. apply andb_prop in Hv as [Hv _].
  pose proof (set_address_valid_src _ _ _ _ Hv) as Hsv.
  assert (exists b, full_ok it8 src b) as [b Hb].
  { subst src. case_bool_decide; [by apply (in_pcc i Hi)|by apply in_a_full]. }
  pose proof (set_address_derives it8 src b _ Hb Hp Hv) as Hd.
  clear Eex Eset. generalize dependent (set_address src (addr_result op i) false false).
  intros out Hv Hd. match goal with |- if _ then derives _ ?r ?a _ else _ =>
    assert (derives it8 r a src) as Hres; [|revert Hres; generalize r] end.
  { eapply (derives_fields it8); [exact Hd|done..| | |reflexivity]; apply (proj1 Hd). }
  intros r Hres. destruct (bool_decide (op = CAUIPCC)); rewrite <-Esrc; exact Hres.
Qed.

Lemma ex_set_bounds_derives op i :
  in_ok i -> In op [CSET_BOUNDS; CSET_BOUNDS_EX; CSET_BOUNDS_IMM; CSET_BOUNDS_RNDN] ->
  r_valid (result_cap_o (ex op i)) = true -> from_a i (ex op i).
Proof.
  intros Hi Hop Hv. pose proof (in_rdata_a i Hi) as Ha. pose proof (in_rdata_b i Hi) as Hb.
  assert (0 <= cheri_imm12_i i < 2 ^ 32) as Him by (pose proof (in_imm12 i Hi); lia).
  assert (exists len out, 0 <= len < 2 ^ 32 /\
    (out = rndn it8 (rf_fullcap_a i) (rf_rdata_a i) (bound_req1 it8 (rf_fullcap_a i) (rf_rdata_a i) len) \/
     exists exact, out = set_bounds (rf_fullcap_a i) (rf_rdata_a i)
       (bound_req1 it8 (rf_fullcap_a i) (rf_rdata_a i) len) exact) /\
    result_data_o (ex op i) = rf_rdata_a i /\
    result_cap_o (ex op i) =
      full2regcap (with_valid (fc_valid out && negb (is_cap_sealed (rf_fullcap_a i))) out))
    as (len & out & Hl & Eout & Ed & Ec).
  { cbn [In] in Hop. destruct Hop as [<-|[<-|[<-|[<-|[]]]]].
    - exists (rf_rdata_b i). eexists. split_and!; [lia|lia|right; by exists false|done|done].
    - exists (rf_rdata_b i). eexists. split_and!; [lia|lia|right; by exists true|done|done].
    - exists (cheri_imm12_i i). eexists. split_and!; [lia|lia|right; by exists false|done|done].
    - exists (rf_rdata_b i). eexists. split_and!; [lia|lia|left; done|done|done]. }
  unfold from_a. rewrite Ed, Ec in *. cbn [full2regcap with_valid fc_valid r_valid] in Hv.
  apply andb_prop in Hv as [Hv _].
  assert (r_valid (rf_rcap_a i) = true) as Hsv.
  { change (fc_valid (rf_fullcap_a i) = true). destruct Eout as [->|[exact ->]].
    - destruct (rndn_fields it8 (rf_fullcap_a i) (rf_fullcap_a i) (rf_rdata_a i) len Ha Hl) as (_ & _ & _ & _ & E).
      cbv zeta in E. rewrite Hv in E. symmetry in E. by apply andb_prop in E as [? _].
    - destruct (set_bounds_choice it8 (rf_fullcap_a i) (rf_rdata_a i) len exact Ha Hl)
        as (_ & _ & _ & _ & E & _). cbv zeta in E. rewrite Hv in E. symmetry in E.
      by apply andb_prop in E as [[? _]%andb_prop _]. }
  destruct (in_a_full i Hi Hsv) as [b Hbk].
  assert (derives it8 (full2regcap out) (rf_rdata_a i) (rf_fullcap_a i)) as Hd.
  { destruct Eout as [->|[exact ->]]; [by apply (rndn_derives _ _ b)|by apply (set_bounds_derives _ _ b)]. }
  eapply (derives_fields it8); [exact Hd|done..| | |reflexivity]; apply (proj1 Hd).
Qed.

(** Clearing the global permission. *)
Lemma global_and_le c x :
  0 <= c < 64 ->
  let p := assign_bit (expand_perms c) PERM_GL (Z.testbit (expand_perms c) PERM_GL && x) in
  0 <= compress_perms p < 64 /\ perms_le (expand_perms (compress_perms p)) (expand_perms c).
Proof.
  intros Hc. cbv zeta.
  assert (forallb (fun c => let p := assign_bit (expand_perms c) PERM_GL
      (Z.testbit (expand_perms c) PERM_GL && x) in
    (0 <=? compress_perms p) && (compress_perms p <? 64) &&
    (expand_perms (compress_perms p) .& expand_perms c =? expand_perms (compress_perms p)))
    (seqZ 0 64) = true) as H by (destruct x; by_compute).
  apply (forall_below _ 64) with (c := c) in H; [|done]. cbv zeta in H.
  apply andb_prop in H as [H1 H2%Z.eqb_eq]. split; [lia|done].
Qed.

Lemma from_a_fields i o :
  in_ok i -> r_valid (rf_rcap_a i) = true -> result_data_o o = rf_rdata_a i ->
  let r := result_cap_o o in
  let r0 := rf_rcap_a i in
  r_top_cor r = r_top_cor r0 -> r_base_cor r = r_base_cor r0 ->
  r_exp r = r_exp r0 -> r_top r = r_top r0 -> r_base r = r_base r0 -> r_rsvd r = r_rsvd r0 ->
  0 <= r_otype r < 8 -> 0 <= r_cperms r < 64 ->
  perms_le (expand_perms (r_cperms r)) (expand_perms (r_cperms r0)) ->
  from_a i o.
Proof.
  intros Hi Hv Hd r r0 **. unfold from_a. rewrite Hd.
  apply derives_reg; try done. by apply in_a.
Qed.

Lemma in_a_range i : in_ok i -> r_valid (rf_rcap_a i) = true ->
  0 <= r_otype (rf_rcap_a i) < 8 /\ 0 <= r_cperms (rf_rcap_a i) < 64.
Proof. intros Hi Hv. by destruct (in_a i Hi Hv) as [[_ _ _ _ _ ? ? _] _ _ _ _ _]. Qed.

Lemma ex_seal_derives op i :
  in_ok i -> In op [CSEAL; CUNSEAL] ->
  r_valid (result_cap_o (ex op i)) = true -> from_a i (ex op i).
Proof.
  intros Hi Hop Hv. assert (r_valid (rf_rcap_a i) = true) as Hsv.
  { cbn [In] in Hop. destruct Hop as [<-|[<-|[]]];
      apply andb_prop in Hv as [[Hv _]%andb_prop _]; exact Hv. }
  destruct (in_a_range i Hi Hsv) as [Ho Hc].
  cbn [In] in Hop. destruct Hop as [<-|[<-|[]]]; apply from_a_fields; try done.
  - apply trunc_range. lia.
  - by apply global_and_le.
  - by apply global_and_le.
Qed.

Lemma ex_and_perm_derives i :
  in_ok i -> r_valid (result_cap_o (ex CAND_PERM i)) = true -> from_a i (ex CAND_PERM i).
Proof.
  intros Hi Hv. assert (r_valid (rf_rcap_a i) = true) as Hsv
    by (apply andb_prop in Hv as [Hv _]; exact Hv).
  destruct (in_a_range i Hi Hsv) as [Ho Hc].
  pose proof (compress_and_le (fc_perms (rf_fullcap_a i)) (slice (rf_rdata_b i) 11 0)
    (expand_perms_range _ Hc) ltac:(apply trunc_range; lia)) as [Hr Hle].
  by apply from_a_fields.
Qed.

Lemma ex_jump_derives op i :
  in_ok i -> In op [CJALR; CJAL] ->
  r_valid (result_cap_o (ex op i)) = true -> from_pcc i (ex op i).
Proof.
  intros Hi Hop Hv. pose proof (pc_id_nxt_range i) as Hp.
  assert (setaddr1_outcap op i = set_address (pcc2fullcap (pcc_cap_i i)) (pc_id_nxt i) false false)
    as Eset by (cbn [In] in Hop; by destruct Hop as [<-|[<-|[]]]).
  assert (ex op i = ex_jump op i) as Eex by (cbn [In] in Hop; by destruct Hop as [<-|[<-|[]]]).
  rewrite Eex in *. unfold ex_jump, from_pcc in *. cbv zeta in *.
  cbn [result_cap_o result_data_o] in *. rewrite Eset in *.
  set (out := set_address _ _ _ _) in *.
  assert (fc_valid out = true) as Hvo by (destruct (rf_waddr_i i =? 1); exact Hv).
  destruct (in_pcc i Hi (set_address_valid_src _ _ _ _ Hvo)) as [b Hb].
  pose proof (set_address_derives it8 _ b _ Hb Hp Hvo) as Hd. fold out in Hd.
  destruct (rf_waddr_i i =? 1); [|exact Hd].
  eapply (derives_fields it8); [exact Hd|done..| | |reflexivity].
  - destruct (csr_mstatus_mie_i i); cbn [full2regcap seal_cap with_otype r_otype fc_otype];
      unfold OTYPE_SENTRY_IE_BKWD, OTYPE_SENTRY_ID_BKWD; lia.
  - apply (rr_cperms _ (ok_range _ _ _ (proj1 Hd))).
Qed.

(** A capability set from an integer has no tag. *)
Lemma ex_set_high_untagged i : in_ok i -> r_valid (result_cap_o (ex CSET_HIGH i)) = false.
Proof.
  intros Hi. pose proof (in_rdata_b i Hi) as Hb.
  assert (Z.testbit (cat [(1, 0); (32, rf_rdata_b i)]) 32 = false) as Ht
    by (apply (cat_testbit 0%nat _ 32 false); [done|done|cbn [drop]; fits_tac]).
  cbn [main_ex]. unfold ex_set_high. cbn [writes result_cap_o].
  destruct it8; unfold mem2regcap_it8_fmt0, mem2regcap_fmt0; cbv zeta; cbn [r_valid];
    by rewrite Ht.
Qed.

(** The result of every instruction but CSPECIALRW. *)
Lemma ex_result op i :
  in_ok i -> op <> CCSR_RW -> r_valid (result_cap_o (ex op i)) = true ->
  if bool_decide (In op [CAUIPCC; CJALR; CJAL]) then from_pcc i (ex op i) else from_a i (ex op i).
Proof.
  intros Hi Hop Hv. destruct op; try discriminate Hv; try done;
    rewrite ?(ex_set_high_untagged i Hi) in Hv; try discriminate Hv;
    first [rewrite bool_decide_eq_true_2 by (cbn; tauto) |
           rewrite bool_decide_eq_false_2 by (cbn; intuition discriminate)].
  - by apply ex_seal_derives; [|left|].
  - by apply ex_seal_derives; [|right; left|].
  - by apply ex_and_perm_derives.
  - by apply (ex_set_addr_derives CSET_ADDR); [|left|].
  - by apply (ex_set_addr_derives CINC_ADDR); [|right; left|].
  - by apply (ex_set_addr_derives CINC_ADDR_IMM); [|do 2 right; left|].
  - by apply ex_set_bounds_derives; [|left|].
  - by apply ex_set_bounds_derives; [|right; left|].
  - by apply ex_set_bounds_derives; [|do 2 right; left|].
  - unfold from_a. by apply derives_refl; [apply in_a|].
  - by apply ex_jump_derives; [|left|].
  - by apply ex_jump_derives; [|right; left|].
  - by apply (ex_set_addr_derives CAUIPCC); [|do 3 right; left|].
  - by apply (ex_set_addr_derives CAUICGP); [|do 4 right; left|].
  - by apply ex_set_bounds_derives; [|do 3 right; left|].
Qed.

(** What is written to a special capability register. *)
Lemma slice_low_zero x k : 0 <= x < 2 ^ 32 -> 1 <= k <= 2 ->
  any (slice x (k - 1) 0) = false -> slice x 31 k << k = x.
Proof.
  intros Hx Hk H. unfold any in H. apply negb_false_iff, Z.eqb_eq in H.
  rewrite slice_low in H. replace (k - 1 + 1) with k in H by lia.
  rewrite slice_div, Z.shiftl_mul_pow2 by lia. apply Z.div_exact in H; [|lia].
  assert (0 <= x / 2 ^ k < 2 ^ (31 - k + 1)) as Hr.
  { split; [apply Z.div_pos; lia|]. apply Z.div_lt_upper_bound; [lia|].
    rewrite <-Z.pow_add_r by lia. replace (k + (31 - k + 1)) with 32 by lia. lia. }
  rewrite Z.mod_small by done. lia.
Qed.

Lemma scr_wcap_derives i :
  in_ok i -> r_valid (scr_wcap CCSR_RW i) = true ->
  derives it8 (scr_wcap CCSR_RW i) (scr_wdata i) (rf_fullcap_a i).
Proof.
  intros Hi Hv. pose proof (in_rdata_a i Hi) as Ha.
  unfold scr_wcap, scr_wdata, scr_legalization in *.
  destruct (_ || _) eqn:El.
  - cbn [reg_with_valid r_valid] in Hv. destruct (_ || _) eqn:Eb in Hv; [done|].
    apply orb_false_iff in Eb as [[Elow _]%orb_false_iff _].
    assert ((if cheri_cs2_dec_i i =? CHERI_SCR_MTCC then slice (rf_rdata_a i) 31 2 << 2
      else if cheri_cs2_dec_i i =? CHERI_SCR_MEPCC then slice (rf_rdata_a i) 31 1 << 1
      else rf_rdata_a i) = rf_rdata_a i) as Ew.
    { destruct (cheri_cs2_dec_i i =? CHERI_SCR_MTCC); [by apply (slice_low_zero _ 2)|].
      destruct (cheri_cs2_dec_i i =? CHERI_SCR_MEPCC); [by apply (slice_low_zero _ 1)|done]. }
    rewrite Ew. pose proof (in_a i Hi Hv) as Hok.
    assert (setaddr1_outcap CCSR_RW i = set_address (rf_fullcap_a i) (rf_rdata_a i) false false) as Es.
    { unfold setaddr1_outcap, scr_legalization, scr_wdata. by rewrite El, Ew. }
    rewrite Es.
    destruct (set_address_fields (rf_fullcap_a i) (rf_rdata_a i) false false)
      as (Ee & ET & EB & Eo & Ecp & Ers & _ & Ec).
    destruct (in_a_range i Hi Hv) as [Ho Hc]. revert Ee ET EB Eo Ecp Ers Ec.
    generalize (set_address (rf_fullcap_a i) (rf_rdata_a i) false false).
    cbn [rf_fullcap_a reg2fullcap fc_exp fc_top fc_base fc_otype fc_cperms fc_rsvd].
    intros out Ee ET EB Eo Ecp Ers Ec. rewrite <-(ok_cors _ _ _ Hok) in Ec.
    injection Ec as Et1 Eb1.
    apply (derives_reg it8 _ (rf_rcap_a i)); [exact Hok|exact Hv|..];
      cbn [reg_with_valid full2regcap r_top_cor r_base_cor r_exp r_top r_base r_rsvd r_otype r_cperms].
    1-6: assumption.
    1,2: rewrite ?Eo, ?Ecp; assumption.
    rewrite Ecp. reflexivity.
  - apply orb_false_iff in El as [-> ->]. by apply derives_refl; [apply in_a|].
Qed.

(** *** Checks *)

Lemma vio_any l : Forall (fun kb => 0 <= kb.1) l -> any (vio l) = existsb snd l.
Proof.
  induction 1 as [|[k b] l Hk _ IH]; [done|]. cbn [vio foldr existsb fst snd] in *.
  fold (vio l) in *. rewrite <-IH. unfold any, setb. rewrite Z.shiftl_mul_pow2 by done.
  destruct b; cbn [Z.b2z orb].
  - apply negb_true_iff, Z.eqb_neq. intros [H _]%Z.lor_eq_0_iff. lia.
  - by rewrite Z.mul_0_l, Z.lor_0_l.
Qed.

(** No violation, bit by bit. *)
Lemma vio_none l : Forall (fun kb => 0 <= kb.1) l -> any (vio l) = false ->
  Forall (fun kb => kb.2 = false) l.
Proof.
  intros Hl. rewrite vio_any by done. intros H. induction Hl as [|[k b] l Hk _ IH]; [constructor|].
  cbn [existsb snd] in H. apply orb_false_iff in H as [H1 H2]. constructor; [done|by apply IH].
Qed.
End Derivation.

Ltac vio_clear H :=
  apply vio_none in H; [|by repeat constructor];
  repeat match type of H with Forall _ (_ :: _) =>
    let H1 := fresh H in apply Forall_cons in H as [H1 H]; cbn [fst snd] in H1 end;
  clear H.

(** ** Memory accesses *)

Section Access.
Context (it8 : bool) (i : ex_in).
Hypothesis Hpmode : cheri_pmode_i i = true.
Hypothesis Hdebug : debug_mode_i i = false.
Hypothesis Ha : r_valid (rf_rcap_a i) = true -> cap_ok it8 (rf_rcap_a i) (rf_rdata_a i).

(** The first operand permits an access of [size] bytes at [addr] with permission
    [p]. *)
Record permits (p addr size : Z) : Prop := {
  pm_tag : fc_valid (rf_fullcap_a i) = true;
  pm_unsealed : is_cap_sealed (rf_fullcap_a i) = false;
  pm_perm : perm_a i p = true;
  pm_base : fc_base32 (rf_fullcap_a i) <= addr;
  pm_top : addr + size <= fc_top33 (rf_fullcap_a i) }.

Lemma full_a_bounds : fc_valid (rf_fullcap_a i) = true ->
  0 <= fc_base32 (rf_fullcap_a i) < 2 ^ 32 /\ 0 <= fc_top33 (rf_fullcap_a i) <= 2 ^ 32.
Proof.
  intros Hv. destruct (cap_ok_full _ _ _ (Ha Hv)) as (b & [[_ _ Hr Eb Et] _ _ _ _] & _).
  apply region_bounds in Hr. unfold rf_fullcap_a in *. rewrite Eb, Et. lia.
Qed.

Lemma clear_low3 x : 0 <= x < 2 ^ 32 -> slice x 31 3 << 3 = x / 8 * 8.
Proof.
  intros Hx. rewrite slice_div, Z.shiftl_mul_pow2 by lia. change (31 - 3 + 1) with 29.
  change (2 ^ 3) with 8. rewrite Z.mod_small; [lia|].
  split; [apply Z.div_pos; lia|apply Z.div_lt_upper_bound; lia].
Qed.
Lemma clear_low3_33 x : 0 <= x < 2 ^ 33 -> slice x 32 3 << 3 = x / 8 * 8.
Proof.
  intros Hx. rewrite slice_div, Z.shiftl_mul_pow2 by lia. change (32 - 3 + 1) with 30.
  change (2 ^ 3) with 8. rewrite Z.mod_small; [lia|].
  split; [apply Z.div_pos; lia|apply Z.div_lt_upper_bound; lia].
Qed.

Lemma cs1_addr_range op : 0 <= cs1_addr_plusimm op i < 2 ^ 32.
Proof. apply trunc_range. lia. Qed.

Lemma cap_access_bounds op : In op [CLOAD_CAP; CSTORE_CAP] ->
  fc_valid (rf_fullcap_a i) = true -> addr_bound_vio op i = false ->
  any (slice (cs1_addr_plusimm op i) 2 0) = false ->
  let addr := cs1_addr_plusimm op i in
  addr mod 8 = 0 /\ fc_base32 (rf_fullcap_a i) <= addr /\ addr + 8 <= fc_top33 (rf_fullcap_a i).
Proof.
  intros Hop Hv Hb Hal. cbv zeta. pose proof (cs1_addr_range op) as Hr.
  destruct (full_a_bounds Hv) as [Hbase Htop].
  assert (cs1_addr_plusimm op i mod 8 = 0) as Hm.
  { unfold any in Hal. apply negb_false_iff, Z.eqb_eq in Hal. by rewrite slice_low in Hal. }
  set (addr := cs1_addr_plusimm op i) in *. assert (addr / 8 * 8 = addr) as Hd.
  { pose proof (Z.div_mod addr 8). lia. }
  assert (addr_bound_vio op i =
    (slice (fc_top33 (rf_fullcap_a i)) 32 3 << 3 <? slice addr 31 3 << 3) ||
    (addr <? fc_base32 (rf_fullcap_a i)) ||
    (slice addr 31 3 << 3 =? slice (fc_top33 (rf_fullcap_a i)) 32 3 << 3)) as Ev.
  { unfold addr_bound_vio. rewrite Hdebug. cbn [In] in Hop. by destruct Hop as [<-|[<-|[]]]. }
  rewrite Ev, clear_low3, clear_low3_33, Hd in Hb by lia. clear Ev.
  apply orb_false_iff in Hb as [[H1 H2]%orb_false_iff H3].
  pose proof (Z.div_mod (fc_top33 (rf_fullcap_a i)) 8 ltac:(lia)).
  pose proof (Z.mod_pos_bound (fc_top33 (rf_fullcap_a i)) 8 ltac:(lia)). lia.
Qed.

Lemma no_lsu_err op : cheri_lsu_err op i = false ->
  addr_bound_vio op i = false /\ any (perm_vio_vec op i) = false.
Proof.
  unfold cheri_lsu_err, perm_vio. rewrite Hpmode, Hdebug. cbn [andb negb].
  intros [[H1 H2]%orb_false_iff _]%orb_false_iff. done.
Qed.

Lemma load_cap_permits : cheri_lsu_err CLOAD_CAP i = false ->
  cs1_addr_plusimm CLOAD_CAP i mod 8 = 0 /\ permits PERM_LD (cs1_addr_plusimm CLOAD_CAP i) 8.
Proof.
  intros [Hb Hp]%no_lsu_err. unfold perm_vio_vec in Hp. vio_clear Hp.
  rewrite !negb_false_iff in *.
  destruct (cap_access_bounds CLOAD_CAP) as (? & ? & ?); [by left|done..|]. by split.
Qed.

Lemma store_cap_permits : cheri_lsu_err CSTORE_CAP i = false ->
  cs1_addr_plusimm CSTORE_CAP i mod 8 = 0 /\ permits PERM_SD (cs1_addr_plusimm CSTORE_CAP i) 8.
Proof.
  intros [Hb Hp]%no_lsu_err. unfold perm_vio_vec in Hp. vio_clear Hp.
  rewrite !negb_false_iff in *.
  destruct (cap_access_bounds CSTORE_CAP) as (? & ? & ?); [by right; left|done..|]. by split.
Qed.

(** An RV32 access that is not the second half of an unaligned one. *)
Lemma any_slice_low x hi lo : 0 <= lo <= hi + 1 -> 0 <= x < 2 ^ (hi + 1) ->
  any (slice x hi lo) = (2 ^ lo <=? x).
Proof.
  intros Hlo Hx. rewrite slice_div by lia.
  pose proof (Z.pow_pos_nonneg 2 lo ltac:(lia) ltac:(lia)) as Hp.
  rewrite Z.mod_small.
  2: { split; [apply Z.div_pos; lia|]. apply Z.div_lt_upper_bound; [lia|].
       rewrite <-Z.pow_add_r by lia. replace (lo + (hi - lo + 1)) with (hi + 1) by lia. lia. }
  unfold any. destruct (Z.leb_spec (2 ^ lo) x).
  - apply negb_true_iff, Z.eqb_neq. enough (1 <= x / 2 ^ lo) by lia.
    apply Z.div_le_lower_bound; lia.
  - rewrite Z.div_small by lia. done.
Qed.

Lemma rv32_permits lsu_type lsu_we addr :
  0 <= addr < 2 ^ 32 -> rv32_lsu_err i lsu_type lsu_we addr false = false ->
  permits (if lsu_we then PERM_SD else PERM_LD) addr (rv32_size lsu_type).
Proof.
  intros Haddr. unfold rv32_lsu_err. rewrite Hpmode, Hdebug. cbn [andb negb].
  intros [Hb Hp]%orb_false_iff. unfold perm_vio_vec_rv32 in Hp. vio_clear Hp.
  apply negb_false_iff in Hp0. destruct (full_a_bounds Hp0) as [Hbase Htop].
  unfold addr_bound_vio_rv32 in Hb. rewrite andb_true_r in Hb.
  apply orb_false_iff in Hb as [[H1 H2]%orb_false_iff H3]. apply negb_false_iff in H2.
  assert (rv32_size lsu_type <= fc_top33 (rf_fullcap_a i) /\ 0 < rv32_size lsu_type) as [Hs Hs0].
  { unfold rv32_size. destruct (lsu_type =? 0), (lsu_type =? 1);
      rewrite any_slice_low in H2 by lia; lia. }
  rewrite trunc_small in H1 by lia.
  split; [done|done| |lia|lia].
  destruct lsu_we; cbn [andb negb] in *; by apply negb_false_iff.
Qed.
End Access.

(** ** Jumps *)

(** A full capability as the program counter keeps its authority. *)
Lemma full2pcap_ok it8 c b : full_ok it8 c b ->
  pcc_ok it8 (full2pcap c) /\ auth_of (pcc2fullcap (full2pcap c)) = auth_of c.
Proof.
  intros [Hr Hcp Hp Ho Hs]. split; [|done].
  exists b. split; [by apply pcc2fullcap_region|done..].
Qed.

Lemma unseal_full_ok it8 c b : full_ok it8 c b -> full_ok it8 (unseal_cap c) b.
Proof. intros [[? ? ? ? ?] Hcp Hp Ho Hs]. split; try done. Qed.

Section Jump.
Context (MemCapFmt it8 CheriPPLBC : bool) (i : ex_in).
Hypothesis Hi : in_ok it8 i.

Local Abbreviation jump := (o_branch (main_ex MemCapFmt it8 false CheriPPLBC CJALR i)).

Lemma jump_cap :
  branch_req jump = true ->
  fc_valid (rf_fullcap_a i) = true /\ perm_a i PERM_EX = true /\
  (is_cap_sealed (rf_fullcap_a i) = true -> cheri_imm12_i i = 0) /\
  pcc_ok it8 (pcc_cap_o jump) /\
  auth_of (pcc2fullcap (pcc_cap_o jump)) = auth_of (rf_fullcap_a i).
Proof.
  cbn [main_ex ex_jump o_branch branch_req pcc_cap_o]. rewrite andb_true_r.
  unfold perm_vio. intros Hp%negb_true_iff. unfold perm_vio_vec in Hp. vio_clear Hp.
  rewrite !negb_false_iff in *. apply orb_false_iff in Hp1 as [Hs _].
  destruct (in_a_full it8 i Hi Hp0) as [b Hb].
  destruct (full2pcap_ok _ _ _ (unseal_full_ok _ _ _ Hb)) as [Hok Hle].
  split_and!; try done.
  intros Hsl. rewrite Hsl in Hs. unfold any in Hs. cbn [andb] in Hs.
  by apply negb_false_iff, Z.eqb_eq in Hs.
Qed.
End Jump.

(** ** Sealed capabilities *)

Section Sealed.
Context (MemCapFmt it8 CheriPPLBC : bool) (i : ex_in).
Hypothesis Hdebug : debug_mode_i i = false.

Local Abbreviation ex op := (main_ex MemCapFmt it8 false CheriPPLBC op i).

(** The second operand gives authority over an object type. *)
Record may_type (p otype : Z) : Prop := {
  may_tag : fc_valid (rf_fullcap_b i) = true;
  may_unsealed : is_cap_sealed (rf_fullcap_b i) = false;
  may_perm : perm_b i p = true;
  may_base : fc_base32 (rf_fullcap_b i) <= otype;
  may_top : otype < fc_top33 (rf_fullcap_b i) }.

(** The address of a sealing capability is an object type of the capability it
    seals. *)
Lemma good_type (b : Z) (px : bool) : 0 <= b < 2 ^ 32 ->
  (if px then any (slice b 31 3) || (slice b 2 0 =? 0)
   else any (slice b 31 4) || (slice b 3 0 <=? 8)) = false ->
  decode_otype (slice b 2 0) px = b.
Proof.
  intros Hb H. destruct px; apply orb_false_iff in H as [H1 H2].
  - rewrite any_slice_low in H1 by lia. rewrite slice_low, Z.mod_small by lia. done.
  - rewrite any_slice_low in H1 by lia. rewrite slice_low in H2. rewrite Z.mod_small in H2 by lia.
    assert (b = 9 \/ b = 10 \/ b = 11 \/ b = 12 \/ b = 13 \/ b = 14 \/ b = 15)
      as [->|[->|[->|[->|[->|[->| ->]]]]]] by lia; done.
Qed.

Lemma seal_bounds op (x : Z) : (op = CSEAL /\ x = rf_rdata_b i \/
    op = CUNSEAL /\ x = decode_otype (fc_otype (rf_fullcap_a i)) (perm_a i PERM_EX)) ->
  addr_bound_vio op i = false ->
  fc_base32 (rf_fullcap_b i) <= x < fc_top33 (rf_fullcap_b i).
Proof.
  intros Hop. unfold addr_bound_vio. rewrite Hdebug.
  destruct Hop as [[-> ->]|[-> ->]]; intros [[H1 H2]%orb_false_iff H3]%orb_false_iff; lia.
Qed.

Lemma ex_seal_valid op : In op [CSEAL; CUNSEAL] -> r_valid (result_cap_o (ex op)) = true ->
  fc_valid (rf_fullcap_a i) = true /\ addr_bound_vio op i = false /\
  any (perm_vio_vec op i) = false.
Proof.
  cbn [In]. intros [<-|[<-|[]]] H;
    apply andb_prop in H as [[H1 H2%negb_true_iff]%andb_prop H3%negb_true_iff]; done.
Qed.

Lemma seal_valid : 0 <= rf_rdata_b i < 2 ^ 32 ->
  r_valid (result_cap_o (ex CSEAL)) = true ->
  is_cap_sealed (rf_fullcap_a i) = false /\ may_type PERM_SE (rf_rdata_b i) /\
  decode_otype (r_otype (result_cap_o (ex CSEAL))) (perm_a i PERM_EX) = rf_rdata_b i.
Proof.
  intros Hb Hv. destruct (ex_seal_valid CSEAL) as (Hva & Hbd & Hp); [by left|done|].
  unfold perm_vio_vec in Hp. vio_clear Hp.
  apply orb_false_iff in Hp1 as [[[Hsa Hsb]%orb_false_iff Hse]%orb_false_iff Hty].
  apply negb_false_iff in Hp0, Hse.
  destruct (seal_bounds CSEAL (rf_rdata_b i)) as [H1 H2]; [by left|done|].
  split_and!; [done|done|]. by apply good_type.
Qed.

Lemma unseal_valid : r_valid (result_cap_o (ex CUNSEAL)) = true ->
  is_cap_sealed (rf_fullcap_a i) = true /\
  may_type PERM_US (decode_otype (fc_otype (rf_fullcap_a i)) (perm_a i PERM_EX)).
Proof.
  intros Hv. destruct (ex_seal_valid CUNSEAL) as (Hva & Hbd & Hp); [by right; left|done|].
  unfold perm_vio_vec in Hp. vio_clear Hp.
  apply orb_false_iff in Hp1 as [[Hsa Hsb]%orb_false_iff Hse].
  apply negb_false_iff in Hp0, Hse, Hsa.
  destruct (seal_bounds CUNSEAL (decode_otype (fc_otype (rf_fullcap_a i)) (perm_a i PERM_EX)))
    as [H1 H2]; [by right|done|]. by split.
Qed.

(** The same capability, but for its permissions. *)
Definition same_but_perms (r c : reg_cap_t) : Prop :=
  r_valid r = r_valid c /\ r_otype r = r_otype c /\ r_exp r = r_exp c /\ r_top r = r_top c /\
  r_base r = r_base c /\ r_top_cor r = r_top_cor c /\ r_base_cor r = r_base_cor c /\
  r_rsvd r = r_rsvd c.

(** Masking all permissions but global keeps them. *)
Lemma mask_but_global c m : 0 <= c < 64 -> assign_bit (slice m 11 0) PERM_GL true = Z.ones 12 ->
  let c' := compress_perms (expand_perms c .& slice m 11 0) in
  expand_perms c' = expand_perms c \/ expand_perms c' = Z.clearbit (expand_perms c) PERM_GL.
Proof.
  intros Hc Hm. cbv zeta. set (x := slice m 11 0) in *.
  assert (0 <= x < 2 ^ 12) as Hx by (apply trunc_range; lia). clearbody x.
  assert (x = Z.ones 12 \/ x = Z.clearbit (Z.ones 12) 0) as [-> | ->].
  { unfold assign_bit, PERM_GL in Hm. destruct (Z.testbit x 0) eqn:H0; [left|right; rewrite <-Hm];
      apply Z.bits_inj'; intros n Hn; rewrite <-?Hm, ?Z.clearbit_eqb, Z.setbit_eqb by lia;
      destruct (Z.eqb_spec 0 n) as [<-|]; cbn [orb negb];
      rewrite ?orb_true_l, ?andb_false_r, ?andb_true_r; done. }
  - left. apply (eq_below (fun c => expand_perms (compress_perms (expand_perms c .& Z.ones 12)))
      expand_perms 64); [by_compute|done].
  - right. apply (eq_below (fun c => expand_perms (compress_perms
      (expand_perms c .& Z.clearbit (Z.ones 12) 0))) (fun c => Z.clearbit (expand_perms c) 0) 64);
      [by_compute|done].
Qed.

(** The instructions whose tagged result is, or comes from, a sealed operand. *)
Lemma set_addr_sealed op : op <> CAUIPCC -> is_cap_sealed (rf_fullcap_a i) = true ->
  r_valid (result_cap_o (ex_set_addr op i)) = false.
Proof.
  intros Hop Hs. unfold ex_set_addr. cbv zeta.
  cbn [writes result_cap_o full2regcap with_valid r_valid fc_valid].
  rewrite Hs, bool_decide_eq_false_2 by done. apply andb_false_r.
Qed.
Lemma set_bounds_sealed op : is_cap_sealed (rf_fullcap_a i) = true ->
  r_valid (result_cap_o (ex_set_bounds it8 false op i)) = false.
Proof.
  intros Hs. unfold ex_set_bounds. cbv zeta. rewrite Hs, andb_false_r. by destruct op.
Qed.

Lemma sealed_result op :
  in_ok it8 i -> is_cap_sealed (rf_fullcap_a i) = true ->
  ~ In op [CUNSEAL; CJALR; CJAL; CAUIPCC; CCSR_RW] ->
  r_valid (result_cap_o (ex op)) = true -> op = CAND_PERM \/ op = CMOVE_CAP.
Proof.
  intros Hi Hs Hop Hv.
  destruct op; try discriminate Hv; try (exfalso; apply Hop; cbn; tauto); try tauto; exfalso.
  1: destruct (seal_valid (in_rdata_b _ _ Hi) Hv); congruence.
  7: rewrite ex_set_high_untagged in Hv by done; discriminate.
  all: cbn [main_ex] in Hv; rewrite ?set_addr_sealed, ?set_bounds_sealed in Hv by done;
    discriminate.
Qed.
End Sealed.

(** ** Theorems *)

Section Theorems.
Context (MemCapFmt it8 CheriPPLBC : bool).

Local Abbreviation ex op i := (main_ex MemCapFmt it8 false CheriPPLBC op i).

(** What is stored is the second operand, perhaps without its tag. *)
Lemma csc_wcap_derives op i : in_ok it8 i -> r_valid (csc_wcap (ex op i)) = true ->
  derives it8 (csc_wcap (ex op i)) (rf_rdata_b i) (rf_fullcap_b i).
Proof.
  intros Hi Hv. assert (op = CSTORE_CAP) as ->.
  { unfold main_ex in Hv. destruct op; try done;
      unfold ex_get_high, integer, writes, ex_seal, ex_and_perm, ex_set_high, ex_set_addr,
        ex_set_bounds, ex_load, ex_csr_rw, ex_jump in Hv; cbn [csc_wcap] in Hv; try done.
    by destruct (_ =? _) in Hv. }
  cbn [main_ex ex_store csc_wcap] in *. cbn [reg_with_valid r_valid] in Hv.
  apply andb_prop in Hv as [Hvb _]. pose proof (in_b it8 i Hi Hvb) as Hok.
  destruct (ok_range _ _ _ Hok). by apply derives_reg.
Qed.

Lemma csr_wcap_derives op i : in_ok it8 i -> csr_op_en (o_csr (ex op i)) = true ->
  r_valid (csr_wcap_o (o_csr (ex op i))) = true ->
  derives it8 (csr_wcap_o (o_csr (ex op i))) (csr_wdata_o (o_csr (ex op i))) (rf_fullcap_a i).
Proof.
  intros Hi He Hv. assert (op = CCSR_RW) as -> by (destruct op; done).
  cbn [main_ex] in *. unfold ex_csr_rw in *.
  destruct (cheri_cs2_dec_i i =? CHERI_SCR_ZTOPC); cbn [o_csr csr_wcap_o csr_wdata_o] in *;
    by apply scr_wcap_derives.
Qed.

(** CANDPERM of a sealed operand, and what CSPECIALRW writes of one. *)
Lemma and_perm_sealed i : in_ok it8 i -> is_cap_sealed (rf_fullcap_a i) = true ->
  let r := result_cap_o (ex CAND_PERM i) in
  r_valid r = true ->
  same_but_perms r (rf_rcap_a i) /\
  (expand_perms (r_cperms r) = fc_perms (rf_fullcap_a i) \/
   expand_perms (r_cperms r) = Z.clearbit (fc_perms (rf_fullcap_a i)) PERM_GL).
Proof.
  intros Hi Hs. cbv zeta. intros Hv. cbn [main_ex] in *. unfold ex_and_perm in *. cbv zeta in *.
  cbn [writes result_cap_o] in *.
  cbn [full2regcap with_valid with_perms r_valid fc_valid r_cperms fc_cperms] in *.
  apply andb_prop in Hv as [Hva Hm]. rewrite Hs in Hm. cbn [negb orb] in Hm.
  destruct (in_a_range it8 i Hi Hva) as [_ Hc].
  split; [|by apply mask_but_global, Z.eqb_eq].
  split; [|done]. cbn [r_valid]. by rewrite Hva, Hs, Hm.
Qed.

Lemma csr_wcap_sealed op i : is_cap_sealed (rf_fullcap_a i) = true ->
  csr_op_en (o_csr (ex op i)) = true -> r_valid (csr_wcap_o (o_csr (ex op i))) = true ->
  csr_wcap_o (o_csr (ex op i)) = rf_rcap_a i /\ csr_wdata_o (o_csr (ex op i)) = rf_rdata_a i.
Proof.
  intros Hs He. assert (op = CCSR_RW) as -> by (destruct op; done).
  assert (any (fc_otype (rf_fullcap_a i)) = true) as Ho.
  { exact Hs. }
  assert (r_valid (scr_wcap CCSR_RW i) = true ->
    scr_wcap CCSR_RW i = rf_rcap_a i /\ scr_wdata i = rf_rdata_a i) as H.
  { unfold scr_wcap, scr_wdata, scr_legalization. rewrite Ho, !orb_true_r.
    by destruct (_ =? _), (_ =? _). }
  cbn [main_ex]. unfold ex_csr_rw.
  by destruct (cheri_cs2_dec_i i =? CHERI_SCR_ZTOPC).
Qed.

Lemma branch_is_jalr op i : branch_req (o_branch (ex op i)) = true -> op = CJALR.
Proof.
  unfold main_ex. destruct op; try done;
    unfold ex_get_high, integer, writes, ex_seal, ex_and_perm, ex_set_high, ex_set_addr,
      ex_set_bounds, ex_load, ex_csr_rw, ex_jump; try done;
    cbn [o_branch branch_req]; rewrite ?andb_false_r; try done; by destruct (_ =? _).
Qed.

(** C6 (safety: monotonicity of the instructions).  Every capability an
    instruction can produce is well formed and covers at most the addresses, with
    at most the permissions, of an operand that has a tag: the result register, the
    special capability register written, the program-counter capability of a jump
    and the capability stored.  (CSPECIALRW returns the old value of the register.) *)
Theorem instruction_monotone (op : cheri_op_e) (i : ex_in) :
  in_ok it8 i ->
  let o := ex op i in
  let source := if bool_decide (In op [CAUIPCC; CJALR; CJAL]) then pcc2fullcap (pcc_cap_i i)
                else rf_fullcap_a i in
  (op <> CCSR_RW -> r_valid (result_cap_o o) = true ->
   derives it8 (result_cap_o o) (result_data_o o) source) /\
  (csr_op_en (o_csr o) = true -> r_valid (csr_wcap_o (o_csr o)) = true ->
   derives it8 (csr_wcap_o (o_csr o)) (csr_wdata_o (o_csr o)) (rf_fullcap_a i)) /\
  (branch_req (o_branch o) = true ->
   fc_valid (rf_fullcap_a i) = true /\ perm_a i PERM_EX = true /\
   pcc_ok it8 (pcc_cap_o (o_branch o)) /\
   auth_of (pcc2fullcap (pcc_cap_o (o_branch o))) = auth_of (rf_fullcap_a i)) /\
  (r_valid (csc_wcap o) = true ->
   derives it8 (csc_wcap o) (rf_rdata_b i) (rf_fullcap_b i)).
Proof.
  intros Hi. cbv zeta. split_and!.
  - intros Hop Hv. pose proof (ex_result MemCapFmt it8 CheriPPLBC op i Hi Hop Hv) as H.
    by destruct (bool_decide _).
  - by apply csr_wcap_derives.
  - intros Hb. pose proof (branch_is_jalr op i Hb) as ->.
    by destruct (jump_cap MemCapFmt it8 CheriPPLBC i Hi Hb) as (? & ? & _ & ? & ?).
  - by apply csc_wcap_derives.
Qed.

(** C19 (safety: sealed capabilities).  While the first operand is sealed:
    a tagged result of an instruction other than CUNSEAL, a jump, AUIPCC and CSPECIALRW
    (the results of the last three do not come from the operand) is the operand at its
    address, with its permissions or, for CANDPERM only, those without the global one;
    and what a special capability register or ztop is written with is the operand at
    its address, or has no tag. *)
Theorem sealed_immutable (op : cheri_op_e) (i : ex_in) :
  in_ok it8 i -> debug_mode_i i = false -> is_cap_sealed (rf_fullcap_a i) = true ->
  let o := ex op i in
  let r := result_cap_o o in
  let csr := o_csr o in
  (~ In op [CUNSEAL; CJALR; CJAL; CAUIPCC; CCSR_RW] -> r_valid r = true ->
   result_data_o o = rf_rdata_a i /\
   (r = rf_rcap_a i \/
    op = CAND_PERM /\ same_but_perms r (rf_rcap_a i) /\
    (expand_perms (r_cperms r) = fc_perms (rf_fullcap_a i) \/
     expand_perms (r_cperms r) = Z.clearbit (fc_perms (rf_fullcap_a i)) PERM_GL))) /\
  (csr_op_en csr = true -> r_valid (csr_wcap_o csr) = true ->
   csr_wcap_o csr = rf_rcap_a i /\ csr_wdata_o csr = rf_rdata_a i) /\
  (ztop_wr (o_ztop o) = true ->
   ztop_wfcap_o (o_ztop o) = rf_fullcap_a i /\ ztop_wdata_o (o_ztop o) = rf_rdata_a i).
Proof.
  intros Hi Hd Hs. cbv zeta. split_and!.
  - intros Hop Hv.
    destruct (sealed_result MemCapFmt it8 CheriPPLBC i Hd op Hi Hs Hop Hv) as [->| ->];
      [|by split; [|left]].
    destruct (and_perm_sealed _ Hi Hs Hv) as [H1 H2]. split; [done|by right].
  - by apply csr_wcap_sealed.
  - intros Hz. assert (op = CCSR_RW) as ->
      by (destruct op; try done; cbn [main_ex] in Hz; unfold ex_seal, ex_store in Hz;
          repeat case_match; done).
    cbn [main_ex] in *. unfold ex_csr_rw in *.
    by destruct (cheri_cs2_dec_i i =? CHERI_SCR_ZTOPC).
Qed.

(** C20 (safety: authority to seal and unseal).  A tagged result of CSEAL has the
    object type at the address of the second operand, which must be tagged, unsealed,
    within its bounds and permit sealing; the first operand was unsealed.  CUNSEAL
    needs the same authority, with permission to unseal, over the type of the sealed
    first operand. *)
Theorem sealing_authority (i : ex_in) :
  in_ok it8 i -> debug_mode_i i = false ->
  (r_valid (result_cap_o (ex CSEAL i)) = true ->
   is_cap_sealed (rf_fullcap_a i) = false /\ may_type i PERM_SE (rf_rdata_b i) /\
   decode_otype (r_otype (result_cap_o (ex CSEAL i))) (perm_a i PERM_EX) = rf_rdata_b i) /\
  (r_valid (result_cap_o (ex CUNSEAL i)) = true ->
   is_cap_sealed (rf_fullcap_a i) = true /\ r_otype (result_cap_o (ex CUNSEAL i)) = 0 /\
   may_type i PERM_US (decode_otype (fc_otype (rf_fullcap_a i)) (perm_a i PERM_EX))).
Proof.
  intros Hi Hd. split; intros Hv.
  - by apply (seal_valid MemCapFmt it8 CheriPPLBC i Hd (in_rdata_b _ _ Hi)).
  - by destruct (unseal_valid MemCapFmt it8 CheriPPLBC i Hd Hv).
Qed.

(** C18 (safety: memory accesses).  A capability load or store that the checks let
    through is aligned to eight bytes; for it and for every RV32 load or store, the
    addressing capability is tagged, unsealed and permits the access, and every byte
    of the access is inside the bounds.  (The second half of an unaligned RV32 access is
    covered by the check of the first, which has the size of both.) *)
Theorem access_in_bounds (i : ex_in) :
  in_ok it8 i -> cheri_pmode_i i = true -> debug_mode_i i = false ->
  (forall op p, In (op, p) [(CLOAD_CAP, PERM_LD); (CSTORE_CAP, PERM_SD)] ->
   cheri_lsu_err op i = false ->
   cs1_addr_plusimm op i mod 8 = 0 /\ permits i p (cs1_addr_plusimm op i) 8) /\
  (forall lsu_type (lsu_we : bool) addr, 0 <= addr < 2 ^ 32 ->
   rv32_lsu_err i lsu_type lsu_we addr false = false ->
   permits i (if lsu_we then PERM_SD else PERM_LD) addr (rv32_size lsu_type)).
Proof.
  intros Hi Hp Hd. pose proof (in_a it8 i Hi) as Ha. split.
  - intros op p [[= <- <-]|[[= <- <-]|[]]] He.
    + by apply (load_cap_permits it8).
    + by apply (store_cap_permits it8).
  - intros lsu_type lsu_we addr Haddr He. by apply (rv32_permits it8).
Qed.
End Theorems.

(** *** Witnesses *)

(** Two operands, with the reset values elsewhere. *)
Definition operands (ca : reg_cap_t) (a : Z) (cb : reg_cap_t) (b : Z) : ex_in :=
  ExIn true false false false true 10 a ca b cb 11 PCC_RESET_CAP 0x80 false 0 0 0 0
    0 NULL_REG_CAP false 0xaa55 NULL_REG_CAP (BoundReq 0 0 0 0 0 false) false.

Lemma reset_full_ok it8 : full_ok it8 (pcc2fullcap PCC_RESET_CAP) 0.
Proof. split; [apply pcc_reset_region|done|by_compute|done|done]. Qed.

Lemma operands_ok it8 ca a cb b :
  cap_ok it8 ca a -> cap_ok it8 cb b -> in_ok it8 (operands ca a cb b).
Proof.
  intros Ha Hb. split; cbn [operands rf_rcap_a rf_rdata_a rf_rcap_b rf_rdata_b pcc_cap_i
    cheri_imm12_i]; try done.
  - intros _. exists 0. apply reset_full_ok.
  - apply (ok_addr _ _ _ Ha).
  - apply (ok_addr _ _ _ Hb).
Qed.

(** The data root with bounds, and sealed. *)
Definition bounded (a len : Z) : reg_cap_t :=
  full2regcap (set_bounds (reg2fullcap MTDC_RESET_CAP a) a
    (bound_req1 false (reg2fullcap MTDC_RESET_CAP a) a len) false).
Definition sealed_root : reg_cap_t := full2regcap (seal_cap (reg2fullcap MTDC_RESET_CAP 0x80) 3).

Example instruction_monotone_witness :
  derives false (result_cap_o (main_ex false false false true CSET_BOUNDS
      (operands (bounded 0x2000 0x400) 0x2000 NULL_REG_CAP 0x123))) 0x2000
    (reg2fullcap (bounded 0x2000 0x400) 0x2000).
Proof.
  apply (instruction_monotone false false true CSET_BOUNDS
    (operands (bounded 0x2000 0x400) 0x2000 NULL_REG_CAP 0x123)); [|done|by_compute].
  apply operands_ok; cap_ok_tac.
Defined.

Example sealed_immutable_witness :
  let o := main_ex false false false true CAND_PERM (operands sealed_root 0x80 NULL_REG_CAP 0xffe) in
  result_data_o o = 0x80 /\ r_valid (result_cap_o o) = true /\
  Z.testbit (r_cperms sealed_root) 5 = true /\ Z.testbit (r_cperms (result_cap_o o)) 5 = false.
Proof.
  split; [|split_and!; by_compute].
  apply (sealed_immutable false false true CAND_PERM (operands sealed_root 0x80 NULL_REG_CAP 0xffe));
    [apply operands_ok; cap_ok_tac|done|by_compute|cbn; intuition discriminate|by_compute].
Defined.

Example sealing_authority_witness :
  may_type (operands MTDC_RESET_CAP 0x80 MSCRATCHC_RESET_CAP 11) PERM_SE 11.
Proof.
  apply (sealing_authority false false true (operands MTDC_RESET_CAP 0x80 MSCRATCHC_RESET_CAP 11));
    [apply operands_ok; cap_ok_tac|done|by_compute].
Defined.

Example access_in_bounds_witness :
  permits (operands (bounded 0x2000 0x400) 0x23f8 MTDC_RESET_CAP 0) PERM_SD 0x23f8 8.
Proof.
  destruct (access_in_bounds false (operands (bounded 0x2000 0x400) 0x23f8 MTDC_RESET_CAP 0))
    as [H _]; [apply operands_ok; cap_ok_tac|done|done|].
  apply (H CSTORE_CAP PERM_SD); [right; by left|by_compute].
Defined.

(** *** Bounds in two cycles *)

(** CSETBOUNDSRNDN with the request an earlier instruction left in the register. *)
Lemma rndn_stored_request M it8 P (i : ex_in) d a len :
  bound_req_q i = bound_req1 it8 d a len -> is_cap_sealed (rf_fullcap_a i) = false ->
  let out := rndn it8 (rf_fullcap_a i) (rf_rdata_a i) (bound_req1 it8 d a len) in
  let o := main_ex M it8 true P CSET_BOUNDS_RNDN i in
  result_cap_o o = full2regcap out /\ result_data_o o = rf_rdata_a i /\
  (fc_valid out = true -> cheri_rf_we o = true).
Proof.
  intros Hq Hs. cbv zeta. cbn [main_ex]. unfold ex_set_bounds, setbounds_rndn_outcap, bound_req2.
  cbn [bounds_operands]. rewrite Hq, Hs, andb_true_r.
  set (out := rndn _ _ _ _). cbn [writes result_cap_o result_data_o cheri_rf_we].
  split_and!; [by destruct out|done|]. intros Hv.
  cbn [full2regcap with_valid r_valid fc_valid]. by rewrite Hv, andb_false_r.
Qed.

(** C27 (counterexample: bounds in two cycles).  With CheriSBND2 set, CSETBOUNDSRNDN is
    not among the instructions that take a second cycle, and uses the bounds request
    that the instruction before left.  After a CSETBOUNDS inside the bounds of its own
    operand, at the same address, it writes for every tagged unsealed operand a tagged
    capability from the address to the top of the request of the CSETBOUNDS rounded
    down, whatever the bounds of the operand and the length asked; where that is above
    the top of the operand, the result has more authority than the operand. *)
Theorem stale_bounds_escape (MemCapFmt it8 CheriPPLBC tsafe_en : bool) (before i : ex_in) :
  in_ok it8 before -> in_ok it8 i ->
  let a := rf_rdata_a i in
  let len := rf_rdata_b before in
  fc_valid (rf_fullcap_a before) = true -> rf_rdata_a before = a ->
  fc_base32 (rf_fullcap_a before) <= a -> a + len <= fc_top33 (rf_fullcap_a before) ->
  bound_req_q i = (next_bound_req it8 CSET_BOUNDS before).1 ->
  fc_valid (rf_fullcap_a i) = true -> is_cap_sealed (rf_fullcap_a i) = false ->
  let o := main_ex MemCapFmt it8 true CheriPPLBC CSET_BOUNDS_RNDN i in
  let e := rndn_exp it8 (get_size (slice len 31 9)) (count_tz a) in
  let top := a + Z.min (len / 2 ^ e) 511 * 2 ^ e in
  cheri_multicycle_dec true CheriPPLBC tsafe_en CSET_BOUNDS_RNDN = false /\
  cheri_rf_we o = true /\ r_valid (result_cap_o o) = true /\ result_data_o o = a /\
  cap_ok it8 (result_cap_o o) a /\
  reg_auth (result_cap_o o) a = Auth a top (fc_perms (rf_fullcap_a i)) /\
  (fc_top33 (rf_fullcap_a i) < top ->
   ~ auth_le (reg_auth (result_cap_o o) a) (auth_of (rf_fullcap_a i))).
Proof.
  intros Hbi Hi a len Hvb Ea Hbase Htop Hq Hv Hs. cbv zeta. split; [done|].
  cbn [next_bound_req fst] in Hq. unfold this_request in Hq. cbn [bounds_operands] in Hq.
  rewrite Ea in Hq. fold len in Hq.
  destruct (in_a_full it8 before Hbi Hvb) as [b' [[_ _ Hreg _ Et] _ _ _ _]].
  destruct (in_a_full it8 i Hi Hv) as [b Hok].
  pose proof (in_rdata_a it8 i Hi) as Ha. pose proof (in_rdata_b it8 before Hbi) as Hl.
  pose proof (region_bounds _ _ _ _ Hreg) as Hrb. rewrite <-Et in Hrb.
  assert (a + len <= 2 ^ 32) as Hlim by lia. fold a in Ha. fold len in Hl.
  destruct (rndn_stored_request MemCapFmt it8 CheriPPLBC i _ _ _ Hq Hs) as (-> & -> & Hwe).
  fold a in Hwe |- *.
  destruct (rndn_result it8 (rf_fullcap_a i) (rf_fullcap_a before) a len Ha Hl Hlim)
    as (Eb & Et' & _ & Evd & _).
  pose proof (rndn_cap_ok it8 _ (rf_fullcap_a before) b a len Hok Ha Hl Hlim) as Hcap.
  destruct (rndn_other_fields it8 (rf_fullcap_a i) a (bound_req1 it8 (rf_fullcap_a before) a len))
    as (_ & Ecp & _).
  cbv zeta in *. set (out := rndn _ _ _ _) in *.
  assert (fc_valid out = true) as Hvo.
  { etrans; [exact Evd|]. rewrite Hv, (proj2 (Z.ltb_ge _ _)), (proj2 (Z.ltb_ge _ _)); done. }
  assert (reg_auth (full2regcap out) a = Auth a (a + Z.min (len / 2 ^ rndn_exp it8
    (get_size (slice len 31 9)) (count_tz a)) 511 * 2 ^ rndn_exp it8 (get_size (slice len 31 9))
    (count_tz a)) (fc_perms (rf_fullcap_a i))) as Er.
  { unfold reg_auth, auth_of. rewrite Eb, Et'. f_equal.
    cbn [reg2fullcap full2regcap fc_perms r_cperms]. rewrite Ecp. symmetry. apply Hok. }
  split_and!; [by apply Hwe|done|done|done|done|].
  rewrite Er. unfold auth_le, auth_of. cbn [au_base au_top]. lia.
Qed.

(** A CSETBOUNDS of 0x8000 bytes of the data root, and then a CSETBOUNDSRNDN of a
    capability to 0x40 bytes at the same address. *)
Definition large_bounds : ex_in := operands MTDC_RESET_CAP 0x2000 NULL_REG_CAP 0x8000.
Definition after_large : ex_in :=
  let q := next_bound_req false CSET_BOUNDS large_bounds in
  ExIn true false false false true 10 0x2000 (bounded 0x2000 0x40) 0x40 NULL_REG_CAP 11
    PCC_RESET_CAP 0x84 false 0 0 0 0 0 NULL_REG_CAP false 0 NULL_REG_CAP q.1 q.2.

Example stale_bounds_escape_witness :
  let o := main_ex false false true true CSET_BOUNDS_RNDN after_large in
  fc_top33 (rf_fullcap_a after_large) = 0x2040 /\
  au_top (reg_auth (result_cap_o o) 0x2000) = 0xa000 /\
  ~ auth_le (reg_auth (result_cap_o o) 0x2000) (auth_of (rf_fullcap_a after_large)).
Proof.
  cbv zeta. split_and!; [by_compute..|].
  apply (stale_bounds_escape false false true false large_bounds after_large); try by_compute.
  - apply operands_ok; cap_ok_tac.
  - destruct (operands_ok false (bounded 0x2000 0x40) 0x2000 NULL_REG_CAP 0x40); [cap_ok_tac..|].
    by split.
  - vm_compute. discriminate.
  - vm_compute. discriminate.
Defined.
