(* ===== verification/CheriLsu.v ===== *)
(** * Integer loads and stores

    The part of rtl/ibex_load_store_unit.sv that places the bytes of an integer access
    on the 32-bit bus (byte enables, write data alignment, read data alignment and sign
    extension, the split of an unaligned access into two requests), against the 33-bit
    memory of dv/cheriot/tb/data_mem_model.sv, whose word 32 bit is the tag.  A memory
    maps word indices to words.  [rv32_store_bytes] says which bytes and tags a store
    changes and [rv32_load_bytes] what a load returns, at every alignment. *)

From S2P Require Import Prelude Bits.
Local Open Scope Z_scope.

Definition memory := Z -> Z.

(** ** The unit *)

Definition data_offset (addr : Z) : Z := slice addr 1 0.
Definition data_addr_word (addr : Z) : Z := slice addr 31 2.

Definition split_misaligned_access (lsu_type data_offset : Z) : bool :=
  ((lsu_type =? 0) && negb (data_offset =? 0)) || ((lsu_type =? 1) && (data_offset =? 3)).

Definition data_be (lsu_type data_offset : Z) (handle_misaligned : bool) : Z :=
  match lsu_type with
  | 0 =>
      if negb handle_misaligned then
        match data_offset with 0 => 0xf | 1 => 0xe | 2 => 0xc | 3 => 0x8 | _ => 0xf end
      else match data_offset with 0 => 0 | 1 => 1 | 2 => 3 | 3 => 7 | _ => 0xf end
  | 1 =>
      if negb handle_misaligned then
        match data_offset with 0 => 3 | 1 => 6 | 2 => 0xc | 3 => 8 | _ => 0xf end
      else 1
  | 2 | 3 => match data_offset with 0 => 1 | 1 => 2 | 2 => 4 | 3 => 8 | _ => 0xf end
  | _ => 0xf
  end.

Definition wdata_int (data_offset lsu_wdata : Z) : Z :=
  match data_offset with
  | 1 => cat [(1, 0); (24, slice lsu_wdata 23 0); (8, slice lsu_wdata 31 24)]
  | 2 => cat [(1, 0); (16, slice lsu_wdata 15 0); (16, slice lsu_wdata 31 16)]
  | 3 => cat [(1, 0); (8, slice lsu_wdata 7 0); (24, slice lsu_wdata 31 8)]
  | _ => slice lsu_wdata 32 0
  end.

(** What comes back: the first word of an unaligned access and the last word read. *)
Definition rdata_w_ext (rdata_offset rdata_q data_rdata : Z) : Z :=
  match rdata_offset with
  | 1 => cat [(1, 0); (8, slice data_rdata 7 0); (24, slice rdata_q 31 8)]
  | 2 => cat [(1, 0); (16, slice data_rdata 15 0); (16, slice rdata_q 31 16)]
  | 3 => cat [(1, 0); (24, slice data_rdata 23 0); (8, slice rdata_q 31 24)]
  | _ => slice data_rdata 32 0
  end.

Definition ext (w n x : Z) (sign : bool) : Z := cat [(w, rep w (sign && Z.testbit x (n - 1))); (n, x)].
Definition rdata_h_ext (rdata_offset rdata_q data_rdata : Z) (sign : bool) : Z :=
  match rdata_offset with
  | 1 => ext 16 16 (slice data_rdata 23 8) sign
  | 2 => ext 16 16 (slice data_rdata 31 16) sign
  | 3 => ext 16 16 (cat [(8, slice data_rdata 7 0); (8, slice rdata_q 31 24)]) sign
  | _ => ext 16 16 (slice data_rdata 15 0) sign
  end.
Definition rdata_b_ext (rdata_offset data_rdata : Z) (sign : bool) : Z :=
  match rdata_offset with
  | 1 => ext 24 8 (slice data_rdata 15 8) sign
  | 2 => ext 24 8 (slice data_rdata 23 16) sign
  | 3 => ext 24 8 (slice data_rdata 31 24) sign
  | _ => ext 24 8 (slice data_rdata 7 0) sign
  end.
Definition data_rdata_ext (data_type rdata_offset rdata_q data_rdata : Z) (sign : bool) : Z :=
  match data_type with
  | 1 => rdata_h_ext rdata_offset rdata_q data_rdata sign
  | 2 | 3 => rdata_b_ext rdata_offset data_rdata sign
  | _ => rdata_w_ext rdata_offset rdata_q data_rdata
  end.

(** ** The memory *)

(** A write: the enabled bytes and always the tag. *)
Definition dram_write (mem_be mem_wdata old : Z) : Z :=
  let b j := if Z.testbit mem_be j then slice mem_wdata (8 * j + 7) (8 * j)
             else slice old (8 * j + 7) (8 * j) in
  cat [(1, bit mem_wdata 32); (8, b 3); (8, b 2); (8, b 1); (8, b 0)].

Definition mem_set (k w : Z) (m : memory) : memory := fun k' => if k' =? k then w else m k'.
Definition write_request (addr be wdata : Z) (m : memory) : memory :=
  let k := data_addr_word addr in mem_set k (dram_write be wdata (m k)) m.

(** ** Accesses

    The second request of an unaligned access has the address four further on. *)

Definition next_addr (addr : Z) : Z := trunc 32 (addr + 4).

Definition rv32_store (lsu_type addr data : Z) (m : memory) : memory :=
  let off := data_offset addr in
  let wdata := wdata_int off (cat [(1, 0); (32, data)]) in
  let m := write_request addr (data_be lsu_type off false) wdata m in
  if split_misaligned_access lsu_type off
  then write_request (next_addr addr) (data_be lsu_type off true) wdata m else m.

Definition rv32_load (lsu_type addr : Z) (sign : bool) (m : memory) : Z :=
  let off := data_offset addr in
  let first := m (data_addr_word addr) in
  let last := if split_misaligned_access lsu_type off then m (data_addr_word (next_addr addr))
              else first in
  slice (data_rdata_ext lsu_type off first last sign) 31 0.

(** ** Bytes *)

Definition byte_of (w j : Z) : Z := slice w (8 * j + 7) (8 * j).
Definition mem_byte (m : memory) (x : Z) : Z := byte_of (m (x / 4)) (x mod 4).
Definition tag_of (w : Z) : bool := Z.testbit w 32.
Definition access_size (lsu_type : Z) : Z :=
  if lsu_type =? 0 then 4 else if lsu_type =? 1 then 2 else 1.

Lemma byte_of_range w j : 0 <= byte_of w j < 2 ^ 8.
Proof.
  unfold byte_of, slice. replace (8 * j + 7 - 8 * j + 1) with 8 by lia. apply trunc_range. lia.
Qed.
Lemma byte_of_part w j : byte_of w j = part w (8 * j) 8.
Proof. unfold byte_of, slice, part. by replace (8 * j + 7 - 8 * j + 1) with 8 by lia. Qed.

(** A word is its tag and its bytes. *)
Definition word (t b3 b2 b1 b0 : Z) : Z := cat [(1, t); (8, b3); (8, b2); (8, b1); (8, b0)].
Lemma byte_of_word t b3 b2 b1 b0 j :
  0 <= b3 < 256 -> 0 <= b2 < 256 -> 0 <= b1 < 256 -> 0 <= b0 < 256 -> 0 <= j < 4 ->
  byte_of (word t b3 b2 b1 b0) j = if j =? 3 then b3 else if j =? 2 then b2 else if j =? 1 then b1 else b0.
Proof.
  intros H3 H2 H1 H0 Hj. rewrite byte_of_part.
  assert (j = 0 \/ j = 1 \/ j = 2 \/ j = 3) as [->|[->|[->| ->]]] by lia; cbn [Z.eqb Pos.eqb];
    [part_of 4%nat|part_of 3%nat|part_of 2%nat|part_of 1%nat].
Qed.

(** Arithmetic on slices with constant bounds; first the constants are computed. *)
Ltac constants :=
  repeat match goal with
    | |- context [?a <? ?b] => let v := eval vm_compute in (a <? b) in
        first [constr_eq v true | constr_eq v false]; change (a <? b) with v; cbv iota
    | |- context [byte_of ?w ?j] => let v := eval vm_compute in j in
        assert_fails (constr_eq v j); change (byte_of w j) with (byte_of w v)
    end.
Ltac slices :=
  unfold word, byte_of, cat in *; cbn [foldl fst snd] in *;
  rewrite ?slice_div in * by lia;
  repeat match goal with
    | |- context [2 ^ ?n] => let v := eval vm_compute in (2 ^ n) in change (2 ^ n) with v
    | H : context [2 ^ ?n] |- _ => let v := eval vm_compute in (2 ^ n) in change (2 ^ n) with v in H
    end;
  Z.to_euclidean_division_equations; lia.

Lemma bytes_of_word w : 0 <= w < 2 ^ 32 -> w = word 0 (byte_of w 3) (byte_of w 2) (byte_of w 1) (byte_of w 0).
Proof. intros Hw. slices. Qed.

Lemma wdata_int_bytes off data :
  0 <= off < 4 -> 0 <= data < 2 ^ 32 ->
  wdata_int off (cat [(1, 0); (32, data)]) =
    word 0 (byte_of data ((3 - off) mod 4)) (byte_of data ((2 - off) mod 4))
      (byte_of data ((1 - off) mod 4)) (byte_of data ((0 - off) mod 4)).
Proof.
  intros Ho Hd. assert (off = 0 \/ off = 1 \/ off = 2 \/ off = 3) as [->|[->|[->| ->]]] by lia;
    cbn [wdata_int]; constants; slices.
Qed.

Lemma tag_of_word t b3 b2 b1 b0 :
  0 <= b3 < 256 -> 0 <= b2 < 256 -> 0 <= b1 < 256 -> 0 <= b0 < 256 ->
  tag_of (word (Z.b2z t) b3 b2 b1 b0) = t.
Proof.
  intros H3 H2 H1 H0. unfold tag_of, word. pose proof (b2z_fits t).
  apply (cat_testbit 0%nat); try reflexivity. cbn [drop]. fits_tac.
Qed.

(** A written word is the tag written and the bytes merged. *)
Definition merged (be wd old j : Z) : Z := if Z.testbit be j then byte_of wd j else byte_of old j.
Lemma merged_range be wd old j : 0 <= merged be wd old j < 256.
Proof.
  unfold merged. pose proof (byte_of_range wd j). pose proof (byte_of_range old j).
  destruct (Z.testbit be j); lia.
Qed.
Lemma dram_write_word be wd old :
  dram_write be wd old = word (Z.b2z (tag_of wd)) (merged be wd old 3) (merged be wd old 2)
    (merged be wd old 1) (merged be wd old 0).
Proof. unfold tag_of. by rewrite <-bit_b2z. Qed.

Lemma dram_write_byte be wd old j : 0 <= j < 4 ->
  byte_of (dram_write be wd old) j = merged be wd old j.
Proof.
  intros Hj. rewrite dram_write_word, byte_of_word by (try apply merged_range; done).
  assert (j = 0 \/ j = 1 \/ j = 2 \/ j = 3) as [->|[->|[->| ->]]] by lia; done.
Qed.
Lemma dram_write_tag be wd old : tag_of (dram_write be wd old) = tag_of wd.
Proof. rewrite dram_write_word. apply tag_of_word; apply merged_range. Qed.

(** *** Stores *)

Section Store.
Context (lsu_type addr data : Z) (m : memory).
Hypothesis Htype : 0 <= lsu_type < 4.
Hypothesis Haddr : 0 <= addr /\ addr + access_size lsu_type <= 2 ^ 32.
Hypothesis Hdata : 0 <= data < 2 ^ 32.

Local Abbreviation off := (addr mod 4).
Local Abbreviation wdata := (wdata_int off (cat [(1, 0); (32, data)])).
Local Abbreviation split := (split_misaligned_access lsu_type off).

Lemma access_size_pos : 1 <= access_size lsu_type <= 4.
Proof. unfold access_size. repeat case_match; lia. Qed.

Lemma offset_mod : data_offset addr = off.
Proof. unfold data_offset. by rewrite slice_low. Qed.
Lemma word_index x : 0 <= x < 2 ^ 32 -> data_addr_word x = x / 4.
Proof.
  intros Hx. unfold data_addr_word. rewrite slice_div by lia. change (2 ^ 2) with 4.
  apply Z.mod_small. split; [apply Z.div_pos; lia|apply Z.div_lt_upper_bound; lia].
Qed.

Lemma split_spec : split = (4 <? off + access_size lsu_type).
Proof.
  pose proof (Z.mod_pos_bound addr 4 ltac:(lia)) as Ho.
  assert (lsu_type = 0 \/ lsu_type = 1 \/ lsu_type = 2 \/ lsu_type = 3) as Ht by lia.
  assert (off = 0 \/ off = 1 \/ off = 2 \/ off = 3) as Hx by lia.
  destruct Ht as [->|[->|[->| ->]]], Hx as [->|[->|[->| ->]]]; reflexivity.
Qed.

(** The byte enables are the bytes of the access in each of its words. *)
Lemma be_spec (second : bool) j :
  0 <= j < 4 -> (second = true -> split = true) ->
  Z.testbit (data_be lsu_type off second) j =
    (off <=? 4 * Z.b2z second + j) && (4 * Z.b2z second + j <? off + access_size lsu_type).
Proof.
  pose proof (Z.mod_pos_bound addr 4 ltac:(lia)) as Ho. intros Hj.
  assert (lsu_type = 0 \/ lsu_type = 1 \/ lsu_type = 2 \/ lsu_type = 3) as Ht by lia.
  assert (off = 0 \/ off = 1 \/ off = 2 \/ off = 3) as Hx by lia.
  assert (j = 0 \/ j = 1 \/ j = 2 \/ j = 3) as Hj' by lia.
  destruct Ht as [->|[->|[->| ->]]], Hx as [->|[->|[->| ->]]], second;
    intros Hs; try (specialize (Hs eq_refl); discriminate Hs);
    destruct Hj' as [->|[->|[->| ->]]]; reflexivity.
Qed.

Lemma next_word : split = true -> data_addr_word (next_addr addr) = addr / 4 + 1.
Proof.
  rewrite split_spec. intros H%Z.ltb_lt.
  pose proof (Z.div_mod addr 4 ltac:(lia)). pose proof (Z.mod_pos_bound addr 4 ltac:(lia)).
  unfold next_addr. rewrite trunc_small.
  - rewrite word_index by lia. by rewrite <-(Z.mul_1_l 4), Z.div_add by lia.
  - pose proof access_size_pos. lia.
Qed.

(** What a store does to a word. *)
Definition touched (k : Z) : bool :=
  (addr / 4 <=? k) && (k <=? (addr + access_size lsu_type - 1) / 4).

Lemma touched_spec k : touched k = (k =? addr / 4) || split && (k =? addr / 4 + 1).
Proof.
  unfold touched. rewrite split_spec. pose proof access_size_pos.
  pose proof (Z.div_mod addr 4 ltac:(lia)). pose proof (Z.mod_pos_bound addr 4 ltac:(lia)).
  destruct (Z.ltb_spec 4 (off + access_size lsu_type)) as [Hs|Hs]; cbn [andb].
  - rewrite <-(Z.div_unique_pos (addr + access_size lsu_type - 1) 4 (addr / 4 + 1) (off + access_size lsu_type - 5)) by lia. lia.
  - rewrite <-(Z.div_unique_pos (addr + access_size lsu_type - 1) 4 (addr / 4) (off + access_size lsu_type - 1)) by lia. lia.
Qed.

Lemma store_word k :
  rv32_store lsu_type addr data m k =
    if touched k then dram_write (data_be lsu_type off (negb (k =? addr / 4))) wdata (m k) else m k.
Proof.
  rewrite touched_spec. unfold rv32_store, write_request, mem_set. rewrite offset_mod.
  pose proof access_size_pos. rewrite (word_index addr) by lia. pose proof next_word as Hn.
  destruct split; cbn [andb]; rewrite ?orb_false_r, ?Hn by done.
  - destruct (Z.eqb_spec k (addr / 4)) as [->|]; cbn [orb negb].
    + destruct (Z.eqb_spec (addr / 4) (addr / 4 + 1)); [lia|done].
    + destruct (Z.eqb_spec k (addr / 4 + 1)) as [->|]; [|done].
      destruct (Z.eqb_spec (addr / 4 + 1) (addr / 4)); [lia|done].
  - destruct (Z.eqb_spec k (addr / 4)) as [->|]; done.
Qed.

Lemma store_tag k : tag_of (rv32_store lsu_type addr data m k) = negb (touched k) && tag_of (m k).
Proof.
  rewrite store_word. destruct (touched k); cbn [negb andb]; [|done].
  rewrite dram_write_tag, wdata_int_bytes by (try apply Z.mod_pos_bound; lia).
  apply (tag_of_word false); apply byte_of_range.
Qed.

Lemma store_byte x :
  0 <= x ->
  mem_byte (rv32_store lsu_type addr data m) x =
    if (addr <=? x) && (x <? addr + access_size lsu_type) then byte_of data (x - addr)
    else mem_byte m x.
Proof.
  intros Hx. unfold mem_byte. rewrite store_word.
  pose proof (Z.div_mod addr 4 ltac:(lia)). pose proof (Z.mod_pos_bound addr 4 ltac:(lia)).
  pose proof (Z.div_mod x 4 ltac:(lia)). pose proof (Z.mod_pos_bound x 4 ltac:(lia)) as Hj.
  pose proof access_size_pos as Hsz. pose proof (touched_spec (x / 4)) as Ht.
  destruct (touched (x / 4)).
  - rewrite dram_write_byte by done. unfold merged. set (second := negb (x / 4 =? addr / 4)).
    assert (x / 4 = addr / 4 + Z.b2z second /\ (second = true -> split = true)) as [Ek Hs].
    { unfold second. destruct (Z.eqb_spec (x / 4) (addr / 4)); cbn [negb Z.b2z]; [split; [lia|done]|].
      symmetry in Ht. apply orb_prop in Ht as [Ht|Ht]; [lia|]. apply andb_prop in Ht as [-> Ht].
      split; [lia|done]. }
    rewrite be_spec by done.
    replace (off <=? 4 * Z.b2z second + x mod 4) with (addr <=? x) by lia.
    replace (4 * Z.b2z second + x mod 4 <? off + access_size lsu_type)
      with (x <? addr + access_size lsu_type) by lia.
    clearbody second. destruct ((addr <=? x) && (x <? addr + access_size lsu_type)) eqn:Hin; [|reflexivity].
    rewrite wdata_int_bytes, byte_of_word by (apply byte_of_range || lia).
    apply andb_prop in Hin as [Hin1 Hin2].
    assert (x - addr = (x mod 4 - off) mod 4) as ->.
    { apply (Z.mod_unique_pos _ _ (- Z.b2z second)); lia. }
    assert (x mod 4 = 0 \/ x mod 4 = 1 \/ x mod 4 = 2 \/ x mod 4 = 3)
      as [->|[->|[->| ->]]] by lia; done.
  - rewrite split_spec in Ht.
    destruct ((addr <=? x) && (x <? addr + access_size lsu_type)) eqn:Hin; [|reflexivity].
    apply andb_prop in Hin as [Hin1 Hin2]. symmetry in Ht. apply orb_false_iff in Ht as [Ht1 Ht2]. lia.
Qed.
End Store.

(** *** Loads *)

(** The bytes of an access in memory, the lowest first, as a number, extended to 32
    bits. *)
Definition number (lsu_type b0 b1 b2 b3 : Z) : Z :=
  if lsu_type =? 0 then word 0 b3 b2 b1 b0
  else if lsu_type =? 1 then cat [(8, b1); (8, b0)] else b0.
Definition extended (lsu_type n : Z) (sign : bool) : Z :=
  if lsu_type =? 0 then n else if lsu_type =? 1 then ext 16 16 n sign else ext 24 8 n sign.
Definition at_addr (lsu_type addr : Z) (m : memory) : Z :=
  let b i := mem_byte m (addr + i) in number lsu_type (b 0) (b 1) (b 2) (b 3).

(** The bytes of an access in the words read. *)
Lemma read_word off q d :
  0 <= off < 4 -> (off = 0 -> q = d) ->
  let b i := if off + i <? 4 then byte_of q (off + i) else byte_of d (off + i - 4) in
  slice (rdata_w_ext off q d) 31 0 = number 0 (b 0) (b 1) (b 2) (b 3).
Proof.
  intros Ho Hq. assert (off = 0 \/ off = 1 \/ off = 2 \/ off = 3) as [->|[->|[->| ->]]] by lia;
    [rewrite Hq by done|..]; cbv zeta;
    cbn [rdata_w_ext number Z.eqb]; constants; slices.
Qed.

Lemma read_half off q d sign :
  0 <= off < 4 -> (off <> 3 -> q = d) ->
  let b i := if off + i <? 4 then byte_of q (off + i) else byte_of d (off + i - 4) in
  rdata_h_ext off q d sign = extended 1 (number 1 (b 0) (b 1) 0 0) sign.
Proof.
  intros Ho Hq. assert (off = 0 \/ off = 1 \/ off = 2 \/ off = 3) as [->|[->|[->| ->]]] by lia;
    [rewrite Hq by done..|]; cbv zeta; cbn [rdata_h_ext extended number Z.eqb Pos.eqb]; constants;
    f_equal; slices.
Qed.

Lemma read_byte off d sign :
  0 <= off < 4 -> rdata_b_ext off d sign = ext 24 8 (byte_of d off) sign.
Proof.
  intros Ho. assert (off = 0 \/ off = 1 \/ off = 2 \/ off = 3) as [->|[->|[->| ->]]] by lia; done.
Qed.

Lemma ext_range w n x sign : 0 <= w -> 0 <= x < 2 ^ n -> 0 <= n -> 0 <= ext w n x sign < 2 ^ (w + n).
Proof.
  intros Hw Hx Hn. assert (0 <= rep w (sign && Z.testbit x (n - 1)) < 2 ^ w) as Hr.
  { unfold rep. destruct (_ && _); [rewrite Z.ones_equiv|]; lia. }
  assert (cat_width [(w, rep w (sign && Z.testbit x (n - 1))); (n, x)] = w + n) as <-
    by (unfold cat_width; cbn; lia).
  apply cat_range. fits_tac.
Qed.

Section Load.
Context (lsu_type addr : Z) (m : memory).
Hypothesis Htype : 0 <= lsu_type < 4.
Hypothesis Haddr : 0 <= addr /\ addr + access_size lsu_type <= 2 ^ 32.

Local Abbreviation off := (addr mod 4).

Lemma byte_at i : 0 <= i < 4 ->
  mem_byte m (addr + i) =
    if off + i <? 4 then byte_of (m (addr / 4)) (off + i)
    else byte_of (m (addr / 4 + 1)) (off + i - 4).
Proof.
  intros Hi. unfold mem_byte.
  pose proof (Z.div_mod addr 4 ltac:(lia)). pose proof (Z.mod_pos_bound addr 4 ltac:(lia)).
  destruct (Z.ltb_spec (off + i) 4).
  - rewrite <-(Z.div_unique_pos (addr + i) 4 (addr / 4) (off + i)),
      <-(Z.mod_unique_pos (addr + i) 4 (addr / 4) (off + i)) by lia. done.
  - rewrite <-(Z.div_unique_pos (addr + i) 4 (addr / 4 + 1) (off + i - 4)),
      <-(Z.mod_unique_pos (addr + i) 4 (addr / 4 + 1) (off + i - 4)) by lia. done.
Qed.

Lemma slice_32 x : 0 <= x < 2 ^ 32 -> slice x 31 0 = x.
Proof. intros Hx. rewrite slice_low. by apply Z.mod_small. Qed.

Lemma number_half b0 b1 b2 b3 :
  0 <= b0 < 2 ^ 8 -> 0 <= b1 < 2 ^ 8 -> 0 <= number 1 b0 b1 b2 b3 < 2 ^ 16.
Proof. intros H0 H1. cbn [number Z.eqb Pos.eqb]. unfold cat. cbn [foldl fst snd]. lia. Qed.

Lemma load_at sign : rv32_load lsu_type addr sign m = extended lsu_type (at_addr lsu_type addr m) sign.
Proof.
  unfold rv32_load. rewrite offset_mod, word_index by (pose proof (access_size_pos lsu_type); lia).
  pose proof (split_spec lsu_type addr Htype Haddr) as Hs. pose proof (next_word lsu_type addr Htype Haddr) as Hn.
  pose proof (Z.mod_pos_bound addr 4 ltac:(lia)) as Ho.
  set (last := if split_misaligned_access lsu_type off then _ else _).
  assert (last = if 4 <? off + access_size lsu_type then m (addr / 4 + 1) else m (addr / 4)) as ->.
  { unfold last. rewrite <-Hs. destruct (split_misaligned_access lsu_type off); [|done]. by rewrite Hn. }
  assert (lsu_type = 0 \/ lsu_type = 1 \/ lsu_type = 2 \/ lsu_type = 3) as Ht by lia.
  unfold at_addr. cbv zeta. rewrite !byte_at by lia. clear Hs Hn.
  destruct Ht as [->|[->|Ht]].
  - cbn [data_rdata_ext access_size Z.eqb extended number]. rewrite read_word; [|done|].
    + cbv zeta. unfold number. destruct (Z.ltb_spec 4 (off + 4)); [done|].
      repeat match goal with |- context [?a <? 4] => rewrite (proj2 (Z.ltb_lt a 4)) by lia end. done.
    + intros ->. done.
  - cbn [data_rdata_ext]. change (access_size 1) with 2. rewrite read_half; [|done|].
    + cbv zeta. rewrite slice_32; [|apply (ext_range 16 16); [done|apply number_half|done]].
      * cbn [extended number Z.eqb Pos.eqb]. destruct (Z.ltb_spec 4 (off + 2)); [done|].
        repeat match goal with |- context [?a <? 4] => rewrite (proj2 (Z.ltb_lt a 4)) by lia end. done.
      * case_match; apply byte_of_range.
      * case_match; apply byte_of_range.
    + intros. by rewrite (proj2 (Z.ltb_ge 4 (off + 2))) by lia.
  - assert (access_size lsu_type = 1 /\ (lsu_type =? 0) = false /\ (lsu_type =? 1) = false /\
      data_rdata_ext lsu_type off (m (addr / 4)) (m (addr / 4)) sign = rdata_b_ext off (m (addr / 4)) sign)
      as (-> & E0 & E1 & Ed) by (destruct Ht as [->| ->]; done).
    rewrite (proj2 (Z.ltb_ge 4 (off + 1))), Ed by lia. unfold extended, number.
    rewrite E0, E1, read_byte, slice_32 by (try apply (ext_range 24 8); try apply byte_of_range; done).
    by rewrite Z.add_0_r, (proj2 (Z.ltb_lt off 4)) by lia.
Qed.
End Load.

(** *** Theorems *)

(** C15 (functional: integer stores).  At every size and alignment, the one or two
    requests of a store write the bytes of the data from its address up, lowest first,
    and no other byte, and clear the tags of exactly the words they touch. *)
Theorem rv32_store_bytes (lsu_type addr data : Z) (m : memory) :
  0 <= lsu_type < 4 -> 0 <= addr /\ addr + access_size lsu_type <= 2 ^ 32 ->
  0 <= data < 2 ^ 32 ->
  (forall x, 0 <= x -> mem_byte (rv32_store lsu_type addr data m) x =
     if (addr <=? x) && (x <? addr + access_size lsu_type) then byte_of data (x - addr)
     else mem_byte m x) /\
  (forall k, tag_of (rv32_store lsu_type addr data m k) =
     negb ((addr / 4 <=? k) && (k <=? (addr + access_size lsu_type - 1) / 4)) && tag_of (m k)).
Proof. intros Ht Ha Hd. split; [intros x; by apply store_byte|intros k; by apply store_tag]. Qed.

(** A half word over the end of a word whose tag is set. *)
Example rv32_store_bytes_witness :
  mem_byte (rv32_store 1 0x103 0xbeef (fun _ => 0x123456789)) 0x104 = 0xbe /\
  tag_of (rv32_store 1 0x103 0xbeef (fun _ => 0x123456789) 0x40) = false.
Proof.
  destruct (rv32_store_bytes 1 0x103 0xbeef (fun _ => 0x123456789)) as [Hb Ht]; [done..|].
  rewrite (Hb 0x104), Ht by done. by split.
Defined.

Lemma stored_bytes lsu_type addr data m i :
  0 <= lsu_type < 4 -> 0 <= addr /\ addr + access_size lsu_type <= 2 ^ 32 ->
  0 <= data < 2 ^ 32 -> 0 <= i < access_size lsu_type ->
  mem_byte (rv32_store lsu_type addr data m) (addr + i) = byte_of data i.
Proof.
  intros Ht Ha Hd Hi. rewrite store_byte by (done || lia).
  replace (addr + i - addr) with i by lia.
  by rewrite (proj2 (Z.leb_le addr (addr + i))),
    (proj2 (Z.ltb_lt (addr + i) (addr + access_size lsu_type))) by lia.
Qed.

(** C16 (roundtrip: integer stores and loads).  A load of the same size, at any
    alignment and after any other contents, returns the low bytes of the data stored
    there, extended by zeros or by the sign. *)
Theorem rv32_load_stored (lsu_type addr data : Z) (sign : bool) (m : memory) :
  0 <= lsu_type < 4 -> 0 <= addr /\ addr + access_size lsu_type <= 2 ^ 32 ->
  0 <= data < 2 ^ 32 ->
  rv32_load lsu_type addr sign (rv32_store lsu_type addr data m) =
    extended lsu_type (data mod 2 ^ (8 * access_size lsu_type)) sign.
Proof.
  intros Ht Ha Hd. rewrite load_at by done. f_equal. unfold at_addr. cbv zeta.
  pose proof (fun i => stored_bytes lsu_type addr data m i Ht Ha Hd) as Hb.
  unfold number. unfold access_size in *.
  destruct (lsu_type =? 0); [|destruct (lsu_type =? 1)]; rewrite !Hb by lia; slices.
Qed.

Example rv32_load_stored_witness :
  rv32_load 1 0x103 true (rv32_store 1 0x103 0xbeef (fun _ => 0)) = 0xffffbeef.
Proof. by rewrite (rv32_load_stored 1 0x103 0xbeef true (fun _ => 0)). Defined.
