(* ===== verification/CheriMachine.v ===== *)
(** * A CHERIoT core as a capability machine

    The capability state of the core and its transitions: the register file
    (rtl/cheri_regfile.sv), the program-counter capability and the special capability
    registers (rtl/ibex_cs_registers.sv), and a memory of 33-bit words.  A step is an
    instruction of the execution unit ([main_ex]), a capability or integer load or
    store that its checks let through, an instruction with an integer result, a trap,
    a return from one, or the revocation of a register.  The parameters are those of
    rtl/ibex_top.sv with memory format 0 and CheriSBND2 = 0 (the defaults), without
    the stack zeroization engine (CheriStkZ = 0, see CheriStkz.v), outside debug mode
    and with cheri_pmode_i set.

    [reachable_authority] says that no execution creates authority, and
    [memory_integrity] that memory no store capability covers keeps its contents. *)

From S2P Require Import Prelude Bits CapDecode CheriPkg CheriBounds CheriMem CheriEx CheriAuth CheriLsu.
Local Open Scope Z_scope.

Definition CHERI_SCR_MTDC := 29.
Definition CHERI_SCR_MSCRATCHC := 30.

(** ** State *)

Definition reg_val : Type := reg_cap_t * Z.
Definition null_val : reg_val := (NULL_REG_CAP, 0).

Record machine := Machine {
  m_regs : Z -> reg_val; m_pcc : pcc_cap_t;
  m_mtcc : reg_val; m_mtdc : reg_val; m_mscratchc : reg_val; m_mepcc : reg_val;
  m_mem : memory }.

(** Register 0 reads as null; a register holds 32 bits. *)
Definition rf_read (m : machine) (r : Z) : reg_val := if r =? 0 then null_val else m_regs m r.
Definition set_regs (f : Z -> reg_val) (m : machine) : machine :=
  Machine f (m_pcc m) (m_mtcc m) (m_mtdc m) (m_mscratchc m) (m_mepcc m) (m_mem m).
Definition rf_write (r : Z) (we : bool) (cap : reg_cap_t) (data : Z) (m : machine) : machine :=
  if we && negb (r =? 0)
  then set_regs (fun r' => if r' =? r then (cap, trunc 32 data) else m_regs m r') m else m.
(** The revocation port. *)
Definition rf_revoke (r : Z) (m : machine) : machine :=
  set_regs (fun r' => if r' =? r then (and_regcap_tag (m_regs m r').1 false, (m_regs m r').2)
                      else m_regs m r') m.

Definition set_mem (f : memory) (m : machine) : machine :=
  Machine (m_regs m) (m_pcc m) (m_mtcc m) (m_mtdc m) (m_mscratchc m) (m_mepcc m) f.
Definition set_pcc (p : pcc_cap_t) (m : machine) : machine :=
  Machine (m_regs m) p (m_mtcc m) (m_mtdc m) (m_mscratchc m) (m_mepcc m) (m_mem m).

(** ** Special capability registers *)

Definition scr_read (m : machine) (a : Z) : reg_val :=
  if a =? CHERI_SCR_MTCC then m_mtcc m
  else if a =? CHERI_SCR_MTDC then m_mtdc m
  else if a =? CHERI_SCR_MSCRATCHC then m_mscratchc m
  else if a =? CHERI_SCR_MEPCC then m_mepcc m
  else null_val.

(** The write enables compare the whole address; mtvec has its low bits cleared. *)
Definition scr_write (a : Z) (cap : reg_cap_t) (data : Z) (m : machine) : machine :=
  let '(Machine f p mtcc mtdc ms mepcc mem) := m in
  let v := (cap, trunc 32 data) in
  Machine f p
    (if a =? CHERI_SCR_MTCC then (cap, cat [(30, slice data 31 2); (2, 0)]) else mtcc)
    (if a =? CHERI_SCR_MTDC then v else mtdc)
    (if a =? CHERI_SCR_MSCRATCHC then v else ms)
    (if a =? CHERI_SCR_MEPCC then v else mepcc) mem.

(** A trap saves the program counter and goes to mtcc; mret goes to mepcc, which a
    return from a non-maskable interrupt replaces by the saved address, untagged. *)
Definition trap (exception_pc : Z) (csr_mepcc_clrtag : bool) (m : machine) : machine :=
  Machine (m_regs m) (full2pcap (reg2fullcap (m_mtcc m).1 (m_mtcc m).2))
    (m_mtcc m) (m_mtdc m) (m_mscratchc m)
    (pcc2mepcc (m_pcc m) exception_pc csr_mepcc_clrtag, exception_pc) (m_mem m).
Definition mret (nmi_mode : bool) (mstack_epc : Z) (m : machine) : machine :=
  Machine (m_regs m) (full2pcap (reg2fullcap (m_mepcc m).1 (m_mepcc m).2))
    (m_mtcc m) (m_mtdc m) (m_mscratchc m)
    (if nmi_mode then (NULL_REG_CAP, mstack_epc) else m_mepcc m) (m_mem m).

(** ** Instructions *)

Section Machine.
Context (it8 CheriPPLBC : bool).

Local Abbreviation ex op i := (main_ex false it8 false CheriPPLBC op i).

(** The operands of an instruction in a state: the registers it names, the program
    counter, the special register it selects, and ztop as it reads without the
    engine. *)
Record reads (m : machine) (rb : Z) (i : ex_in) : Prop := {
  rd_a : (rf_rcap_a i, rf_rdata_a i) = rf_read m (rf_raddr_a_i i);
  rd_b : (rf_rcap_b i, rf_rdata_b i) = rf_read m rb;
  rd_pcc : pcc_cap_i i = m_pcc m;
  rd_csr : (csr_rcap_i i, csr_rdata_i i) = scr_read m (cheri_cs2_dec_i i);
  rd_ztop : (ztop_rcap_i i, ztop_rdata_i i) = (NULL_REG_CAP, 0x0000aa55);
  rd_imm12 : 0 <= cheri_imm12_i i < 2 ^ 12;
  rd_pmode : cheri_pmode_i i = true;
  rd_debug : debug_mode_i i = false }.

(** What an instruction that is not a load or a store does: its result, the special
    register it writes and the program counter of a jump. *)
Definition execute (op : cheri_op_e) (i : ex_in) (m : machine) : machine :=
  let o := ex op i in
  let m := rf_write (rf_waddr_i i) (cheri_rf_we o) (result_cap_o o) (result_data_o o) m in
  let c := o_csr o in
  let m := if csr_op_en c then scr_write (csr_addr_o c) (csr_wcap_o c) (csr_wdata_o c) m else m in
  if branch_req (o_branch o) then set_pcc (pcc_cap_o (o_branch o)) m else m.

(** The two words of a capability at an address. *)
Definition load_cap (i : ex_in) (m : machine) : machine :=
  let k := data_addr_word (cs1_addr_plusimm CLOAD_CAP i) in
  let '(cap, data) := load_words false it8 (m_mem m k) (m_mem m (k + 1))
                        (lsu_lc_clrperm false it8 false CheriPPLBC CLOAD_CAP i) in
  rf_write (rf_waddr_i i) true cap data m.
Definition store_cap (i : ex_in) (m : machine) : machine :=
  let k := data_addr_word (cs1_addr_plusimm CSTORE_CAP i) in
  let cap := csc_wcap (ex CSTORE_CAP i) in
  let '(lsw, msw) := store_words false it8 cap (cat [(1, Z.b2z (r_valid cap)); (32, rf_rdata_b i)]) in
  set_mem (mem_set (k + 1) msw (mem_set k lsw (m_mem m))) m.

Inductive step (m : machine) : machine -> Prop :=
| step_execute op rb i : reads m rb i -> op <> CLOAD_CAP -> op <> CSTORE_CAP ->
    step m (execute op i m)
| step_load_cap rb i : reads m rb i -> cheri_lsu_err CLOAD_CAP i = false -> step m (load_cap i m)
| step_store_cap rb i : reads m rb i -> cheri_lsu_err CSTORE_CAP i = false -> step m (store_cap i m)
| step_integer rd data : step m (rf_write rd true NULL_REG_CAP data m)
| step_load rb i lsu_type addr sign : reads m rb i ->
    0 <= lsu_type < 4 -> 0 <= addr < 2 ^ 32 -> rv32_lsu_err i lsu_type false addr false = false ->
    step m (rf_write (rf_waddr_i i) true NULL_REG_CAP (rv32_load lsu_type addr sign (m_mem m)) m)
| step_store rb i lsu_type addr : reads m rb i ->
    0 <= lsu_type < 4 -> 0 <= addr < 2 ^ 32 -> rv32_lsu_err i lsu_type true addr false = false ->
    step m (set_mem (rv32_store lsu_type addr (rf_rdata_b i) (m_mem m)) m)
| step_trap pc clrtag : 0 <= pc < 2 ^ 32 -> step m (trap pc clrtag m)
| step_mret nmi pc : 0 <= pc < 2 ^ 32 -> step m (mret nmi pc m)
| step_revoke r : step m (rf_revoke r m).

(** ** The capabilities of a state *)

Inductive holds (m : machine) : authority -> Prop :=
| holds_reg r : r_valid (rf_read m r).1 = true -> holds m (reg_auth (rf_read m r).1 (rf_read m r).2)
| holds_scr a : r_valid (scr_read m a).1 = true ->
    holds m (reg_auth (scr_read m a).1 (scr_read m a).2)
| holds_pcc : pc_valid (m_pcc m) = true -> holds m (auth_of (pcc2fullcap (m_pcc m)))
| holds_mem j : let w := load_words false it8 (m_mem m (2 * j)) (m_mem m (2 * j + 1)) 0 in
    r_valid w.1 = true -> holds m (reg_auth w.1 (slice w.2 31 0)).

(** The invariant: tagged values are capabilities, with an authority below one in
    [R]. *)
Section Invariant.
Context (R : authority -> Prop).

Definition below (A : authority) : Prop := exists B, R B /\ auth_le A B.
Definition val_ok (v : reg_val) : Prop :=
  0 <= v.2 < 2 ^ 32 /\
  (r_valid v.1 = true -> cap_ok it8 v.1 v.2 /\ below (reg_auth v.1 v.2)).

Record inv (m : machine) : Prop := {
  inv_regs r : val_ok (rf_read m r);
  inv_scr a : val_ok (scr_read m a);
  inv_pcc : pc_valid (m_pcc m) = true ->
    pcc_ok it8 (m_pcc m) /\ below (auth_of (pcc2fullcap (m_pcc m)));
  inv_mem j : tag_of (m_mem m (2 * j)) = true -> tag_of (m_mem m (2 * j + 1)) = true ->
    exists c a, r_valid c = true /\ val_ok (c, a) /\
      (m_mem m (2 * j), m_mem m (2 * j + 1)) = store_words false it8 c (tagged c a) }.

Lemma below_le A B : auth_le A B -> below B -> below A.
Proof. intros H (C & HC & Hle). exists C. split; [done|]. by etrans. Qed.

Lemma val_ok_untagged c a : 0 <= a < 2 ^ 32 -> r_valid c = false -> val_ok (c, a).
Proof. intros Ha Hc. split; [done|]. cbn [fst]. by rewrite Hc. Qed.
Lemma null_val_ok : val_ok null_val.
Proof. by apply val_ok_untagged. Qed.

Lemma val_ok_trunc c a : (r_valid c = true -> val_ok (c, a)) -> val_ok (c, trunc 32 a).
Proof.
  intros H. split; [apply trunc_range; lia|]. cbn [fst snd]. intros Hv.
  destruct (H Hv) as [Ha Hok]. rewrite trunc_small by done. by apply Hok.
Qed.

Lemma derives_val r a src : derives it8 r a src -> below (auth_of src) -> val_ok (r, a).
Proof.
  intros (Hok & _ & Hle) Hb. split; [apply (ok_addr _ _ _ Hok)|]. intros _.
  split; [done|]. by apply (below_le _ (auth_of src)).
Qed.

(** *** Reading *)

Lemma load_words_valid lsw msw clr :
  r_valid (load_words false it8 lsw msw clr).1 = tag_of msw && tag_of lsw && negb (Z.testbit clr 3).
Proof. unfold load_words. destruct it8; done. Qed.

Lemma loaded_val c a clr : r_valid c = true -> val_ok (c, a) -> val_ok (loaded_cap clr c, a).
Proof.
  intros Hv [Ha H]. destruct (H Hv) as [Hok Hb]. split; [done|]. intros _.
  pose proof (ok_range _ _ _ Hok) as [_ _ _ _ _ Ho Hc Hs]. cbn [fst snd] in *.
  pose proof (mask_clcperms_le (r_cperms c) clr (r_valid c && negb (Z.testbit clr 3))
    (negb (r_otype c =? OTYPE_UNSEALED)) Hc) as [Hr Hle].
  pose proof (derives_reg it8 (loaded_cap clr c) c a Hok Hv) as Hd.
  destruct Hd as (Hok' & _ & Hle'); try done.
  split; [done|]. by apply (below_le _ _ Hle').
Qed.

Lemma loaded_pair m j clr : inv m ->
  let w := load_words false it8 (m_mem m (2 * j)) (m_mem m (2 * j + 1)) clr in
  r_valid w.1 = true -> val_ok (w.1, slice w.2 31 0).
Proof.
  intros Hinv w Hv. unfold w in *. rewrite load_words_valid in Hv.
  apply andb_prop in Hv as [[H1 H0]%andb_prop _].
  destruct (inv_mem m Hinv j H0 H1) as (c & a & Hc & Hok & Ew).
  pose proof (proj2 Hok Hc) as [Hcap _]. cbn [fst snd] in Hcap.
  pose proof (words_roundtrip false it8 c a clr Hcap) as Hrt. cbv zeta in Hrt.
  rewrite <-Ew in Hrt. cbn [fst snd] in Hrt. rewrite Hrt. cbn [fst snd].
  destruct (tagged_parts c a (proj1 Hok)) as [_ ->]. by apply loaded_val.
Qed.

Lemma inv_holds m A : inv m -> holds m A -> below A.
Proof.
  intros Hinv [r Hv|a Hv|Hv|j w Hv].
  - by apply (inv_regs m Hinv r).
  - by apply (inv_scr m Hinv a).
  - by apply (inv_pcc m Hinv).
  - by apply (loaded_pair m j 0 Hinv).
Qed.

Lemma reads_in_ok m rb i : inv m -> reads m rb i -> in_ok it8 i.
Proof.
  intros Hinv [Ea Eb Ep _ _ Him _ _].
  pose proof (inv_regs m Hinv (rf_raddr_a_i i)) as Ha. pose proof (inv_regs m Hinv rb) as Hb.
  rewrite <-Ea in Ha. rewrite <-Eb in Hb. destruct Ha as [Ra Ha], Hb as [Rb Hb].
  split; try done.
  - intros Hv. by apply Ha.
  - intros Hv. by apply Hb.
  - rewrite Ep. intros Hv. by apply (inv_pcc m Hinv).
Qed.

Lemma below_a m rb i : inv m -> reads m rb i -> fc_valid (rf_fullcap_a i) = true ->
  below (auth_of (rf_fullcap_a i)).
Proof.
  intros Hinv Hr Hv. pose proof (inv_regs m Hinv (rf_raddr_a_i i)) as Ha.
  rewrite <-(rd_a _ _ _ Hr) in Ha. by apply Ha.
Qed.
Lemma below_b m rb i : inv m -> reads m rb i -> fc_valid (rf_fullcap_b i) = true ->
  below (auth_of (rf_fullcap_b i)).
Proof.
  intros Hinv Hr Hv. pose proof (inv_regs m Hinv rb) as Hb.
  rewrite <-(rd_b _ _ _ Hr) in Hb. by apply Hb.
Qed.
Lemma below_pcc m rb i : inv m -> reads m rb i -> fc_valid (pcc2fullcap (pcc_cap_i i)) = true ->
  below (auth_of (pcc2fullcap (pcc_cap_i i))).
Proof. intros Hinv Hr. rewrite (rd_pcc _ _ _ Hr). intros Hv. by apply (inv_pcc m Hinv). Qed.

(** *** Updates *)

Lemma inv_rf_write m r we cap data :
  inv m -> (r_valid cap = true -> val_ok (cap, trunc 32 data)) ->
  inv (rf_write r we cap data m).
Proof.
  intros [Hr Hs Hp Hm] Hv. unfold rf_write. destruct (we && _) eqn:Ew; [|done].
  apply andb_prop in Ew as [-> Hr0]. split; try done.
  intros r'. specialize (Hr r'). unfold rf_read, set_regs in *. cbn [m_regs] in *.
  destruct (r' =? 0); [done|]. destruct (r' =? r); [|done]. destruct (r_valid cap) eqn:Hc; [by apply Hv|].
  apply val_ok_untagged; [apply trunc_range; lia|done].
Qed.

Lemma inv_rf_revoke m r : inv m -> inv (rf_revoke r m).
Proof.
  intros [Hr Hs Hp Hm]. split; try done. intros r'. specialize (Hr r').
  unfold rf_read, rf_revoke, set_regs in *. cbn [m_regs] in *.
  destruct (r' =? 0) eqn:E0; [done|]. destruct (Z.eqb_spec r' r) as [->|]; [|done].
  apply val_ok_untagged; [exact (proj1 Hr)|]. apply andb_false_r.
Qed.

Lemma inv_set_pcc m p : inv m ->
  (pc_valid p = true -> pcc_ok it8 p /\ below (auth_of (pcc2fullcap p))) -> inv (set_pcc p m).
Proof. intros [Hr Hs Hp Hm] H. by split. Qed.

Lemma mtcc_aligned data : 0 <= data < 2 ^ 32 -> data mod 4 = 0 ->
  cat [(30, slice data 31 2); (2, 0)] = data.
Proof.
  intros Hd H4. unfold cat. cbn [foldl fst snd]. rewrite slice_div by lia.
  change (2 ^ 2) with 4. change (2 ^ (31 - 2 + 1)) with (2 ^ 30).
  rewrite Z.mod_small; [pose proof (Z.div_mod data 4); lia|].
  split; [apply Z.div_pos; lia|apply Z.div_lt_upper_bound; lia].
Qed.

Lemma inv_scr_write m a cap data : inv m ->
  (r_valid cap = true -> val_ok (cap, data) /\ (a = CHERI_SCR_MTCC -> data mod 4 = 0)) ->
  inv (scr_write a cap data m).
Proof.
  intros [Hr Hs Hp Hm] H. destruct m as [f p mtcc mtdc ms mepcc mem]. split; try done.
  intros a'. specialize (Hs a'). unfold scr_read, scr_write in *.
  cbn [m_mtcc m_mtdc m_mscratchc m_mepcc] in *.
  assert (val_ok (cap, trunc 32 data)) as Hv by (apply val_ok_trunc; intros; by apply H).
  destruct (a' =? CHERI_SCR_MTCC).
  { destruct (Z.eqb_spec a CHERI_SCR_MTCC) as [Ea|]; [|done]. split.
    - cbn [snd]. unfold cat. cbn [foldl fst snd].
      assert (0 <= slice data 31 2 < 2 ^ 30) by (apply trunc_range; lia). lia.
    - cbn [fst snd]. intros Hc. destruct (H Hc) as [Hok H4].
      rewrite mtcc_aligned; [by apply Hok|exact (proj1 Hok)|by apply H4]. }
  repeat match goal with |- context [if ?x =? ?y then _ else _] => destruct (x =? y) end; done.
Qed.

(** The program counter taken from a special register. *)
Lemma pcc_of_val v : val_ok v -> pc_valid (full2pcap (reg2fullcap v.1 v.2)) = true ->
  pcc_ok it8 (full2pcap (reg2fullcap v.1 v.2)) /\
  below (auth_of (pcc2fullcap (full2pcap (reg2fullcap v.1 v.2)))).
Proof.
  intros [_ H] Hv. destruct (H Hv) as [Hok Hb].
  destruct (cap_ok_full _ _ _ Hok) as (b & Hf & _).
  destruct (full2pcap_ok _ _ _ Hf) as [Hp Ea]. split; [done|]. by rewrite Ea.
Qed.

Lemma mepcc_val m pc clr : inv m -> 0 <= pc < 2 ^ 32 -> val_ok (pcc2mepcc (m_pcc m) pc clr, pc).
Proof.
  intros Hinv Hpc. destruct (r_valid (pcc2mepcc (m_pcc m) pc clr)) eqn:Hv;
    [|by apply val_ok_untagged].
  unfold pcc2mepcc in *. destruct clr; [done|]. cbn [full2regcap r_valid] in Hv.
  pose proof (set_address_valid_src _ _ _ _ Hv) as Hsv.
  destruct (inv_pcc m Hinv Hsv) as [[b Hb] Hle].
  apply (derives_val _ _ (pcc2fullcap (m_pcc m))); [|done].
  by apply (set_address_derives it8 _ b).
Qed.

(** The tags of memory after an update that makes no pair of tagged words but a
    stored capability. *)
Lemma inv_set_mem m f : inv m ->
  (forall j, tag_of (f (2 * j)) = true -> tag_of (f (2 * j + 1)) = true ->
     (f (2 * j) = m_mem m (2 * j) /\ f (2 * j + 1) = m_mem m (2 * j + 1)) \/
     exists c a, r_valid c = true /\ val_ok (c, a) /\
       (f (2 * j), f (2 * j + 1)) = store_words false it8 c (tagged c a)) ->
  inv (set_mem f m).
Proof.
  intros [Hr Hs Hp Hm] H. split; try done. intros j H0 H1. cbn [set_mem m_mem] in *.
  destruct (H j H0 H1) as [[E0 E1]|]; [|done]. rewrite E0, E1 in *. by apply Hm.
Qed.

(** *** Steps *)

Lemma csr_write_aligned op i : csr_op_en (o_csr (ex op i)) = true ->
  csr_addr_o (o_csr (ex op i)) = CHERI_SCR_MTCC -> csr_wdata_o (o_csr (ex op i)) mod 4 = 0.
Proof.
  intros He. assert (op = CCSR_RW) as -> by (destruct op; done).
  cbn [main_ex]. unfold ex_csr_rw.
  destruct (cheri_cs2_dec_i i =? CHERI_SCR_ZTOPC); cbn [o_csr csr_addr_o csr_wdata_o];
    intros Ha; unfold scr_wdata; rewrite Ha; cbn [Z.eqb CHERI_SCR_MTCC Pos.eqb];
    rewrite Z.shiftl_mul_pow2 by done; by apply Z.mod_mul.
Qed.

Lemma inv_result m rb op i : inv m -> reads m rb i ->
  r_valid (result_cap_o (ex op i)) = true -> val_ok (result_cap_o (ex op i), result_data_o (ex op i)).
Proof.
  intros Hinv Hr Hv. pose proof (reads_in_ok m rb i Hinv Hr) as Hi.
  destruct (decide (op = CCSR_RW)) as [->|Hop].
  - cbn [main_ex] in *. unfold ex_csr_rw in *.
    destruct (cheri_cs2_dec_i i =? CHERI_SCR_ZTOPC); cbn [result_cap_o result_data_o] in *.
    + pose proof (rd_ztop _ _ _ Hr) as [= E _]. by rewrite E in Hv.
    + rewrite (rd_csr _ _ _ Hr). by apply inv_scr.
  - pose proof (ex_result false it8 CheriPPLBC op i Hi Hop Hv) as Hd.
    destruct (bool_decide _); (eapply derives_val; [exact Hd|]); destruct Hd as (_ & Hsv & _).
    + by apply (below_pcc m rb).
    + by apply (below_a m rb).
Qed.

Lemma inv_execute m rb op i : inv m -> reads m rb i -> inv (execute op i m).
Proof.
  intros Hinv Hr. pose proof (reads_in_ok m rb i Hinv Hr) as Hi. unfold execute. cbv zeta.
  pose proof (inv_rf_write m (rf_waddr_i i) (cheri_rf_we (ex op i)) _ _ Hinv
    (fun _ => val_ok_trunc _ _ (inv_result m rb op i Hinv Hr))) as H1.
  assert (forall m', inv m' -> inv (if csr_op_en (o_csr (ex op i))
    then scr_write (csr_addr_o (o_csr (ex op i))) (csr_wcap_o (o_csr (ex op i)))
      (csr_wdata_o (o_csr (ex op i))) m' else m')) as H2.
  { intros m' Hm'. destruct (csr_op_en (o_csr (ex op i))) eqn:Ew; [|done].
    apply inv_scr_write; [done|]. intros Hv.
    pose proof (csr_wcap_derives false it8 CheriPPLBC op i Hi Ew Hv) as Hd.
    split; [|by apply csr_write_aligned].
    eapply derives_val; [exact Hd|]. apply (below_a m rb); try done. apply Hd. }
  destruct (branch_req (o_branch (ex op i))) eqn:Eb; [|by apply H2].
  apply inv_set_pcc; [by apply H2|]. intros _.
  pose proof (branch_is_jalr false it8 CheriPPLBC op i Eb) as ->.
  destruct (jump_cap false it8 CheriPPLBC i Hi Eb) as (Hv & _ & _ & Hp & Ea).
  split; [done|]. rewrite Ea. by apply (below_a m rb).
Qed.

Lemma cap_index a : 0 <= a < 2 ^ 32 -> a mod 8 = 0 -> data_addr_word a = 2 * (a / 8).
Proof.
  intros Ha H8. rewrite word_index by done. symmetry. apply (Z.div_unique_pos _ _ _ 0); [lia|].
  pose proof (Z.div_mod a 8). lia.
Qed.

Lemma inv_load_cap m rb i : inv m -> reads m rb i -> cheri_lsu_err CLOAD_CAP i = false ->
  inv (load_cap i m).
Proof.
  intros Hinv Hr He. pose proof (reads_in_ok m rb i Hinv Hr) as Hi.
  destruct (load_cap_permits it8 i (rd_pmode _ _ _ Hr) (rd_debug _ _ _ Hr) (in_a it8 i Hi) He) as [H8 _].
  unfold load_cap. cbv zeta. rewrite (cap_index _ (cs1_addr_range i CLOAD_CAP) H8).
  set (j := _ / 8). set (clr := lsu_lc_clrperm _ _ _ _ _ _).
  pose proof (loaded_pair m j clr Hinv) as Hl. cbv zeta in Hl.
  destruct (load_words _ _ _ _ _) as [cap data]. cbn [fst snd] in Hl.
  apply inv_rf_write; [done|]. intros Hv. specialize (Hl Hv). by rewrite slice_low in Hl.
Qed.

Lemma inv_store_cap m rb i : inv m -> reads m rb i -> cheri_lsu_err CSTORE_CAP i = false ->
  inv (store_cap i m).
Proof.
  intros Hinv Hr He. pose proof (reads_in_ok m rb i Hinv Hr) as Hi.
  destruct (store_cap_permits it8 i (rd_pmode _ _ _ Hr) (rd_debug _ _ _ Hr) (in_a it8 i Hi) He) as [H8 _].
  unfold store_cap. cbv zeta. rewrite (cap_index _ (cs1_addr_range i CSTORE_CAP) H8).
  set (j := _ / 8). set (cap := csc_wcap _).
  fold (tagged cap (rf_rdata_b i)).
  destruct (store_words false it8 cap (tagged cap (rf_rdata_b i))) as [lsw msw] eqn:Ew.
  apply inv_set_mem; [done|]. intros j' H0 H1. unfold mem_set in *.
  destruct (Z.eq_dec j' j) as [->|Hne]; [right|left].
  - rewrite (proj2 (Z.eqb_neq (2 * j) (2 * j + 1))), !Z.eqb_refl in * by lia.
    assert (r_valid cap = true) as Hv.
    { destruct (tagged_parts cap _ (in_rdata_b it8 i Hi)) as [<- _].
      unfold store_words in Ew. injection Ew as <- _. exact H0. }
    exists cap, (rf_rdata_b i). split_and!; [done| |done].
    pose proof (csc_wcap_derives false it8 CheriPPLBC CSTORE_CAP i Hi Hv) as Hd.
    apply (derives_val _ _ _ Hd). apply (below_b m rb); try done. apply Hd.
  - by rewrite !(proj2 (Z.eqb_neq _ _)) by lia.
Qed.

Lemma rv32_access_range i lsu_type lsu_we addr :
  in_ok it8 i -> cheri_pmode_i i = true -> debug_mode_i i = false ->
  0 <= addr < 2 ^ 32 -> rv32_lsu_err i lsu_type lsu_we addr false = false ->
  0 <= addr /\ addr + access_size lsu_type <= 2 ^ 32.
Proof.
  intros Hi Hp Hd Ha He.
  destruct (rv32_permits it8 i Hp Hd (in_a it8 i Hi) lsu_type lsu_we addr Ha He) as [Hv _ _ _ Ht].
  destruct (full_a_bounds it8 i (in_a it8 i Hi) Hv). unfold rv32_size, access_size in *. lia.
Qed.

Lemma inv_store m rb i lsu_type addr : inv m -> reads m rb i -> 0 <= lsu_type < 4 ->
  0 <= addr < 2 ^ 32 -> rv32_lsu_err i lsu_type true addr false = false ->
  inv (set_mem (rv32_store lsu_type addr (rf_rdata_b i) (m_mem m)) m).
Proof.
  intros Hinv Hr Ht Ha He. pose proof (reads_in_ok m rb i Hinv Hr) as Hi.
  pose proof (rv32_access_range i _ _ _ Hi (rd_pmode _ _ _ Hr) (rd_debug _ _ _ Hr) Ha He) as Hra.
  pose proof (in_rdata_b it8 i Hi) as Hb.
  apply inv_set_mem; [done|]. intros j H0 H1. left. rewrite !store_tag in H0, H1 by done.
  apply andb_prop in H0 as [H0%negb_true_iff _], H1 as [H1%negb_true_iff _].
  rewrite !store_word, H0, H1 by done. done.
Qed.

(** Every step keeps the invariant. *)
Lemma inv_step m m' : inv m -> step m m' -> inv m'.
Proof.
  intros Hinv [op rb i Hr _ _|rb i Hr He|rb i Hr He|rd data|rb i t addr sign Hr _ _ _|rb i t addr Hr Ht Ha He
    |pc clr Hpc|nmi pc Hpc|r].
  - by apply (inv_execute m rb).
  - by apply (inv_load_cap m rb).
  - by apply (inv_store_cap m rb).
  - by apply inv_rf_write.
  - by apply inv_rf_write.
  - by apply (inv_store m rb).
  - pose proof Hinv as [Hr Hs Hp Hm]. split; try done.
    + intros a. specialize (Hs a). unfold scr_read, trap in *. cbn [m_mtcc m_mtdc m_mscratchc m_mepcc] in *.
      repeat case_match; try done. by apply mepcc_val.
    + intros Hv. apply (pcc_of_val (m_mtcc m)); [|done]. apply (Hs CHERI_SCR_MTCC).
  - destruct Hinv as [Hr Hs Hp Hm]. split; try done.
    + intros a. specialize (Hs a). unfold scr_read, mret in *. cbn [m_mtcc m_mtdc m_mscratchc m_mepcc] in *.
      repeat case_match; done.
    + intros Hv. apply (pcc_of_val (m_mepcc m)); [|done]. apply (Hs CHERI_SCR_MEPCC).
  - by apply inv_rf_revoke.
Qed.
End Invariant.

(** ** Authority *)

Definition machine_ok : machine -> Prop := inv (fun _ => True).


Lemma val_self R v : val_ok (fun _ => True) v -> (r_valid v.1 = true -> R (reg_auth v.1 v.2)) ->
  val_ok R v.
Proof.
  intros [Ha H] HR. split; [done|]. intros Hv. split; [by apply H|].
  exists (reg_auth v.1 v.2). split; [by apply HR|reflexivity].
Qed.

(** A well-formed state keeps below itself. *)
Lemma inv_self m : machine_ok m -> inv (holds m) m.
Proof.
  intros Hok. destruct Hok as [Hr Hs Hp Hm] eqn:E. clear E. split.
  - intros r. apply val_self; [done|]. apply holds_reg.
  - intros a. apply val_self; [done|]. apply holds_scr.
  - intros Hv. split; [by apply Hp|]. eexists. split; [by apply holds_pcc|reflexivity].
  - intros j H0 H1. destruct (Hm j H0 H1) as (c & a & Hc & Hca & Ew). exists c, a.
    split_and!; [done| |done]. destruct Hca as [Ha H]. destruct (H Hc) as [Hcap _].
    split; [done|]. intros _. split; [done|]. cbn [fst snd] in *.
    pose proof (words_roundtrip false it8 c a 0 Hcap) as Hrt. cbv zeta in Hrt.
    rewrite <-Ew in Hrt. cbn [fst snd] in Hrt.
    pose proof (holds_mem m j) as Hh. cbv zeta in Hh. rewrite Hrt in Hh. cbn [fst snd] in Hh.
    destruct (tagged_parts c a Ha) as [_ Ea]. rewrite Ea in Hh.
    eexists. split; [apply Hh; cbn [loaded_cap r_valid]; by rewrite Hc|].
    apply reg_auth_fields; try done. unfold loaded_cap. cbn [r_cperms].
    rewrite mask_none; [reflexivity|apply (rr_cperms _ (ok_range _ _ _ Hcap))].
Qed.

Lemma inv_reachable R m m' : inv R m -> rtc step m m' -> inv R m'.
Proof. intros Hinv. induction 1 as [|x y z Hs _ IH]; [done|]. apply IH. by apply (inv_step R x). Qed.

(** *** Memory *)

Lemma perms_le_bit p q k : perms_le p q -> Z.testbit p k = true -> Z.testbit q k = true.
Proof. unfold perms_le. intros <-. rewrite Z.land_spec. by intros [_ ?]%andb_prop. Qed.

(** A byte that changes is inside a capability that permits the store. *)
Definition writable (R : authority -> Prop) (x : Z) : Prop :=
  exists A, R A /\ Z.testbit (au_perms A) PERM_SD = true /\ au_base A <= x < au_top A.

Lemma permits_writable R m rb i addr size x :
  inv R m -> reads m rb i -> permits i PERM_SD addr size -> addr <= x < addr + size ->
  writable R x.
Proof.
  intros Hinv Hr [Hv _ Hp Hb Ht] Hx.
  destruct (below_a R m rb i Hinv Hr Hv) as (B & HB & Hlb & Hlt & Hlp).
  cbn [auth_of au_base au_top au_perms] in *.
  exists B. split_and!; [done|by apply (perms_le_bit _ _ _ Hlp)|lia|lia].
Qed.

Lemma store_cap_byte R m rb i x : inv R m -> reads m rb i -> cheri_lsu_err CSTORE_CAP i = false ->
  0 <= x -> ~ writable R x -> mem_byte (m_mem (store_cap i m)) x = mem_byte (m_mem m) x.
Proof.
  intros Hinv Hr He Hx Hw. pose proof (reads_in_ok R m rb i Hinv Hr) as Hi.
  destruct (store_cap_permits it8 i (rd_pmode _ _ _ Hr) (rd_debug _ _ _ Hr) (in_a it8 i Hi) He)
    as [H8 Hp].
  pose proof (cs1_addr_range i CSTORE_CAP) as Hrange. unfold store_cap. cbv zeta.
  rewrite (cap_index _ Hrange H8).
  set (addr := cs1_addr_plusimm CSTORE_CAP i) in *. destruct (store_words _ _ _ _) as [lsw msw].
  unfold mem_byte, set_mem, mem_set. cbn [m_mem].
  pose proof (Z.div_mod addr 8 ltac:(lia)). pose proof (Z.div_mod x 4 ltac:(lia)).
  pose proof (Z.mod_pos_bound x 4 ltac:(lia)).
  assert (~ addr <= x < addr + 8) as Hout.
  { intros Hin. apply Hw. by apply (permits_writable R m rb i addr 8). }
  by rewrite !(proj2 (Z.eqb_neq _ _)) by lia.
Qed.

Lemma store_byte_kept R m rb i lsu_type addr x : inv R m -> reads m rb i -> 0 <= lsu_type < 4 ->
  0 <= addr < 2 ^ 32 -> rv32_lsu_err i lsu_type true addr false = false -> 0 <= x -> ~ writable R x ->
  mem_byte (rv32_store lsu_type addr (rf_rdata_b i) (m_mem m)) x = mem_byte (m_mem m) x.
Proof.
  intros Hinv Hr Ht Ha He Hx Hw. pose proof (reads_in_ok R m rb i Hinv Hr) as Hi.
  pose proof (rv32_access_range i _ _ _ Hi (rd_pmode _ _ _ Hr) (rd_debug _ _ _ Hr) Ha He) as Hra.
  pose proof (rv32_permits it8 i (rd_pmode _ _ _ Hr) (rd_debug _ _ _ Hr) (in_a it8 i Hi)
    lsu_type true addr Ha He) as Hp.
  rewrite store_byte by (done || apply (in_rdata_b it8 i Hi)).
  destruct ((addr <=? x) && (x <? addr + access_size lsu_type)) eqn:Hin; [|reflexivity].
  apply andb_prop in Hin as [H1 H2]. exfalso. apply Hw.
  apply (permits_writable R m rb i addr (rv32_size lsu_type)); [done..|].
  unfold rv32_size, access_size in *. lia.
Qed.

Lemma rf_write_mem r we c a m : m_mem (rf_write r we c a m) = m_mem m.
Proof. unfold rf_write. by case_match. Qed.
Lemma scr_write_mem a c d m : m_mem (scr_write a c d m) = m_mem m.
Proof. by destruct m. Qed.
Lemma execute_mem op i m : m_mem (execute op i m) = m_mem m.
Proof.
  unfold execute. cbv zeta.
  destruct (branch_req _), (csr_op_en _); cbn [set_pcc m_mem];
    by rewrite ?scr_write_mem, rf_write_mem.
Qed.

Lemma step_byte R m m' x : inv R m -> step m m' -> 0 <= x -> ~ writable R x ->
  mem_byte (m_mem m') x = mem_byte (m_mem m) x.
Proof.
  intros Hinv [op rb i Hr _ _|rb i Hr He|rb i Hr He|rd data|rb i t addr sign Hr _ _ _|rb i t addr Hr Ht Ha He
    |pc clr Hpc|nmi pc Hpc|r] Hx Hw; try done.
  - by rewrite execute_mem.
  - unfold load_cap. cbv zeta. destruct (load_words _ _ _ _ _). by rewrite rf_write_mem.
  - by apply (store_cap_byte R m rb).
  - by rewrite rf_write_mem.
  - by rewrite rf_write_mem.
  - by apply (store_byte_kept R m rb).
Qed.

(** *** Reset *)

(** The state after reset, with mtcc at the boot address. *)
Definition reset (boot_addr : Z) (mem : memory) : machine :=
  Machine (fun _ => null_val) PCC_RESET_CAP
    (MTVEC_RESET_CAP, cat [(24, slice boot_addr 31 8); (8, 0)]) (MTDC_RESET_CAP, 0)
    (MSCRATCHC_RESET_CAP, 0) (MEPC_RESET_CAP, 0) mem.

Lemma root_at c a : cap_ok it8 c 0 -> r_exp c = 24 -> r_base c = 0 -> r_top c = 0x100 ->
  r_top_cor c = 0 -> r_base_cor c = 0 -> 0 <= a < 2 ^ 32 -> cap_ok it8 c a.
Proof.
  intros [Hr _ He Hn _ (b & Hb & _)] Ee EB ET Etc Ebc Ha. split; try done.
  - rewrite ET, EB, Etc, Ebc, Ee. pose proof (addrmi9_range 24 a). unfold update_temp_fields.
    by rewrite (proj2 (Z.ltb_ge (addrmi9 24 a) 0)) by lia.
  - exists b. split; [done|by left].
Qed.

Lemma reset_val c a : In c [MTVEC_RESET_CAP; MTDC_RESET_CAP; MEPC_RESET_CAP; MSCRATCHC_RESET_CAP] ->
  0 <= a < 2 ^ 32 -> val_ok (fun _ => True) (c, a).
Proof.
  intros Hc Ha. split; [done|]. intros _. split; [|by eexists].
  pose proof (proj1 (List.Forall_forall _ _) (reset_caps_ok it8) c Hc) as Hok.
  cbn [In] in Hc. destruct Hc as [<-|[<-|[<-|[<-|[]]]]]; by apply root_at.
Qed.

Lemma reset_ok boot mem : (forall k, tag_of (mem k) = false) -> machine_ok (reset boot mem).
Proof.
  intros Hmem. split.
  - intros r. unfold rf_read. destruct (r =? 0); apply null_val_ok.
  - intros a. unfold scr_read, reset. cbn [m_mtcc m_mtdc m_mscratchc m_mepcc].
    repeat case_match; [| | | |apply null_val_ok]; apply reset_val; cbn [In]; auto 10; try done.
    unfold cat. cbn [foldl fst snd].
    assert (0 <= slice boot 31 8 < 2 ^ 24) by (apply trunc_range; lia). lia.
  - intros _. split; [|by eexists]. exists 0. apply reset_full_ok.
  - intros j H0. cbn [reset m_mem] in H0. by rewrite Hmem in H0.
Qed.

Lemma reset_holds boot mem A : (forall k, tag_of (mem k) = false) -> holds (reset boot mem) A ->
  In (au_perms A) (map expand_perms [CPERMS_TX; CPERMS_TM; CPERMS_TS]).
Proof.
  intros Hmem [r Hv|a Hv|Hv|j w Hv].
  - exfalso. unfold rf_read in Hv. by destruct (r =? 0).
  - unfold scr_read, reset in *. cbn [m_mtcc m_mtdc m_mscratchc m_mepcc] in *.
    repeat case_match; try done; cbn; auto.
  - by left.
  - exfalso. unfold w in Hv. rewrite load_words_valid in Hv. cbn [reset m_mem] in Hv.
    by rewrite !Hmem in Hv.
Qed.

Lemma bytes_kept R m m' x : inv R m -> rtc step m m' -> 0 <= x -> ~ writable R x ->
  mem_byte (m_mem m') x = mem_byte (m_mem m) x.
Proof.
  intros Hinv Hs Hx Hw. revert Hinv. induction Hs as [|m1 m2 m3 Hs _ IH]; [done|]. intros Hinv.
  rewrite IH by (by apply (inv_step _ m1)). by apply (step_byte R m1).
Qed.

(** *** Theorems *)

(** C1 (invariant: no execution creates authority).  In every state the core reaches
    from a well-formed one, every tagged capability of the registers, the special
    registers, the program counter and memory is well formed and covers at most the
    addresses, with at most the permissions, of a tagged capability of the first
    state. *)
Theorem reachable_authority (m m' : machine) :
  machine_ok m -> rtc step m m' ->
  machine_ok m' /\ forall A, holds m' A -> exists B, holds m B /\ auth_le A B.
Proof.
  intros Hok Hsteps. split; [by apply (inv_reachable _ m)|].
  intros A HA. apply (inv_holds (holds m) m' A); [|done].
  apply (inv_reachable _ m); [by apply inv_self|done].
Qed.

(** C3 (safety: integrity of memory).  A byte that no tagged capability of the first
    state may store to is the same in every state the core reaches: no sequence of
    instructions, traps and returns changes it. *)
Theorem memory_integrity (m m' : machine) (x : Z) :
  machine_ok m -> rtc step m m' -> 0 <= x ->
  (forall A, holds m A -> Z.testbit (au_perms A) PERM_SD = true -> ~ au_base A <= x < au_top A) ->
  mem_byte (m_mem m') x = mem_byte (m_mem m) x.
Proof.
  intros Hok Hsteps Hx Hno. assert (~ writable (holds m) x) as Hw.
  { intros (A & HA & Hp & Hr). by apply (Hno A). }
  apply (bytes_kept (holds m)); [by apply inv_self|done..].
Qed.

(** C11 (safety: kinds of authority from reset).  From reset, with no tags in memory, no
    reachable capability can both execute and store, and none that can seal or unseal
    can execute, load or store: the three roots stay apart. *)
Theorem roots_stay_apart (boot_addr : Z) (mem : memory) (m : machine) (A : authority) :
  (forall k, tag_of (mem k) = false) -> rtc step (reset boot_addr mem) m -> holds m A ->
  let p := Z.testbit (au_perms A) in
  p PERM_EX && p PERM_SD = false /\
  (p PERM_SE || p PERM_US) && (p PERM_EX || p PERM_LD || p PERM_SD) = false.
Proof.
  intros Hmem Hsteps HA. cbv zeta.
  pose proof (inv_reachable _ _ _ (inv_self _ (reset_ok boot_addr mem Hmem)) Hsteps) as Hinv.
  destruct (inv_holds _ _ _ Hinv HA) as (B & HB & _ & _ & Hle).
  pose proof (fun k => perms_le_bit _ _ k Hle) as Hbit.
  pose proof (reset_holds _ _ _ Hmem HB) as Hroot. clear HB Hle.
  assert (forall k, Z.testbit (au_perms B) k = false -> Z.testbit (au_perms A) k = false) as Hno.
  { intros k Hk. apply not_true_is_false. intros Ha. rewrite (Hbit k Ha) in Hk. done. }
  cbn [map In] in Hroot. destruct Hroot as [E|[E|[E|[]]]]; rewrite <-E in Hno.
  - rewrite (Hno PERM_SD), (Hno PERM_SE), (Hno PERM_US) by by_compute.
    by rewrite andb_false_r.
  - rewrite (Hno PERM_EX), (Hno PERM_SE), (Hno PERM_US) by by_compute. done.
  - rewrite (Hno PERM_EX), (Hno PERM_SD), (Hno PERM_LD) by by_compute.
    by rewrite !andb_false_r.
Qed.
End Machine.

(** *** Witnesses *)

(** Reading mtdc into c10 (CSPECIALRW c10, mtdc, c0). *)
Definition read_mtdc : ex_in :=
  ExIn true false false false true 0 0 NULL_REG_CAP 0 NULL_REG_CAP 10 PCC_RESET_CAP 0x80 false 0 0 0
    CHERI_SCR_MTDC 0 MTDC_RESET_CAP false 0xaa55 NULL_REG_CAP (BoundReq 0 0 0 0 0 false) false.
Definition booted : machine := reset 0x20000000 (fun _ => 0).
Definition got_root : machine := execute false true CCSR_RW read_mtdc booted.

Lemma got_root_steps : rtc (step false true) booted got_root.
Proof.
  eapply rtc_l; [|reflexivity].
  apply (step_execute false true booted CCSR_RW 0 read_mtdc); [by split|done|done].
Qed.

Lemma booted_ok : machine_ok false booted.
Proof. by apply reset_ok. Qed.

Example reachable_authority_witness :
  exists B, holds false booted B /\ auth_le (reg_auth MTDC_RESET_CAP 0) B.
Proof.
  apply (reachable_authority false true booted got_root booted_ok got_root_steps).
  by apply (holds_reg false got_root 10).
Defined.

Example roots_stay_apart_witness :
  Z.testbit (au_perms (reg_auth MTDC_RESET_CAP 0)) PERM_EX &&
  Z.testbit (au_perms (reg_auth MTDC_RESET_CAP 0)) PERM_SD = false.
Proof.
  apply (roots_stay_apart false true 0x20000000 (fun _ => 0) got_root); [done|apply got_root_steps|].
  by apply (holds_reg false got_root 10).
Defined.

(** A state with one bounded capability, which stores a word. *)
Definition sandbox : machine :=
  Machine (fun r => if r =? 10 then (bounded 0x2000 0x40, 0x2000) else null_val) PCC_RESET_CAP
    null_val null_val null_val null_val (fun _ => 0).
Definition sandbox_in : ex_in := operands (bounded 0x2000 0x40) 0x2000 NULL_REG_CAP 0.
Definition stored : machine := set_mem (rv32_store 0 0x203c 0 (fun _ => 0)) sandbox.

Lemma sandbox_ok : machine_ok false sandbox.
Proof.
  split.
  - intros r. unfold rf_read. destruct (r =? 0); [apply null_val_ok|].
    cbn [sandbox m_regs]. destruct (r =? 10); [|apply null_val_ok].
    split; [done|]. intros _. split; [cap_ok_tac|by eexists].
  - intros a. unfold scr_read. repeat case_match; apply null_val_ok.
  - intros _. split; [exists 0; apply reset_full_ok|by eexists].
  - intros j H. discriminate H.
Qed.

Lemma sandbox_writes A : holds false sandbox A -> Z.testbit (au_perms A) PERM_SD = true ->
  ~ au_base A <= 0x3000 < au_top A.
Proof.
  intros [r Hv|a Hv|Hv|j w Hv] Hp.
  - unfold rf_read in *. destruct (r =? 0); [done|]. cbn [sandbox m_regs] in *.
    destruct (r =? 10); [|done]. vm_compute. intros [_ H]. discriminate H.
  - unfold scr_read in Hv. repeat case_match; done.
  - discriminate Hp.
  - discriminate Hv.
Qed.

Lemma sandbox_steps : rtc (step false true) sandbox stored.
Proof.
  eapply rtc_l; [|reflexivity].
  apply (step_store false true sandbox 0 sandbox_in 0 0x203c); [by split|done|done|by_compute].
Qed.

Example memory_integrity_witness :
  mem_byte (m_mem stored) 0x3000 = mem_byte (m_mem sandbox) 0x3000.
Proof.
  apply (memory_integrity false true sandbox stored 0x3000 sandbox_ok sandbox_steps); [done|].
  exact sandbox_writes.
Defined.
