(* ===== verification/CheriStkz.v ===== *)
(** * The stack zeroization engine

    rtl/cheri_stkz.sv: writing the special capability register ztop starts an engine
    that clears memory from below the address of the capability down to its base,
    one request at a time, while ztop reads back as the capability at the current
    address.  [cycle] is one clock of the module; [Mem65Bit] is its parameter for a
    memory of 65-bit words.  The engine clears exactly the words it should and stops
    ([stack_zeroized]), within the bounds of the capability written when its base is
    word aligned, and ztop keeps reading back as a capability
    below the one written if, besides, ztop is written only to an idle engine or to
    stop it ([ztop_readback]).  Neither condition is checked by the module:
    [ztop_forges] says which capabilities come back with other bounds when the base is
    not aligned, and [ztop_write_while_active] is an example of a write to the active
    engine. *)

From S2P Require Import Prelude Bits CapDecode CheriPkg CheriBounds CheriMem CheriEx CheriAuth.
Local Open Scope Z_scope.

#[export] Instance full_cap_eq_dec : EqDecision full_cap_t.
Proof. solve_decision. Defined.

(** ** The module *)

Inductive stkz_fsm_t := STKZ_IDLE | STKZ_ACTIVE | STKZ_ABORT.
#[export] Instance stkz_fsm_eq_dec : EqDecision stkz_fsm_t.
Proof. solve_decision. Defined.

Record stkz := Stkz {
  stkz_fsm_q : stkz_fsm_t; stkz_ptrw : Z; stkz_ptrw_nxt : Z; stkz_basew : Z; stkz_err : bool;
  ztop_rcap : reg_cap_t }.
Record stkz_in := StkzIn {
  ztop_wr_i : bool; ztop_wdata_i : Z; ztop_wfcap_i : full_cap_t; unmasked_intr_i : bool;
  lsu_stkz_resp_valid_i : bool; lsu_stkz_resp_err_i : bool; lsu_stkz_req_done_i : bool }.

Definition stkz_reset : stkz := Stkz STKZ_IDLE 0 0 0 false NULL_REG_CAP.

Section Module.
Context (Mem65Bit : bool).

Section Signals.
Context (i : stkz_in) (s : stkz).

Definition ztop_rdata : Z := cat [(30, stkz_ptrw s); (2, 0)].
Definition stkz_lsu_addr : Z := cat [(30, stkz_ptrw_nxt s); (2, 0)].
Definition stkz_active : bool := negb (bool_decide (stkz_fsm_q s = STKZ_IDLE)).
Definition stkz_abort : bool := bool_decide (stkz_fsm_q s = STKZ_ABORT).

Definition cmd_cap_good : bool :=
  fc_valid (ztop_wfcap_i i) &&
  (slice (ztop_wdata_i i) 31 2 <=? slice (fc_top33 (ztop_wfcap_i i)) 32 2) &&
  Z.testbit (fc_perms (ztop_wfcap_i i)) PERM_SD.
Definition cmd_is_n2z : bool :=
  cmd_cap_good && (slice (ztop_wdata_i i) 31 2 =? slice (fc_base32 (ztop_wfcap_i i)) 31 2).
Definition cmd_new_null : bool :=
  ztop_wr_i i && bool_decide (ztop_wfcap_i i = NULL_FULL_CAP) && (ztop_wdata_i i =? 0).
Definition cmd_new_cap : bool := ztop_wr_i i && negb cmd_new_null.
Definition stkz_start : bool :=
  cmd_new_cap && cmd_cap_good &&
  (slice (fc_base32 (ztop_wfcap_i i)) 31 2 <? slice (ztop_wdata_i i) 31 2).
Definition stkz_done : bool := stkz_ptrw_nxt s <=? stkz_basew s.
Definition stkz_stop : bool := unmasked_intr_i i || cmd_new_null.

Definition stkz_fsm_d : stkz_fsm_t :=
  let fsm := stkz_fsm_q s in
  let req_done := lsu_stkz_req_done_i i in
  if bool_decide (fsm = STKZ_IDLE) && stkz_start then STKZ_ACTIVE
  else if bool_decide (fsm = STKZ_ACTIVE) && stkz_done && req_done then STKZ_IDLE
  else if bool_decide (fsm = STKZ_ACTIVE) && stkz_stop && req_done then STKZ_IDLE
  else if bool_decide (fsm = STKZ_ACTIVE) && stkz_stop then STKZ_ABORT
  else if bool_decide (fsm = STKZ_ABORT) && req_done then STKZ_IDLE
  else fsm.

Definition cmd_wcap : reg_cap_t :=
  let cap := full2regcap (ztop_wfcap_i i) in if cmd_is_n2z then reg_with_valid false cap else cap.

(** The register after a word is cleared: the corrections for the new address, and no
    tag at the end. *)
Definition ztop_rcap_nxt : reg_cap_t :=
  let c := ztop_rcap s in
  let addrmi9 := trunc 9 (cat [(30, stkz_ptrw_nxt s); (2, 0)] >> r_exp c) in
  let tmp3 := update_temp_fields (r_top c) (r_base c) addrmi9 in
  RegCap (r_valid c && negb stkz_done) tmp3.1 tmp3.2 (r_exp c) (r_top c) (r_base c) (r_otype c)
    (r_cperms c) (r_rsvd c).

Definition cycle : stkz :=
  let progress := stkz_active && lsu_stkz_req_done_i i in
  let step := if Mem65Bit then 2 else 1 in
  let '(ptrw, rcap) :=
    if ztop_wr_i i then
      (if Mem65Bit then cat [(29, slice (ztop_wdata_i i) 31 3); (1, 0)]
       else slice (ztop_wdata_i i) 31 2, cmd_wcap)
    else if progress then (stkz_ptrw_nxt s, ztop_rcap_nxt)
    else (stkz_ptrw s, ztop_rcap s) in
  let '(ptrw_nxt, basew) :=
    if stkz_start then
      (trunc 30 (slice (ztop_wdata_i i) 31 2 - step), slice (fc_base32 (ztop_wfcap_i i)) 31 2)
    else if progress && negb (stkz_done || stkz_stop) then
      (trunc 30 (stkz_ptrw_nxt s - step), stkz_basew s)
    else (stkz_ptrw_nxt s, stkz_basew s) in
  let err := if negb stkz_active && stkz_start then false
             else if lsu_stkz_resp_valid_i i && lsu_stkz_resp_err_i i then true else stkz_err s in
  Stkz stkz_fsm_d ptrw ptrw_nxt basew err rcap.

(** The word cleared in a cycle: a request is made while the engine is active, and
    done when the load-store unit says so. *)
Definition cleared : list Z :=
  if stkz_active && lsu_stkz_req_done_i i then [stkz_ptrw_nxt s] else [].
End Signals.

(** A sequence of cycles and the words it clears. *)
Fixpoint run (ins : list stkz_in) (s : stkz) : stkz * list Z :=
  match ins with
  | [] => (s, [])
  | i :: ins => let '(s', ws) := run ins (cycle i s) in (s', cleared i s ++ ws)
  end.

(** A cycle in which ztop is not written and no interrupt is pending. *)
Definition quiet (i : stkz_in) : Prop := ztop_wr_i i = false /\ unmasked_intr_i i = false.
End Module.

(** ** A run of the engine *)

Local Abbreviation cycle33 := (cycle false).
Local Abbreviation run33 := (run false).

(** The words [x], [x - 1], ... *)
Fixpoint downfrom (n : nat) (x : Z) : list Z :=
  match n with O => [] | S n => x :: downfrom n (x - 1) end.
(** The requests done in a sequence of cycles. *)
Definition dones (ins : list stkz_in) : nat :=
  length (List.filter lsu_stkz_req_done_i ins).

(** The tests on a known state. *)
Ltac fsm_tests :=
  repeat match goal with |- context [bool_decide (?a = ?b :> stkz_fsm_t)] =>
    let v := eval vm_compute in (bool_decide (a = b)) in
    first [constr_eq v true | constr_eq v false]; change (bool_decide (a = b)) with v end;
  cbn [andb orb negb].

Lemma quiet_start i : quiet i -> stkz_start i = false.
Proof. intros [Hw _]. unfold stkz_start, cmd_new_cap. by rewrite Hw. Qed.
Lemma quiet_stop i : quiet i -> stkz_stop i = false.
Proof. intros [Hw Hu]. unfold stkz_stop, cmd_new_null. by rewrite Hw, Hu. Qed.

Lemma idle_quiet i s : quiet i -> stkz_fsm_q s = STKZ_IDLE ->
  stkz_fsm_q (cycle33 i s) = STKZ_IDLE /\ cleared i s = [].
Proof.
  intros Hq Hs. unfold cycle, cleared, stkz_fsm_d, stkz_active.
  rewrite (quiet_start i Hq), (quiet_stop i Hq), Hs. fsm_tests.
  by destruct (ztop_wr_i i).
Qed.

Lemma active_quiet i s : quiet i -> stkz_fsm_q s = STKZ_ACTIVE -> 0 <= stkz_ptrw_nxt s < 2 ^ 30 ->
  0 <= stkz_basew s ->
  let s' := cycle33 i s in
  stkz_basew s' = stkz_basew s /\
  if lsu_stkz_req_done_i i then
    cleared i s = [stkz_ptrw_nxt s] /\
    if stkz_ptrw_nxt s <=? stkz_basew s then stkz_fsm_q s' = STKZ_IDLE
    else stkz_fsm_q s' = STKZ_ACTIVE /\ stkz_ptrw_nxt s' = stkz_ptrw_nxt s - 1
  else cleared i s = [] /\ stkz_fsm_q s' = STKZ_ACTIVE /\ stkz_ptrw_nxt s' = stkz_ptrw_nxt s.
Proof.
  intros Hq Hs Hp Hb. cbv zeta. pose proof Hq as [Hw _].
  unfold cycle, cleared, stkz_fsm_d, stkz_active, stkz_done.
  rewrite (quiet_start i Hq), (quiet_stop i Hq), Hs, Hw. fsm_tests.
  destruct (lsu_stkz_req_done_i i); cbn [andb];
    [|rewrite ?andb_false_r; cbn [stkz_basew stkz_fsm_q stkz_ptrw_nxt]; done].
  destruct (Z.leb_spec (stkz_ptrw_nxt s) (stkz_basew s)); [done|].
  split_and!; try done. cbn [orb andb negb stkz_ptrw_nxt]. apply trunc_small. lia.
Qed.

(** What an active engine clears: with [k] words to go and [dones ins] requests done. *)
Lemma run_quiet ins : Forall quiet ins -> forall k s,
  stkz_fsm_q s = STKZ_ACTIVE -> 0 <= stkz_ptrw_nxt s < 2 ^ 30 -> 0 <= stkz_basew s ->
  stkz_ptrw_nxt s - stkz_basew s + 1 = Z.of_nat (S k) ->
  (run33 ins s).2 = downfrom (min (dones ins) (S k)) (stkz_ptrw_nxt s) /\
  stkz_fsm_q (run33 ins s).1 = (if decide (S k <= dones ins)%nat then STKZ_IDLE else STKZ_ACTIVE).
Proof.
  assert (forall ins s, Forall quiet ins -> stkz_fsm_q s = STKZ_IDLE ->
    (run33 ins s).2 = [] /\ stkz_fsm_q (run33 ins s).1 = STKZ_IDLE) as Hidle.
  { clear ins. induction ins as [|i ins IH]; intros s Hq Hs; [done|].
    apply Forall_cons in Hq as [Hi Hq]. cbn [run].
    destruct (idle_quiet i s Hi Hs) as [Hs' Hc]. destruct (IH _ Hq Hs') as [E1 E2].
    destruct (run33 ins (cycle33 i s)). cbn [fst snd] in *. by rewrite Hc, E1. }
  induction 1 as [|i ins Hi Hq IH]; intros k s Hs Hp Hb Hk; [by split|].
  cbn [run]. destruct (active_quiet i s Hi Hs Hp Hb) as [Eb H]. cbv zeta in *.
  unfold dones in *. cbn [List.filter]. destruct (lsu_stkz_req_done_i i).
  - destruct H as [Hc H]. destruct (Z.leb_spec (stkz_ptrw_nxt s) (stkz_basew s)).
    + destruct (Hidle ins _ Hq H) as [E1 E2]. assert (k = 0)%nat as -> by lia.
      destruct (run33 ins _). cbn [fst snd] in *. rewrite Hc, E1, E2. cbn [length].
      by rewrite Nat.min_r, decide_True by lia.
    + destruct H as [Hs' Hn]. destruct k as [|k]; [lia|].
      destruct (IH k (cycle33 i s)) as [E1 E2]; [done|lia|lia|lia|].
      destruct (run33 ins _). cbn [fst snd] in *. rewrite Hc, E1, E2, Hn. cbn [length].
      split; [done|]. repeat case_decide; done || lia.
  - destruct H as (Hc & Hs' & Hn).
    destruct (IH k (cycle33 i s)) as [E1 E2]; [done|lia|lia|lia|].
    destruct (run33 ins _). cbn [fst snd] in *. by rewrite Hc, E1, E2, Hn.
Qed.

Lemma downfrom_range n x w : In w (downfrom n x) -> x - Z.of_nat n < w <= x.
Proof.
  revert x. induction n as [|n IH]; intros x; [done|]. intros [<-|H]; [lia|]. apply IH in H. lia.
Qed.

Lemma slice_word a : 0 <= a < 2 ^ 32 -> slice a 31 2 = a / 4.
Proof.
  intros Ha. rewrite slice_div by lia. change (2 ^ 2) with 4.
  apply Z.mod_small. split; [apply Z.div_pos; lia|apply Z.div_lt_upper_bound; lia].
Qed.
Lemma slice_word33 a : 0 <= a < 2 ^ 33 -> slice a 32 2 = a / 4.
Proof.
  intros Ha. rewrite slice_div by lia. change (2 ^ 2) with 4.
  apply Z.mod_small. split; [apply Z.div_pos; lia|apply Z.div_lt_upper_bound; lia].
Qed.

(** A command that starts the engine. *)
Record starts (i : stkz_in) : Prop := {
  st_start : stkz_start i = true;
  st_addr : 0 <= ztop_wdata_i i < 2 ^ 32;
  st_base : 0 <= fc_base32 (ztop_wfcap_i i) < 2 ^ 32;
  st_top : 0 <= fc_top33 (ztop_wfcap_i i) <= 2 ^ 32 }.

Lemma starts_good i : starts i ->
  fc_valid (ztop_wfcap_i i) = true /\ Z.testbit (fc_perms (ztop_wfcap_i i)) PERM_SD = true /\
  fc_base32 (ztop_wfcap_i i) / 4 < ztop_wdata_i i / 4 /\
  4 * (ztop_wdata_i i / 4) <= fc_top33 (ztop_wfcap_i i).
Proof.
  intros [Hs Ha Hb Ht]. unfold stkz_start, cmd_cap_good in Hs.
  rewrite !slice_word, slice_word33 in Hs by lia.
  apply andb_prop in Hs as [[_ [[Hv Hle]%andb_prop Hp]%andb_prop]%andb_prop Hlt].
  pose proof (Z.mul_div_le (fc_top33 (ztop_wfcap_i i)) 4 ltac:(lia)). split_and!; [done|done|lia|lia].
Qed.

Lemma start_cycle i s : starts i -> stkz_fsm_q s = STKZ_IDLE ->
  let s' := cycle33 i s in
  cleared i s = [] /\ stkz_fsm_q s' = STKZ_ACTIVE /\
  stkz_ptrw_nxt s' = ztop_wdata_i i / 4 - 1 /\ stkz_basew s' = fc_base32 (ztop_wfcap_i i) / 4.
Proof.
  intros Hst Hs. destruct (starts_good i Hst) as (_ & _ & Hlt & _). destruct Hst as [Hst Ha Hb Ht].
  cbv zeta. unfold cycle, cleared, stkz_fsm_d, stkz_active. rewrite Hst, Hs. fsm_tests.
  pose proof (Z.div_pos (fc_base32 (ztop_wfcap_i i)) 4 ltac:(lia) ltac:(lia)).
  assert (ztop_wdata_i i / 4 < 2 ^ 30) by (apply Z.div_lt_upper_bound; lia).
  rewrite !slice_word, trunc_small by lia. by destruct (ztop_wr_i i).
Qed.

(** *** Theorems *)

(** C21 (termination: stack zeroization).  A command that starts the idle engine makes
    it clear, over any cycles without another command or an interrupt, the words from
    the one below the address down to the base, one for each request done, and stop
    when it has cleared the last.  The capability written was tagged and permits the
    stores, every word cleared is below its top, and none is below the word of its
    base. *)
Theorem stack_zeroized (i : stkz_in) (ins : list stkz_in) (s : stkz) :
  starts i -> stkz_fsm_q s = STKZ_IDLE -> Forall quiet ins ->
  let c := ztop_wfcap_i i in
  let n := Z.to_nat (ztop_wdata_i i / 4 - fc_base32 c / 4) in
  let r := run33 (i :: ins) s in
  r.2 = downfrom (min (dones ins) n) (ztop_wdata_i i / 4 - 1) /\
  stkz_fsm_q r.1 = (if decide (n <= dones ins)%nat then STKZ_IDLE else STKZ_ACTIVE) /\
  fc_valid c = true /\ Z.testbit (fc_perms c) PERM_SD = true /\
  (forall w, In w r.2 -> fc_base32 c / 4 <= w /\ 4 * w + 4 <= fc_top33 c).
Proof.
  intros Hst Hs Hq. cbv zeta. destruct (starts_good i Hst) as (Hv & Hp & Hlt & Htop).
  destruct (start_cycle i s Hst Hs) as (Hc & Ha & Hn & Hb). cbv zeta in *.
  pose proof (Z.div_pos (fc_base32 (ztop_wfcap_i i)) 4 ltac:(apply Hst) ltac:(lia)) as Hb0.
  assert (ztop_wdata_i i / 4 < 2 ^ 30) by (apply Z.div_lt_upper_bound; [lia|]; apply Hst).
  set (n := Z.to_nat _). destruct n as [|k] eqn:En; [lia|].
  destruct (run_quiet ins Hq k (cycle33 i s)) as [E1 E2]; [done|lia|lia|lia|].
  cbn [run]. destruct (run33 ins _) as [s' ws]. cbn [fst snd] in *. rewrite Hc, Hn in *. cbn [app].
  split_and!; [done|done|done|done|]. rewrite E1. intros w Hw%downfrom_range. lia.
Qed.

(** A capability to the stack [0x20002000, 0x20002040), written with an address in it. *)
Definition stack_cap : reg_cap_t := bounded 0x20002000 0x40.
Definition zero_stack : stkz_in :=
  StkzIn true 0x20002010 (reg2fullcap stack_cap 0x20002010) false false false false.
Definition done_cycle : stkz_in := StkzIn false 0 NULL_FULL_CAP false true false true.

Example stack_zeroized_witness :
  (run33 [zero_stack; done_cycle; done_cycle; done_cycle; done_cycle] stkz_reset).2 =
    [0x8000803; 0x8000802; 0x8000801; 0x8000800].
Proof.
  apply (stack_zeroized zero_stack [done_cycle; done_cycle; done_cycle; done_cycle] stkz_reset);
    [split; [by_compute|done|vm_compute; done|vm_compute; done]|done|by repeat constructor].
Defined.

(** ** What ztop reads back as *)

Section Readback.
Context (it8 : bool).

(** The register moved to another address of its bounds, with its corrections. *)
Definition moved (c : reg_cap_t) (v : bool) (a : Z) : reg_cap_t :=
  let cor := update_temp_fields (r_top c) (r_base c) (addrmi9 (r_exp c) a) in
  RegCap v cor.1 cor.2 (r_exp c) (r_top c) (r_base c) (r_otype c) (r_cperms c) (r_rsvd c).

Lemma moved_ok c v a a' : cap_ok it8 c a -> 0 <= a' < 2 ^ 32 ->
  r_exp c = 24 \/ fc_base32 (reg2fullcap c a) <= a' <= a ->
  cap_ok it8 (moved c v a') a' /\ reg_auth (moved c v a') a' = reg_auth c a.
Proof.
  intros [[Htc Hbc He HT HB Ho Hc Hs] Ha Hexp Hn Hcors (b & Hreg & Hw)] Ha' Hr.
  destruct (decode_cap _ _ _ b a c Hreg Ha Hw eq_refl eq_refl eq_refl Hcors) as [Eb Et].
  assert (window (r_exp c) b a') as Hw'.
  { destruct Hr as [Hr|Hr]; [by left|]. destruct Hw as [Hw|Hw]; [by left|right].
    unfold region_base in Eb. lia. }
  destruct (decode_cap _ _ _ b a' (moved c v a') Hreg Ha' Hw' eq_refl eq_refl eq_refl) as [Eb' Et'].
  { symmetry. apply surjective_pairing. }
  split.
  - split; try done; [|by exists b].
    split; try done; cbn [moved r_top_cor r_base_cor]; unfold update_temp_fields; cbn [fst snd];
      repeat case_match; auto.
  - unfold reg_auth, auth_of. by rewrite Eb, Et, Eb', Et'.
Qed.

(** Rounding an address down to a word does not change the corrections. *)
Lemma aligned_block e a : 0 <= e <= 24 -> 0 <= a -> (a / 4 * 4) / 2 ^ (e + 9) = a / 2 ^ (e + 9).
Proof.
  intros He Ha. replace (e + 9) with ((e + 7) + 2) by lia. rewrite Z.pow_add_r by lia.
  change (2 ^ 2) with 4. rewrite Z.div_mul_cancel_r by lia.
  by rewrite Z.mul_comm, <-Z.div_div by lia.
Qed.

Lemma base_below c a : cap_ok it8 c a -> r_exp c = 24 \/ fc_base32 (reg2fullcap c a) <= a.
Proof.
  intros [Hr Ha _ _ Hcors (b & Hreg & Hw)]. destruct Hw as [Hw|Hw]; [by left|right].
  destruct (decode_cap _ _ _ b a c Hreg Ha (or_intror Hw) eq_refl eq_refl eq_refl Hcors) as [-> _].
  apply Hw.
Qed.

Lemma moved_same c a : cap_ok it8 c a -> r_exp c = 24 \/ fc_base32 (reg2fullcap c a) <= a / 4 * 4 ->
  moved c (r_valid c) (a / 4 * 4) = c.
Proof.
  intros [Hr Ha [He _] Hn Hcors (b & Hreg & Hw)] Hb.
  destruct (decode_cap _ _ _ b a c Hreg Ha Hw eq_refl eq_refl eq_refl Hcors) as [Eb _].
  pose proof (Z.mul_div_le a 4 ltac:(lia)) as Hle.
  pose proof (Z.div_pos a 4 ltac:(lia) ltac:(lia)) as Hp.
  assert (update_temp_fields (r_top c) (r_base c) (addrmi9 (r_exp c) (a / 4 * 4)) =
    update_temp_fields (r_top c) (r_base c) (addrmi9 (r_exp c) a)) as E.
  { destruct (Z.eq_dec (r_exp c) 24) as [E24|Hne].
    - f_equal. unfold addrmi9. rewrite E24, !Z.shiftr_div_pow2 by lia. f_equal.
      change 24 with (22 + 2). rewrite Z.pow_add_r by lia. change (2 ^ 2) with 4.
      rewrite Z.div_mul_cancel_r by lia. by rewrite Z.mul_comm, <-Z.div_div by lia.
    - destruct Hb as [Hb|Hb]; [done|]. destruct Hw as [Hw|Hw]; [done|]. destruct Hreg as [_ HT HB _ _ _].
      unfold region_base in Eb.
      pose proof (window_quotient (r_exp c) (r_base c) b a He Hne HB ltac:(lia) ltac:(by right)) as H1.
      pose proof (window_quotient (r_exp c) (r_base c) b (a / 4 * 4) He Hne HB ltac:(lia)
        ltac:(right; lia)) as H2.
      rewrite aligned_block in H2 by lia. unfold update_temp_fields.
      assert ((addrmi9 (r_exp c) (a / 4 * 4) <? r_base c) = (addrmi9 (r_exp c) a <? r_base c)) as ->;
        [|done].
      destruct (addrmi9 (r_exp c) (a / 4 * 4) <? r_base c), (addrmi9 (r_exp c) a <? r_base c);
        done || lia. }
  unfold moved. rewrite E, <-Hcors. cbn [fst snd]. by destruct c.
Qed.

(** ** The engine's view of one capability *)

Context (c : reg_cap_t) (a : Z).
Hypothesis Hcap : cap_ok it8 c a.
Hypothesis Hbase : fc_base32 (reg2fullcap c a) mod 4 = 0.

Local Abbreviation base := (fc_base32 (reg2fullcap c a)).

(** What holds from the command that writes the capability on: ztop is the capability
    at its address, and a running engine is above the base. *)
Record tracks (s : stkz) : Prop := {
  tr_ptr : 0 <= stkz_ptrw s < 2 ^ 30;
  tr_cap : r_valid (ztop_rcap s) = true -> r_valid c = true /\
    ztop_rcap s = moved c true (4 * stkz_ptrw s) /\ (r_exp c = 24 \/ base <= 4 * stkz_ptrw s <= a);
  tr_run : stkz_active s = true ->
    stkz_basew s = base / 4 /\ base / 4 <= stkz_ptrw_nxt s < stkz_ptrw s /\ 0 <= base / 4 }.

Lemma word_addr k : cat [(30, k); (2, 0)] = 4 * k.
Proof. unfold cat. cbn [foldl fst snd]. lia. Qed.

Lemma tracks_progress s : tracks s -> stkz_active s = true ->
  r_valid (ztop_rcap_nxt s) = true -> r_valid c = true /\
  ztop_rcap_nxt s = moved c true (4 * stkz_ptrw_nxt s) /\
  (r_exp c = 24 \/ base <= 4 * stkz_ptrw_nxt s <= a).
Proof.
  intros [Hp Hc Hr] Ha. destruct (Hr Ha) as (Hb & Hn & Hn0). unfold ztop_rcap_nxt, stkz_done.
  cbn [r_valid]. intros [Hv Hd%negb_true_iff%Z.leb_gt]%andb_prop.
  destruct (Hc Hv) as (Hcv & Ec & Hrange). rewrite Hb in Hd. split; [done|]. split.
  - rewrite word_addr. rewrite Ec. cbn [moved r_exp r_top r_base r_otype r_cperms r_rsvd r_valid].
    by rewrite (proj2 (Z.leb_gt (stkz_ptrw_nxt s) (stkz_basew s))) by lia.
  - destruct Hrange as [|Hrange]; [by left|right].
    pose proof (Z.div_mod base 4 ltac:(lia)). lia.
Qed.

(** Without a command, an idle engine stays idle, and one that goes on after a request
    is done had more to clear. *)
Lemma fsm_no_command i s : ztop_wr_i i = false ->
  (stkz_active s = false -> stkz_fsm_d i s = STKZ_IDLE) /\
  (lsu_stkz_req_done_i i = true -> stkz_done s || stkz_stop i = true -> stkz_fsm_d i s = STKZ_IDLE).
Proof.
  intros Hw. unfold stkz_fsm_d, stkz_start, cmd_new_cap. rewrite Hw. unfold stkz_active.
  split; destruct (stkz_fsm_q s); fsm_tests; try done.
  - by intros -> [-> | ->]%orb_prop; rewrite ?andb_true_r; [|destruct (stkz_done s)].
  - by intros -> _.
Qed.

Lemma tracks_cycle i s : tracks s -> ztop_wr_i i = false -> tracks (cycle33 i s).
Proof.
  intros Ht Hw. pose proof Ht as [Hp Hc Hr].
  pose proof (tracks_progress s Ht) as Hpr.
  assert (stkz_start i = false) as Hst by (unfold stkz_start, cmd_new_cap; by rewrite Hw).
  destruct (fsm_no_command i s Hw) as [Hidle Hstop].
  unfold cycle. rewrite Hw, Hst. destruct (stkz_active s) eqn:Ha; cbn [andb].
  - destruct (Hr eq_refl) as (Hb & Hn & Hn0). specialize (Hpr eq_refl).
    destruct (lsu_stkz_req_done_i i); cbn [andb]; [|by split].
    destruct (stkz_done s || stkz_stop i) eqn:Hd; cbn [negb].
    + split; cbn [stkz_ptrw ztop_rcap]; [lia|done|]. unfold stkz_active at 1. cbn [stkz_fsm_q].
      by rewrite Hstop.
    + apply orb_false_iff in Hd as [Hd _]. unfold stkz_done in Hd. apply Z.leb_gt in Hd.
      rewrite trunc_small by lia.
      split; cbn [stkz_ptrw ztop_rcap stkz_basew stkz_ptrw_nxt]; [lia|done|intros _; lia].
  - split; cbn [stkz_ptrw ztop_rcap]; [done|done|]. unfold stkz_active at 1. cbn [stkz_fsm_q].
    by rewrite Hidle.
Qed.

Lemma cycle_fsm i s : stkz_fsm_q (cycle33 i s) = stkz_fsm_d i s.
Proof.
  unfold cycle. destruct (ztop_wr_i i), (stkz_start i),
    (stkz_active s && lsu_stkz_req_done_i i), (stkz_done s || stkz_stop i); done.
Qed.

Lemma tracks_command i s : ztop_wr_i i = true -> ztop_wdata_i i = a ->
  ztop_wfcap_i i = reg2fullcap c a -> stkz_fsm_q s = STKZ_IDLE -> tracks (cycle33 i s).
Proof.
  intros Hw Hd Hf Hs. pose proof (ok_addr _ _ _ Hcap) as Ha.
  destruct (cap_ok_full _ _ _ Hcap) as (b & [[_ _ Hreg Eb Et] _ _ _ _] & _).
  pose proof (region_bounds _ _ _ _ Hreg) as Hrb. rewrite <-Eb, <-Et in Hrb.
  pose proof (Z.div_pos a 4 ltac:(lia) ltac:(lia)) as Hp.
  assert (a / 4 < 2 ^ 30) by (apply Z.div_lt_upper_bound; lia).
  pose proof (Z.mul_div_le a 4 ltac:(lia)) as Hle. pose proof (Z.div_mod a 4 ltac:(lia)) as Hdm.
  pose proof (Z.mod_pos_bound a 4 ltac:(lia)). pose proof (Z.div_mod base 4 ltac:(lia)) as Hbm.
  assert (stkz_ptrw (cycle33 i s) = a / 4 /\ ztop_rcap (cycle33 i s) = cmd_wcap i) as [Ep Ec].
  { unfold cycle. rewrite Hw, Hd, slice_word by done. destruct (stkz_start i); [done|].
    by destruct (stkz_active s && lsu_stkz_req_done_i i && negb (stkz_done s || stkz_stop i)). }
  split; rewrite ?Ep, ?Ec; [lia| |].
  - intros Hv. assert (cmd_wcap i = c /\ r_valid c = true) as [-> Hcv].
    { unfold cmd_wcap in *. rewrite Hf in *. destruct (cmd_is_n2z i); [done|]. by destruct c. }
    assert (r_exp c = 24 \/ base <= a / 4 * 4) as Hbase4.
    { destruct (base_below c a Hcap) as [|Hba]; [by left|right]. lia. }
    split_and!; [done| |destruct Hbase4; [by left|right; lia]].
    rewrite Z.mul_comm, <-Hcv. symmetry. by apply moved_same.
  - intros Hact. assert (stkz_start i = true) as Hst.
    { destruct (stkz_start i) eqn:E; [done|]. exfalso. revert Hact. unfold stkz_active at 1.
      rewrite cycle_fsm. unfold stkz_fsm_d. rewrite E, Hs. by fsm_tests. }
    assert (starts i) as Hsts by (split; rewrite ?Hd, ?Hf; done || lia).
    destruct (start_cycle i s Hsts Hs) as (_ & _ & -> & ->).
    destruct (starts_good i Hsts) as (_ & _ & Hlt & _). rewrite Hd, Hf in *.
    pose proof (Z.div_pos base 4 ltac:(lia) ltac:(lia)). lia.
Qed.

Lemma tracks_run ins s : Forall (fun i => ztop_wr_i i = false) ins -> tracks s ->
  tracks (run33 ins s).1.
Proof.
  intros Hq. revert s. induction Hq as [|i ins Hi Hq IH]; intros s Hs; [done|].
  cbn [run]. specialize (IH _ (tracks_cycle i s Hs Hi)). by destruct (run33 ins _).
Qed.

(** C22 (safety: reading ztop back).  When a capability whose base is word aligned is
    written to the idle engine, then whatever interrupts and memory do until the next
    write, a tagged value read from ztop is a well-formed capability with the authority
    of the one written. *)
Theorem ztop_readback (i : stkz_in) (ins : list stkz_in) (s : stkz) :
  ztop_wr_i i = true -> ztop_wdata_i i = a -> ztop_wfcap_i i = reg2fullcap c a ->
  stkz_fsm_q s = STKZ_IDLE -> Forall (fun i => ztop_wr_i i = false) ins ->
  let s' := (run33 (i :: ins) s).1 in
  r_valid (ztop_rcap s') = true ->
  r_valid c = true /\ cap_ok it8 (ztop_rcap s') (ztop_rdata s') /\
  reg_auth (ztop_rcap s') (ztop_rdata s') = reg_auth c a.
Proof.
  intros Hw Hd Hf Hs Hins s' Hv. assert (tracks s') as [Hp Hc _].
  { unfold s'. cbn [run]. pose proof (tracks_run ins _ Hins (tracks_command i s Hw Hd Hf Hs)).
    by destruct (run33 ins _). }
  destruct (Hc Hv) as (Hcv & -> & Hr). unfold ztop_rdata. rewrite word_addr.
  split; [done|]. apply (moved_ok c true a); [done|lia|done].
Qed.
End Readback.

Example ztop_readback_witness :
  let s := (run33 [zero_stack; done_cycle; done_cycle] stkz_reset).1 in
  reg_auth (ztop_rcap s) (ztop_rdata s) = reg_auth stack_cap 0x20002010.
Proof.
  cbv zeta. apply (ztop_readback false stack_cap 0x20002010 ltac:(cap_ok_tac) ltac:(by_compute)
    zero_stack [done_cycle; done_cycle] stkz_reset); [done..|by repeat constructor|by_compute].
Defined.

(** ** What the module does not check *)

(** Writing a capability to ztop (CSPECIALRW c0, ztop, c10). *)
Definition ztop_write (c : reg_cap_t) (a : Z) : ex_in :=
  ExIn true false false false true 10 a c 0 NULL_REG_CAP 0 PCC_RESET_CAP 0x80 false 0 0 0
    CHERI_SCR_ZTOPC 0 NULL_REG_CAP false 0 NULL_REG_CAP (BoundReq 0 0 0 0 0 false) false.
Definition ztop_command (c : reg_cap_t) (a : Z) : stkz_in :=
  let z := o_ztop (main_ex false false false true CCSR_RW (ztop_write c a)) in
  StkzIn (ztop_wr z) (ztop_wdata_o z) (ztop_wfcap_o z) false false false false.
(** A value stored and loaded back through a capability with all permissions. *)
Definition through_memory (MemCapFmt it8 : bool) (c : reg_cap_t) (a : Z) : reg_cap_t * Z :=
  let w := store_words MemCapFmt it8 c (tagged c a) in load_words MemCapFmt it8 w.1 w.2 0.

(** The execute root with bounds: it does not permit stores. *)
Definition code_cap (a len : Z) : reg_cap_t :=
  full2regcap (set_bounds (reg2fullcap MTVEC_RESET_CAP a) a
    (bound_req1 false (reg2fullcap MTVEC_RESET_CAP a) a len) false).

Section Forgery.
Context (MemCapFmt it8 : bool) (c : reg_cap_t) (a : Z).
Hypothesis Hcap : cap_ok it8 c a.
Hypothesis Hvalid : r_valid c = true.
Hypothesis Hno_store : Z.testbit (fc_perms (reg2fullcap c a)) PERM_SD = false.

Local Abbreviation base := (fc_base32 (reg2fullcap c a)).
Local Abbreviation top := (fc_top33 (reg2fullcap c a)).
Local Abbreviation size := (2 ^ (r_exp c + 9)).

(** A capability that does not permit stores is kept as it is, and starts nothing. *)
Lemma write_starts_nothing i s : ztop_wr_i i = true -> ztop_wdata_i i = a ->
  ztop_wfcap_i i = reg2fullcap c a ->
  let s' := cycle33 i s in
  ztop_rcap s' = c /\ ztop_rdata s' = a / 4 * 4 /\
  (stkz_active s = false -> stkz_active s' = false).
Proof.
  intros Hw Hd Hf. cbv zeta. pose proof (ok_addr _ _ _ Hcap) as Ha.
  assert (cmd_cap_good i = false) as Hg by (unfold cmd_cap_good; by rewrite Hf, Hno_store, andb_false_r).
  assert (stkz_start i = false) as Hs by (unfold stkz_start; by rewrite Hg, andb_false_r).
  assert (stkz_ptrw (cycle33 i s) = a / 4 /\ ztop_rcap (cycle33 i s) = c) as [Ep Ec].
  { assert (cmd_wcap i = c) as <-
      by (unfold cmd_wcap, cmd_is_n2z; rewrite Hg, Hf; by destruct c).
    unfold cycle. rewrite Hw, Hd, Hs, slice_word by done.
    by destruct (stkz_active s && lsu_stkz_req_done_i i && negb (stkz_done s || stkz_stop i)). }
  unfold ztop_rdata. rewrite Ep, word_addr. split_and!; [done|lia|].
  unfold stkz_active. rewrite cycle_fsm. unfold stkz_fsm_d. rewrite Hs.
  destruct (stkz_fsm_q s); fsm_tests; done.
Qed.

(** Below its base, the fields describe the region one period of the address lower. *)
Lemma moved_below a' : 0 <= a' -> base - size <= a' < base -> size <= base ->
  cap_ok it8 (moved c true a') a' /\
  reg_auth (moved c true a') a' =
    Auth (base - size) (top - size) (fc_perms (reg2fullcap c a)) /\
  top - size < base.
Proof.
  intros H0 Ha' Hsize. destruct Hcap as [Hr Ha He Hn Hcors (b & Hreg & Hw)].
  destruct (decode_cap _ _ _ b a c Hreg Ha Hw eq_refl eq_refl eq_refl Hcors) as [Eb Et].
  pose proof (region_bounds _ _ _ _ Hreg) as Hrb. destruct Hreg as [He24 HT HB Hb Hs Hl].
  unfold region_base, region_top in *. rewrite Eb, Et in *.
  rewrite pow2_add_9 in * by lia. pose proof (Z.pow_pos_nonneg 2 (r_exp c) ltac:(lia) ltac:(lia)).
  pose proof (Z.mod_pos_bound (r_top c - r_base c) 512 ltac:(lia)) as Hmod.
  assert (512 <= b) as Hb512 by nia.
  assert (region (r_exp c) (r_top c) (r_base c) (b - 512)) as Hreg'.
  { split; try done; try nia. rewrite <-HB, <-(Z.mod_add (b - 512) 1 512) by lia. f_equal. lia. }
  assert (window (r_exp c) (b - 512) a') as Hw' by (right; rewrite pow2_add_9 by lia; nia).
  destruct (decode_cap _ _ _ (b - 512) a' (moved c true a') Hreg' ltac:(lia) Hw' eq_refl eq_refl eq_refl)
    as [Eb' Et'].
  { symmetry. apply surjective_pairing. }
  unfold region_base, region_top in *. split_and!.
  - split; try done; [|lia|by exists (b - 512)].
    destruct Hr. split; try done; cbn [moved r_top_cor r_base_cor]; unfold update_temp_fields;
      cbn [fst snd]; repeat case_match; auto.
  - unfold reg_auth, auth_of. rewrite Eb', Et'. f_equal; nia.
  - nia.
Qed.

End Forgery.


(** (counterexample: writing ztop while the engine is active).  The address of a
    capability that starts nothing is replaced, at the next word cleared, by the address
    of the run in progress, and its tag is kept: the execute capability written is read
    back covering the stack. *)
Example ztop_write_while_active :
  let cap := code_cap 0x2000 0x40 in
  let s := cycle false (ztop_command stack_cap 0x20002020) stkz_reset in
  let s := cycle false done_cycle (cycle false (ztop_command cap 0x2000) s) in
  cap_ok false cap 0x2000 /\ r_valid (ztop_rcap s) = true /\ ztop_rdata s = 0x2000201c /\
  reg_auth cap 0x2000 = Auth 0x2000 0x2040 0x1eb /\
  reg_auth (ztop_rcap s) (ztop_rdata s) = Auth 0x20002000 0x20002040 0x1eb.
Proof. cbv zeta. split; [cap_ok_tac|]. split_and!; by_compute. Qed.

(** The engine clears the whole word of the base. *)
Example clears_below_base :
  (run false [ztop_command (bounded 0x2001 0x40) 0x2009; done_cycle; done_cycle] stkz_reset).2 =
    [0x2004 / 4; 0x2000 / 4] /\
  reg_auth (bounded 0x2001 0x40) 0x2009 = Auth 0x2001 0x2041 0x7f.
Proof. split; by_compute. Qed.
