(* ===== verification/Tracer.v ===== *)
(** * What the Ibex tracer writes, and that the script reads it back

    [printbuffer_dumpline] and [reg_addr_to_str] of rtl/ibex_tracer.sv, the
    producer of the log dv/cheriot/scripts/compare_trace.py parses, and the round
    trip between them.  The text of the decoded instruction is a parameter. *)

From S2P Require Import Prelude Bits PyStr PyRe CapDecode TraceObj TraceParse.
From Stdlib Require Import Ascii.
Local Open Scope Z_scope.

Definition tab : ascii := "009"%char.

(** [%0Nx], [%Nh] of an N*4-bit value; [%Nt], [%d]. *)
Definition fmt_h (w : nat) (n : Z) : str := pad_left "0"%char w (fmt_x n).
Definition fmt_d (w : nat) (n : Z) : str := pad_left " "%char w (str_of_Z n).

Definition reg_addr_to_str (addr : Z) : str :=
  if addr <? 10 then " x" ++ str_of_Z addr else "x" ++ str_of_Z addr.

(** A register with its value, and with the 33-bit memory form of its
    capability. *)
Record reg_val := RegVal { rv_addr : Z; rv_data : Z }.
Record cap_val := CapVal { cv_addr : Z; cv_data : Z; cv_cap : Z }.
Record mem_val := MemVal {
  mv_addr : Z; mv_wmask : Z; mv_rmask : Z; mv_wdata : Z; mv_rdata : Z }.
Record memc_val := MemcVal {
  mc_addr : Z; mc_wmask : Z; mc_wdata : Z; mc_wcap : Z; mc_rdata : Z; mc_rcap : Z }.

(** The items of [data_accessed]: [None] when the bit is clear. *)
Record accessed := Accessed {
  a_rs1 : option reg_val; a_cs1 : option cap_val; a_rs2 : option reg_val;
  a_cs2 : option cap_val; a_rs3 : option reg_val; a_rd : option reg_val;
  a_cd : option cap_val; a_mem : option mem_val; a_memc : option memc_val }.

Record retired := Retired {
  r_time : Z; r_cycle : Z; r_pc : Z; r_insn : Z;
  r_trap : bool; r_intr : bool; r_decoded : str; r_data : accessed }.

(** [insn_is_compressed]: the lowest two bits of the instruction word. *)
Definition r_compressed (r : retired) : bool := negb (r_insn r .& 3 =? 3).

Definition put_read (r : reg_val) : str :=
  " " ++ reg_addr_to_str (rv_addr r) ++ ":0x" ++ fmt_h 8 (rv_data r).
Definition put_cap_read (r : cap_val) : str :=
  " " ++ reg_addr_to_str (cv_addr r) ++ ":0x" ++ fmt_h 8 (cv_data r) ++ "+0x" ++ fmt_h 9 (cv_cap r).
Definition put_write (r : reg_val) : str :=
  " " ++ reg_addr_to_str (rv_addr r) ++ "=0x" ++ fmt_h 8 (rv_data r).
Definition put_cap_write (r : cap_val) : str :=
  " " ++ reg_addr_to_str (cv_addr r) ++ "=0x" ++ fmt_h 8 (cv_data r) ++ "+0x" ++ fmt_h 9 (cv_cap r).
Definition put_mem (m : mem_val) : str :=
  " PA:0x" ++ fmt_h 8 (mv_addr m) ++
  (if mv_wmask m =? 1 then " store:0x??????" ++ fmt_h 2 (mv_wdata m .& 0xff)
   else if mv_wmask m =? 3 then " store:0x????" ++ fmt_h 4 (mv_wdata m .& 0xffff)
   else if negb (mv_wmask m =? 0) then " store:0x" ++ fmt_h 8 (mv_wdata m) else "") ++
  (if negb (mv_rmask m =? 0) then " load:0x" ++ fmt_h 8 (mv_rdata m) else "").
Definition put_memc (m : memc_val) : str :=
  " PA:0x" ++ fmt_h 8 (mc_addr m) ++
  (if negb (mc_wmask m =? 0) then " store:0x" ++ fmt_h 8 (mc_wdata m) ++ "+0x" ++ fmt_h 9 (mc_wcap m)
   else " load:0x" ++ fmt_h 8 (mc_rdata m) ++ "+0x" ++ fmt_h 9 (mc_rcap m)).

Definition opt {A} (f : A -> str) (o : option A) : str :=
  match o with Some a => f a | None => "" end.

(** The instruction word: the lower half of [rvfi_insn] for a compressed
    instruction.  The decoded text has a trap or interrupt mark. *)
Definition insn_word (r : retired) : Z :=
  if r_compressed r then r_insn r .& 0xffff else r_insn r.
Definition insn_str (r : retired) : str :=
  if r_compressed r then "    " ++ fmt_h 4 (insn_word r) else fmt_h 8 (insn_word r).
Definition disp_str (r : retired) : str :=
  if r_trap r then "-->" ++ r_decoded r
  else if r_intr r then "==>" ++ r_decoded r else r_decoded r.

Definition contents (a : accessed) : str :=
  opt put_read (a_rs1 a) ++ opt put_cap_read (a_cs1 a) ++ opt put_read (a_rs2 a) ++
  opt put_cap_read (a_cs2 a) ++ opt put_read (a_rs3 a) ++ opt put_write (a_rd a) ++
  opt put_cap_write (a_cd a) ++ opt put_mem (a_mem a) ++ opt put_memc (a_memc a).

(** One line of the log, without its newline. *)
Definition dumpline (r : retired) : str :=
  fmt_d 15 (r_time r) ++ [tab] ++ fmt_d 10 (r_cycle r) ++ [tab] ++ fmt_h 8 (r_pc r) ++ [tab] ++
  insn_str r ++ [tab] ++ disp_str r ++ [tab] ++ contents (r_data r).

(** The widths of the tracer's values: 64 bits of time, 32 of the others. *)
Record retired_ok (r : retired) : Prop := {
  time_width : 0 <= r_time r < 2 ^ 64; cycle_width : 0 <= r_cycle r < 2 ^ 32;
  pc_width : 0 <= r_pc r < 2 ^ 32; insn_width : 0 <= r_insn r < 2 ^ 32 }.

Lemma r_compressed_mod r : r_compressed r = negb (r_insn r mod 4 =? 3).
Proof.
  unfold r_compressed. change 3 with (Z.ones 2) at 1. by rewrite Z.land_ones by lia.
Qed.
Lemma insn_word_mod r :
  insn_word r = if r_insn r mod 4 =? 3 then r_insn r else r_insn r mod 2 ^ 16.
Proof.
  unfold insn_word. rewrite r_compressed_mod. destruct (_ =? 3); [done|].
  change 0xffff with (Z.ones 16). by rewrite Z.land_ones by lia.
Qed.

Lemma insn_word_range r : retired_ok r -> 0 <= insn_word r < 2 ^ 32.
Proof.
  intros Hr. unfold insn_word. destruct (r_compressed r); [|apply Hr].
  change 0xffff with (Z.ones 16). rewrite Z.land_ones by lia.
  pose proof (Z.mod_pos_bound (r_insn r) (2 ^ 16) ltac:(lia)). lia.
Qed.

Lemma retired_pos r :
  retired_ok r -> 0 <= r_time r /\ 0 <= r_cycle r /\ 0 <= r_pc r /\ 0 <= insn_word r.
Proof. intros Hr. pose proof (insn_word_range r Hr). destruct Hr. lia. Qed.

(** ** Numerals with leading zeros *)

Lemma num_go_zeros b k s :
  (2 <= b <= 16) -> num_go b 0 (replicate k "0"%char ++ s) = num_go b 0 s.
Proof.
  intros Hb. assert (digit_val b "0"%char = Some 0) as Hz by (apply (digit_char_val b 0); lia).
  induction k as [|k IH]; [done|]. cbn [replicate app num_go].
  rewrite Hz. exact IH.
Qed.

Lemma num_go_zero_start b s :
  s <> [] -> Forall (fun c => is_hex c = true) s -> num b s = num_go b 0 s.
Proof.
  intros Hne H. destruct H as [|c s Hc Hs]; [done|]. cbn [num num_go].
  by apply hex_chars in Hc as (_ & _ & _ & _ & _ & -> & _).
Qed.

Lemma hexlow_is_hex s : Forall (fun c => is_hexlow c = true) s -> Forall (fun c => is_hex c = true) s.
Proof.
  intros H. eapply Forall_impl; [exact H|]. intros c Hc. unfold is_hexlow in Hc. unfold is_hex.
  rewrite orb_true_iff in Hc. destruct Hc as [-> | ->]; [done|by rewrite !orb_true_r].
Qed.

Lemma pad_zero_hexlow w s :
  Forall (fun c => is_hexlow c = true) s -> Forall (fun c => is_hexlow c = true) (pad_left "0"%char w s).
Proof. intros H. apply Forall_app. split; [by apply Forall_replicate|done]. Qed.

Lemma fmt_x_pos n : 0 <= n -> fmt_x n = digits 16 n.
Proof. intros H. unfold fmt_x. by rewrite (proj2 (Z.ltb_ge n 0)). Qed.

Lemma fmt_h_hexlow w n : 0 <= n -> Forall (fun c => is_hexlow c = true) (fmt_h w n).
Proof. intros H. unfold fmt_h. rewrite fmt_x_pos by done. apply pad_zero_hexlow, digits_hexlow; lia. Qed.

Lemma fmt_h_not_nil w n : 0 <= n -> fmt_h w n <> [].
Proof.
  intros H E. unfold fmt_h, pad_left in E. apply app_nil in E as [_ E].
  rewrite fmt_x_pos in E by done. by destruct (digits_spec 16 n ltac:(lia) H).
Qed.

(** Reading back a zero-padded hexadecimal numeral. *)
Lemma int_of_fmt_h w n : 0 <= n -> int_of 16 (fmt_h w n) = Ok n.
Proof.
  intros H. unfold int_of. apply or_raise_ok.
  rewrite hexlow_py_int by auto using fmt_h_hexlow, fmt_h_not_nil.
  rewrite num_go_zero_start by auto using fmt_h_not_nil, hexlow_is_hex, fmt_h_hexlow.
  unfold fmt_h, pad_left. rewrite num_go_zeros by lia. rewrite fmt_x_pos by done.
  destruct (digits_spec 16 n ltac:(lia) H) as (Hne & _ & Hn).
  rewrite <-num_go_zero_start; [done..|apply hexlow_is_hex, digits_hexlow; lia].
Qed.

Lemma str_of_Z_pos n : 0 <= n -> str_of_Z n = digits 10 n.
Proof. intros H. unfold str_of_Z. by rewrite (proj2 (Z.ltb_ge n 0)). Qed.

Lemma int_of_str_of_Z n : 0 <= n -> int_of 10 (str_of_Z n) = Ok n.
Proof. intros H. unfold int_of. apply or_raise_ok. by apply py_int_str_of_Z. Qed.

(** ** Matching the columns of a line *)

Lemma hex_not_space c : is_hex c = true -> is_space c = false.
Proof. by intros [? _]%hex_chars. Qed.
Lemma digit_not_space c : is_digit c = true -> is_space c = false.
Proof. intros [H _]%digit_chars. by apply hex_not_space. Qed.
Lemma word_not_space c : not_space c = true -> is_space c = false.
Proof. unfold not_space. by destruct (is_space c). Qed.
Lemma space_not_digit c : is_space c = true -> is_digit c = false.
Proof. intros H. destruct (is_digit c) eqn:E; [|done]. apply digit_not_space in E. congruence. Qed.
Lemma space_not_hex c : is_space c = true -> is_hex c = false.
Proof. intros H. destruct (is_hex c) eqn:E; [|done]. apply hex_not_space in E. congruence. Qed.
Lemma space_not_word c : is_space c = true -> not_space c = false.
Proof. unfold not_space. by intros ->. Qed.
#[export] Hint Resolve hex_not_space digit_not_space word_not_space space_not_digit
  space_not_hex space_not_word : cheriot.

(** Match the next column; the column after it is a run of [q]. *)
Ltac columns q :=
  apply rm_cat; (apply rm_grp_run || apply rm_run);
  [assumption
  |first [assumption | apply (stops_app _ q); [assumption..|eauto with cheriot]]
  |auto with arith|cbv beta].

(** Five columns separated by white space are the five groups of [pattern1]. *)
Lemma pattern1_columns s0 d0 s1 d1 s2 h1 s3 h2 s4 w rest :
  Forall (fun c => is_space c = true) s0 -> Forall (fun c => is_space c = true) s1 ->
  Forall (fun c => is_space c = true) s2 -> Forall (fun c => is_space c = true) s3 ->
  Forall (fun c => is_space c = true) s4 -> s1 <> [] -> s2 <> [] -> s3 <> [] -> s4 <> [] ->
  Forall (fun c => is_digit c = true) d0 -> Forall (fun c => is_digit c = true) d1 ->
  Forall (fun c => is_hex c = true) h1 -> Forall (fun c => is_hex c = true) h2 ->
  Forall (fun c => not_space c = true) w ->
  d0 <> [] -> d1 <> [] -> h1 <> [] -> h2 <> [] -> w <> [] -> stops not_space rest ->
  exists m ms, finditer Ibex.pattern1 (s0 ++ d0 ++ s1 ++ d1 ++ s2 ++ h1 ++ s3 ++ h2 ++ s4 ++ w ++ rest)
               = m :: ms /\
    grp m 2 = d1 /\ grp m 3 = h1 /\ grp m 4 = h2 /\ grp m 5 = w.
Proof.
  intros. set (line := s0 ++ _).
  assert (forall l : str, l <> [] -> (1 <= length l)%nat) as Hlen.
  { intros [|? ?]; [done|cbn; lia]. }
  assert (exists x, rm Ibex.pattern1 (Cur [] line []) Some = Some x /\
    caps x = [(5%nat, w); (4%nat, h2); (3%nat, h1); (2%nat, d1); (1%nat, d0)]) as (x & Hx & Hc).
  { eexists. split; [|shelve]. unfold Ibex.pattern1, line. cbn [rseq foldr].
    apply rm_cat, rm_bol.
    columns is_digit. columns is_space. columns is_digit. columns is_space. columns is_hex.
    columns is_space. columns is_hex. columns is_space. columns not_space.
    columns is_space. { reflexivity. } Unshelve. reflexivity. }
  destruct (finditer_first Ibex.pattern1 line x Hx) as [ms Hms].
  eexists _, ms. split; [exact Hms|]. unfold grp, group. cbn [m_cur]. by rewrite Hc.
Qed.

(** ** A line of the tracer never shows unknown data only *)

Lemma replace_question_nil s : replace "?" "" s = [] -> Forall (fun c => c = "?"%char) s.
Proof.
  change (replace_go ["?"%char] [] s 0 = [] -> Forall (fun c => c = "?"%char) s).
  induction s as [|x s IH]; [constructor|]. cbn [replace_go starts_with].
  destruct (Ascii.eqb_spec "?"%char x) as [<-|Hn]; [|by rewrite andb_false_l].
  rewrite andb_true_l. destruct s; intros H; (constructor; [done|by apply IH]).
Qed.

Lemma matches_grp_rep n g m p s s' :
  matches (RGrp n (RRep g m p)) s s' ->
  exists l, aft s = l ++ aft s' /\ (m <= length l)%nat /\ caps s' = (n, l) :: caps s.
Proof.
  inversion 1 as [| | | | | | | |? ? ? s1 H1|]; subst; [|discriminate].
  inversion H1 as [| | | | |? ? ? l a ? E Hl Hm| | | |]; subst; [|discriminate].
  exists l. cbn. rewrite E. split_and!; [done|done|].
  by rewrite length_app, Nat.add_sub, take_app_length.
Qed.

(** The end of a plain access: white space or the end of the line. *)
Lemma access_end s s' :
  matches (RGrp 4 (RAlt (plus is_space) REol)) s s' -> stops not_space (aft s).
Proof.
  inversion 1 as [| | | | | | | |? ? ? s1 H1|]; subst; [|discriminate].
  inversion H1 as [| | |? ? ? ? H2|? ? ? ? H2| | | | |]; subst; [| |discriminate].
  - inversion H2 as [| | | | |? ? ? l a ? E Hl Hm| | | |]; subst; [|discriminate].
    rewrite E. destruct Hl as [|c l Hc _]; [cbn in Hm; lia|]. cbn. by apply space_not_word.
  - inversion H2 as [| | | | | | | | |? ? ? Hb Ht]; subst. injection Hb as <-.
    unfold at_eol in Ht. destruct (aft _) as [|c [|c' a]]; try done. cbn.
    apply Ascii.eqb_eq in Ht as ->. done.
Qed.

(** Unknown data only: a question mark before white space or the end. *)
Definition dangling (line : str) : Prop :=
  exists a b, line = a ++ "?"%char :: b /\ stops not_space b.

Lemma matches_grp4_caps r s s' :
  no_group r = true -> matches (RGrp 4 r) s s' -> exists t, caps s' = (4%nat, t) :: caps s.
Proof.
  intros Hr. inversion 1 as [| | | | | | | |? ? ? s1 H1|]; subst; [|discriminate].
  cbn. rewrite (matches_no_group _ _ _ Hr H1). by eexists.
Qed.

Lemma only_unknown_dangling line : only_unknown line -> dangling line.
Proof.
  intros (m & ms & E & Hr). assert (m ∈ finditer Ibex.pattern5 line) as Hin by (rewrite E; by left).
  pose proof (finditer_subject _ _ _ Hin) as Hs. apply finditer_of in Hin as (s & Hm & Es).
  unfold Ibex.pattern5 in Hm. cbn [rseq foldr] in Hm.
  set (pre := RCat (lit "PA:0x") (RCat (RGrp 1 (plus is_hex)) (RCat (plus is_space)
                (RCat Ibex.load_store (lit ":0x"))))).
  assert (exists s4, matches pre (Cur (m_pre m) (m_subject_aft m) []) s4 /\
            matches (RCat (RGrp 3 (plus (fun c => is_hex c || Ascii.eqb c "?")))
                          (RCat (RGrp 4 (RAlt (plus is_space) REol)) REps)) s4 s) as (s4 & Hpre & Hm').
  { repeat match goal with H : matches (RCat _ _) _ s |- _ =>
      let x := fresh "x" in apply matches_cat_inv in H as (x & ? & ?) end.
    exists x3. split; unfold pre; eauto 10 with cheriot. }
  apply matches_span in Hpre as (l0 & Hl0 & _). cbn in Hl0.
  apply matches_cat_inv in Hm' as (s5 & H3 & Hm'). apply matches_cat_inv in Hm' as (s6 & H4 & Hm').
  inversion Hm'; subst; [|discriminate].
  apply matches_grp_rep in H3 as (l & Hl & Hn & Hc).
  destruct (matches_grp4_caps (RAlt (plus is_space) REol) _ _ eq_refl H4) as [t Ht]. apply access_end in H4.
  assert (grp m 3 = l) as Hg.
  { unfold grp, group. by rewrite Ht, Hc. }
  rewrite Hg in Hr. apply replace_question_nil in Hr. unfold subject. rewrite Hl0, Hl.
  destruct l as [|c l' _] using rev_ind; [cbn in Hn; lia|].
  apply Forall_app in Hr as [_ Hq]. inversion Hq; subst.
  exists (reverse (m_pre m) ++ l0 ++ l'), (aft s5). split; [|done]. by rewrite <-!app_assoc.
Qed.

(** No question mark of the text is followed by white space or the end. *)
Fixpoint q_ok (s : str) : bool :=
  match s with
  | [] => true
  | c :: s' =>
      (if Ascii.eqb c "?" then match s' with [] => false | c' :: _ => not_space c' end else true)
      && q_ok s'
  end.

Lemma q_ok_not_dangling s : q_ok s = true -> ~ dangling s.
Proof.
  intros H (a & b & -> & Hb). induction a as [|c a IH]; cbn [q_ok app] in H;
    apply andb_true_iff in H as [Hc H]; [|by apply IH].
  cbn in Hc. rewrite Ascii.eqb_refl in Hc. destruct b as [|c' b]; [done|]. cbn in Hb. congruence.
Qed.

Lemma q_ok_app a b : q_ok a = true -> q_ok b = true -> q_ok (a ++ b) = true.
Proof.
  intros Ha Hb. induction a as [|c a IH]; [done|]. cbn [q_ok app] in *.
  apply andb_true_iff in Ha as [Hc Ha]. apply andb_true_iff. split; [|by apply IH].
  destruct (Ascii.eqb c "?"); [|done]. by destruct a.
Qed.

Lemma q_ok_free s : Forall (fun c => c <> "?"%char) s -> q_ok s = true.
Proof.
  induction 1 as [|c s Hc Hs IH]; [done|]. cbn [q_ok]. rewrite IH, andb_true_r.
  by destruct (Ascii.eqb_spec c "?").
Qed.

Lemma hexlow_q_free s : Forall (fun c => is_hexlow c = true) s -> q_ok s = true.
Proof.
  intros H. apply q_ok_free. eapply Forall_impl; [exact H|]. by intros c Hc ->.
Qed.

Lemma q_ok_fmt_h w n : 0 <= n -> q_ok (fmt_h w n) = true.
Proof. intros H. by apply hexlow_q_free, fmt_h_hexlow. Qed.

Lemma q_ok_str_of_Z n : 0 <= n -> q_ok (str_of_Z n) = true.
Proof. intros H. rewrite str_of_Z_pos by done. apply hexlow_q_free, digits_hexlow; lia. Qed.

Lemma q_ok_pad_space w s : q_ok s = true -> q_ok (pad_left " " w s) = true.
Proof. intros H. apply q_ok_app; [|done]. apply q_ok_free. by apply Forall_replicate. Qed.

(** Question marks directly in front of a numeral. *)
Lemma q_ok_marks k w n : 0 <= n -> q_ok (replicate k "?"%char ++ fmt_h w n) = true.
Proof.
  intros H. induction k as [|k IH]; [by apply q_ok_fmt_h|].
  cbn [replicate app q_ok]. apply andb_true_iff. split; [|exact IH]. cbn.
  destruct k as [|k]; [|done]. cbn [replicate app].
  pose proof (fmt_h_not_nil w n H). pose proof (fmt_h_hexlow w n H) as Hl.
  destruct Hl as [|c l Hc _]; [done|]. apply hexlow_chars in Hc as [Hc _].
  unfold not_space. by rewrite Hc.
Qed.

Definition width (w x : Z) : Prop := 0 <= x < 2 ^ w.
Definition reg_ok (r : reg_val) : Prop := width 5 (rv_addr r) /\ width 32 (rv_data r).
Definition cap_ok (r : cap_val) : Prop :=
  width 5 (cv_addr r) /\ width 32 (cv_data r) /\ width 33 (cv_cap r).
Definition mem_ok (m : mem_val) : Prop :=
  width 32 (mv_addr m) /\ width 32 (mv_wdata m) /\ width 32 (mv_rdata m).
Definition memc_ok (m : memc_val) : Prop :=
  width 32 (mc_addr m) /\ width 32 (mc_wdata m) /\ width 33 (mc_wcap m) /\
  width 32 (mc_rdata m) /\ width 33 (mc_rcap m).
Definition ok_opt {A} (P : A -> Prop) (o : option A) : Prop :=
  match o with Some a => P a | None => True end.

(** The values of a record have the widths of their signals; register addresses
    have five bits. *)
Record accessed_ok (a : accessed) : Prop := {
  ok_rs1 : ok_opt reg_ok (a_rs1 a); ok_cs1 : ok_opt cap_ok (a_cs1 a);
  ok_rs2 : ok_opt reg_ok (a_rs2 a); ok_cs2 : ok_opt cap_ok (a_cs2 a);
  ok_rs3 : ok_opt reg_ok (a_rs3 a); ok_rd : ok_opt reg_ok (a_rd a);
  ok_cd : ok_opt cap_ok (a_cd a); ok_mem : ok_opt mem_ok (a_mem a);
  ok_memc : ok_opt memc_ok (a_memc a) }.

Lemma q_ok_reg_addr n : 0 <= n -> q_ok (reg_addr_to_str n) = true.
Proof.
  intros H. unfold reg_addr_to_str.
  destruct (n <? 10); (apply q_ok_app; [reflexivity|by apply q_ok_str_of_Z]).
Qed.
Ltac q_pieces :=
  repeat first [reflexivity | apply q_ok_fmt_h; lia | apply q_ok_reg_addr; lia | apply q_ok_app].

Lemma land_pos n m : 0 <= n -> 0 <= n .& m.
Proof. intros H. apply Z.land_nonneg. by left. Qed.

Lemma q_ok_mem m : mem_ok m -> q_ok (put_mem m) = true.
Proof.
  unfold mem_ok, width. intros (H1 & H2 & H3). unfold put_mem.
  pose proof (q_ok_marks 6 2 _ (land_pos _ 0xff (proj1 H2))) as Hb.
  pose proof (q_ok_marks 4 4 _ (land_pos _ 0xffff (proj1 H2))) as Hh.
  apply q_ok_app; [reflexivity|]. apply q_ok_app; [apply q_ok_fmt_h; lia|]. apply q_ok_app.
  - destruct (_ =? 1); [apply (q_ok_app " store:0x"); [reflexivity|exact Hb]|].
    destruct (_ =? 3); [apply (q_ok_app " store:0x"); [reflexivity|exact Hh]|].
    destruct (negb _); q_pieces.
  - destruct (negb _); q_pieces.
Qed.

Lemma q_ok_opt {A} (P : A -> Prop) (f : A -> str) o :
  (forall a, P a -> q_ok (f a) = true) -> ok_opt P o -> q_ok (opt f o) = true.
Proof. destruct o; cbn; auto. Qed.

Lemma q_ok_contents a : accessed_ok a -> q_ok (contents a) = true.
Proof.
  intros [].
  assert (forall r, reg_ok r -> q_ok (put_read r) = true /\ q_ok (put_write r) = true) as Hr.
  { unfold reg_ok, width. intros r [? ?]. unfold put_read, put_write. split; q_pieces. }
  assert (forall r, cap_ok r -> q_ok (put_cap_read r) = true /\ q_ok (put_cap_write r) = true) as Hc.
  { unfold cap_ok, width. intros r (? & ? & ?). unfold put_cap_read, put_cap_write. split; q_pieces. }
  assert (forall m, memc_ok m -> q_ok (put_memc m) = true) as Hm.
  { unfold memc_ok, width. intros m (? & ? & ? & ? & ?). unfold put_memc. destruct (negb _); q_pieces. }
  unfold contents. repeat apply q_ok_app; eapply q_ok_opt; try eassumption; try apply q_ok_mem;
    try apply Hm; intros x Hx; by (apply Hr in Hx as [? ?] || apply Hc in Hx as [? ?]).
Qed.

(** ** The round trip *)

(** The instruction text: a mnemonic, then nothing or white space and the
    operands. *)
Record decoded_ok (mnemonic operands : str) : Prop := {
  mn_word : Forall (fun c => not_space c = true) mnemonic;
  mn_not_nil : mnemonic <> [];
  operands_sep : stops not_space operands;
  mn_no_mark : q_ok mnemonic = true; op_no_mark : q_ok operands = true;
  mn_no_trap : contains "-->" mnemonic = false;
  mn_no_intr : contains "==>" mnemonic = false }.

Definition mark (r : retired) : str :=
  if r_trap r then "-->" else if r_intr r then "==>" else "".

Lemma disp_str_mark r : disp_str r = mark r ++ r_decoded r.
Proof. unfold disp_str, mark. by destruct (r_trap r), (r_intr r). Qed.

Lemma digits_forall_hex n : 0 <= n -> Forall (fun c => is_hex c = true) (digits 16 n).
Proof. intros H. apply hexlow_is_hex, digits_hexlow; lia. Qed.

(** The white space before the instruction word, and the word. *)
Definition insn_pad (r : retired) : str := tab :: (if r_compressed r then "    " else "").
Definition insn_hex (r : retired) : str := fmt_h (if r_compressed r then 4 else 8) (insn_word r).
Lemma insn_hex_mod r :
  insn_hex r =
  if r_insn r mod 4 =? 3 then fmt_h 8 (r_insn r) else fmt_h 4 (r_insn r mod 2 ^ 16).
Proof. unfold insn_hex. rewrite insn_word_mod, r_compressed_mod. by destruct (_ =? 3). Qed.
Lemma insn_str_split r : [tab] ++ insn_str r = insn_pad r ++ insn_hex r.
Proof. unfold insn_str, insn_pad, insn_hex. by destruct (r_compressed r). Qed.

(** The line in columns. *)
Lemma dumpline_columns r mn ops :
  r_decoded r = mn ++ ops -> 0 <= r_time r -> 0 <= r_cycle r ->
  dumpline r =
    replicate (15 - length (digits 10 (r_time r))) " "%char ++ digits 10 (r_time r) ++
    (tab :: replicate (10 - length (digits 10 (r_cycle r))) " "%char) ++ digits 10 (r_cycle r) ++
    [tab] ++ fmt_h 8 (r_pc r) ++ insn_pad r ++ insn_hex r ++ [tab] ++ (mark r ++ mn) ++
    (ops ++ [tab] ++ contents (r_data r)).
Proof.
  intros Hd Ht Hc. unfold dumpline, fmt_d, pad_left. rewrite !str_of_Z_pos by done.
  rewrite disp_str_mark, Hd. rewrite (app_assoc (insn_pad r)), <-insn_str_split.
  by rewrite <-!app_assoc.
Qed.

Lemma is_space_replicate k : Forall (fun c => is_space c = true) (replicate k " "%char).
Proof. by apply Forall_replicate. Qed.
Lemma mark_word r : Forall (fun c => not_space c = true) (mark r).
Proof. unfold mark. destruct (r_trap r), (r_intr r); repeat constructor. Qed.

Lemma dumpline_match r mn ops :
  r_decoded r = mn ++ ops -> retired_ok r -> decoded_ok mn ops ->
  exists m ms, finditer Ibex.pattern1 (dumpline r) = m :: ms /\
    grp m 2 = digits 10 (r_cycle r) /\ grp m 3 = fmt_h 8 (r_pc r) /\
    grp m 4 = insn_hex r /\ grp m 5 = mark r ++ mn.
Proof.
  intros Hd (Ht & Hc & Hp & Hi)%retired_pos Hm. rewrite (dumpline_columns r mn ops Hd Ht Hc).
  pose proof (digits_spec 10 (r_time r) ltac:(lia) Ht) as (Hne0 & _).
  pose proof (digits_spec 10 (r_cycle r) ltac:(lia) Hc) as (Hne1 & _).
  destruct Hm as [Hw Hn Hs _ _ _ _].
  apply pattern1_columns; auto using is_space_replicate, digits10_digit, fmt_h_not_nil,
    hexlow_is_hex, fmt_h_hexlow, mark_word.
  - unfold insn_pad. destruct (r_compressed r); repeat constructor.
  - apply hexlow_is_hex. by apply fmt_h_hexlow.
  - apply Forall_app. split; [apply mark_word|done].
  - by apply fmt_h_not_nil.
  - by intros [_ ?]%app_nil.
  - destruct ops; [reflexivity|exact Hs].
Qed.

Lemma dumpline_q_ok r mn ops :
  r_decoded r = mn ++ ops -> retired_ok r -> decoded_ok mn ops -> accessed_ok (r_data r) ->
  q_ok (dumpline r) = true.
Proof.
  intros Hd (Ht & Hc & Hp & Hi)%retired_pos Hm Ha. rewrite (dumpline_columns r mn ops Hd Ht Hc).
  assert (q_ok (insn_pad r) = true /\ q_ok (mark r) = true) as [Hpad Hmark].
  { unfold insn_pad, mark. by destruct (r_compressed r), (r_trap r), (r_intr r). }
  assert (forall k, q_ok (replicate k " "%char) = true) as Hsp.
  { intros k. apply q_ok_free. by apply Forall_replicate. }
  destruct Hm.
  repeat first [reflexivity | assumption | apply Hsp | apply q_ok_fmt_h; assumption
               | apply q_ok_contents; assumption
               | apply hexlow_q_free, digits_hexlow; lia
               | apply q_ok_app | apply (q_ok_app [tab])].
Qed.

(** The marks are recognised. *)
Lemma mark_read r mn ops :
  decoded_ok mn ops ->
  contains "-->" (mark r ++ mn) = r_trap r /\ contains "==>" (mark r ++ mn) = negb (r_trap r) && r_intr r.
Proof.
  intros [_ _ _ _ _ Ht Hi]. unfold mark.
  destruct (r_trap r), (r_intr r); cbn -[starts_with]; cbn; by rewrite ?Ht, ?Hi.
Qed.

(** C14 (round trip: tracer and parser).  A file with one line of the tracer
    parses, whatever register and memory contents the line shows, and the object
    carries the cycle, program counter, instruction word (its lower half if its lowest
    two bits are not both set: a compressed instruction), trap and interrupt flag of the retired instruction. *)
Theorem tracer_line_roundtrip (r : retired) (mn ops : str) :
  r_decoded r = mn ++ ops -> decoded_ok mn ops -> retired_ok r -> accessed_ok (r_data r) ->
  exists o, Ibex.find_nxt (TraceFile [dumpline r] 0) = Ok (o, TraceFile [dumpline r] 1) /\
    valid o = 1 /\ cycle o = r_cycle r /\ pc o = r_pc r /\
    instr o = (if r_insn r mod 4 =? 3 then r_insn r else r_insn r mod 2 ^ 16) /\
    trap o = b2z (r_trap r) /\ intr o = b2z (negb (r_trap r) && r_intr r).
Proof.
  intros Hd Hm Hr Ha. rewrite <-insn_word_mod.
  destruct (dumpline_match r mn ops Hd Hr Hm) as (m & ms & Hf & H2 & H3 & H4 & H5).
  pose proof (q_ok_not_dangling _ (dumpline_q_ok r mn ops Hd Hr Hm Ha)) as Hq.
  assert (m ∈ finditer Ibex.pattern1 (dumpline r)) as Hin by (rewrite Hf; by left).
  destruct (ibex_parse_line_cases m (dumpline r) 0 (finditer_of _ _ _ Hin)) as [[o Ho]|[Hu _]].
  2:{ destruct Hq. by apply only_unknown_dangling. }
  exists o. unfold Ibex.find_nxt. cbn [line_ptr lines drop skip_to]. rewrite Hf.
  cbn [mbind res_bind]. rewrite Ho. split; [done|].
  split; [by eapply ibex_parse_line_valid|]. apply retired_pos in Hr as (Ht & Hc & Hp & Hi).
  destruct (ibex_parse_line_fields _ _ _ _ Ho) as (Ec & Ep & Ei & -> & ->).
  rewrite H2, <-str_of_Z_pos, int_of_str_of_Z in Ec by done. injection Ec as <-.
  rewrite H3, int_of_fmt_h in Ep by done. injection Ep as <-.
  rewrite H4 in Ei. unfold insn_hex in Ei. rewrite int_of_fmt_h in Ei by done.
  injection Ei as <-. rewrite H5, !searches_lit. destruct (mark_read r mn ops Hm) as [-> ->]. done.
Qed.

(** A trapping load word with its base register, as the witness. *)
Definition lw_mn : str := "lw".
Definition lw_ops : str := [tab] ++ "x10,0(x10)".
Definition lw_retired : retired := {|
  r_time := 110; r_cycle := 11; r_pc := 0x80000004; r_insn := 0x00052503;
  r_trap := true; r_intr := false; r_decoded := lw_mn ++ lw_ops;
  r_data := Accessed (Some (RegVal 10 0x80001000)) None None None None None None
              (Some (MemVal 0x80001000 1 0 0xab 0)) None |}.

Example tracer_line_roundtrip_witness :
  exists o, Ibex.find_nxt (TraceFile [dumpline lw_retired] 0) = Ok (o, TraceFile [dumpline lw_retired] 1) /\
    valid o = 1 /\ cycle o = 11 /\ pc o = 0x80000004 /\ instr o = 0x00052503 /\
    trap o = 1 /\ intr o = 0.
Proof.
  apply (tracer_line_roundtrip lw_retired lw_mn lw_ops).
  - reflexivity.
  - constructor; [repeat constructor|discriminate|reflexivity..].
  - constructor; cbn; lia.
  - constructor; cbn; unfold reg_ok, mem_ok, width; cbn; lia.
Defined.
