(* ===== verification/IbexConfig.v ===== *)
(** * Ibex configurations

    util/ibex_config.py: reading and checking the configuration file and printing
    a configuration as command-line options, with the quoting of [shlex].  The
    YAML parser is a parameter; a mapping is the association list of its items in
    order, and its keys are strings. *)

From S2P Require Import Prelude PyStr PyRe PyArgparse.
From Stdlib Require Import Ascii.
Local Open Scope Z_scope.

(** ** Values of a configuration file *)

Inductive scalar :=
| SStr (s : str)
| SInt (n : Z)
| SBool (b : bool).

(** A loaded YAML value.  [YOther] is any other object (a float, a date), known
    by the name of its class only. *)
Inductive yval :=
| YNone
| YScalar (s : scalar)
| YList (l : list yval)
| YMap (items : list (str * yval))
| YOther (class_name : str).

(** [str(type(v))] *)
Definition type_name (v : yval) : str :=
  match v with
  | YScalar (SStr _) => "<class 'str'>"
  | YScalar (SInt _) => "<class 'int'>"
  | YScalar (SBool _) => "<class 'bool'>"
  | YNone => "<class 'NoneType'>"
  | YList _ => "<class 'list'>"
  | YMap _ => "<class 'dict'>"
  | YOther c => "<class '" ++ c ++ "'>"
  end.

(** [isinstance(v, int)] holds of booleans too. *)
Definition is_int (v : yval) : bool :=
  match v with YScalar (SInt _) | YScalar (SBool _) => true | _ => false end.
Definition is_str (v : yval) : bool := match v with YScalar (SStr _) => true | _ => false end.
Definition is_bool (v : yval) : bool := match v with YScalar (SBool _) => true | _ => false end.

(** ** Checking *)

Definition _verify_config (name : str) (config_dict : yval) : res unit :=
  match config_dict with
  | YMap items =>
      res_iter (fun kv : str * yval =>
        let (k, v) := kv in
        if is_int v then Ok tt else if is_str v then Ok tt else if is_bool v then Ok tt
        else Raise ConfigException ("Parameter " ++ k ++ " for config " ++ name ++
                                    " must be string, int or bool got " ++ type_name v)) items
  | _ => Raise ConfigException ("Config " ++ name ++ " must have dictionary giving parameters")
  end.

(** The parameters of a configuration ([config_dict.items()]). *)
Definition dict_items (v : yval) : res (list (str * yval)) :=
  match v with YMap items => Ok items | _ => raise AttributeError end.

Section Config.
(** The order in which [','.join] walks a set. *)
Context (set_order : gset str -> list str).

(** The loop's state: [first] and [parameters]. *)
Definition verify_step (st : bool * gset str) (cfg : str * yval) : res (bool * gset str) :=
  let '(first, parameters) := st in
  items ← dict_items cfg.2;
  let this : gset str := list_to_set (items.*1) in
  if first then Ok (false, parameters ∪ this)
  else
    let diff : gset str := (parameters ∖ this) ∪ (this ∖ parameters) in
    if decide (diff = ∅) then Ok (false, parameters)
    else Raise ConfigException ("Config " ++ cfg.1 ++ " has differing parameters " ++
                                join "," (set_order diff)).

Definition _verify_config_parameters (config_dicts : list (str * yval)) : res unit :=
  _ ← res_fold verify_step (true, ∅) config_dicts; Ok tt.

(** [yaml.load]: a value, or [YAMLError] with its text. *)
Context (yaml_load : str -> res yval).

Definition get_config_dicts (config_file : str) : res (list (str * yval)) :=
  config_yaml ← (match yaml_load config_file with
                 | Raise YAMLError e => Raise ConfigException ("Could not decode yaml:" ++ [newline] ++ e)
                 | r => r
                 end);
  items ← dict_items config_yaml;
  _ ← res_iter (fun kv : str * yval => _verify_config kv.1 kv.2) items;
  _ ← _verify_config_parameters items;
  Ok items.

(** [parse_config]: the file system maps a name to a text, if the file exists;
    the messages go to standard error and are left out. *)
Definition parse_config (fs : str -> option str) (config_name config_filename : str) : res yval :=
  match (text ← or_raise FileNotFoundError (fs config_filename); get_config_dicts text) with
  | Ok config_dicts =>
      match dict_get config_dicts config_name with
      | None => raise (SystemExit 1)
      | Some c => Ok c
      end
  | Raise ConfigException _ => raise (SystemExit 1)
  | Raise FileNotFoundError _ => raise (SystemExit 1)
  | Raise c m => Raise c m
  end.
End Config.

(** ** [shlex.quote] *)

Definition is_ascii_word (c : ascii) : bool :=
  is_digit c || between 65 90 c || between 97 122 c || Ascii.eqb c "_"%char.
Definition shell_safe (c : ascii) : bool := is_ascii_word c || chr_in "@%+=:,./-" c.

Definition shlex_quote (s : str) : str :=
  match s with
  | [] => [SQ; SQ]
  | _ => if forallb shell_safe s then s
         else [SQ] ++ replace [SQ] [SQ; DQ; SQ; DQ; SQ] s ++ [SQ]
  end.

(** ** Printing options *)

(** [str(value)] *)
Definition py_str (v : scalar) : str :=
  match v with
  | SStr s => s
  | SInt n => str_of_Z n
  | SBool true => "True"
  | SBool false => "False"
  end.

(** A checked configuration: its parameters in order. *)
Definition config := list (str * scalar).

(** [FusesocOpts.output]: the option of a parameter, and all of them. *)
Definition fusesoc_opt (kv : str * scalar) : option str :=
  let (p, v) := kv in
  match v with
  | SBool true => Some ("--" ++ p)
  | SBool false => None
  | _ => Some ("--" ++ p ++ "=" ++ py_str v)
  end.
Definition fusesoc_cmd (c : config) : list str := omap fusesoc_opt c.
Definition fusesoc_output (c : config) : str := join " " (shlex_quote <$> fusesoc_cmd c).

(** A [SimOpts] object: how parameters and defines are passed, if at all. *)
Record sim_opts := SimOpts {
  cmd_name : str; description : str;
  param_set_fn : str -> str -> option str;
  define_set_fn : str -> str -> option str;
  hierarchy_sep : str }.

(** The truth value of an option of a text: [None] and [''] are false. *)
Definition truthy (o : option str) : option str :=
  match o with Some (c :: s) => Some (c :: s) | _ => None end.

(** [SimOpts.output]: the option of one parameter, and all of them. *)
Definition sim_opt (so : sim_opts) (path prefix : str) (kv : str * scalar) : option str :=
  let (p, v) := kv in
  match v with
  | SStr s => truthy (define_set_fn so (prefix ++ p) s)
  | SBool b => truthy (param_set_fn so (path ++ p) (if b then "1" else "0"))
  | SInt n => truthy (param_set_fn so (path ++ p) (str_of_Z n))
  end.

Definition sim_cmd (so : sim_opts) (ins_hier_path prefix : str) (c : config) : list str :=
  let path := if decide (ins_hier_path = []) then [] else ins_hier_path ++ hierarchy_sep so in
  omap (sim_opt so path prefix) c.
Definition sim_output (so : sim_opts) (ins_hier_path prefix : str) (c : config) : str :=
  join " " (shlex_quote <$> sim_cmd so ins_hier_path prefix c).

(** ** The outputters of [main] *)

Definition opt_eq (pre p v : str) : option str := Some (pre ++ p ++ "=" ++ v).
Definition none2 (_ _ : str) : option str := None.

Definition vcs_opts : sim_opts :=
  SimOpts "vcs_opts" "VCS compile" (opt_eq "-pvalue+") (opt_eq "+define+") ".".
Definition riviera_sim_opts : sim_opts :=
  SimOpts "riviera_sim_opts" "Riviera simulate" (opt_eq "-g/") none2 "/".
Definition riviera_compile_opts : sim_opts :=
  SimOpts "riviera_compile_opts" "Riviera compile" none2 (opt_eq "+define+") "/".
Definition questa_sim_opts : sim_opts :=
  SimOpts "questa_sim_opts" "Questa simulate" (opt_eq "-g/") none2 "/".
Definition questa_compile_opts : sim_opts :=
  SimOpts "questa_compile_opts" "Questa compile" none2 (opt_eq "+define+") "/".
Definition xlm_opts : sim_opts :=
  SimOpts "xlm_opts" "Xcelium compile" (opt_eq "-defparam ") (opt_eq "-define ") ".".
Definition dsim_compile_opts : sim_opts :=
  SimOpts "dsim_compile_opts" "DSim compile" (opt_eq "+define+") none2 "/".

Definition sim_outputters : list sim_opts :=
  [vcs_opts; riviera_sim_opts; riviera_compile_opts; questa_sim_opts; questa_compile_opts;
   xlm_opts; dsim_compile_opts].

Definition get_config_file_location (env : str -> option str) : str :=
  default ("ibex_configs.yaml" : str) (env "IBEX_CONFIG_FILE").

(** What prints a configuration, with the options of its sub-command
    ([setup_args]): the object whose [output] is the command's [output_fn]. *)
Inductive outputter :=
| Fusesoc
| Sim (so : sim_opts).

Definition outputters : list outputter := Fusesoc :: (Sim <$> sim_outputters).

Definition setup_args (o : outputter) : str * parser outputter :=
  match o with
  | Fusesoc => ("fusesoc_opts" : str, argument_parser [] [("output_fn" : str, AObj o)])
  | Sim so =>
      (cmd_name so,
       argument_parser
         [with_default (AStr []) (option_arg ["--ins_hier_path" : str] "ins_hier_path");
          with_default (AStr []) (option_arg ["--string_define_prefix" : str] "string_define_prefix")]
         [("output_fn" : str, AObj o)])
  end.

(** The parser of [main]. *)
Definition arg_subparser : action outputter :=
  subparsers "output_fn" ((fun o => ((setup_args o).1, parse_known_args (setup_args o).2)) <$> outputters).
Definition filename_arg (env : str -> option str) : action outputter :=
  with_default (AStr (get_config_file_location env)) (option_arg ["--config_filename" : str] "config_filename").
Definition config_parser (env : str -> option str) : parser outputter :=
  argument_parser [positional_arg "config_name"; filename_arg env; arg_subparser] [].

(** The [output] of an outputter for the attributes of the command line. *)
Definition output (o : outputter) (c : config) (ns : namespace outputter) : res str :=
  match o with
  | Fusesoc => Ok (fusesoc_output c)
  | Sim so =>
      ins_hier_path ← arg_text ns "ins_hier_path";
      string_define_prefix ← arg_text ns "string_define_prefix";
      Ok (sim_output so ins_hier_path string_define_prefix c)
  end.

(** The parameters of a loaded configuration; values other than scalars do not
    pass the check ([main_configs_scalar]). *)
Definition to_config (v : yval) : res config :=
  items ← dict_items v;
  res_map (fun kv : str * yval =>
    match kv.2 with YScalar s => Ok (kv.1, s) | _ => raise TypeError end) items.

(** [main] for a command line: the text it prints, or its exit. *)
Definition main (set_order : gset str -> list str) (yaml_load : str -> res yval)
    (fs : str -> option str) (env : str -> option str) (args : list str) : res str :=
  ns ← parsed (config_parser env) args;
  match dict_get ns "output_fn" with
  | Some ANone => raise (SystemExit 1)
  | Some (AObj o) =>
      config_name ← arg_text ns "config_name";
      config_filename ← arg_text ns "config_filename";
      v ← parse_config set_order yaml_load fs config_name config_filename;
      c ← to_config v;
      out ← output o c ns;
      Ok (out ++ [newline])
  | Some _ => raise TypeError
  | None => raise AttributeError
  end.

(** ** What the check accepts *)

Definition is_scalar (v : yval) : Prop := exists s, v = YScalar s.

(** A well-formed configuration file: every configuration maps its parameters to
    scalars, and all have the same parameters. *)
Definition wf_config (v : yval) : Prop :=
  exists items, v = YMap items /\ Forall (fun kv => is_scalar kv.2) items.
Definition params (v : yval) : gset str :=
  match v with YMap items => list_to_set (items.*1) | _ => ∅ end.
Definition wf_configs (cfgs : list (str * yval)) : Prop :=
  Forall (fun kv => wf_config kv.2) cfgs /\
  forall c1 c2, c1 ∈ cfgs -> c2 ∈ cfgs -> params c1.2 = params c2.2.

Lemma verify_config_ok name v : _verify_config name v = Ok tt <-> wf_config v.
Proof.
  unfold _verify_config, wf_config. destruct v as [|s|l|items|c].
  1-3: split; [done|]; by intros (? & ? & _).
  - rewrite res_iter_ok. split.
    + intros H. exists items. split; [done|]. eapply Forall_impl; [exact H|].
      intros [k [|[]| | |]]; cbn; intros ?; try done; by eexists.
    + intros (i & [= <-] & H). eapply Forall_impl; [exact H|].
      intros [k v] [[] Hv]; cbn in *; by subst v.
  - split; [done|]. by intros (? & ? & _).
Qed.

Lemma sym_diff_empty (a b : gset str) : (a ∖ b) ∪ (b ∖ a) = ∅ <-> a = b.
Proof.
  split; [|set_solver]. intros H. apply set_eq. intros x.
  destruct (decide (x ∈ a)), (decide (x ∈ b)); set_solver.
Qed.

Section Check.
Context (set_order : gset str -> list str).

Lemma verify_fold_ok P (cfgs : list (str * yval)) st :
  Forall (fun kv => wf_config kv.2) cfgs ->
  res_fold (verify_step set_order) (false, P) cfgs = Ok st <->
  st = (false, P) /\ Forall (fun kv => params kv.2 = P) cfgs.
Proof.
  induction 1 as [|[name v] cfgs Hv Hc IH]; cbn [res_fold].
  - split; [by intros [= <-]|]. by intros [-> _].
  - destruct Hv as (items & Ev & _). cbn in Ev. subst v. rewrite Forall_cons. cbn.
    case_decide as Hd.
    + apply (proj1 (sym_diff_empty _ _)) in Hd. subst P.
      split; [intros H; apply IH in H as [-> ?]; by split_and!|].
      intros (-> & _ & ?). by apply IH.
    + split; [done|]. intros (_ & Hp & _). destruct Hd. apply sym_diff_empty. by rewrite <-Hp.
Qed.

Lemma verify_parameters_ok (cfgs : list (str * yval)) :
  Forall (fun kv => wf_config kv.2) cfgs ->
  _verify_config_parameters set_order cfgs = Ok tt <->
  forall c1 c2, c1 ∈ cfgs -> c2 ∈ cfgs -> params c1.2 = params c2.2.
Proof.
  intros H. unfold _verify_config_parameters. destruct H as [|[name v] cfgs Hv Hc].
  - split; [|done]. by intros _ ? ? ?%not_elem_of_nil.
  - destruct Hv as (items & Ev & _). cbn in Ev. subst v. cbn [res_fold verify_step snd dict_items mbind res_bind].
    pose proof (verify_fold_ok (∅ ∪ list_to_set (items.*1)) cfgs) as Hf.
    replace (∅ ∪ list_to_set (items.*1) : gset str) with (params (YMap items)) in * by set_solver.
    destruct (res_fold _ _ cfgs) as [st|c m] eqn:E; cbn.
    + destruct (proj1 (Hf st Hc) eq_refl) as [_ Hall]. rewrite Forall_forall in Hall.
      split; [|done]. intros _ c1 c2 [->|H1]%elem_of_cons [->|H2]%elem_of_cons; cbn; auto.
      * symmetry. by apply (Hall c2).
      * rewrite (Hall c1 H1), (Hall c2 H2). done.
    + split; [done|]. intros Hall. enough (Raise c m = Ok (false, params (YMap items))) by done.
      apply Hf; [done|]. split; [done|]. apply Forall_forall. intros c1 H1.
      apply (Hall c1 (name, YMap items)); set_solver.
Qed.
End Check.

(** [get_config_dicts] returns exactly the files that the
    YAML parser accepts as a mapping of well-formed configurations, which all
    have the same parameters; otherwise it raises. *)
Lemma get_config_dicts_iff (set_order : gset str -> list str) (yaml_load : str -> res yval)
    (text : str) (cfgs : list (str * yval)) :
  get_config_dicts set_order yaml_load text = Ok cfgs <->
  yaml_load text = Ok (YMap cfgs) /\ wf_configs cfgs.
Proof.
  unfold get_config_dicts. destruct (yaml_load text) as [v|c m].
  2:{ split; [|by intros [? _]]. by destruct c. }
  cbn [mbind res_bind]. destruct v as [|s|l|items|c]; cbn [dict_items mbind res_bind];
    try (split; [done|by intros [? _]]).
  assert (res_iter (fun kv => _verify_config kv.1 kv.2) items = Ok tt <->
          Forall (fun kv => wf_config kv.2) items) as Hv.
  { rewrite res_iter_ok. split; intros H; (eapply Forall_impl; [exact H|]);
      intros kv; apply verify_config_ok. }
  unfold wf_configs. split.
  - intros H. destruct (res_iter _ items) as [[]|] eqn:Ei; [|done].
    cbn [mbind res_bind] in H.
    destruct (_verify_config_parameters set_order items) as [[]|] eqn:Ep; [|done].
    cbn in H. injection H as <-. split; [done|]. apply proj1 in Hv. specialize (Hv eq_refl).
    split; [done|]. by apply (verify_parameters_ok set_order).
  - intros [[= ->] [Hw Hp]]. rewrite (proj2 Hv Hw). cbn [mbind res_bind].
    by rewrite (proj2 (verify_parameters_ok set_order cfgs Hw) Hp).
Qed.

Lemma to_config_wf v :
  wf_config v -> exists c, to_config v = Ok c /\ list_to_set c.*1 = params v.
Proof.
  intros (items & -> & H). cbn [to_config dict_items mbind res_bind params].
  induction H as [|[k v] items [sc Hv] H (c & IH & Hk)]; [by exists []|].
  unfold to_config in IH |- *. cbn in *. subst v. cbn. rewrite IH. cbn. exists ((k, sc) :: c).
  split; [done|]. cbn. by rewrite Hk.
Qed.

(** C37 (type: what [parse_config] accepts).  [parse_config] returns a value
    exactly when the file exists, its YAML is a mapping whose entries are
    mappings from parameters to strings, integers or booleans, all of them have
    the same parameters, and the name is an entry; the value then is a list of
    scalar parameters, so printing it does not raise. *)
Theorem parse_config_ok (set_order : gset str -> list str) (yaml_load : str -> res yval)
    (fs : str -> option str) (name file : str) :
  (forall v, parse_config set_order yaml_load fs name file = Ok v <->
     exists text cfgs, fs file = Some text /\ yaml_load text = Ok (YMap cfgs) /\
       wf_configs cfgs /\ dict_get cfgs name = Some v) /\
  (forall v, parse_config set_order yaml_load fs name file = Ok v ->
     exists c, to_config v = Ok c /\ list_to_set c.*1 = params v).
Proof.
  assert (forall v, parse_config set_order yaml_load fs name file = Ok v <->
     exists text cfgs, fs file = Some text /\ yaml_load text = Ok (YMap cfgs) /\
       wf_configs cfgs /\ dict_get cfgs name = Some v) as H.
  { intros v. unfold parse_config. destruct (fs file) as [text|]; cbn [or_raise mbind res_bind].
    2:{ split; [done|]. by intros (? & ? & ? & _). }
    destruct (get_config_dicts set_order yaml_load text) as [cfgs|c m] eqn:E.
    - apply get_config_dicts_iff in E as [E Hw]. destruct (dict_get cfgs name) as [v'|] eqn:Ed.
      + split; [intros [= ->]; eauto 10|]. intros (? & ? & [= <-] & E' & _ & Hv). congruence.
      + split; [done|]. intros (? & ? & [= <-] & E' & _ & Hv). congruence.
    - split; [by destruct c|]. intros (? & ? & [= <-] & E' & Hw & Hv).
      rewrite (proj2 (get_config_dicts_iff set_order yaml_load text _) (conj E' Hw)) in E. done. }
  split; [exact H|]. intros v (text & cfgs & _ & _ & [Hw _] & Hv)%H.
  apply dict_get_in in Hv. apply to_config_wf.
  rewrite Forall_forall in Hw. exact (Hw _ Hv).
Qed.

(** ** The command line *)

Section CommandLine.
Context (set_order : gset str -> list str) (yaml_load : str -> res yval)
        (fs : str -> option str) (env : str -> option str).

(** The two options of a simulator's sub-command, and its attributes. *)
Definition sim_uses (path prefix : str) : list opt_use :=
  [Given "--ins_hier_path" path; Given "--string_define_prefix" prefix].
Definition sim_attributes (so : sim_opts) (path prefix : str) : namespace outputter :=
  [("ins_hier_path" : str, AStr path); ("string_define_prefix" : str, AStr prefix);
   ("output_fn" : str, AObj (Sim so))].

Lemma parse_sub_command so path prefix :
  plain_arg path -> plain_arg prefix ->
  parse_known_args (setup_args (Sim so)).2 (mjoin (use_args <$> sim_uses path prefix)) =
  Some (Ok (sim_attributes so path prefix, [])).
Proof.
  intros Hpath Hprefix. rewrite <-(app_nil_r (mjoin _)).
  assert (is_plain path = true /\ is_plain prefix = true) as [E1 E2]
    by (unfold is_plain; by rewrite Hpath, Hprefix).
  erewrite parse_uses; [|cbn -[starts_with is_plain]; rewrite E1, E2; reflexivity|constructor].
  cbn [take_actions]. unfold take_action at 1. rewrite get_values_one by (done || by apply plain_not_dashes).
  cbn -[decide]. unfold take_action. rewrite get_values_one by (done || by apply plain_not_dashes).
  reflexivity.
Qed.

Lemma sub_command_in so :
  so ∈ sim_outputters ->
  plain_arg (cmd_name so) /\
  dict_get ((fun o => ((setup_args o).1, parse_known_args (setup_args o).2)) <$> outputters) (cmd_name so)
    = Some (parse_known_args (setup_args (Sim so)).2).
Proof.
  unfold sim_outputters. intros H. repeat (apply elem_of_cons in H as [->|H]; [by split|]).
  by apply not_elem_of_nil in H.
Qed.

(** The command line of a simulator's options: the arguments with their classes.
    The options of the sub-command are unknown to the parser of [main]. *)
Definition command_line (so : sim_opts) (name file path prefix : str) : list str :=
  [name; "--config_filename" : str; file; cmd_name so] ++ mjoin (use_args <$> sim_uses path prefix).
Definition filename_option : option_tuple := (Some (filename_arg env), "--config_filename" : str, None).
Definition unknown (o : str) : option_tuple (V := outputter) := (None, o, None).
Definition command_items (so : sim_opts) (name file path prefix : str) : list item :=
  [(name, CArg); ("--config_filename" : str, COpt filename_option); (file, CArg); (cmd_name so, CArg);
   ("--ins_hier_path" : str, COpt (unknown "--ins_hier_path")); (path, CArg);
   ("--string_define_prefix" : str, COpt (unknown "--string_define_prefix")); (prefix, CArg)].

Lemma classify_command_line so name file path prefix :
  so ∈ sim_outputters -> Forall plain_arg [name; file; path; prefix] ->
  classify (option_map (config_parser env)) (command_line so name file path prefix)
  = Ok (command_items so name file path prefix).
Proof.
  intros [Hcmd _]%sub_command_in H. repeat (apply Forall_cons in H as [? H]).
  unfold command_line. cbn [mjoin list_join fmap list_fmap sim_uses use_args app].
  rewrite classify_plain, (classify_option _ "--config_filename" filename_option), !classify_plain by done.
  rewrite (classify_option _ "--ins_hier_path" (unknown "--ins_hier_path")), classify_plain by done.
  by rewrite (classify_option _ "--string_define_prefix" (unknown "--string_define_prefix")), classify_plain.
Qed.

Lemma parse_command_line so name file path prefix :
  so ∈ sim_outputters -> Forall plain_arg [name; file; path; prefix] ->
  parsed (config_parser env) (command_line so name file path prefix) =
  Ok [("config_name" : str, AStr name); ("config_filename" : str, AStr file); ("output_fn" : str, AObj (Sim so));
      ("ins_hier_path" : str, AStr path); ("string_define_prefix" : str, AStr prefix)].
Proof.
  intros Hso Hp. pose proof (classify_command_line so name file path prefix Hso Hp) as Hc.
  destruct (sub_command_in so Hso) as [_ Hg].
  repeat match goal with H : Forall plain_arg (_ :: _) |- _ => apply Forall_cons in H as [? H] end.
  set (items := command_items so name file path prefix) in *. pose (m := option_map (config_parser env)).
  pose (st1 := set_attr (start (config_parser env)) (positional_arg "config_name") (AStr name)).
  assert (consume_next m [positional_arg "config_name"; arg_subparser] items (start (config_parser env))
            "--config_filename" filename_option [(name, CArg)] (drop 2 items)
          = Some (Ok (drop 1 items, [arg_subparser], st1))) as T1.
  { apply consume_next_positionals; [|cbn; lia]. replace (match_partial _ _ _) with [1%nat] by reflexivity.
    cbn [take_positionals take fmap list_fmap fst items command_items].
    by rewrite (take_stored _ name _ (AStr name)) by (done || by apply plain_not_dashes). }
  pose (st2 := set_attr st1 (filename_arg env) (AStr file)).
  assert (consume_next m [arg_subparser] (drop 1 items) st1 "--config_filename" filename_option [] (drop 2 items)
          = Some (Ok (drop 3 items, [arg_subparser], st2))) as T2.
  { unfold consume_next. cbn [filename_option consume_optional]. unfold following_values.
    cbn [drop items command_items fmap list_fmap class_char snd].
    rewrite match_argument_one by done. cbn [mbind res_bind take drop fmap list_fmap fst app take_actions].
    by rewrite (take_stored _ file _ (AStr file)) by (done || by apply plain_not_dashes). }
  unfold parsed, parse_args, parse_known_args. rewrite Hc. cbn [items command_items length].
  change (List.filter is_positional (p_actions (config_parser env))) with [positional_arg "config_name"; arg_subparser].
  fold (start (config_parser env)) m items.
  erewrite parse_loop_turn; [|reflexivity|exact T1]. erewrite parse_loop_turn; [|reflexivity|exact T2].
  erewrite parse_loop_turn; [|reflexivity|].
  2:{ apply consume_next_positionals.
      - replace (match_partial _ _ _) with [5%nat] by reflexivity.
        cbn [take_positionals take drop fmap list_fmap fst items command_items].
        unfold arg_subparser. erewrite take_subparser; [|exact Hg|by apply parse_sub_command]. reflexivity.
      - cbn. lia. }
  reflexivity.
Qed.

(** [main] on such a command line prints the options of that configuration for
    that simulator. *)
Lemma main_sim_options so name file path prefix :
  so ∈ sim_outputters -> Forall plain_arg [name; file; path; prefix] ->
  main set_order yaml_load fs env (command_line so name file path prefix) =
  (v ← parse_config set_order yaml_load fs name file; c ← to_config v;
   Ok (sim_output so path prefix c ++ [newline])).
Proof. intros Hso Hp. unfold main. by rewrite parse_command_line. Qed.
End CommandLine.

(** ** Reading the printed options back

    The words a POSIX shell makes of a line of plain characters, single- and
    double-quoted text and blanks.  Other characters outside quotes, and the
    special ones inside double quotes, are outside this fragment. *)

Inductive sh_mode := Plain | Single | Double.

Definition snoc (w : option str) (t : str) : option str := Some (default [] w ++ t).

Fixpoint sh_words (m : sh_mode) (w : option str) (s : str) : option (list str) :=
  match s with
  | [] => match m with
          | Plain => Some (match w with Some w => [w] | None => [] end)
          | _ => None
          end
  | c :: s' =>
      match m with
      | Plain =>
          if Ascii.eqb c " " then
            ws ← sh_words Plain None s'; Some (match w with Some w => w :: ws | None => ws end)
          else if Ascii.eqb c SQ then sh_words Single (snoc w []) s'
          else if Ascii.eqb c DQ then sh_words Double (snoc w []) s'
          else if shell_safe c then sh_words Plain (snoc w [c]) s' else None
      | Single =>
          if Ascii.eqb c SQ then sh_words Plain w s' else sh_words Single (snoc w [c]) s'
      | Double =>
          if Ascii.eqb c DQ then sh_words Plain w s'
          else if chr_in "$`\!" c then None else sh_words Double (snoc w [c]) s'
      end
  end.

Example sh_words_ex : sh_words Plain None "a 'b c' -d=e" = Some ["a" : str; "b c" : str; "-d=e" : str].
Proof. reflexivity. Qed.

Lemma shell_safe_chars c :
  shell_safe c = true -> Ascii.eqb c " " = false /\ Ascii.eqb c SQ = false /\ Ascii.eqb c DQ = false.
Proof. revert c. intros [[][][][][][][][]]; vm_compute; auto; discriminate. Qed.

Lemma snoc_app w a b : snoc (snoc w a) b = snoc w (a ++ b).
Proof. unfold snoc. cbn. by rewrite app_assoc. Qed.

Lemma sh_safe s w rest :
  s <> [] -> Forall (fun c => shell_safe c = true) s ->
  sh_words Plain w (s ++ rest) = sh_words Plain (snoc w s) rest.
Proof.
  intros Hne H. revert w Hne; induction H as [|c s Hc Hs IH]; intros w Hne; [done|].
  cbn [app sh_words]. destruct (shell_safe_chars c Hc) as (-> & -> & ->). rewrite Hc.
  destruct s as [|c' s]; [done|]. rewrite IH by done. by rewrite snoc_app.
Qed.

Definition sq_escape : str := [SQ; DQ; SQ; DQ; SQ].

Lemma replace_sq_cons c s :
  replace [SQ] sq_escape (c :: s) =
    (if Ascii.eqb c SQ then sq_escape else [c]) ++ replace [SQ] sq_escape s.
Proof.
  unfold replace. cbn [replace_go starts_with]. rewrite (Ascii.eqb_sym SQ c).
  by destruct (Ascii.eqb c SQ); [destruct s|].
Qed.

Lemma sh_quoted s w rest :
  sh_words Single (Some w) (replace [SQ] sq_escape s ++ SQ :: rest) =
  sh_words Plain (Some (w ++ s)) rest.
Proof.
  revert w; induction s as [|c s IH]; intros w; [cbn; by rewrite app_nil_r|].
  rewrite replace_sq_cons. destruct (Ascii.eqb c SQ) eqn:E.
  - apply Ascii.eqb_eq in E as ->. rewrite <-app_assoc.
    assert (sh_words Single (Some w) (sq_escape ++ replace [SQ] sq_escape s ++ SQ :: rest) =
            sh_words Single (Some (((w ++ []) ++ [SQ]) ++ [])) (replace [SQ] sq_escape s ++ SQ :: rest)) as ->
      by reflexivity.
    rewrite IH, !app_nil_r. by rewrite <-app_assoc.
  - cbn [app sh_words]. rewrite E. unfold snoc; cbn [default]. rewrite IH. by rewrite <-app_assoc.
Qed.

(** A quoted word reads back as itself. *)
Lemma sh_quote a rest :
  sh_words Plain None (shlex_quote a ++ rest) = sh_words Plain (Some a) rest.
Proof.
  destruct a as [|c a]; [reflexivity|]. cbn [shlex_quote].
  destruct (forallb shell_safe (c :: a)) eqn:E.
  - rewrite forallb_forall in E. rewrite sh_safe; [reflexivity|done|].
    apply Forall_forall. intros x Hx. apply E. by apply list_elem_of_In.
  - rewrite <-!app_assoc. exact (sh_quoted (c :: a) [] rest).
Qed.

Lemma sh_join l : sh_words Plain None (join " " (shlex_quote <$> l)) = Some l.
Proof.
  induction l as [|a [|b l] IH]; [done| |].
  - cbn [fmap list_fmap join]. rewrite <-(app_nil_r (shlex_quote a)). by rewrite sh_quote.
  - change (join " " (shlex_quote <$> a :: b :: l)) with
      (shlex_quote a ++ (" " : str) ++ join " " (shlex_quote <$> b :: l)).
    rewrite sh_quote. revert IH. generalize (join " " (shlex_quote <$> b :: l)). intros t IH.
    cbn [String.list_ascii_of_string app sh_words].
    change (Ascii.eqb " " " ") with true. cbv iota. by rewrite IH.
Qed.

(** (round trip: quoting).  Whatever characters the parameters, values,
    hierarchy paths and prefixes contain, a shell that reads the printed line
    back sees exactly the list of options, for every simulator and for
    FuseSoC. *)
Theorem options_survive_shell (so : sim_opts) (path prefix : str) (c : config) :
  sh_words Plain None (sim_output so path prefix c) = Some (sim_cmd so path prefix c) /\
  sh_words Plain None (fusesoc_output c) = Some (fusesoc_cmd c).
Proof. split; apply sh_join. Qed.

(** ** Every parameter reaches the simulator *)

(** Reading an option: its prefix and the name and value around the first [=]. *)
Definition read_opt (pre s : str) : option (str * str) :=
  if starts_with pre s then
    match split1 "="%char (drop (length pre) s) with
    | (name, Some value) => Some (name, value)
    | _ => None
    end
  else None.

Definition sim_value (v : scalar) : str :=
  match v with SStr s => s | SInt n => str_of_Z n | SBool b => if b then "1" else "0" end.
Definition is_string (v : scalar) : bool := match v with SStr _ => true | _ => false end.

Lemma read_opt_eq pre p v : "="%char ∉ p -> read_opt pre (pre ++ p ++ "=" ++ v) = Some (p, v).
Proof.
  intros H. unfold read_opt. rewrite starts_with_app, drop_app_length.
  change ("=" ++ v) with ("="%char :: v). by rewrite split1_app.
Qed.

Lemma sim_cmd_cons so kv c :
  sim_cmd so [] [] (kv :: c) =
    match sim_opt so [] [] kv with
    | Some o => o :: sim_cmd so [] [] c
    | None => sim_cmd so [] [] c
    end.
Proof. reflexivity. Qed.

(** The simulators that take both kinds of parameter, with the prefixes of their
    options, and the pairs of commands that share the parameters. *)
Definition both_kinds : list (sim_opts * str * str) :=
  [(vcs_opts, "-pvalue+" : str, "+define+" : str); (xlm_opts, "-defparam " : str, "-define " : str)].
Definition split_kinds : list (sim_opts * sim_opts) :=
  [(questa_sim_opts, questa_compile_opts); (riviera_sim_opts, riviera_compile_opts)].

Lemma both_kinds_opt so pp dp p v :
  (so, pp, dp) ∈ both_kinds ->
  sim_opt so [] [] (p, v) = Some ((if is_string v then dp else pp) ++ p ++ "=" ++ sim_value v).
Proof.
  unfold both_kinds. rewrite !elem_of_cons.
  intros [[= -> -> ->]|[[= -> -> ->]|[]%elem_of_nil]]; destruct v as [| |[]]; done.
Qed.

Lemma split_kinds_opt sim comp p v :
  (sim, comp) ∈ split_kinds ->
  sim_opt comp [] [] (p, v) =
    (if is_string v then Some ("+define+" ++ p ++ "=" ++ sim_value v) else None) /\
  sim_opt sim [] [] (p, v) =
    (if is_string v then None else Some ("-g/" ++ p ++ "=" ++ sim_value v)).
Proof.
  unfold split_kinds. rewrite !elem_of_cons.
  intros [[= -> ->]|[[= -> ->]|[]%elem_of_nil]]; destruct v as [| |[]]; done.
Qed.

(** (round trip: simulator options).  VCS and Xcelium are given one option
    per parameter, in order, and each reads back to its parameter and value. *)
Theorem sim_options_roundtrip (so : sim_opts) (pp dp : str) (c : config) :
  (so, pp, dp) ∈ both_kinds -> Forall (fun kv => "="%char ∉ kv.1) c ->
  zip_with read_opt ((fun kv => if is_string kv.2 then dp else pp) <$> c) (sim_cmd so [] [] c) =
  (fun kv => Some (kv.1, sim_value kv.2)) <$> c.
Proof.
  intros Hso. induction 1 as [|[p v] c Hv Hc IH]; [done|].
  rewrite sim_cmd_cons, (both_kinds_opt so pp dp p v Hso), !fmap_cons.
  cbn [zip_with fst snd] in *. by rewrite IH, read_opt_eq.
Qed.

Definition example_config : config :=
  [("RV32E" : str, SInt 0); ("RV32M" : str, SStr "ibex_pkg::RV32MFast"); ("ICache" : str, SBool true)].

Example sim_options_roundtrip_witness :
  zip_with read_opt ["-pvalue+" : str; "+define+" : str; "-pvalue+" : str]
    (sim_cmd vcs_opts [] [] example_config) =
  [Some ("RV32E" : str, "0" : str); Some ("RV32M" : str, "ibex_pkg::RV32MFast" : str);
   Some ("ICache" : str, "1" : str)].
Proof.
  apply (sim_options_roundtrip vcs_opts "-pvalue+" "+define+" example_config).
  - left.
  - repeat constructor; cbn; rewrite !elem_of_cons; intros H;
      repeat (destruct H as [H|H]; [discriminate H|]); by apply not_elem_of_nil in H.
Defined.

(** (functional: split options).  A pair of a compile and a simulate command
    gives every parameter to exactly one of the two, the string parameters to
    the compile command; DSim is not given the string parameters at all. *)
Theorem sim_options_split (c : list (str * scalar)) :
  (forall sim comp, (sim, comp) ∈ split_kinds ->
     sim_cmd comp [] [] c = sim_cmd comp [] [] (filter (fun kv => is_string kv.2 = true) c) /\
     sim_cmd sim [] [] c = sim_cmd sim [] [] (filter (fun kv => is_string kv.2 = false) c) /\
     (length (sim_cmd sim [] [] c) + length (sim_cmd comp [] [] c) = length c)%nat) /\
  sim_cmd dsim_compile_opts [] [] c =
    sim_cmd dsim_compile_opts [] [] (filter (fun kv => is_string kv.2 = false) c).
Proof.
  split.
  - intros sim comp Hin. induction c as [|[p v] c (IH1 & IH2 & IH3)]; [done|].
    destruct (split_kinds_opt sim comp p v Hin) as [H1 H2]. rewrite !filter_cons. cbn [snd].
    destruct (is_string v) eqn:Ev; cbn [decide decide_rel bool_eq_dec];
      repeat case_decide; try done; rewrite !sim_cmd_cons, H1, H2, <-?IH1, <-?IH2;
      split_and!; try done; cbn [length]; lia.
  - induction c as [|[p v] c IH]; [done|]. rewrite filter_cons.
    destruct v as [s|n|b]; cbn [snd is_string]; case_decide; try done;
      rewrite !sim_cmd_cons; by rewrite <-IH.
Qed.
