(* ===== verification/ToolReq.v ===== *)
(** * Tool requirements

    util/check_tool_requirements.py: reading tool_requirements.py, asking the
    tools for their versions and comparing them.  Running a command, the metadata
    of installed packages and the [Version] class of the packaging library are
    parameters. *)

From S2P Require Import Prelude PyStr PyRe.
From Stdlib Require Import Ascii.
Local Open Scope Z_scope.

(** ** The requirements file *)

(** A Python value of the file: a string, a boolean, a dictionary (its items in
    order) or another object with its [repr]. *)
Inductive pyval :=
| PStr (s : str)
| PBool (b : bool)
| PDict (items : list (pyval * pyval))
| POther (repr : str).

(** The subclasses of [ToolReq]. *)
Inductive tool_class := ToolReq | VerilatorToolReq | VeribleToolReq | VcsToolReq | PyModuleToolReq.
#[export] Instance tool_class_eq_dec : EqDecision tool_class.
Proof. solve_decision. Defined.

Record tool_req := MkToolReq {
  tool : str; min_version : str; as_needed : bool; cls : tool_class }.

Definition is_key (k : str) (kv : pyval * pyval) : bool :=
  match kv.1 with PStr s => bool_decide (s = k) | _ => false end.
Definition dict_lookup (k : str) (d : list (pyval * pyval)) : option pyval :=
  snd <$> head (filter (fun kv => is_key k kv = true) d).
Definition dict_del (k : str) (d : list (pyval * pyval)) : list (pyval * pyval) :=
  filter (fun kv => is_key k kv = false) d.

(** [', '.join(raw.keys())]; a key that is not a string raises. *)
Definition join_keys (d : list (pyval * pyval)) : res str :=
  ks ← res_map (fun kv : pyval * pyval =>
         match kv.1 with PStr s => Ok s | _ => raise TypeError end) d;
  Ok (join ", " ks).

(** The table [classes] with its default. *)
Definition classes : list (str * tool_class) :=
  [("edalize" : str, PyModuleToolReq); ("vcs" : str, VcsToolReq);
   ("verible" : str, VeribleToolReq); ("verilator" : str, VerilatorToolReq)].
Definition class_of (t : str) : tool_class :=
  default ToolReq (snd <$> head (filter (fun kv => kv.1 = t) classes)).

(** The text of a [ReqErr]; its path is that of the file. *)
Definition dict_to_tool_req (t : str) (raw : list (pyval * pyval)) : res tool_req :=
  let where_ : str := "Dict for " ++ t ++ " in __TOOL_REQUIREMENTS__" in
  match dict_lookup "min_version" raw with
  | None => Raise ReqErr (where_ ++ " is missing required key: " ++ [DQ] ++ "min_version" ++ [DQ] ++ ".")
  | Some (PStr min_version) =>
      let raw := dict_del "min_version" raw in
      an ← (match dict_lookup "as_needed" raw with
            | None => Ok false
            | Some (PBool b) => Ok b
            | Some _ => Raise ReqErr (where_ ++ " has as_needed that is not a bool.")
            end);
      let raw := dict_del "as_needed" raw in
      match raw with
      | [] => Ok (MkToolReq t min_version an (class_of t))
      | _ => ks ← join_keys raw; Raise ReqErr (where_ ++ " has unexpected keys: " ++ ks ++ ".")
      end
  | Some _ => Raise ReqErr (where_ ++ " has min_version that is not a string.")
  end.

(** [repr] of a key. *)
Definition key_repr (v : pyval) : str :=
  match v with
  | PStr s => py_repr s
  | PBool b => if b then "True" else "False"
  | PDict _ => ""
  | POther r => r
  end.

(** [read_tool_requirements], after the file ran and defined
    [__TOOL_REQUIREMENTS__] (or did not). *)
Definition read_tool_requirements (raw : option pyval) : res (list tool_req) :=
  match raw with
  | None => Raise ReqErr "The Python file at did not define __TOOL_REQUIREMENTS__."
  | Some (PDict items) =>
      res_map (fun kv : pyval * pyval =>
        match kv.1 with
        | PStr t =>
            match kv.2 with
            | PStr v => dict_to_tool_req t [(PStr "min_version", PStr v)]
            | PDict d => dict_to_tool_req t d
            | _ => Raise ReqErr ("Value for " ++ t ++ " in __TOOL_REQUIREMENTS__ is not a string or dict.")
            end
        | k => Raise ReqErr ("Invalid key in __TOOL_REQUIREMENTS__: " ++ key_repr k)
        end) items
  | Some _ => Raise ReqErr "__TOOL_REQUIREMENTS__ is not a dict."
  end.

(** tool_requirements.py *)
Definition TOOL_REQUIREMENTS : pyval := PDict
  [(PStr "verilator", PStr "4.028");
   (PStr "edalize", PStr "0.2.0");
   (PStr "vcs", PDict [(PStr "min_version", PStr "2020.03-SP2"); (PStr "as_needed", PBool true)]);
   (PStr "vivado", PDict [(PStr "min_version", PStr "2020.2"); (PStr "as_needed", PBool true)])].

(** ** Versions *)

Definition RDigit : regex := plus is_digit.
Definition capital (c : ascii) : bool := between 65 90 c.

Definition tool_cmd (r : tool_req) : list str :=
  match cls r with
  | VeribleToolReq => ["verible-verilog-lint" : str; "--version" : str]
  | VcsToolReq => ["vcs" : str; "-full64" : str; "-ID" : str]
  | _ => [tool r; "--version" : str]
  end.
Definition tool_env (r : tool_req) : list (str * str) :=
  match cls r with VcsToolReq => [("VCS_ARCH_OVERRIDE" : str, "linux" : str)] | _ => [] end.
Definition version_regex (r : tool_req) : option regex :=
  match cls r with
  | VcsToolReq => Some (rseq [lit "Compiler version = VCS "; RChr capital; lit "-"; RGrp 1 (star dot)])
  | _ => None
  end.

(** The first line that matches, and its first group. *)
Fixpoint first_match (re : regex) (ls : list str) : option str :=
  match ls with
  | [] => None
  | l :: ls' =>
      match re_match re (rstrip is_space l) with
      | Some m => Some (grp m 1)
      | None => first_match re ls'
      end
  end.

Definition parse_version_output (r : tool_req) (stdout : str) : res str :=
  match version_regex r with
  | None =>
      match last (words (split1 newline stdout).1) with
      | None => Raise ValueError "Empty first line."
      | Some w => Ok w
      end
  | Some re =>
      match first_match re (split newline stdout) with
      | Some v => Ok v
      | None => Raise ValueError "No line matched version regex."
      end
  end.

Definition vcs_regex (from_req : bool) : regex :=
  rseq [RGrp 1 RDigit; RChr dot; RGrp 2 RDigit;
        ROpt (rseq [lit "-SP"; RGrp 3 RDigit]); ROpt (rseq [lit "-"; RGrp 4 RDigit]);
        if from_req then REol else REps].
Definition verible_regex : regex :=
  rseq [lit "v"; RGrp 1 RDigit; lit "."; RGrp 2 RDigit; lit "-"; RGrp 3 RDigit; lit "-g";
        plus (fun c => is_digit c || between 97 102 c); REol].

(** [int(match.group(n) or 0)] *)
Definition group_int (m : rmatch) (n : nat) : res Z :=
  match grp m n with [] => Ok 0 | s => int_of 10 s end.

Definition to_semver (r : tool_req) (version : str) (from_req : bool) : res str :=
  match cls r with
  | VcsToolReq =>
      match re_match (vcs_regex from_req) version with
      | None => Raise ValueError (py_repr version ++ " is not a recognised VCS version string.")
      | Some m =>
          sp ← group_int m 3;
          patch ← group_int m 4;
          Ok (grp m 1 ++ "." ++ grp m 2 ++ str_of_Z (sp * 100 + patch))
      end
  | VeribleToolReq =>
      match re_fullmatch verible_regex version with
      | None => Raise ValueError (version ++ " has invalid version string format.")
      | Some m => Ok (grp m 1 ++ "." ++ grp m 2 ++ "." ++ grp m 3)
      end
  | _ => Ok version
  end.

(** ** Checking *)

(** What running a command gives: its standard output, or the text of the
    [CalledProcessError] or [FileNotFoundError]. *)
Inductive ran := Stdout (s : str) | CalledFailed (err : str) | NotFound (err : str).

Section Check.
Context {V : Type} (Version : str -> res V) (lt : V -> V -> bool).
Context (run : list str -> list (str * str) -> ran).
Context (run_shell : str -> ran).
Context (installed : str -> option str).
Context (quote : str -> str).

Definition get_version (r : tool_req) : res str :=
  match cls r with
  | VerilatorToolReq =>
      match run_shell "verilator --version" with
      | Stdout s =>
          w ← py_nth (split " "%char s) 1;
          Ok (strip w)
      | CalledFailed err => Raise RuntimeError ("Unable to call Verilator to check version: " ++ err)
      | NotFound err => Raise FileNotFoundError err
      end
  | PyModuleToolReq => or_raise PackageNotFoundError (installed (tool r))
  | _ =>
      let cmd_txt := join " " (quote <$> tool_cmd r) in
      match run (tool_cmd r) (tool_env r) with
      | CalledFailed err | NotFound err =>
          let env_msg : str := match tool_env r with
            | [] => ""
            | e => " (with environment overrides: " ++
                   join ", " ((fun kv => kv.1 ++ "=" ++ kv.2) <$> e) ++ ")"
            end in
          Raise RuntimeError ("Failed to run " ++ py_repr cmd_txt ++ env_msg ++ " to check version: " ++ err)
      | Stdout [] => Raise RuntimeError ("No output from running " ++ py_repr cmd_txt ++ " to check version.")
      | Stdout s =>
          match parse_version_output r s with
          | Raise ValueError err =>
              Raise RuntimeError ("Bad output from running " ++ py_repr cmd_txt ++ " to check version: " ++ err)
          | x => x
          end
      end
  end.

(** [check]: (is_good, msg), or an exception it does not catch. *)
Definition check (r : tool_req) : res (bool * str) :=
  match to_semver r (min_version r) true with
  | Raise ValueError err => Ok (false, "Failed to convert requirement to semantic version: " ++ err)
  | Raise c m => Raise c m
  | Ok min_semver =>
      match Version min_semver with
      | Raise ValueError err =>
          Ok (false, "Bad semver inferred from required version (" ++ min_semver ++ "): " ++ err)
      | Raise c m => Raise c m
      | Ok min_sv =>
          match get_version r with
          | Raise RuntimeError err => Ok (false, err)
          | Raise c m => Raise c m
          | Ok actual_version =>
              match to_semver r actual_version false with
              | Raise ValueError err =>
                  Ok (false, "Failed to convert installed to semantic version: " ++ err)
              | Raise c m => Raise c m
              | Ok actual_semver =>
                  match Version actual_semver with
                  | Raise ValueError err =>
                      Ok (false, "Bad semver inferred from installed version (" ++ actual_semver ++ "): " ++ err)
                  | Raise c m => Raise c m
                  | Ok actual_sv =>
                      if lt actual_sv min_sv then
                        Ok (false, "Installed version is too old: found version " ++ actual_version ++
                                   ", but need at least " ++ min_version r)
                      else
                        Ok (true, "Sufficiently recent version (found " ++ actual_version ++
                                  "; needed " ++ min_version r ++ ")")
                  end
              end
          end
      end
  end.

(** The loop of [main]: the tools still pending and the missing ones. *)
Definition main_step (st : gset str * list str) (r : tool_req) : res (gset str * list str) :=
  let '(pending_tools, missing_tools) := st in
  if as_needed r && bool_decide (tool r ∉ pending_tools) then Ok st
  else
    '(good, msg) ← check r;
    Ok (pending_tools ∖ {[tool r]}, if good : bool then missing_tools else missing_tools ++ [tool r]).

(** The exit status of [main]. *)
Definition main (raw : option pyval) (args : list str) : res Z :=
  match read_tool_requirements raw with
  | Raise ReqErr _ => Ok 1
  | Raise c m => Raise c m
  | Ok tool_requirements =>
      '(pending, missing) ← res_fold main_step (list_to_set args, []) tool_requirements;
      Ok (if bool_decide (missing = []) && bool_decide (pending = ∅) then 0 else 1)
  end.
End Check.

(** ** What the check decides *)

(** The two versions parse and the installed one is not older. *)
Definition sufficient {V} (Version : str -> res V) (lt : V -> V -> bool)
    (gv : tool_req -> res str) (r : tool_req) : Prop :=
  exists s m a v w,
    to_semver r (min_version r) true = Ok s /\ Version s = Ok m /\
    gv r = Ok a /\ to_semver r a false = Ok v /\ Version v = Ok w /\ lt w m = false.

Section CheckSpec.
Context {V : Type} (Version : str -> res V) (lt : V -> V -> bool).
Context (run : list str -> list (str * str) -> ran) (run_shell : str -> ran).
Context (installed : str -> option str) (quote : str -> str).
Abbreviation check := (check Version lt run run_shell installed quote).
Abbreviation get_version := (get_version run run_shell installed quote).
Abbreviation main_step := (main_step Version lt run run_shell installed quote).

Lemma check_good (r : tool_req) :
  (exists msg, check r = Ok (true, msg)) <-> sufficient Version lt get_version r.
Proof.
  unfold ToolReq.check, sufficient. split.
  - intros [msg H].
    destruct (to_semver r (min_version r) true) as [s|[]] eqn:E1; try done.
    destruct (Version s) as [m|[]] eqn:E2; try done.
    destruct (get_version r) as [a|[]] eqn:E3; try done.
    destruct (to_semver r a false) as [v|[]] eqn:E4; try done.
    destruct (Version v) as [w|[]] eqn:E5; try done.
    destruct (lt w m) eqn:E6; [done|]. by exists s, m, a, v, w.
  - intros (s & m & a & v & w & -> & -> & -> & -> & -> & ->). eauto.
Qed.

(** The requirements [main] looks at. *)
Definition wanted (P : gset str) (r : tool_req) : Prop := as_needed r = false \/ tool r ∈ P.

Lemma main_step_cases P miss r P' miss' :
  main_step (P, miss) r = Ok (P', miss') ->
  P' = P ∖ {[tool r]} /\
  ((~ wanted P r /\ miss' = miss) \/
   (wanted P r /\ (exists msg, check r = Ok (true, msg)) /\ miss' = miss) \/
   (wanted P r /\ ~ (exists msg, check r = Ok (true, msg)) /\ miss' = miss ++ [tool r])).
Proof.
  unfold ToolReq.main_step, wanted. destruct (as_needed r) eqn:Ha; cbn [andb];
    [destruct (bool_decide (tool r ∉ P)) eqn:Hb|].
  - apply bool_decide_eq_true in Hb. intros [= <- <-]. split; [set_solver|]. left. naive_solver.
  - apply bool_decide_eq_false, dec_stable in Hb.
    destruct (check r) as [[[] msg]|]; cbn; intros [= <- <-]; (split; [done|right]); [left|right];
      naive_solver.
  - destruct (check r) as [[[] msg]|]; cbn; intros [= <- <-]; (split; [done|right]); [left|right];
      naive_solver.
Qed.

Lemma main_fold_missing P miss reqs P' miss' :
  res_fold main_step (P, miss) reqs = Ok (P', miss') -> exists l, miss' = miss ++ l.
Proof.
  revert P miss; induction reqs as [|r reqs IH]; intros P miss; cbn [res_fold].
  - intros [= _ <-]. exists []. by rewrite app_nil_r.
  - destruct (main_step (P, miss) r) as [[P1 m1]|] eqn:E; [|done]. cbn [mbind res_bind].
    intros [l ->]%IH. apply main_step_cases in E as (_ & [[_ ->]|[(_ & _ & ->)|(_ & _ & ->)]]); eauto.
    exists (tool r :: l). by rewrite <-app_assoc.
Qed.

Lemma main_fold_ok P reqs P' :
  NoDup (tool <$> reqs) ->
  res_fold main_step (P, []) reqs = Ok (P', []) <->
  P' = P ∖ list_to_set (tool <$> reqs) /\
  Forall (fun r => wanted P r -> exists msg, check r = Ok (true, msg)) reqs.
Proof.
  revert P; induction reqs as [|r reqs IH]; intros P Hd; cbn [res_fold].
  - split; [intros [= <-]; split; [set_solver|done]|intros [-> _]]. f_equal. f_equal. set_solver.
  - cbn in Hd. apply NoDup_cons in Hd as [Hr Hd].
    assert (forall r', r' ∈ reqs -> wanted P r' <-> wanted (P ∖ {[tool r]}) r') as Hw.
    { intros r' Hr'. unfold wanted. assert (tool r' <> tool r) by (intros E; apply Hr; rewrite <-E;
        by apply list_elem_of_fmap_2). set_solver. }
    rewrite Forall_cons. split.
    + intros H. destruct (main_step (P, []) r) as [[P1 m1]|] eqn:E; [|done]. cbn in H.
      destruct (main_fold_missing _ _ _ _ _ H) as [l Hl]. symmetry in Hl.
      apply app_nil in Hl as [-> ->].
      apply main_step_cases in E as (-> & Hc). apply IH in H as [-> Hall]; [|done].
      split; [set_solver|].
      split; [destruct Hc as [[? _]|[(_ & ? & _)|(_ & _ & ?)]]; done|].
      rewrite Forall_forall in *. intros r' Hr' Hwr. apply Hall; [done|]. by apply Hw.
    + intros (-> & Hh & Hall).
      assert (main_step (P, []) r = Ok (P ∖ {[tool r]}, [])) as ->.
      { unfold ToolReq.main_step, wanted in *. destruct (as_needed r); cbn [andb].
        - case_bool_decide as Hp; [by assert (P ∖ {[tool r]} = P) as -> by set_solver|].
          destruct Hh as [msg ->]; [right; first [done|by apply dec_stable]|done].
        - destruct Hh as [msg ->]; [by left|done]. }
      cbn [mbind res_bind]. apply IH; [done|]. split; [set_solver|].
      rewrite Forall_forall in *. intros r' Hr' Hwr. apply Hall; [done|]. by apply Hw.
Qed.
End CheckSpec.

Lemma dict_to_tool_req_tool t d r : dict_to_tool_req t d = Ok r -> tool r = t.
Proof.
  unfold dict_to_tool_req. destruct (dict_lookup "min_version" d) as [[mv| | |]|]; try done.
  intros H. res_inv. destruct (dict_del "as_needed" _); res_inv; done.
Qed.

Lemma read_tools items reqs :
  read_tool_requirements (Some (PDict items)) = Ok reqs ->
  (fun r => PStr (tool r)) <$> reqs = items.*1.
Proof.
  cbn [read_tool_requirements]. rewrite res_map_ok.
  induction 1 as [|[k v] r items reqs H _ IH]; [done|]. cbn. rewrite IH. f_equal.
  destruct k as [t| | |]; try done. cbn in H. destruct v; try done; by apply dict_to_tool_req_tool in H as ->.
Qed.

(** (safety: the exit status).  [main] reports success exactly when the
    requirements file is read, every tool it requires (always, or because it is
    named on the command line) has a version that parses and is not older than
    required, and every tool named on the command line has a requirement. *)
Theorem main_success {V} (Version : str -> res V) (lt : V -> V -> bool)
    (run : list str -> list (str * str) -> ran) (run_shell : str -> ran)
    (installed : str -> option str) (quote : str -> str)
    (items : list (pyval * pyval)) (args : list str) :
  NoDup items.*1 ->
  main Version lt run run_shell installed quote (Some (PDict items)) args = Ok 0 <->
  exists reqs, read_tool_requirements (Some (PDict items)) = Ok reqs /\
    Forall (fun r => as_needed r = false \/ tool r ∈ args ->
              sufficient Version lt (get_version run run_shell installed quote) r) reqs /\
    Forall (fun t => t ∈ tool <$> reqs) args.
Proof.
  intros Hnd. unfold main.
  destruct (read_tool_requirements (Some (PDict items))) as [reqs|c m] eqn:E.
  2:{ split; [by destruct c|]. by intros (? & ? & _). }
  assert (NoDup (tool <$> reqs)) as Hd.
  { apply (NoDup_fmap_1 PStr). rewrite <-list_fmap_compose. by rewrite <-(read_tools _ _ E) in Hnd. }
  pose proof (main_fold_ok Version lt run run_shell installed quote (list_to_set args) reqs) as Hf.
  set (P := list_to_set args ∖ list_to_set (tool <$> reqs) : gset str).
  assert (P = ∅ <-> Forall (fun t => t ∈ tool <$> reqs) args) as HP.
  { unfold P. rewrite Forall_forall. split; [intros H t Ht|intros H; set_solver].
    destruct (decide (t ∈ tool <$> reqs)); [done|]. set_solver. }
  assert (forall r, wanted (list_to_set args) r <-> as_needed r = false \/ tool r ∈ args) as Hw.
  { intros r. unfold wanted. by rewrite elem_of_list_to_set. }
  assert (forall P', res_fold (main_step Version lt run run_shell installed quote)
                       (list_to_set args, []) reqs = Ok (P', []) <->
    P' = P /\ Forall (fun r => as_needed r = false \/ tool r ∈ args ->
      sufficient Version lt (get_version run run_shell installed quote) r) reqs) as Hf'.
  { intros P'. rewrite (Hf P' Hd). apply and_iff_compat_l. rewrite !Forall_forall.
    split; intros Hall r Hr Hwr; [apply check_good|apply check_good]; apply Hall; try done; by apply Hw. }
  split.
  - destruct (res_fold _ _ reqs) as [[P' missing]|c m]; cbn [mbind res_bind]; [|done].
    case_bool_decide as Hm; [subst missing|done]. case_bool_decide as HP'; [subst P'|done].
    intros _. exists reqs. destruct (proj1 (Hf' ∅) eq_refl) as [HP0 Hall].
    split_and!; [done|done|]. by apply HP.
  - intros (reqs' & [= <-] & Hall & Hargs). rewrite (proj2 (Hf' P) (conj eq_refl Hall)).
    cbn [mbind res_bind]. by rewrite (proj2 HP Hargs).
Qed.

(** ** VCS versions *)

(** A numeral of a release segment. *)
Definition numeral (s : str) : Prop := Forall (fun c => is_digit c = true) s.

(** The requirement of tool_requirements.py for VCS. *)
Definition vcs_req : tool_req := MkToolReq "vcs" "2020.03-SP2" true VcsToolReq.

Lemma vcs_req_read :
  read_tool_requirements (Some TOOL_REQUIREMENTS) =
  Ok [MkToolReq "verilator" "4.028" false VerilatorToolReq;
      MkToolReq "edalize" "0.2.0" false PyModuleToolReq; vcs_req;
      MkToolReq "vivado" "2020.2" true ToolReq].
Proof. by_compute. Qed.

(** (counterexample: VCS ordering).  For any [Version] that reads a release
    of two numbers and compares them numerically, the requirement 2020.03-SP2 of
    tool_requirements.py rejects the newer VCS 2020.12: the service pack is
    appended to the month as digits, which gives 2020.03200 and 2020.120. *)
Theorem vcs_newer_rejected {V} (Version : str -> res V) (lt : V -> V -> bool)
    (run : list str -> list (str * str) -> ran) (run_shell : str -> ran)
    (installed : str -> option str) (quote : str -> str) (rel : Z -> Z -> V) :
  (forall a b x y, numeral a -> numeral b -> int_of 10 a = Ok x -> int_of 10 b = Ok y -> Version (a ++ "." ++ b) = Ok (rel x y)) ->
  (forall x y z, lt (rel x y) (rel x z) = (y <? z)) ->
  run ["vcs" : str; "-full64" : str; "-ID" : str] [("VCS_ARCH_OVERRIDE" : str, "linux" : str)] =
    Stdout ("Compiler version = VCS Q-2020.12" ++ [newline]) ->
  check Version lt run run_shell installed quote vcs_req =
    Ok (false, "Installed version is too old: found version 2020.12, but need at least 2020.03-SP2" : str).
Proof.
  intros HV Hlt Hrun. unfold check.
  change (to_semver vcs_req (min_version vcs_req) true) with (Ok ("2020.03200" : str)).
  cbv iota beta.
  assert (Version ("2020.03200" : str) = Ok (rel 2020 3200)) as ->
    by exact (HV "2020" "03200" 2020 3200 ltac:(repeat constructor) ltac:(repeat constructor)
               eq_refl eq_refl).
  assert (get_version run run_shell installed quote vcs_req = Ok ("2020.12" : str)) as ->.
  { unfold get_version. cbn [cls vcs_req tool_cmd tool_env].
    etransitivity; [rewrite Hrun|]; reflexivity. }
  cbv iota beta. change (to_semver vcs_req "2020.12" false) with (Ok ("2020.120" : str)).
  cbv iota beta.
  assert (Version ("2020.120" : str) = Ok (rel 2020 120)) as ->
    by exact (HV "2020" "120" 2020 120 ltac:(repeat constructor) ltac:(repeat constructor)
               eq_refl eq_refl).
  cbv iota beta. by rewrite Hlt.
Qed.

(** A machine with VCS Q-2020.12 and the tools at the required versions. *)
Definition demo_run (cmd : list str) (env : list (str * str)) : ran :=
  match head cmd with
  | Some c =>
      if bool_decide (c = ("vcs" : str)) then Stdout ("Compiler version = VCS Q-2020.12" ++ [newline])
      else NotFound "no such file"
  | None => NotFound "no such file"
  end.
Definition demo_shell (_ : str) : ran := Stdout "Verilator 4.028 2020-02-06 rev v4.026-92-g890cecc1".
Definition demo_installed (t : str) : option str :=
  if bool_decide (t = ("edalize" : str)) then Some ("0.3" : str) else None.
Definition id_quote (s : str) : str := s.

(** [Version] reads any two numerals around the first point. *)
Definition version2 (s : str) : res (Z * Z) :=
  match split1 "."%char s with
  | (a, Some b) =>
      match int_of 10 a, int_of 10 b with
      | Ok x, Ok y => Ok (x, y)
      | _, _ => Raise ValueError "Invalid version"
      end
  | _ => Raise ValueError "Invalid version"
  end.
Definition version2_lt (v w : Z * Z) : bool := (v.1 <? w.1) || ((v.1 =? w.1) && (v.2 <? w.2)).

Lemma version2_release a b x y :
  numeral a -> numeral b -> int_of 10 a = Ok x -> int_of 10 b = Ok y ->
  version2 (a ++ "." ++ b) = Ok (x, y).
Proof.
  intros Ha Hb Hx Hy. unfold version2. change ("." ++ b) with ("."%char :: b).
  rewrite split1_app; [by rewrite Hx, Hy|].
  intros Hin. unfold numeral in Ha. rewrite Forall_forall in Ha. by specialize (Ha _ Hin).
Qed.

Example vcs_newer_rejected_witness :
  check version2 version2_lt demo_run demo_shell demo_installed id_quote vcs_req =
    Ok (false, "Installed version is too old: found version 2020.12, but need at least 2020.03-SP2" : str).
Proof.
  apply (vcs_newer_rejected version2 version2_lt demo_run demo_shell demo_installed id_quote pair).
  - exact version2_release.
  - intros x y z. unfold version2_lt. cbn. by rewrite Z.ltb_irrefl, Z.eqb_refl.
  - reflexivity.
Defined.

(** With no argument only Verilator and Edalize are asked. *)
Definition repo_items : list (pyval * pyval) :=
  match TOOL_REQUIREMENTS with PDict l => l | _ => [] end.
Definition repo_reqs : list tool_req :=
  match read_tool_requirements (Some TOOL_REQUIREMENTS) with Ok l => l | _ => [] end.

Example main_success_witness :
  NoDup repo_items.*1 /\
  (main version2 version2_lt demo_run demo_shell demo_installed id_quote (Some (PDict repo_items)) [] = Ok 0 <->
   exists reqs, read_tool_requirements (Some (PDict repo_items)) = Ok reqs /\
    Forall (fun r => as_needed r = false \/ tool r ∈ ([] : list str) ->
              sufficient version2 version2_lt (get_version demo_run demo_shell demo_installed id_quote) r) reqs /\
    Forall (fun t => t ∈ tool <$> reqs) ([] : list str)).
Proof.
  assert (NoDup repo_items.*1) as H.
  { unfold repo_items. cbn. repeat constructor; rewrite ?not_elem_of_cons; split_and?;
      try discriminate; apply not_elem_of_nil. }
  split; [exact H|].
  apply (main_success version2 version2_lt demo_run demo_shell demo_installed id_quote repo_items [] H).
Defined.
