(* ===== verification/RvLib.v ===== *)
(** * Instruction text helpers of riscv-dv

    vendor/google_riscv-dv/scripts/lib.py: register names, signed-to-hexadecimal
    conversion and the expansion of pseudo instructions, which the log converters
    of the core_ibex flow use. *)

From S2P Require Import Prelude PyStr PyRe.
From Stdlib Require Import Ascii.
Local Open Scope Z_scope.

(** ** Register names *)

Definition switcher : list (str * str) :=
  [("x0" : str, "zero" : str); ("x1" : str, "ra" : str); ("x2" : str, "sp" : str);
   ("x3" : str, "gp" : str); ("x4" : str, "tp" : str); ("x5" : str, "t0" : str);
   ("x6" : str, "t1" : str); ("x7" : str, "t2" : str); ("x8" : str, "s0" : str);
   ("x9" : str, "s1" : str); ("x10" : str, "a0" : str); ("x11" : str, "a1" : str);
   ("x12" : str, "a2" : str); ("x13" : str, "a3" : str); ("x14" : str, "a4" : str);
   ("x15" : str, "a5" : str); ("x16" : str, "a6" : str); ("x17" : str, "a7" : str);
   ("x18" : str, "s2" : str); ("x19" : str, "s3" : str); ("x20" : str, "s4" : str);
   ("x21" : str, "s5" : str); ("x22" : str, "s6" : str); ("x23" : str, "s7" : str);
   ("x24" : str, "s8" : str); ("x25" : str, "s9" : str); ("x26" : str, "s10" : str);
   ("x27" : str, "s11" : str); ("x28" : str, "t3" : str); ("x29" : str, "t4" : str);
   ("x30" : str, "t5" : str); ("x31" : str, "t6" : str); ("f0" : str, "ft0" : str);
   ("f1" : str, "ft1" : str); ("f2" : str, "ft2" : str); ("f3" : str, "ft3" : str);
   ("f4" : str, "ft4" : str); ("f5" : str, "ft5" : str); ("f6" : str, "ft6" : str);
   ("f7" : str, "ft7" : str); ("f8" : str, "fs0" : str); ("f9" : str, "fs1" : str);
   ("f10" : str, "fa0" : str); ("f11" : str, "fa1" : str); ("f12" : str, "fa2" : str);
   ("f13" : str, "fa3" : str); ("f14" : str, "fa4" : str); ("f15" : str, "fa5" : str);
   ("f16" : str, "fa6" : str); ("f17" : str, "fa7" : str); ("f18" : str, "fs2" : str);
   ("f19" : str, "fs3" : str); ("f20" : str, "fs4" : str); ("f21" : str, "fs5" : str);
   ("f22" : str, "fs6" : str); ("f23" : str, "fs7" : str); ("f24" : str, "fs8" : str);
   ("f25" : str, "fs9" : str); ("f26" : str, "fs10" : str); ("f27" : str, "fs11" : str);
   ("f28" : str, "ft8" : str); ("f29" : str, "ft9" : str); ("f30" : str, "ft10" : str);
   ("f31" : str, "ft11" : str)].

Fixpoint assoc {A} (k : str) (l : list (str * A)) : option A :=
  match l with
  | [] => None
  | (k', v) :: l' => if decide (k' = k) then Some v else assoc k l'
  end.

Definition gpr_to_abi (gpr : str) : str := default ("na" : str) (assoc gpr switcher).

(** ** Signed integers *)

Definition sint_to_hex (val : Z) : str := hex ((val + 2 ^ 32) mod 2 ^ 32).

(** ** Pseudo instructions *)

Definition BASE_RE : regex :=
  let name c := is_digit c || between 97 122 c in
  rseq [RGrp 1 (plus_lazy name); lit ",";
        RGrp 2 (star_lazy (fun c => is_digit c || Ascii.eqb c "-"%char)); lit "(";
        RGrp 3 (plus_lazy name); lit ")"].

(** [o[i]] for [o = operands.split(',')]. *)
Definition operand (operands : str) (i : nat) : res str := py_nth (split ","%char operands) i.

(** [o[0] + ",zero," + o[1]] *)
Definition zero_between (operands : str) : res str :=
  a ← operand operands 0; b ← operand operands 1; Ok (a ++ ",zero," ++ b).
(** [o[1] + "," + o[0] + "," + o[2]] *)
Definition swap_first (operands : str) : res str :=
  b ← operand operands 1; a ← operand operands 0; c ← operand operands 2;
  Ok (b ++ "," ++ a ++ "," ++ c).

(** How a pseudo instruction changes its operands. *)
Inductive action :=
| SetTo (s : str) | Append (s : str) | Prepend (s : str) | ZeroBetween | SwapFirst.

Definition act (a : action) (operands : str) : res str :=
  match a with
  | SetTo s => Ok s
  | Append s => Ok (operands ++ s)
  | Prepend s => Ok (s ++ operands)
  | ZeroBetween => zero_between operands
  | SwapFirst => swap_first operands
  end.

(** The branches up to [j], in order: pseudo instruction, instruction, operands. *)
Definition base_table : list (str * str * action) :=
  [("nop" : str, "addi" : str, SetTo "zero,zero,0");
   ("mv" : str, "addi" : str, Append ",0");
   ("not" : str, "xori" : str, Append ",-1");
   ("neg" : str, "sub" : str, ZeroBetween);
   ("negw" : str, "subw" : str, ZeroBetween);
   ("sext.w" : str, "addiw" : str, Append ",0");
   ("seqz" : str, "sltiu" : str, Append ",1");
   ("snez" : str, "sltu" : str, ZeroBetween);
   ("sltz" : str, "slt" : str, Append ",zero");
   ("sgtz" : str, "slt" : str, ZeroBetween);
   ("beqz" : str, "beq" : str, ZeroBetween);
   ("bnez" : str, "bne" : str, ZeroBetween);
   ("bgez" : str, "bge" : str, ZeroBetween);
   ("bltz" : str, "blt" : str, ZeroBetween);
   ("blez" : str, "bge" : str, Prepend "zero,");
   ("bgtz" : str, "blt" : str, Prepend "zero,");
   ("bgt" : str, "blt" : str, SwapFirst);
   ("ble" : str, "bge" : str, SwapFirst);
   ("bgtu" : str, "bltu" : str, SwapFirst);
   ("bleu" : str, "bgeu" : str, SwapFirst);
   ("csrr" : str, "csrrw" : str, Append ",zero");
   ("csrw" : str, "csrrw" : str, Prepend "zero,");
   ("csrs" : str, "csrrs" : str, Prepend "zero,");
   ("csrc" : str, "csrrc" : str, Prepend "zero,");
   ("csrwi" : str, "csrrwi" : str, Prepend "zero,");
   ("csrsi" : str, "csrrsi" : str, Prepend "zero,");
   ("csrci" : str, "csrrci" : str, Prepend "zero,")].

(** The RV32B branches: each appends its third component. *)
Definition rv32b_table : list (str * str * str) :=
  [("rev.p" : str, "grevi" : str, ",1" : str); ("rev2.n" : str, "grevi" : str, ",2" : str);
   ("rev.n" : str, "grevi" : str, ",3" : str); ("rev4.b" : str, "grevi" : str, ",4" : str);
   ("rev2.b" : str, "grevi" : str, ",6" : str); ("rev.b" : str, "grevi" : str, ",7" : str);
   ("rev8.h" : str, "grevi" : str, ",8" : str);
   ("rev4.h" : str, "grevi" : str, ",12" : str);
   ("rev2.h" : str, "grevi" : str, ",14" : str);
   ("rev.h" : str, "grevi" : str, ",15" : str); ("rev16" : str, "grevi" : str, ",16" : str);
   ("rev8" : str, "grevi" : str, ",24" : str); ("rev4" : str, "grevi" : str, ",28" : str);
   ("rev2" : str, "grevi" : str, ",30" : str); ("rev" : str, "grevi" : str, ",31" : str);
   ("orc.p" : str, "gorci" : str, ",1" : str); ("orc2.n" : str, "gorci" : str, ",2" : str);
   ("orc.n" : str, "gorci" : str, ",3" : str); ("orc4.b" : str, "gorci" : str, ",4" : str);
   ("orc2.b" : str, "gorci" : str, ",6" : str); ("orc.b" : str, "gorci" : str, ",7" : str);
   ("orc8.h" : str, "gorci" : str, ",8" : str);
   ("orc4.h" : str, "gorci" : str, ",12" : str);
   ("orc2.h" : str, "gorci" : str, ",14" : str);
   ("orc.h" : str, "gorci" : str, ",15" : str); ("orc16" : str, "gorci" : str, ",16" : str);
   ("orc8" : str, "gorci" : str, ",24" : str); ("orc4" : str, "gorci" : str, ",28" : str);
   ("orc2" : str, "gorci" : str, ",30" : str); ("orc" : str, "gorci" : str, ",31" : str);
   ("zext.b" : str, "andi" : str, ",255" : str);
   ("zext.h" : str, "pack" : str, ",zero" : str);
   ("zext.w" : str, "pack" : str, ",zero" : str);
   ("sext.w" : str, "addiw" : str, ",0" : str); ("zip.n" : str, "shfli" : str, ",1" : str);
   ("unzip.n" : str, "unshfli" : str, ",1" : str);
   ("zip2.b" : str, "shfli" : str, ",2" : str);
   ("unzip2.b" : str, "unshfli" : str, ",2" : str);
   ("zip.b" : str, "shfli" : str, ",3" : str);
   ("unzip.b" : str, "unshfli" : str, ",3" : str);
   ("zip4.h" : str, "shfli" : str, ",4" : str);
   ("unzip4.h" : str, "unshfli" : str, ",4" : str);
   ("zip2.h" : str, "shfli" : str, ",6" : str);
   ("unzip2.h" : str, "unshfli" : str, ",6" : str);
   ("zip.h" : str, "shfli" : str, ",7" : str);
   ("unzip.h" : str, "unshfli" : str, ",7" : str);
   ("zip8" : str, "shfli" : str, ",8" : str); ("unzip8" : str, "unshfli" : str, ",8" : str);
   ("zip4" : str, "shfli" : str, ",12" : str);
   ("unzip4" : str, "unshfli" : str, ",12" : str);
   ("zip2" : str, "shfli" : str, ",14" : str);
   ("unzip2" : str, "unshfli" : str, ",14" : str);
   ("zip" : str, "shfli" : str, ",15" : str); ("unzip" : str, "unshfli" : str, ",15" : str)].

Definition find3 {A} (k : str) (l : list (str * str * A)) : option (str * A) :=
  (fun x => (x.1.2, x.2)) <$> head (filter (fun x => x.1.1 = k) l).

Definition convert_jalr (operands : str) : str :=
  let operands := match re_search BASE_RE operands with
                  | Some m => grp m 1 ++ "," ++ grp m 3 ++ "," ++ grp m 2
                  | None => operands
                  end in
  if chr_in operands ","%char then operands else "ra," ++ operands ++ ",0".

(** [convert_pseudo_instr]: the instruction and its operands. *)
Definition convert_pseudo_instr (instr_name operands binary : str) : res (str * str) :=
  match find3 instr_name base_table with
  | Some (i, a) => ops ← act a operands; Ok (i, ops)
  | None =>
      if bool_decide (instr_name = ("jr" : str)) then Ok ("jalr" : str, "zero," ++ operands ++ ",0")
      else if bool_decide (instr_name = ("j" : str)) then Ok ("jal" : str, "zero," ++ operands)
      else if bool_decide (instr_name = ("jal" : str)) then
        Ok (instr_name, if chr_in operands ","%char then operands else "ra," ++ operands)
      else if bool_decide (instr_name = ("jalr" : str)) then Ok (instr_name, convert_jalr operands)
      else if bool_decide (instr_name = ("ret" : str)) then
        c ← or_raise IndexError (last binary);
        Ok (if Ascii.eqb c "2" then ("c.jr" : str, "ra" : str) else ("jalr" : str, "zero,ra,0" : str))
      else
        match find3 instr_name rv32b_table with
        | Some (i, suffix) => Ok (i, operands ++ suffix)
        | None => Ok (instr_name, operands)
        end
  end.

(** ** What the conversions preserve *)

Lemma assoc_in {A} (k : str) (v : A) l : assoc k l = Some v -> (k, v) ∈ l.
Proof.
  induction l as [|[k' v'] l IH]; cbn [assoc]; [done|]. case_decide as E.
  - subst. intros [= <-]. left.
  - intros H. right. auto.
Qed.

Lemma nodup_pair_eq (l : list (str * str)) a b c :
  NoDup l.*2 -> (a, c) ∈ l -> (b, c) ∈ l -> a = b.
Proof.
  induction l as [|[k v] l IH]; [by intros _ ?%not_elem_of_nil|]. cbn.
  intros [Hv Hl]%NoDup_cons [[= <- <-]|Ha]%elem_of_cons [[= <-]|Hb]%elem_of_cons; [done| | |auto].
  - destruct Hv. by apply (list_elem_of_fmap_2 snd) in Hb.
  - subst c. destruct Hv. by apply (list_elem_of_fmap_2 snd) in Ha.
Qed.

Lemma switcher_names : bool_decide (NoDup switcher.*2) && negb (bool_decide (("na" : str) ∈ switcher.*2)) = true.
Proof. by_compute. Qed.

(** (functional: register names).  Different registers get different ABI
    names, and every other text gets "na", which is not the name of a
    register. *)
Theorem gpr_to_abi_injective (a b : str) :
  gpr_to_abi a = gpr_to_abi b -> gpr_to_abi a <> ("na" : str) -> a = b.
Proof.
  pose proof switcher_names as H. apply andb_true_iff in H as [Hd Hn].
  apply bool_decide_eq_true in Hd. unfold gpr_to_abi. intros E Hna.
  destruct (assoc a switcher) as [x|] eqn:Ea; [|done].
  destruct (assoc b switcher) as [y|] eqn:Eb; cbn in E, Hna; [|done]. subst y.
  apply assoc_in in Ea, Eb. by eapply nodup_pair_eq.
Qed.

Example gpr_to_abi_injective_witness : gpr_to_abi "x10" = ("a0" : str) /\ ("x10" : str) = "x10".
Proof.
  split; [reflexivity|].
  apply (gpr_to_abi_injective "x10" "x10"); [reflexivity|vm_compute; discriminate].
Defined.

(** The signed value of a 32-bit word. *)
Definition signed32 (w : Z) : Z := if w <? 2 ^ 31 then w else w - 2 ^ 32.

(** (round trip: signed immediates).  Reading the hexadecimal text back as a
    32-bit word and taking its signed value gives the integer it was made of,
    for every integer of 32 bits; larger integers wrap around. *)
Theorem sint_to_hex_roundtrip (v : Z) :
  int_of 16 (sint_to_hex v) = Ok (v mod 2 ^ 32) /\
  (- 2 ^ 31 <= v < 2 ^ 31 -> signed32 (v mod 2 ^ 32) = v).
Proof.
  split.
  - unfold int_of, sint_to_hex. rewrite py_int_hex by (apply Z.mod_pos_bound; lia).
    cbn [or_raise]. f_equal. rewrite <-(Z.mul_1_l (2 ^ 32)) at 1. by rewrite Z.mod_add by lia.
  - intros H. unfold signed32. destruct (Z.ltb_spec (v mod 2 ^ 32) (2 ^ 31)) as [Hs|Hs];
      destruct (Z_lt_le_dec v 0) as [Hn|Hn];
      try (rewrite (Z.mod_small v) in * by lia; lia);
      assert (v mod 2 ^ 32 = v + 2 ^ 32) as E by (symmetry; apply Z.mod_unique with (-1); lia); lia.
Qed.

(** *** The meaning of the converted instructions

    Registers hold 32-bit words; [zero] reads as 0.  [exec] is the result of an
    arithmetic instruction of RV32I on its operands, [branch] the condition and
    target of a branch, after the RISC-V manual. *)

Definition regs := str -> Z.
Definition read (R : regs) (r : str) : Z := if decide (r = ("zero" : str)) then 0 else R r.
Definition wrap (v : Z) : Z := v mod 2 ^ 32.
Definition b2w (b : bool) : Z := if b then 1 else 0.

Definition alu (i : str) : option (Z -> Z -> Z) :=
  assoc i [("addi" : str, fun a b => wrap (a + b)); ("xori" : str, fun a b => Z.lxor a (wrap b));
           ("sub" : str, fun a b => wrap (a - b));
           ("slt" : str, fun a b => b2w (signed32 a <? signed32 b));
           ("sltu" : str, fun a b => b2w (a <? b)); ("sltiu" : str, fun a b => b2w (a <? wrap b))].

(** The second source: an immediate for the [i] instructions. *)
Definition source (i : str) (R : regs) (s : str) : option Z :=
  if bool_decide (i ∈ ["addi" : str; "xori" : str; "sltiu" : str]) then py_int 10 s
  else Some (read R s).

Definition exec (R : regs) (i operands : str) : option (str * Z) :=
  match split ","%char operands with
  | [rd; a; b] => f ← alu i; v ← source i R b; Some (rd, f (read R a) v)
  | _ => None
  end.

(** The manual's meaning of the pseudo instructions with one source. *)
Definition pseudo_meaning : list (str * (Z -> Z)) :=
  [("mv" : str, fun a => a); ("not" : str, fun a => 2 ^ 32 - 1 - a); ("neg" : str, fun a => wrap (- a));
   ("seqz" : str, fun a => b2w (a =? 0)); ("snez" : str, fun a => b2w (negb (a =? 0)));
   ("sltz" : str, fun a => b2w (signed32 a <? 0)); ("sgtz" : str, fun a => b2w (0 <? signed32 a))].

Definition name_ok (s : str) : Prop := ","%char ∉ s.

Lemma split_two a b : name_ok a -> name_ok b -> split ","%char (a ++ "," ++ b) = [a; b].
Proof.
  intros Ha Hb. change ("," ++ b) with (","%char :: b). by rewrite split_app_sep, split_absent.
Qed.
Lemma split_three a b c :
  name_ok a -> name_ok b -> name_ok c -> split ","%char (a ++ "," ++ b ++ "," ++ c) = [a; b; c].
Proof.
  intros Ha Hb Hc. change ("," ++ b ++ "," ++ c) with (","%char :: b ++ "," ++ c).
  rewrite split_app_sep by done. by rewrite split_two.
Qed.

Lemma name_ok_lit (s : str) : forallb (fun c => negb (Ascii.eqb c ",")) s = true -> name_ok s.
Proof.
  rewrite forallb_forall. intros H Hin. apply list_elem_of_In, H in Hin. by rewrite Ascii.eqb_refl in Hin.
Qed.

Lemma append_third rd rs t :
  name_ok rd -> name_ok rs -> name_ok t -> split ","%char ((rd ++ "," ++ rs) ++ "," ++ t) = [rd; rs; t].
Proof. intros. rewrite <-!app_assoc. by apply split_three. Qed.

Lemma lxor_ones a : 0 <= a < 2 ^ 32 -> Z.lxor a (Z.ones 32) = 2 ^ 32 - 1 - a.
Proof.
  intros H. change (2 ^ 32 - 1) with (Z.ones 32).
  assert (Z.ldiff a (Z.ones 32) = 0) as Hz.
  { rewrite Z.ldiff_ones_r by lia. rewrite Z.shiftr_div_pow2 by lia.
    by rewrite Z.div_small, Z.shiftl_0_l by lia. }
  rewrite Z.sub_nocarry_ldiff by done. apply Z.bits_inj'. intros n Hn.
  rewrite Z.lxor_spec, Z.ldiff_spec. pose proof (f_equal (fun z => Z.testbit z n) Hz) as Hb.
  cbv beta in Hb. rewrite Z.ldiff_spec, Z.bits_0 in Hb. by destruct (Z.testbit a n), (Z.testbit (Z.ones 32) n).
Qed.

Lemma word_signed a : 0 <= a < 2 ^ 32 -> a = 0 <-> signed32 a = 0.
Proof. intros H. unfold signed32. destruct (Z.ltb_spec a (2 ^ 31)); lia. Qed.

Lemma convert_in p i a operands binary :
  find3 p base_table = Some (i, a) ->
  convert_pseudo_instr p operands binary = (ops ← act a operands; Ok (i, ops)).
Proof. unfold convert_pseudo_instr. by intros ->. Qed.

Section Rows.
Context (R : regs) (rd rs binary : str) (Hrd : name_ok rd) (Hrs : name_ok rs).

Definition converts_to (p : str) (v : Z) : Prop :=
  exists i ops, convert_pseudo_instr p (rd ++ "," ++ rs) binary = Ok (i, ops) /\
    exec R i ops = Some (rd, v).

Lemma row_append p i t g v w :
  find3 p base_table = Some (i, Append ("," ++ t)) -> alu i = Some g ->
  source i R t = Some v -> name_ok t -> g (read R rs) v = w -> converts_to p w.
Proof.
  intros Hp Hg Hv Ht <-. eexists _, _. split; [by rewrite (convert_in _ _ _ _ _ Hp)|].
  unfold exec. rewrite append_third by done. rewrite Hg. cbn [mbind option_bind]. by rewrite Hv.
Qed.

Lemma row_zero p i g w :
  find3 p base_table = Some (i, ZeroBetween) -> alu i = Some g ->
  source i R rs = Some (read R rs) -> g 0 (read R rs) = w -> converts_to p w.
Proof.
  intros Hp Hg Hv <-. eexists _, _. split.
  - rewrite (convert_in _ _ _ _ _ Hp). cbn [act]. unfold zero_between, operand.
    rewrite split_two by done. reflexivity.
  - unfold exec. change (rd ++ ",zero," ++ rs) with (rd ++ "," ++ ("zero" ++ "," ++ rs)).
    rewrite split_three; [|done|by apply name_ok_lit|done]. rewrite Hg. cbn [mbind option_bind].
    by rewrite Hv.
Qed.
End Rows.

(** (equivalence: pseudo instructions).  The instruction an arithmetic pseudo
    instruction is converted to writes the same register with the value the
    pseudo instruction means, for every register contents. *)
Theorem convert_pseudo_sound (R : regs) (p rd rs binary : str) (f : Z -> Z) :
  (forall r, 0 <= R r < 2 ^ 32) -> name_ok rd -> name_ok rs ->
  (p, f) ∈ pseudo_meaning ->
  exists i ops, convert_pseudo_instr p (rd ++ "," ++ rs) binary = Ok (i, ops) /\
    exec R i ops = Some (rd, f (read R rs)).
Proof.
  intros HR Hrd Hrs. assert (0 <= read R rs < 2 ^ 32) as Hr.
  { unfold read. case_decide; [lia|auto]. }
  unfold pseudo_meaning. rewrite !elem_of_cons.
  intros [[= -> ->]|[[= -> ->]|[[= -> ->]|[[= -> ->]|[[= -> ->]|[[= -> ->]|[[= -> ->]|[]%elem_of_nil]]]]]]].
  - eapply (row_append R rd rs binary Hrd Hrs) with (t := "0"); try reflexivity; [by apply name_ok_lit|].
    unfold wrap. rewrite Z.add_0_r. by apply Z.mod_small.
  - eapply (row_append R rd rs binary Hrd Hrs) with (t := "-1"); try reflexivity; [by apply name_ok_lit|].
    by apply lxor_ones.
  - eapply (row_zero R rd rs binary Hrd Hrs); reflexivity.
  - eapply (row_append R rd rs binary Hrd Hrs) with (t := "1"); try reflexivity; [by apply name_ok_lit|].
    change (b2w (read R rs <? 1) = b2w (read R rs =? 0)). unfold b2w. destruct (Z.ltb_spec (read R rs) 1), (Z.eqb_spec (read R rs) 0); lia.
  - eapply (row_zero R rd rs binary Hrd Hrs); try reflexivity. cbn. unfold b2w.
    destruct (Z.ltb_spec 0 (read R rs)), (Z.eqb_spec (read R rs) 0); cbn; lia.
  - eapply (row_append R rd rs binary Hrd Hrs) with (t := "zero"); try reflexivity. by apply name_ok_lit.
  - eapply (row_zero R rd rs binary Hrd Hrs); reflexivity.
Qed.

Example convert_pseudo_sound_witness :
  exists i ops, convert_pseudo_instr "neg" ("a0" ++ "," ++ "a1") "00000000" = Ok (i, ops) /\
    exec (fun _ => 5) i ops = Some ("a0" : str, 2 ^ 32 - 5).
Proof.
  apply (convert_pseudo_sound (fun _ => 5) "neg" "a0" "a1" "00000000" (fun a => wrap (- a))).
  - intros _. lia.
  - by apply name_ok_lit.
  - by apply name_ok_lit.
  - right; right; left.
Defined.

(** *** Branches *)

Definition conds : list (str * (Z -> Z -> bool)) :=
  [("beq" : str, fun a b => a =? b); ("bne" : str, fun a b => negb (a =? b));
   ("blt" : str, fun a b => signed32 a <? signed32 b); ("bge" : str, fun a b => signed32 b <=? signed32 a);
   ("bltu" : str, fun a b => a <? b); ("bgeu" : str, fun a b => b <=? a)].

(** Whether a branch is taken, and its target operand. *)
Definition branch (R : regs) (i operands : str) : option (bool * str) :=
  match split ","%char operands with
  | [a; b; off] => f ← assoc i conds; Some (f (read R a) (read R b), off)
  | _ => None
  end.

Definition branch1_meaning : list (str * (Z -> bool)) :=
  [("beqz" : str, fun a => a =? 0); ("bnez" : str, fun a => negb (a =? 0));
   ("bgez" : str, fun a => 0 <=? signed32 a); ("bltz" : str, fun a => signed32 a <? 0);
   ("blez" : str, fun a => signed32 a <=? 0); ("bgtz" : str, fun a => 0 <? signed32 a)].
Definition branch2_meaning : list (str * (Z -> Z -> bool)) :=
  [("bgt" : str, fun a b => signed32 b <? signed32 a); ("ble" : str, fun a b => signed32 a <=? signed32 b);
   ("bgtu" : str, fun a b => b <? a); ("bleu" : str, fun a b => a <=? b)].

Section BranchRows.
Context (R : regs) (a b off binary : str) (Ha : name_ok a) (Hb : name_ok b) (Hoff : name_ok off).

Definition branches_to (p operands : str) (taken : bool) : Prop :=
  exists i ops, convert_pseudo_instr p operands binary = Ok (i, ops) /\
    branch R i ops = Some (taken, off).

Lemma branch_row_zero p i f t :
  find3 p base_table = Some (i, ZeroBetween) -> assoc i conds = Some f -> f (read R a) 0 = t ->
  branches_to p (a ++ "," ++ off) t.
Proof.
  intros Hp Hf <-. eexists _, _. split.
  - rewrite (convert_in _ _ _ _ _ Hp). cbn [act]. unfold zero_between, operand.
    rewrite split_two by done. reflexivity.
  - unfold branch. change (a ++ ",zero," ++ off) with (a ++ "," ++ ("zero" ++ "," ++ off)).
    rewrite split_three; [by rewrite Hf|done|by apply name_ok_lit|done].
Qed.

Lemma branch_row_prepend p i f t :
  find3 p base_table = Some (i, Prepend "zero,") -> assoc i conds = Some f -> f 0 (read R a) = t ->
  branches_to p (a ++ "," ++ off) t.
Proof.
  intros Hp Hf <-. eexists _, _. split; [by rewrite (convert_in _ _ _ _ _ Hp)|].
  unfold branch. change ("zero," ++ a ++ "," ++ off) with ("zero" ++ "," ++ (a ++ "," ++ off)).
  rewrite split_three; [by rewrite Hf|by apply name_ok_lit|done|done].
Qed.

Lemma branch_row_swap p i f t :
  find3 p base_table = Some (i, SwapFirst) -> assoc i conds = Some f -> f (read R b) (read R a) = t ->
  branches_to p (a ++ "," ++ b ++ "," ++ off) t.
Proof.
  intros Hp Hf <-. eexists _, _. split.
  - rewrite (convert_in _ _ _ _ _ Hp). cbn [act]. unfold swap_first, operand.
    rewrite split_three by done. reflexivity.
  - unfold branch. rewrite split_three by done. by rewrite Hf.
Qed.
End BranchRows.

(** (equivalence: pseudo branches).  The branch a pseudo branch is converted
    to has the same target and is taken under the same condition. *)
Theorem convert_branch_sound (R : regs) (a b off binary : str) :
  name_ok a -> name_ok b -> name_ok off ->
  (forall p f, (p, f) ∈ branch1_meaning ->
     exists i ops, convert_pseudo_instr p (a ++ "," ++ off) binary = Ok (i, ops) /\
       branch R i ops = Some (f (read R a), off)) /\
  (forall p f, (p, f) ∈ branch2_meaning ->
     exists i ops, convert_pseudo_instr p (a ++ "," ++ b ++ "," ++ off) binary = Ok (i, ops) /\
       branch R i ops = Some (f (read R a) (read R b), off)).
Proof.
  intros Ha Hb Ho. split; intros p f; unfold branch1_meaning, branch2_meaning; rewrite !elem_of_cons.
  - intros [[= -> ->]|[[= -> ->]|[[= -> ->]|[[= -> ->]|[[= -> ->]|[[= -> ->]|[]%elem_of_nil]]]]]];
      first [by eapply branch_row_zero|by eapply branch_row_prepend].
  - intros [[= -> ->]|[[= -> ->]|[[= -> ->]|[[= -> ->]|[]%elem_of_nil]]]];
      by eapply branch_row_swap.
Qed.

Example convert_branch_sound_witness :
  exists i ops, convert_pseudo_instr "blez" ("a0" ++ "," ++ "pc + 8") "0" = Ok (i, ops) /\
    branch (fun _ => 7) i ops = Some (false, "pc + 8" : str).
Proof.
  destruct (convert_branch_sound (fun _ => 7) "a0" "a1" "pc + 8" "0") as [H _];
    [by apply name_ok_lit..|].
  apply (H "blez" (fun a => signed32 a <=? 0)). right; right; right; right; left.
Defined.

(** *** CSR accesses

    The manual's meaning of the CSR instructions on the CSR's value and the
    source register: the value read into the destination, and the new value. *)
Definition csr_exec (i : str) (csr rs : Z) : option (Z * Z) :=
  f ← assoc i [("csrrw" : str, fun (c r : Z) => r); ("csrrs" : str, fun c r => Z.lor c r);
               ("csrrc" : str, fun c r => Z.ldiff c r)];
  Some (csr, f csr rs).

(** (counterexample: reading a CSR).  [csrr rd,csr] is converted to
    [csrrw rd,csr,zero], which reads the same value but clears a CSR that is not
    zero; [csrrs rd,csr,zero] would leave it. *)
Theorem csrr_conversion_writes (rd csr binary : str) (v : Z) :
  convert_pseudo_instr "csrr" (rd ++ "," ++ csr) binary =
    Ok ("csrrw" : str, rd ++ "," ++ csr ++ "," ++ "zero") /\
  csr_exec "csrrw" v 0 = Some (v, 0) /\ csr_exec "csrrs" v 0 = Some (v, v).
Proof.
  split; [|split; [done|];
    change (Some (v, Z.lor v 0) = Some (v, v)); by rewrite Z.lor_0_r].
  change (convert_pseudo_instr "csrr" (rd ++ "," ++ csr) binary)
    with (Ok ("csrrw" : str, (rd ++ "," ++ csr) ++ ",zero")).
  by rewrite <-!app_assoc.
Qed.
