(* ===== verification/TestList.v ===== *)
(** * The regression test list

    [process_regression_list] of vendor/google_riscv-dv/scripts/lib.py,
    [get_test_entry] of dv/uvm/core_ibex/test_entry.py, list_tests.py and the
    TEST.SEED argument of run_rtl.py and compare.py: from the test list in YAML to
    the tests and seeds of a regression and back to a test entry. *)

From S2P Require Import Prelude PyStr PyRe IbexConfig.
From Stdlib Require Import Ascii.
Local Open Scope Z_scope.

(** ** Entries *)

Definition entry := list (str * yval).

(** [d[k]] *)
Definition get (d : entry) (k : str) : res yval := or_raise KeyError (dict_get d k).

(** [d[k] = v]: an existing key keeps its place. *)
Fixpoint set_key (d : entry) (k : str) (v : yval) : entry :=
  match d with
  | [] => [(k, v)]
  | (k', v') :: d' => if decide (k' = k) then (k', v) :: d' else (k', v') :: set_key d' k v
  end.

(** A value in an integer comparison: booleans count as 0 and 1, strings and
    containers raise. *)
Definition as_int (v : yval) : res Z :=
  match v with
  | YScalar (SInt n) => Ok n
  | YScalar (SBool b) => Ok (if b then 1 else 0)
  | _ => raise TypeError
  end.
Definition as_str (v : yval) : res str :=
  match v with YScalar (SStr s) => Ok s | _ => raise TypeError end.

(** [v in l] for a list of strings, and [v == s]. *)
Definition str_is (v : yval) (s : str) : bool :=
  match v with YScalar (SStr t) => bool_decide (t = s) | _ => false end.
Definition str_in (v : yval) (l : list str) : bool := existsb (str_is v) l.

Definition entries_of (v : yval) : res (list entry) :=
  match v with
  | YList l => res_map (fun e => match e with YMap d => Ok d | _ => raise TypeError end) l
  | _ => raise TypeError
  end.

Section TestList.
Context (fs : str -> option str) (yaml_load : str -> res yval).

Definition read_yaml (yaml_file : str) : res yval :=
  f ← or_raise FileNotFoundError (fs yaml_file);
  match yaml_load f with
  | Raise YAMLError _ => raise (SystemExit 1)
  | r => r
  end.

(** The file an [import] entry names: [re.sub] with the directory as the replacement
    string, in which backslashes are special. *)
Definition import_path (riscv_dv_root : str) (v : yval) : res str :=
  root ← sub_template "<riscv_dv_root>" riscv_dv_root;
  p ← as_str v;
  Ok (replace "<riscv_dv_root>" root p).

Example import_path_ex :
  import_path "vendor/riscv-dv" (YScalar (SStr "<riscv_dv_root>/base_testlist.yaml")) =
    Ok ("vendor/riscv-dv/base_testlist.yaml" : str) /\
  import_path "C:\dv" (YScalar (SStr "testlist.yaml")) = raise ReError.
Proof. by split. Qed.

(** One entry that is not an import: what is appended to [matched_list]. *)
Definition match_entry (test : str) (iterations : Z) (e : entry) : res (list entry) :=
  name ← get e "test";
  if str_in name (split ","%char test) || bool_decide (test = ("all" : str)) then
    e ← (if 0 <? iterations then
           v ← get e "iterations";
           n ← as_int v;
           Ok (if 0 <? n then set_key e "iterations" (YScalar (SInt iterations)) else e)
         else Ok e);
    v ← get e "iterations";
    n ← as_int v;
    Ok (if 0 <? n then [e] else [])
  else Ok [].

(** [process_regression_list]; [depth] is the interpreter's recursion limit,
    beyond which [RecursionError], a [RuntimeError], is raised. *)
Fixpoint process_regression_list (depth : nat) (testlist test : str) (iterations : Z)
    (matched_list : list entry) (riscv_dv_root : str) : res (list entry) :=
  match depth with
  | O => raise RuntimeError
  | S depth' =>
      yaml_data ← read_yaml testlist;
      entries ← entries_of yaml_data;
      res_fold (fun matched e =>
        match dict_get e "import" with
        | Some v =>
            sub_list ← import_path riscv_dv_root v;
            process_regression_list depth' sub_list test iterations matched riscv_dv_root
        | None => l ← match_entry test iterations e; Ok (matched ++ l)
        end) matched_list entries
  end.

(** [get_test_entry]: the first entry of that name. *)
Definition has_test_name (testname : str) (e : entry) : bool :=
  match dict_get e "test" with Some v => str_is v testname | None => false end.
Definition get_test_entry (depth : nat) (testlist riscv_dv_root testname : str) : res entry :=
  matched_list ← process_regression_list depth testlist "all" 0 [] riscv_dv_root;
  match head (List.filter (has_test_name testname) matched_list) with
  | Some e => Ok e
  | None => Raise RuntimeError ("No matching test entry for " ++ py_repr testname)
  end.

(** ** Filtering by configuration *)

(** [config_val == v] and [config_val in p_val]. *)
Definition scalar_eq (a : scalar) (v : yval) : bool :=
  match a, v with
  | SStr s, YScalar (SStr t) => bool_decide (s = t)
  | SStr _, _ => false
  | _, YScalar (SStr _) => false
  | x, v => match as_int (YScalar x), as_int v with Ok n, Ok m => n =? m | _, _ => false end
  end.
Definition param_good (config_val : scalar) (p_val : yval) : bool :=
  match p_val with YList l => existsb (scalar_eq config_val) l | v => scalar_eq config_val v end.

(** The inner loop over [rtl_params]. *)
Fixpoint params_good (cfg : str) (c : config) (ps : entry) : res bool :=
  match ps with
  | [] => Ok true
  | (p, p_val) :: ps' =>
      match dict_get c p with
      | None => Raise ValueError ("Parameter " ++ p ++ " not found in config " ++ cfg)
      | Some config_val => if param_good config_val p_val then params_good cfg c ps' else Ok false
      end
  end.

Definition test_good (cfg : str) (c : config) (test : entry) : res bool :=
  match dict_get test "rtl_params" with
  | None => Ok true
  | Some (YMap ps) => params_good cfg c ps
  | Some _ => raise AssertionError
  end.

Definition filter_tests (cfg : str) (c : config) (test_list : list entry) : res (list entry) :=
  res_fold (fun kept t => good ← test_good cfg c t; Ok (if good : bool then kept ++ [t] else kept))
           [] test_list.

Context (set_order : gset str -> list str).

Definition filter_tests_by_config (cfg config_file : str) (test_list : list entry) : res (list entry) :=
  v ← parse_config set_order yaml_load fs cfg config_file;
  c ← to_config v;
  filter_tests cfg c test_list.

(** ** Listing *)

(** The lines of one test. *)
Definition test_lines (start_seed : Z) (test : entry) : res (list str) :=
  nv ← get test "test";
  iv ← get test "iterations";
  name ← (match nv with YScalar (SStr s) => Ok s | _ => raise AssertionError end);
  iterations ← (match iv with
                | YScalar (SInt n) => Ok n
                | YScalar (SBool b) => Ok (if b then 1 else 0)
                | _ => raise AssertionError
                end);
  _ ← py_assert (0 <? iterations);
  Ok ((fun i => name ++ "." ++ str_of_Z (start_seed + i)) <$> seqZ 0 iterations).

(** [main] of list_tests.py: the lines it prints. *)
Definition list_tests (depth : nat) (testlist riscv_dv_root config_file : str)
    (start_seed : Z) (test : str) (iterations : Z) (ibex_config : str) : res (list str) :=
  if iterations <? 0 then Raise RuntimeError "Bad --iterations argument: must be non-negative"
  else if start_seed <? 0 then Raise RuntimeError "Bad --start_seed argument: must be non-negative"
  else
    matched_list ← process_regression_list depth testlist test iterations [] riscv_dv_root;
    match matched_list with
    | [] => Raise RuntimeError ("Cannot find " ++ test ++ " in " ++ testlist)
    | _ =>
        kept ← filter_tests_by_config ibex_config config_file matched_list;
        lines ← res_map (test_lines start_seed) kept;
        Ok (List.concat lines)
    end.
End TestList.

(** ** TEST.SEED *)

Definition not_dot (c : ascii) : bool := negb (Ascii.eqb c ".").
Definition dot_seed_regex : regex :=
  rseq [RGrp 1 (plus not_dot); lit "."; RGrp 2 (plus is_digit); REol].

Definition read_test_dot_seed (arg : str) : res (str * Z) :=
  match re_match dot_seed_regex arg with
  | None => Raise ArgumentTypeError ("Bad --test-dot-seed (" ++ arg ++ "): should be of the form TEST.SEED.")
  | Some m => n ← int_of 10 (grp m 2); Ok (grp m 1, n)
  end.

(** ** TEST.SEED round trip *)

Lemma re_match_rm r s x : rm r (Cur [] s []) Some = Some x -> re_match r s = Some (RMatch [] x s).
Proof. unfold re_match, match_at. by intros ->. Qed.

Lemma dot_seed_match name ds :
  name <> [] -> Forall (fun c => not_dot c = true) name ->
  ds <> [] -> Forall (fun c => is_digit c = true) ds ->
  exists m, re_match dot_seed_regex (name ++ "." ++ ds) = Some m /\ grp m 1 = name /\ grp m 2 = ds.
Proof.
  intros Hn Hname Hd Hds.
  assert (forall l : str, l <> [] -> (1 <= length l)%nat) as Hlen by (intros [|? ?]; [done|cbn; lia]).
  assert (rm dot_seed_regex (Cur [] (name ++ "." ++ ds) []) Some =
          Some (Cur (reverse ds ++ reverse "." ++ reverse name ++ []) [] [(2%nat, ds); (1%nat, name)])) as H.
  { unfold dot_seed_regex. cbn [rseq foldr].
    apply rm_cat, rm_grp_run; [done|reflexivity|by apply Hlen|].
    apply rm_cat. rewrite rm_lit. rewrite <-(app_nil_r ds) at 1.
    apply rm_cat, rm_grp_run; [done|done|by apply Hlen|]. reflexivity. }
  eexists. split; [by apply re_match_rm|done].
Qed.

(** The text of a test and a seed reads back as that test and seed, for every
    name without a dot. *)
Lemma test_dot_seed_roundtrip (name : str) (seed : Z) :
  name <> [] -> "."%char ∉ name -> 0 <= seed ->
  read_test_dot_seed (name ++ "." ++ str_of_Z seed) = Ok (name, seed).
Proof.
  intros Hn Hdot Hs. assert (str_of_Z seed = digits 10 seed) as E.
  { unfold str_of_Z. by rewrite (proj2 (Z.ltb_ge seed 0)). }
  destruct (digits_spec 10 seed ltac:(lia) Hs) as (Hd & _).
  destruct (dot_seed_match name (digits 10 seed)) as (m & Hm & H1 & H2);
    [done| |done|by apply digits10_digit|].
  { apply Forall_forall. intros c Hc. unfold not_dot. apply negb_true_iff.
    apply Ascii.eqb_neq. by intros ->. }
  unfold read_test_dot_seed. rewrite E, Hm, H1, H2, <-E.
  unfold int_of. by rewrite py_int_str_of_Z.
Qed.

(** ** What the test list selects *)

Section Spec.
Context (fs : str -> option str) (yaml_load : str -> res yval).

(** The entries of a list with its imports expanded in place. *)
Fixpoint leaves (depth : nat) (testlist riscv_dv_root : str) : res (list entry) :=
  match depth with
  | O => raise RuntimeError
  | S depth' =>
      yaml_data ← read_yaml fs yaml_load testlist;
      entries ← entries_of yaml_data;
      ls ← res_map (fun e =>
        match dict_get e "import" with
        | Some v => p ← import_path riscv_dv_root v; leaves depth' p riscv_dv_root
        | None => Ok [e]
        end) entries;
      Ok (List.concat ls)
  end.

Lemma res_map_app {A B} (f : A -> res B) l1 l2 k :
  res_map f (l1 ++ l2) = Ok k <->
  exists k1 k2, res_map f l1 = Ok k1 /\ res_map f l2 = Ok k2 /\ k = k1 ++ k2.
Proof.
  rewrite res_map_ok. split.
  - intros (k1 & k2 & H1 & H2 & ->)%Forall2_app_inv_l. exists k1, k2.
    by rewrite !res_map_ok.
  - intros (k1 & k2 & H1 & H2 & ->). rewrite res_map_ok in H1, H2. by apply Forall2_app.
Qed.

(** A loop that appends what [h] makes of the expansion [g] of each element. *)
Lemma fold_expand {A B} (f : list B -> A -> res (list B)) (g : A -> res (list A))
    (h : A -> res (list B)) (es : list A) (acc m' : list B) :
  (forall e acc m1, f acc e = Ok m1 <->
     exists ls ks, g e = Ok ls /\ res_map h ls = Ok ks /\ m1 = acc ++ List.concat ks) ->
  res_fold f acc es = Ok m' <->
  exists lss ks, res_map g es = Ok lss /\ res_map h (List.concat lss) = Ok ks /\
    m' = acc ++ List.concat ks.
Proof.
  intros Hf. revert acc; induction es as [|e es IH]; intros acc; cbn [res_fold res_map].
  - split.
    + intros [= <-]. exists [], []. by rewrite app_nil_r.
    + intros (ls & ks & [= <-] & [= <-] & ->). cbn. by rewrite app_nil_r.
  - split.
    + intros H. destruct (f acc e) as [m1|] eqn:E; [|done]. cbn [mbind res_bind] in H.
      apply Hf in E as (ls & ks & E & Hk & ->). apply IH in H as (lss & ks' & -> & Hk' & ->).
      rewrite E. exists (ls :: lss), (ks ++ ks'). split_and!; [done| |].
      * cbn [List.concat]. apply res_map_app. eauto.
      * by rewrite concat_app, app_assoc.
    + intros (lss & ks & H & Hk & ->). destruct (g e) as [ls|] eqn:E; [|done]. cbn in H.
      destruct (res_map g es) as [lss'|] eqn:E'; [|done]. cbn in H. injection H as <-.
      cbn [List.concat] in Hk. apply res_map_app in Hk as (k1 & k2 & Hk1 & Hk2 & ->).
      rewrite (proj2 (Hf e acc (acc ++ List.concat k1))) by eauto 10. cbn [mbind res_bind].
      apply IH. exists lss', k2. split_and!; [done|done|]. by rewrite concat_app, app_assoc.
Qed.

Lemma process_leaves depth testlist test it matched root m' :
  process_regression_list fs yaml_load depth testlist test it matched root = Ok m' <->
  exists ls ks, leaves depth testlist root = Ok ls /\ res_map (match_entry test it) ls = Ok ks /\
    m' = matched ++ List.concat ks.
Proof.
  revert testlist matched m'; induction depth as [|depth IH]; intros testlist matched m';
    cbn [process_regression_list leaves]; [split; [done|by intros (? & ? & ? & _)]|].
  destruct (read_yaml fs yaml_load testlist) as [v|c m]; cbn [mbind res_bind];
    [|split; [done|by intros (? & ? & ? & _)]].
  destruct (entries_of v) as [es|c m]; cbn [mbind res_bind];
    [|split; [done|by intros (? & ? & ? & _)]].
  rewrite (fold_expand _ (fun e => match dict_get e "import" with
        | Some v => p ← import_path root v; leaves depth p root
        | None => Ok [e]
        end) (match_entry test it)).
  - split.
    + intros (lss & ks & -> & Hk & ->). by exists (List.concat lss), ks.
    + intros (ls & ks & H & Hk & ->). res_inv. by eexists _, ks.
  - clear m'. intros e acc m1. destruct (dict_get e "import") as [iv|].
    + destruct (import_path root iv) as [p|]; cbn [mbind res_bind]; [apply IH|].
      split; [done|by intros (? & ? & ? & _)].
    + destruct (match_entry test it e) as [l|c m] eqn:E; cbn; rewrite ?E.
      * split; [intros [= <-]; exists [e], [l]; cbn; rewrite E, app_nil_r; done|].
        intros (ls & ks & [= <-] & Hk & ->). cbn in Hk. rewrite E in Hk. cbn in Hk.
        injection Hk as <-. cbn. by rewrite app_nil_r.
      * split; [done|]. intros (ls & ks & [= <-] & Hk & _). cbn in Hk. by rewrite E in Hk.
Qed.
End Spec.

(** (functional: the test list).  [process_regression_list] appends, in the
    order of the files with imports expanded in place, one entry for each entry
    whose name is asked for and whose iterations are positive, with the
    iterations replaced when the caller gives a positive number; it raises when
    one of these entries does. *)
Theorem process_regression_list_spec (fs : str -> option str) (yaml_load : str -> res yval)
    (depth : nat) (testlist test : str) (iterations : Z) (matched : list entry) (root : str)
    (m' : list entry) :
  process_regression_list fs yaml_load depth testlist test iterations matched root = Ok m' <->
  exists ls ks, leaves fs yaml_load depth testlist root = Ok ls /\
    Forall2 (fun e k => match_entry test iterations e = Ok k) ls ks /\ m' = matched ++ List.concat ks.
Proof.
  rewrite process_leaves. by setoid_rewrite res_map_ok.
Qed.

(** ** Filtering by configuration *)

(** The test's parameters agree with the configuration. *)
Definition compat (c : config) (t : entry) : bool :=
  match dict_get t "rtl_params" with
  | None => true
  | Some (YMap ps) =>
      forallb (fun kv => match dict_get c kv.1 with
                         | Some v => param_good v kv.2
                         | None => false
                         end) ps
  | Some _ => false
  end.
(** The test's parameters are parameters of the configuration. *)
Definition params_known (c : config) (t : entry) : Prop :=
  match dict_get t "rtl_params" with
  | None => True
  | Some (YMap ps) => Forall (fun kv : str * yval => is_Some (dict_get c kv.1)) ps
  | Some _ => False
  end.

Lemma params_good_compat cfg c ps good :
  params_good cfg c ps = Ok good ->
  good = forallb (fun kv => match dict_get c kv.1 with
                         | Some v => param_good v kv.2
                         | None => false
                         end) ps.
Proof.
  induction ps as [|[p v] ps IH]; cbn [params_good forallb fst snd]; [by intros [= <-]|].
  destruct (dict_get c p) as [cv|]; [|done]. destruct (param_good cv v); [exact IH|by intros [= <-]].
Qed.

Lemma params_good_total cfg c ps :
  Forall (fun kv : str * yval => is_Some (dict_get c kv.1)) ps ->
  exists good, params_good cfg c ps = Ok good.
Proof.
  induction 1 as [|[p v] ps [cv Hc] H IH]; cbn [params_good]; [by eexists|].
  cbn in Hc. rewrite Hc. destruct (param_good cv v); [exact IH|by eexists].
Qed.

Lemma test_good_compat cfg c t good : test_good cfg c t = Ok good -> good = compat c t.
Proof.
  unfold test_good, compat. destruct (dict_get t "rtl_params") as [[| | |ps|]|]; try done.
  - apply params_good_compat.
  - by intros [= <-].
Qed.

Lemma filter_fold cfg c tests acc kept :
  res_fold (fun kept t => good ← test_good cfg c t; Ok (if good : bool then kept ++ [t] else kept))
           acc tests = Ok kept -> kept = acc ++ List.filter (compat c) tests.
Proof.
  revert acc; induction tests as [|t tests IH]; intros acc; cbn [res_fold List.filter].
  - intros [= <-]. by rewrite app_nil_r.
  - destruct (test_good cfg c t) as [good|] eqn:E; [|done]. cbn [mbind res_bind].
    apply test_good_compat in E as <-. intros ->%IH. destruct good; [|done]. by rewrite <-app_assoc.
Qed.

(** (functional: unsupported tests).  The tests kept for a configuration are
    exactly those, in order, whose required parameters all have a permitted
    value in it; the filter cannot fail when the tests name only parameters of
    the configuration. *)
Theorem filter_tests_spec (cfg : str) (c : config) (tests : list entry) :
  (forall kept, filter_tests cfg c tests = Ok kept -> kept = List.filter (compat c) tests) /\
  (Forall (params_known c) tests -> filter_tests cfg c tests = Ok (List.filter (compat c) tests)).
Proof.
  unfold filter_tests. split; [intros kept H; exact (filter_fold _ _ _ [] _ H)|].
  intros H. assert (forall acc, exists kept, res_fold (fun kept t => good ← test_good cfg c t;
      Ok (if good : bool then kept ++ [t] else kept)) acc tests = Ok kept) as Hall.
  2:{ destruct (Hall []) as [kept E]. rewrite E. f_equal. exact (filter_fold _ _ _ [] _ E). }
  induction H as [|t tests Ht H IH]; intros acc; cbn [res_fold]; [by eexists|].
  assert (exists good, test_good cfg c t = Ok good) as [good ->].
  { unfold test_good, params_known in *. destruct (dict_get t "rtl_params") as [[| | |ps|]|]; try done.
    - by apply params_good_total.
    - by eexists. }
  cbn [mbind res_bind]. apply IH.
Qed.

(** ** The lines of a regression *)

Lemma test_lines_in start t ls l :
  test_lines start t = Ok ls -> l ∈ ls ->
  exists name v n k, get t "test" = Ok (YScalar (SStr name)) /\ get t "iterations" = Ok v /\
    as_int v = Ok n /\ 0 <= k < n /\ l = name ++ "." ++ str_of_Z (start + k).
Proof.
  unfold test_lines. intros H Hl.
  destruct (get t "test") as [nv|]; [|done]. destruct (get t "iterations") as [iv|]; [|done].
  cbn [mbind res_bind] in H. destruct nv as [|[name| |]| | |]; try done. cbn [mbind res_bind] in H.
  assert (exists n, as_int iv = Ok n /\
    ls = (fun i => name ++ "." ++ str_of_Z (start + i)) <$> seqZ 0 n) as (n & Hn & ->).
  { destruct iv as [|[|n|b]| | |]; try done; cbn [mbind res_bind] in H;
      (destruct (py_assert _) as [[]|]; [|done]); cbn in H; injection H as <-; by eexists. }
  apply list_elem_of_fmap in Hl as (k & -> & Hk). apply elem_of_seqZ in Hk.
  exists name, iv, n, k. split_and!; try done; lia.
Qed.

(** (round trip: the regression's runs).  Every line list_tests.py prints is
    a run of a selected test compatible with the configuration: it carries the
    test's name and one of its seeds, counted from the start seed, and the
    scripts that get the line as TEST.SEED read both back, provided the name has
    no dot. *)
Theorem list_tests_runs (fs : str -> option str) (yaml_load : str -> res yval)
    (set_order : gset str -> list str) (depth : nat) (testlist root config_file : str)
    (start_seed : Z) (test : str) (iterations : Z) (cfg : str) (lines : list str) (l : str) :
  list_tests fs yaml_load set_order depth testlist root config_file start_seed test iterations cfg
    = Ok lines ->
  l ∈ lines ->
  exists matched v c e name iv n k,
    process_regression_list fs yaml_load depth testlist test iterations [] root = Ok matched /\
    parse_config set_order yaml_load fs cfg config_file = Ok v /\ to_config v = Ok c /\
    e ∈ matched /\ compat c e = true /\
    get e "test" = Ok (YScalar (SStr name)) /\ get e "iterations" = Ok iv /\ as_int iv = Ok n /\
    0 <= k < n /\ l = name ++ "." ++ str_of_Z (start_seed + k) /\
    (name <> [] -> "."%char ∉ name -> read_test_dot_seed l = Ok (name, start_seed + k)).
Proof.
  unfold list_tests. destruct (Z.ltb_spec iterations 0) as [|_]; [done|].
  destruct (Z.ltb_spec start_seed 0) as [|Hstart]; [done|]. intros H Hl.
  destruct (process_regression_list _ _ _ _ _ _ _ _) as [matched|] eqn:Em; [|done].
  cbn [mbind res_bind] in H. destruct matched as [|e0 es]; [done|].
  destruct (filter_tests_by_config _ _ _ _ _ _) as [kept|] eqn:Ek; [|done]. cbn [mbind res_bind] in H.
  destruct (res_map (test_lines start_seed) kept) as [ls|] eqn:El; [|done]. cbn in H.
  injection H as <-. unfold filter_tests_by_config in Ek.
  destruct (parse_config _ _ _ _ _) as [v|] eqn:Ev; [|done]. cbn [mbind res_bind] in Ek.
  destruct (to_config v) as [c|] eqn:Ec; [|done]. cbn [mbind res_bind] in Ek.
  apply (filter_fold cfg c (e0 :: es) []) in Ek. cbn [app] in Ek. subst kept.
  apply res_map_ok in El. apply list_elem_of_In, in_concat in Hl as (ll & Hll & Hl).
  apply list_elem_of_In in Hll, Hl. apply list_elem_of_lookup in Hll as [i Hi].
  destruct (Forall2_lookup_r _ _ _ _ _ El Hi) as (e & He & Hlines).
  apply list_elem_of_lookup_2, list_elem_of_In, filter_In in He as [He Hc].
  destruct (test_lines_in _ _ _ _ Hlines Hl) as (name & iv & n & k & ? & ? & ? & ? & ->).
  exists (e0 :: es), v, c, e, name, iv, n, k. split_and!; try done; try lia.
  - by apply list_elem_of_In.
  - intros. apply test_dot_seed_roundtrip; [done|done|lia].
Qed.

(** A small repository: a list that imports another, and one configuration. *)
Definition demo_test (name : str) (n : Z) (ps : list (str * yval)) : yval :=
  YMap [("test" : str, YScalar (SStr name)); ("iterations" : str, YScalar (SInt n));
        ("rtl_params" : str, YMap ps)].
Definition demo_fs (f : str) : option str := Some f.
Definition demo_yaml (f : str) : res yval :=
  if decide (f = ("testlist.yaml" : str)) then
    Ok (YList [YMap [("import" : str, YScalar (SStr "<riscv_dv_root>/base.yaml"))];
               demo_test "pmp_test" 2 [("PMPEnable" : str, YScalar (SInt 1))]])
  else if decide (f = ("dv/base.yaml" : str)) then Ok (YList [demo_test "basic_test" 2 []])
  else Ok (YMap [("small" : str, YMap [("PMPEnable" : str, YScalar (SInt 0))])]).
Definition no_order (_ : gset str) : list str := [].
Definition demo_lines : list str := ["basic_test.5" : str; "basic_test.6" : str].

Example list_tests_runs_witness :
  list_tests demo_fs demo_yaml no_order 3 "testlist.yaml" "dv" "ibex_configs.yaml" 5 "all" 0 "small"
    = Ok demo_lines /\
  exists matched v c e name iv n k,
    process_regression_list demo_fs demo_yaml 3 "testlist.yaml" "all" 0 [] "dv" = Ok matched /\
    parse_config no_order demo_yaml demo_fs "small" "ibex_configs.yaml" = Ok v /\ to_config v = Ok c /\
    e ∈ matched /\ compat c e = true /\
    get e "test" = Ok (YScalar (SStr name)) /\ get e "iterations" = Ok iv /\ as_int iv = Ok n /\
    0 <= k < n /\ ("basic_test.6" : str) = name ++ "." ++ str_of_Z (5 + k) /\
    (name <> [] -> "."%char ∉ name -> read_test_dot_seed "basic_test.6" = Ok (name, 5 + k)).
Proof.
  split; [vm_compute; reflexivity|].
  apply (list_tests_runs demo_fs demo_yaml no_order 3 "testlist.yaml" "dv" "ibex_configs.yaml" 5 "all"
           0 "small" demo_lines).
  - vm_compute; reflexivity.
  - right; left.
Defined.

Example filter_tests_spec_witness :
  Forall (params_known [("PMPEnable" : str, SInt 0)]) [[("test" : str, YNone)]] /\
  filter_tests "small" [("PMPEnable" : str, SInt 0)] [[("test" : str, YNone)]] =
    Ok (List.filter (compat [("PMPEnable" : str, SInt 0)]) [[("test" : str, YNone)]]).
Proof.
  assert (Forall (params_known [("PMPEnable" : str, SInt 0)]) [[("test" : str, YNone)]]) as H
    by (repeat constructor).
  split; [exact H|].
  apply (filter_tests_spec "small" [("PMPEnable" : str, SInt 0)] [[("test" : str, YNone)]]), H.
Defined.
