(* ===== verification/TestRun.v ===== *)
(** * Test runs: comparing, recording and collecting results

    dv/uvm/core_ibex/compare.py, test_run_result.py and collect_results.py: the
    verdict of one test run, the file it is recorded in, and the summary of a
    regression.  The log checks and converters compare.py calls are an interface
    ([TraceTools]); the file system is an explicit map. *)

From S2P Require Import Prelude PyStr PyRe PyIO PyFloat IbexConfig TestList.
From Stdlib Require Import Ascii.
Local Open Scope Z_scope.

(** ** Results *)

(** [TestRunResult].  [idx] and [seed] are integers in the sense of
    [isinstance]; [None] fields are [None]. *)
Record test_run_result := TestRunResult {
  r_name : str; r_idx : scalar; r_seed : scalar; r_binary : option str;
  r_uvm_log : option str; r_rtl_trace : option str; r_rtl_trace_csv : option str;
  r_iss_trace : option str; r_iss_trace_csv : option str; r_comparison_log : option str;
  r_passed : bool; r_failure_message : option str }.

Definition test_run_result_fields : list str :=
  ["name" : str; "idx" : str; "seed" : str; "binary" : str; "uvm_log" : str; "rtl_trace" : str;
   "rtl_trace_csv" : str; "iss_trace" : str; "iss_trace_csv" : str; "comparison_log" : str;
   "passed" : str; "failure_message" : str].

Definition opt_val (o : option str) : yval :=
  match o with Some s => YScalar (SStr s) | None => YNone end.

(** [result._asdict()] *)
Definition asdict (r : test_run_result) : entry :=
  [("name" : str, YScalar (SStr (r_name r))); ("idx" : str, YScalar (r_idx r));
   ("seed" : str, YScalar (r_seed r)); ("binary" : str, opt_val (r_binary r));
   ("uvm_log" : str, opt_val (r_uvm_log r)); ("rtl_trace" : str, opt_val (r_rtl_trace r));
   ("rtl_trace_csv" : str, opt_val (r_rtl_trace_csv r)); ("iss_trace" : str, opt_val (r_iss_trace r));
   ("iss_trace_csv" : str, opt_val (r_iss_trace_csv r));
   ("comparison_log" : str, opt_val (r_comparison_log r));
   ("passed" : str, YScalar (SBool (r_passed r)));
   ("failure_message" : str, opt_val (r_failure_message r))].

(** The assertions of [check_test_run_result], each giving the typed field. *)
Definition want_str (v : yval) : res str :=
  match v with YScalar (SStr s) => Ok s | _ => raise AssertionError end.
Definition want_int (v : yval) : res scalar :=
  match v with
  | YScalar (SInt n) => Ok (SInt n)
  | YScalar (SBool b) => Ok (SBool b)
  | _ => raise AssertionError
  end.
Definition want_opt_str (v : yval) : res (option str) :=
  match v with
  | YNone => Ok None
  | YScalar (SStr s) => Ok (Some s)
  | _ => raise AssertionError
  end.
Definition want_bool (v : yval) : res bool :=
  match v with YScalar (SBool b) => Ok b | _ => raise AssertionError end.
(** [trr.passed or isinstance(trr.failure_message, str)]: the message of a
    passed test is not looked at; one that is no string is dropped. *)
Definition want_message (passed : bool) (v : yval) : res (option str) :=
  match v with
  | YScalar (SStr s) => Ok (Some s)
  | _ => if passed then Ok None else raise AssertionError
  end.

Definition check_test_run_result (d : entry) : res test_run_result :=
  let f k := default YNone (dict_get d k) in
  name ← want_str (f "name");
  idx ← want_int (f "idx");
  seed ← want_int (f "seed");
  binary ← want_opt_str (f "binary");
  uvm_log ← want_opt_str (f "uvm_log");
  rtl_trace ← want_opt_str (f "rtl_trace");
  rtl_trace_csv ← want_opt_str (f "rtl_trace_csv");
  iss_trace ← want_opt_str (f "iss_trace");
  iss_trace_csv ← want_opt_str (f "iss_trace_csv");
  comparison_log ← want_opt_str (f "comparison_log");
  passed ← want_bool (f "passed");
  failure_message ← want_message passed (f "failure_message");
  Ok (TestRunResult name idx seed binary uvm_log rtl_trace rtl_trace_csv iss_trace
        iss_trace_csv comparison_log passed failure_message).

(** ** The interface to the log checks

    Every operation may fail with an exception and may write files.  The text of
    an [OSError] is its message. *)
Class TraceTools := {
  check_ibex_uvm_log : fsys -> str -> res (bool * list str);
  process_ibex_sim_log : str -> str -> fsys -> res unit * fsys;
  process_spike_sim_log : str -> str -> fsys -> res unit * fsys;
  process_ovpsim_sim_log : str -> str -> fsys -> res unit * fsys;
  compare_trace_csv : str -> str -> str -> str -> str -> entry -> fsys -> res str * fsys }.

(** [except (OSError, RuntimeError)], [except IOError] and the like. *)
Definition is_os_error (c : exc_class) : bool :=
  match c with OSError | FileNotFoundError => true | _ => false end.
Definition is_processing_error (c : exc_class) : bool :=
  is_os_error c || match c with RuntimeError => true | _ => false end.

Section Compare.
Context {tools : TraceTools}.

(** The fields known before anything ran. *)
Definition kv_data (test_name : str) (idx seed : Z) (rtl_log_dir instr_gen_bin_dir : str)
  : test_run_result :=
  TestRunResult test_name (SInt idx) (SInt seed)
    (Some (path_join instr_gen_bin_dir (test_name ++ "_" ++ str_of_Z idx ++ ".o")))
    (Some (path_join rtl_log_dir "sim.log"))
    (Some (path_join rtl_log_dir "trace_core_00000000.log"))
    None None None None false None.

Definition with_failure (r : test_run_result) (msg : str) : test_run_result :=
  TestRunResult (r_name r) (r_idx r) (r_seed r) (r_binary r) (r_uvm_log r) (r_rtl_trace r)
    (r_rtl_trace_csv r) (r_iss_trace r) (r_iss_trace_csv r) (r_comparison_log r)
    (r_passed r) (Some msg).
Definition with_pass (r : test_run_result) : test_run_result :=
  TestRunResult (r_name r) (r_idx r) (r_seed r) (r_binary r) (r_uvm_log r) (r_rtl_trace r)
    (r_rtl_trace_csv r) (r_iss_trace r) (r_iss_trace_csv r) (r_comparison_log r)
    true (r_failure_message r).
Definition with_rtl_csv (r : test_run_result) (p : str) : test_run_result :=
  TestRunResult (r_name r) (r_idx r) (r_seed r) (r_binary r) (r_uvm_log r) (r_rtl_trace r)
    (Some p) (r_iss_trace r) (r_iss_trace_csv r) (r_comparison_log r)
    (r_passed r) (r_failure_message r).
Definition with_iss (r : test_run_result) (log csv : str) : test_run_result :=
  TestRunResult (r_name r) (r_idx r) (r_seed r) (r_binary r) (r_uvm_log r) (r_rtl_trace r)
    (r_rtl_trace_csv r) (Some log) (Some csv) (r_comparison_log r)
    (r_passed r) (r_failure_message r).
Definition with_compare_log (r : test_run_result) (p : str) : test_run_result :=
  TestRunResult (r_name r) (r_idx r) (r_seed r) (r_binary r) (r_uvm_log r) (r_rtl_trace r)
    (r_rtl_trace_csv r) (r_iss_trace r) (r_iss_trace_csv r) (Some p)
    (r_passed r) (r_failure_message r).

(** [test.get('compare_opts', {})], as keyword arguments. *)
Definition compare_opts (test : entry) : res entry :=
  match dict_get test "compare_opts" with
  | None => Ok []
  | Some (YMap opts) => Ok opts
  | Some _ => raise TypeError
  end.

(** The comparison of the two CSV files and its verdict. *)
Definition compare_csvs (test : entry) (kv : test_run_result)
    (rtl_trace_csv iss iss_csv compare_log : str) (fs : fsys) : res test_run_result * fsys :=
  match compare_opts test with
  | Raise c m => (Raise c m, fs)
  | Ok opts =>
      match compare_trace_csv rtl_trace_csv iss_csv "ibex" iss compare_log opts fs with
      | (Raise c m, fs) => (Raise c m, fs)
      | (Ok compare_result, fs) =>
          match fs !! compare_log with
          | None => (Ok (with_failure kv
                (("[FAILED]: Could not read compare log: " : str) ++
                 "[Errno 2] No such file or directory: " ++ py_repr compare_log)), fs)
          | Some contents =>
              if starts_with "[PASSED]: " compare_result then (Ok (with_pass kv), fs)
              else if starts_with "[FAILED]: " compare_result then
                (Ok (with_failure kv ("RTL / ISS trace comparison failed" ++ [newline] ++ contents)), fs)
              else (raise AssertionError, fs)
          end
      end
  end.

(** The ISS half of the run. *)
Definition compare_iss (test : entry) (test_name : str) (idx : Z) (kv : test_run_result)
    (rtl_log_dir rtl_trace_csv iss iss_log_dir : str) (fs : fsys) : res test_run_result * fsys :=
  let base := test_name ++ "." ++ str_of_Z idx in
  let iss_log := path_join iss_log_dir (base ++ ".log") in
  let iss_csv := path_join iss_log_dir (base ++ ".csv") in
  let kv := with_iss kv iss_log iss_csv in
  match (if bool_decide (iss = ("spike" : str)) then process_spike_sim_log iss_log iss_csv fs
         else if bool_decide (iss = ("ovpsim" : str)) then process_ovpsim_sim_log iss_log iss_csv fs
         else (raise AssertionError, fs)) with
  | (Raise c m, fs) =>
      if is_processing_error c then (Ok (with_failure kv ("[FAILED]: Log processing failed: " ++ m)), fs)
      else (Raise c m, fs)
  | (Ok _, fs) =>
      let compare_log := path_join rtl_log_dir "compare.log" in
      compare_csvs test (with_compare_log kv compare_log) rtl_trace_csv iss iss_csv compare_log
        (delete compare_log fs)
  end.

Definition compare_test_run (test : entry) (idx seed : Z)
    (rtl_log_dir iss iss_log_dir instr_gen_bin_dir : str) (fs : fsys) : res test_run_result * fsys :=
  match (v ← get test "test"; want_str v) with
  | Raise c m => (Raise c m, fs)
  | Ok test_name =>
      let kv := kv_data test_name idx seed rtl_log_dir instr_gen_bin_dir in
      let rtl_trace := path_join rtl_log_dir "trace_core_00000000.log" in
      match check_ibex_uvm_log fs (path_join rtl_log_dir "sim.log") with
      | Raise c m =>
          if is_os_error c then
            (Ok (with_failure kv (m ++ [newline] ++ "[FAILED] Could not open simulation log")), fs)
          else (Raise c m, fs)
      | Ok (false, uvm_log_lines) =>
          (Ok (with_failure kv (join [newline] uvm_log_lines ++ [newline] ++ "[FAILED]: sim error seen")), fs)
      | Ok (true, _) =>
          let rtl_trace_csv := path_join rtl_log_dir "trace_core_00000000.csv" in
          let kv := with_rtl_csv kv rtl_trace_csv in
          match process_ibex_sim_log rtl_trace rtl_trace_csv fs with
          | (Raise c m, fs) =>
              if is_processing_error c then
                (Ok (with_failure kv ("[FAILED]: Log processing failed: " ++ m)), fs)
              else (Raise c m, fs)
          | (Ok _, fs) =>
              match (want_bool (default (YScalar (SBool false)) (dict_get test "no_post_compare"))) with
              | Raise c m => (Raise c m, fs)
              | Ok true => (Ok (with_pass kv), fs)
              | Ok false => compare_iss test test_name idx kv rtl_log_dir rtl_trace_csv iss iss_log_dir fs
              end
          end
      end
  end.
End Compare.

(** ** The result file *)

Definition _YAML_MULTILINE_CHARS : str := ["["%char; "]"%char; ":"%char; SQ; DQ; newline].

Definition yaml_format (val : yval) : str :=
  match val with
  | YScalar (SStr s) =>
      if existsb (fun c => chr_in s c) _YAML_MULTILINE_CHARS then
        "|-" ++ [newline] ++ join [newline] ((fun line => "  " ++ line) <$> split newline s)
      else s
  | YNone => ""
  | YScalar s => py_str s
  | v => type_name v
  end.

(** [on_result]: the text written for a result; its values are texts, integers,
    booleans and [None]. *)
Definition on_result (result : test_run_result) : str :=
  let kv := asdict result in
  let klen := foldl (fun n (p : str * yval) => Nat.max n (length p.1)) 1%nat kv in
  List.concat ((fun p : str * yval =>
    p.1 ++ ":" ++ replicate (klen - length p.1) " "%char ++ " " ++ yaml_format p.2 ++ [newline]) <$> kv).

(** [main] of compare.py after argument parsing: it writes the result file and
    returns 0. *)
Definition compare_main {tools : TraceTools} (get_entry : str -> res entry)
    (start_seed : Z) (test_dot_seed : str * Z) (rtl_log_dir iss iss_log_dir instr_gen_bin_dir output : str)
    (fs : fsys) : res Z * fsys :=
  if start_seed <? 0 then (Raise RuntimeError ("Invalid start seed: " ++ str_of_Z start_seed), fs)
  else
    let '(testname, seed) := test_dot_seed in
    if seed <? start_seed then
      (Raise RuntimeError ("Start seed is greater than test seed (" ++ str_of_Z start_seed ++ " > " ++
                           str_of_Z seed ++ ")."), fs)
    else
      match get_entry testname with
      | Raise c m => (Raise c m, fs)
      | Ok e =>
          match compare_test_run e (seed - start_seed) seed rtl_log_dir iss iss_log_dir
                  instr_gen_bin_dir fs with
          | (Raise c m, fs) => (Raise c m, fs)
          | (Ok result, fs) => (Ok 0, <[output := on_result result]> fs)
          end
      end.

(** ** Collecting *)

Section Collect.
Context (yaml_load : str -> res yval).

Definition parse_test_run_result (fs : fsys) (path : str) : res test_run_result :=
  match fs !! path with
  | None => Raise RuntimeError ("Error loading YAML at path " ++ path ++
              ": [Errno 2] No such file or directory: " ++ py_repr path)
  | Some text =>
      match yaml_load text with
      | Raise YAMLError e => Raise RuntimeError ("Error loading YAML at path " ++ path ++ ": " ++ e)
      | Raise c m => Raise c m
      | Ok (YMap d) =>
          if decide (list_to_set d.*1 = (list_to_set test_run_result_fields : gset str)) then
            match check_test_run_result d with
            | Raise AssertionError _ =>
                Raise RuntimeError ("Error loading YAML at path " ++ path ++ ": field types were incorrect")
            | r => r
            end
          else Raise RuntimeError ("Error loading YAML at " ++ path ++
                                   ": does not contain the correct set of fields")
      | Ok _ => raise AttributeError
      end
  end.

Definition build_broken_test_run_result (err : str) : test_run_result :=
  TestRunResult "unknown" (SInt 0) (SInt 0) None None None None None None None false (Some err).

Definition box_comment (line : str) : str :=
  let hr := replicate 80 "#"%char in
  hr ++ [newline] ++ "# " ++ line ++ [newline] ++ hr.

(** *** The percentage, in double precision *)

Definition gen_summary_line (passing_tests failing_tests : list test_run_result) : res str :=
  let p := Z.of_nat (length passing_tests) in
  let total_tests := p + Z.of_nat (length failing_tests) in
  if total_tests =? 0 then raise ZeroDivisionError
  else
    let pass_pct := SFmul (SFdiv (double_of p) (double_of total_tests)) (double_of 100) in
    Ok (fmt_2f pass_pct ++ "% PASS " ++ str_of_Z p ++ " PASSED, " ++
        str_of_Z (Z.of_nat (length failing_tests)) ++ " FAILED").

(** [f'{name}.{seed}'] *)
Definition name_seed (t : test_run_result) : str := r_name t ++ "." ++ py_str (r_seed t).

(** A line for a field that is neither [None] nor empty. *)
Definition info_line (label : str) (o : option str) : list str :=
  match o with Some (c :: s) => [label ++ c :: s] | _ => [] end.

(** [gen_test_run_result_text]; joining [None] raises. *)
Definition gen_test_run_result_text (t : test_run_result) : res str :=
  let info_lines :=
    [name_seed t; replicate (length (name_seed t)) "-"%char] ++
    info_line "Test binary: " (r_binary t) ++ info_line "UVM log: " (r_uvm_log t) ++
    info_line "RTL trace: " (r_rtl_trace t) ++ info_line "ISS trace: " (r_iss_trace t) ++
    info_line "Comparison log: " (r_comparison_log t) in
  if r_passed t then Ok (join [newline] (info_lines ++ ["" : str; "[PASSED]" : str]) ++ [newline])
  else
    msg ← or_raise TypeError (r_failure_message t);
    Ok (join [newline] (info_lines ++ ["" : str; msg]) ++ [newline]).

Definition text_section (title : str) (tests : list test_run_result) : res str :=
  match tests with
  | [] => Ok []
  | _ =>
      ts ← res_map gen_test_run_result_text tests;
      Ok (box_comment title ++ [newline] ++ List.concat ((fun t => t ++ [newline]) <$> ts))
  end.

(** [output_results_text]: the text of regr.log. *)
Definition output_results_text (passing_tests failing_tests : list test_run_result) : res str :=
  f ← text_section "Details of failing tests" failing_tests;
  p ← text_section "Details of passing tests" passing_tests;
  s ← gen_summary_line passing_tests failing_tests;
  Ok (f ++ p ++ [newline] ++ s ++ [newline]).

(** *** JUnit: suites of test cases *)

(** A test case: its name, its standard output and the failures added. *)
Record test_case := TestCase { tc_name : str; tc_stdout : str; tc_failures : list str }.

(** The information gathered for a name: its cases, and the merged texts. *)
Record suite_info := SuiteInfo { unmerged : list test_case; m_stdout : str; m_failures : str }.

Fixpoint add_case (d : list (str * suite_info)) (name : str) (c : test_case) (text : str) (failed : bool)
  : list (str * suite_info) :=
  let extend i := SuiteInfo (unmerged i ++ [c]) (m_stdout i ++ text ++ [newline])
                            (if failed then m_failures i ++ text else m_failures i) in
  match d with
  | [] => [(name, extend (SuiteInfo [] [] []))]
  | (n, i) :: d' => if decide (n = name) then (n, extend i) :: d' else (n, i) :: add_case d' name c text failed
  end.

Definition add_result (d : list (str * suite_info)) (t : test_run_result) : res (list (str * suite_info)) :=
  text ← gen_test_run_result_text t;
  let failed := negb (r_passed t) in
  Ok (add_case d (r_name t) (TestCase (name_seed t) text (if failed then [text] else [])) text failed).

Definition test_suite_info (passing_tests failing_tests : list test_run_result)
  : res (list (str * suite_info)) :=
  res_fold add_result [] (passing_tests ++ failing_tests).

(** The two reports, as suites: the normal one and the merged one. *)
Definition normal_suites (d : list (str * suite_info)) : list (str * list test_case) :=
  (fun p => (p.1, unmerged p.2)) <$> d.
Definition merged_suites (d : list (str * suite_info)) : list (str * list test_case) :=
  (fun p => (p.1, [TestCase p.1 (m_stdout p.2) [m_failures p.2]])) <$> d.

(** The XML writer of the junit_xml package. *)
Context (to_xml_report_string : list (str * list test_case) -> str).

(** The loop over the result files: passing and failing tests. *)
Definition collect_step (fs : fsys) (st : list test_run_result * list test_run_result) (path : str)
  : res (list test_run_result * list test_run_result) :=
  let '(passing, failing) := st in
  match parse_test_run_result fs path with
  | Ok t => Ok (if r_passed t then (passing ++ [t], failing) else (passing, failing ++ [t]))
  | Raise RuntimeError e => Ok (passing, failing ++ [build_broken_test_run_result e])
  | Raise c m => Raise c m
  end.
Definition collect (fs : fsys) (paths : list str)
  : res (list test_run_result * list test_run_result) :=
  res_fold (collect_step fs) ([], []) paths.

(** [main] of collect_results.py: the exit status and the files it writes. *)
Definition collect_main (fs : fsys) (output_dir : str) (paths : list str) : res (Z * fsys) :=
  '(passing, failing) ← collect fs paths;
  log ← output_results_text passing failing;
  d ← test_suite_info passing failing;
  let fs := <[path_join output_dir "regr.log" := log]> fs in
  let fs := <[path_join output_dir "regr_junit.xml" := to_xml_report_string (normal_suites d)]> fs in
  let fs := <[path_join output_dir "regr_junit_merged.xml" := to_xml_report_string (merged_suites d)]> fs in
  Ok (match failing with [] => 0 | _ => 1 end, fs).
End Collect.

(** A test that passed, for examples. *)
Definition passed_run (name : str) (seed : Z) : test_run_result :=
  TestRunResult name (SInt 0) (SInt seed) None None None None None None None true None.

Example gen_summary_ex1 :
  gen_summary_line [passed_run "a" 1; passed_run "a" 2] [passed_run "b" 3] =
  Ok ("66.67% PASS 2 PASSED, 1 FAILED" : str).
Proof. by_compute. Qed.

(** ** Results keep their fields *)

(** The fields of a result: numbers are numbers, and a failed test has a
    message. *)
Definition wf_result (r : test_run_result) : Prop :=
  want_int (YScalar (r_idx r)) = Ok (r_idx r) /\ want_int (YScalar (r_seed r)) = Ok (r_seed r) /\
  (r_passed r = true \/ is_Some (r_failure_message r)).

Lemma want_opt_val o : want_opt_str (opt_val o) = Ok o.
Proof. by destruct o. Qed.

Lemma want_message_ok b o : b = true \/ is_Some o -> want_message b (opt_val o) = Ok o.
Proof. destruct b, o; cbn; try done. by intros [?|[? ?]]. Qed.

(** (round trip: result fields).  The dictionary of a result has exactly the
    fields collect_results.py asks for, and its checks accept it and give the
    result back. *)
Theorem result_fields_roundtrip (r : test_run_result) :
  wf_result r ->
  (asdict r).*1 = test_run_result_fields /\ check_test_run_result (asdict r) = Ok r.
Proof.
  intros (Hi & Hs & Hm). split; [done|].
  destruct r as [name idx seed bin ulog trace csv itrace icsv clog passed msg].
  unfold check_test_run_result.
  assert (forall k v, dict_get (asdict (TestRunResult name idx seed bin ulog trace csv itrace icsv
            clog passed msg)) k = Some v -> default YNone (dict_get (asdict (TestRunResult name idx
            seed bin ulog trace csv itrace icsv clog passed msg)) k) = v) as Hget by (by intros k v ->).
  rewrite (Hget "name" (YScalar (SStr name))), (Hget "idx" (YScalar idx)),
    (Hget "seed" (YScalar seed)), (Hget "binary" (opt_val bin)), (Hget "uvm_log" (opt_val ulog)),
    (Hget "rtl_trace" (opt_val trace)), (Hget "rtl_trace_csv" (opt_val csv)),
    (Hget "iss_trace" (opt_val itrace)), (Hget "iss_trace_csv" (opt_val icsv)),
    (Hget "comparison_log" (opt_val clog)), (Hget "passed" (YScalar (SBool passed))),
    (Hget "failure_message" (opt_val msg)) by reflexivity.
  cbn [r_idx r_seed r_passed r_failure_message] in *.
  cbn [want_str mbind res_bind]. rewrite Hi. cbn [mbind res_bind]. rewrite Hs. cbn [mbind res_bind].
  rewrite !want_opt_val. cbn [want_bool mbind res_bind].
  by rewrite want_message_ok.
Qed.

Example result_fields_roundtrip_witness :
  (asdict (passed_run "riscv_rand_test" 3)).*1 = test_run_result_fields /\
  check_test_run_result (asdict (passed_run "riscv_rand_test" 3)) = Ok (passed_run "riscv_rand_test" 3).
Proof.
  apply (result_fields_roundtrip (passed_run "riscv_rand_test" 3)).
  split; [reflexivity|split; [reflexivity|left; reflexivity]].
Defined.

(** ** The verdict of a run *)

Section Verdict.
Context {tools : TraceTools}.
Context (test : entry) (rtl_log_dir iss iss_log_dir : str).

(** Converting the ISS log. *)
Definition iss_convert (log csv : str) (fs : fsys) : res unit * fsys :=
  if bool_decide (iss = ("spike" : str)) then process_spike_sim_log log csv fs
  else if bool_decide (iss = ("ovpsim" : str)) then process_ovpsim_sim_log log csv fs
  else (raise AssertionError, fs).

(** The comparison of the traces succeeds: the ISS log converts, the comparer
    reports success and has written its log. *)
Definition traces_agree (test_name : str) (idx : Z) (fs : fsys) : Prop :=
  let base := test_name ++ "." ++ str_of_Z idx in
  let csv := path_join iss_log_dir (base ++ ".csv") in
  let log := path_join rtl_log_dir "compare.log" in
  exists fs1 opts verdict fs2,
    iss_convert (path_join iss_log_dir (base ++ ".log")) csv fs = (Ok tt, fs1) /\
    compare_opts test = Ok opts /\
    compare_trace_csv (path_join rtl_log_dir "trace_core_00000000.csv") csv "ibex" iss log opts
      (delete log fs1) = (Ok verdict, fs2) /\
    is_Some (fs2 !! log) /\ starts_with "[PASSED]: " verdict = true.

(** All the stages of a run succeed. *)
Definition run_good (test_name : str) (idx : Z) (fs : fsys) : Prop :=
  exists lines fs1,
    check_ibex_uvm_log fs (path_join rtl_log_dir "sim.log") = Ok (true, lines) /\
    process_ibex_sim_log (path_join rtl_log_dir "trace_core_00000000.log")
      (path_join rtl_log_dir "trace_core_00000000.csv") fs = (Ok tt, fs1) /\
    (dict_get test "no_post_compare" = Some (YScalar (SBool true)) \/
     traces_agree test_name idx fs1).

(** A partial result: an unfinished run of this name, index and seed. *)
Definition unfinished (r : test_run_result) : Prop :=
  want_int (YScalar (r_idx r)) = Ok (r_idx r) /\ want_int (YScalar (r_seed r)) = Ok (r_seed r) /\
  r_passed r = false.

Lemma failure_wf r msg : unfinished r -> wf_result (with_failure r msg) /\ r_passed (with_failure r msg) = false.
Proof. intros (? & ? & ?). unfold wf_result. cbn. split; [split_and!; eauto|done]. Qed.
Lemma pass_wf r : unfinished r -> wf_result (with_pass r) /\ r_passed (with_pass r) = true.
Proof. intros (? & ? & ?). unfold wf_result. cbn. split; [split_and!; eauto|done]. Qed.

(** The shape of the claim about one stage. *)
Definition decides (r : test_run_result) (P : Prop) : Prop :=
  wf_result r /\ (r_passed r = true <-> P).

Lemma decides_failure kv msg (P : Prop) : unfinished kv -> ~ P -> decides (with_failure kv msg) P.
Proof. intros Hu HP. destruct (failure_wf kv msg Hu) as [? E]. split; [done|]. rewrite E. done. Qed.
Lemma decides_pass kv (P : Prop) : unfinished kv -> P -> decides (with_pass kv) P.
Proof. intros Hu HP. destruct (pass_wf kv Hu) as [? E]. split; [done|]. by rewrite E. Qed.

Lemma compare_iss_decides name idx kv fs r fs' :
  unfinished kv ->
  compare_iss test name idx kv rtl_log_dir (path_join rtl_log_dir "trace_core_00000000.csv") iss
    iss_log_dir fs = (Ok r, fs') ->
  decides r (traces_agree name idx fs).
Proof.
  intros Hu. unfold compare_iss, traces_agree. fold (iss_convert
    (path_join iss_log_dir ((name ++ "." ++ str_of_Z idx) ++ ".log"))
    (path_join iss_log_dir ((name ++ "." ++ str_of_Z idx) ++ ".csv")) fs).
  destruct (iss_convert _ _ fs) as [[[]|c m] fs1].
  2:{ destruct (is_processing_error c); [|done]. intros [= <- _].
      apply decides_failure; [done|]. naive_solver. }
  unfold compare_csvs. destruct (compare_opts test) as [opts|]; [|done].
  destruct (compare_trace_csv _ _ _ _ _ _ _) as [[verdict|c m] fs2] eqn:Ev; [|done].
  destruct (fs2 !! path_join rtl_log_dir "compare.log") as [contents|] eqn:El.
  2:{ intros [= <- _]. apply decides_failure; [done|]. intros (? & ? & ? & ? & [= <-] & [= <-] & E & [? Hl] & _).
      rewrite Ev in E. injection E as <- <-. congruence. }
  destruct (starts_with "[PASSED]: " verdict) eqn:Ep.
  - intros [= <- _]. apply decides_pass; [done|]. exists fs1, opts, verdict, fs2. eauto 10.
  - destruct (starts_with "[FAILED]: " verdict); [|done]. intros [= <- _].
    apply decides_failure; [done|]. intros (? & ? & ? & ? & [= <-] & [= <-] & E & _ & Hp).
    rewrite Ev in E. injection E as <- <-. congruence.
Qed.
End Verdict.

(** What a run decides. *)
Lemma compare_test_run_decides {tools : TraceTools} (test : entry) (name : str) (idx seed : Z)
    (rtl_log_dir iss iss_log_dir bin_dir : str) (fs fs' : fsys) (r : test_run_result) :
  get test "test" = Ok (YScalar (SStr name)) ->
  compare_test_run test idx seed rtl_log_dir iss iss_log_dir bin_dir fs = (Ok r, fs') ->
  wf_result r /\ (r_passed r = true <-> run_good test rtl_log_dir iss iss_log_dir name idx fs).
Proof.
  intros Hn. unfold compare_test_run. rewrite Hn. cbn [mbind res_bind want_str].
  set (kv := kv_data name idx seed rtl_log_dir bin_dir).
  assert (unfinished kv) as Hu by done. assert (unfinished (with_rtl_csv kv
    (path_join rtl_log_dir "trace_core_00000000.csv"))) as Hu' by done. unfold run_good.
  destruct (check_ibex_uvm_log fs _) as [[[] lines]|c m] eqn:Eu.
  3:{ destruct (is_os_error c); [|done]. intros [= <- _]. apply decides_failure; [done|]. naive_solver. }
  2:{ intros [= <- _]. apply decides_failure; [done|]. naive_solver. }
  destruct (process_ibex_sim_log _ _ fs) as [[[]|c m] fs1] eqn:Er.
  2:{ destruct (is_processing_error c); [|done]. intros [= <- _].
      apply decides_failure; [done|]. naive_solver. }
  destruct (dict_get test "no_post_compare") as [v|] eqn:En; cbn [default].
  - destruct v as [|[| |[]]| | |]; cbn [want_bool]; try done.
    + intros [= <- _]. apply decides_pass; [done|]. eauto 10.
    + intros Hr. apply compare_iss_decides in Hr as [Hw Hp]; [|done]. split; [done|].
      rewrite Hp. naive_solver.
  - intros Hr. apply compare_iss_decides in Hr as [Hw Hp]; [|done]. split; [done|].
    rewrite Hp. naive_solver.
Qed.

(** C28 (safety: the verdict).  A run that ends without an exception has a
    well-formed result, and the result says "passed" exactly when the UVM log is
    good, the RTL log converts, and, unless the test asks for no comparison, the
    ISS log converts and the comparer reports success and leaves its log. *)
Theorem compare_test_run_verdict {tools : TraceTools} (test : entry) (name : str) (idx seed : Z)
    (rtl_log_dir iss iss_log_dir bin_dir : str) (fs fs' : fsys) (r : test_run_result) :
  get test "test" = Ok (YScalar (SStr name)) ->
  compare_test_run test idx seed rtl_log_dir iss iss_log_dir bin_dir fs = (Ok r, fs') ->
  wf_result r /\ (r_passed r = true <-> run_good test rtl_log_dir iss iss_log_dir name idx fs).
Proof. apply compare_test_run_decides. Qed.

(** Tools that accept everything, for the witness. *)
#[local] Instance demo_tools : TraceTools := {|
  check_ibex_uvm_log := fun _ _ => Ok (true, []);
  process_ibex_sim_log := fun _ csv fs => (Ok tt, <[csv := [] ]> fs);
  process_spike_sim_log := fun _ csv fs => (Ok tt, <[csv := [] ]> fs);
  process_ovpsim_sim_log := fun _ csv fs => (Ok tt, <[csv := [] ]> fs);
  compare_trace_csv := fun _ _ _ _ log _ fs =>
    (Ok ("[PASSED]: 10 matched" : str), <[log := [] ]> fs) |}.
Definition demo_entry : entry := [("test" : str, YScalar (SStr "riscv_rand_test"))].
Definition demo_out : res test_run_result * fsys :=
  compare_test_run (tools := demo_tools) demo_entry 0 5 "rtl" "spike" "iss" "bin" ∅.
Definition demo_result : test_run_result :=
  match demo_out.1 with Ok r => r | Raise _ _ => passed_run "" 0 end.

Example compare_test_run_verdict_witness :
  r_passed demo_result = true /\
  wf_result demo_result /\
  (r_passed demo_result = true <->
   run_good (tools := demo_tools) demo_entry "rtl" "spike" "iss" "riscv_rand_test" 0 ∅).
Proof.
  split; [vm_compute; reflexivity|].
  apply (compare_test_run_verdict (tools := demo_tools) demo_entry "riscv_rand_test" 0 5
           "rtl" "spike" "iss" "bin" ∅ demo_out.2 demo_result); [reflexivity|].
  assert (demo_out.1 = Ok demo_result) as E by (vm_compute; reflexivity).
  change (demo_out = (Ok demo_result, demo_out.2)). rewrite <-E. apply surjective_pairing.
Defined.

(** ** The regression's verdict *)

Section CollectSpec.
Context (yaml_load : str -> res yval) (to_xml_report_string : list (str * list test_case) -> str).

(** What a result file counts as. *)
Definition outcome (fs : fsys) (path : str) : res test_run_result :=
  match parse_test_run_result yaml_load fs path with
  | Raise RuntimeError e => Ok (build_broken_test_run_result e)
  | r => r
  end.

Lemma collect_step_outcome fs P F path :
  collect_step yaml_load fs (P, F) path =
    match outcome fs path with
    | Ok t => Ok (if r_passed t then (P ++ [t], F) else (P, F ++ [t]))
    | Raise c m => Raise c m
    end.
Proof.
  unfold collect_step, outcome. destruct (parse_test_run_result yaml_load fs path) as [t|c e]; [done|].
  by destruct c.
Qed.

Lemma collect_fold fs paths P F P' F' :
  res_fold (collect_step yaml_load fs) (P, F) paths = Ok (P', F') ->
  exists ts, res_map (outcome fs) paths = Ok ts /\
    P' = P ++ List.filter r_passed ts /\
    F' = F ++ List.filter (fun t => negb (r_passed t)) ts.
Proof.
  revert P F; induction paths as [|path paths IH]; intros P F; cbn [res_fold res_map].
  - intros [= <- <-]. exists []. cbn. by rewrite !app_nil_r.
  - rewrite collect_step_outcome. destruct (outcome fs path) as [t|c e] eqn:Eo; [|done].
    cbn [mbind res_bind]. destruct (r_passed t) eqn:Ep; intros (ts & E & -> & ->)%IH;
      rewrite E; exists (t :: ts); cbn; rewrite Ep; cbn; by rewrite <-!app_assoc.
Qed.

(** The result file is read and records a passed test. *)
Definition file_passed (fs : fsys) (path : str) : Prop :=
  exists t, parse_test_run_result yaml_load fs path = Ok t /\ r_passed t = true.

Lemma outcome_passed fs path t :
  outcome fs path = Ok t -> r_passed t = true <-> file_passed fs path.
Proof.
  unfold outcome, file_passed.
  destruct (parse_test_run_result yaml_load fs path) as [t'|c e].
  - intros [= ->]. naive_solver.
  - destruct c; try done. intros [= <-]. cbn. naive_solver.
Qed.

Lemma no_failing fs paths ts :
  res_map (outcome fs) paths = Ok ts ->
  List.filter (fun t => negb (r_passed t)) ts = [] <-> Forall (file_passed fs) paths.
Proof.
  rewrite res_map_ok. induction 1 as [|path t paths ts Ho _ IH]; [done|]. cbn [List.filter].
  rewrite Forall_cons, <-IH. pose proof (outcome_passed _ _ _ Ho).
  destruct (r_passed t); cbn; naive_solver.
Qed.
End CollectSpec.

(** (safety: the regression's exit status).  When collect_results.py ends
    without an exception it was given at least one result file, it counts every
    file once, as passing or as failing (a file that cannot be read counts as
    failing), and its exit status is 0 exactly when every file was read and
    records a passed test. *)
Theorem collect_status (yaml_load : str -> res yval)
    (to_xml : list (str * list test_case) -> str) (fs fs' : fsys) (dir : str)
    (paths : list str) (status : Z) :
  collect_main yaml_load to_xml fs dir paths = Ok (status, fs') ->
  paths <> [] /\
  (exists P F, collect yaml_load fs paths = Ok (P, F) /\ (length P + length F = length paths)%nat /\
     Forall (fun t => r_passed t = true) P /\ Forall (fun t => r_passed t = false) F) /\
  (status = 0 <-> Forall (file_passed yaml_load fs) paths).
Proof.
  unfold collect_main. destruct (collect yaml_load fs paths) as [[P F]|] eqn:Ec; [|done].
  cbn [mbind res_bind]. destruct (output_results_text P F) as [log|] eqn:Elog; [|done].
  destruct (test_suite_info P F) as [d|]; [|done]. cbn [mbind res_bind].
  intros H. injection H as <- _. pose proof Ec as Ef.
  apply collect_fold in Ef as (ts & Hts & EP & EF). cbn [app] in EP, EF.
  pose proof (proj1 (res_map_ok _ _ _) Hts) as Hlen. apply Forall2_length in Hlen.
  split_and!.
  - intros ->. cbn in Hts. injection Hts as <-. cbn in EP, EF. subst. by vm_compute in Elog.
  - exists P, F. split_and!; [done| | |].
    + rewrite Hlen, EP, EF. clear. induction ts as [|t ts IH]; [done|]. cbn.
      destruct (r_passed t); cbn; lia.
    + rewrite EP. apply Forall_forall. by intros t [_ ?]%list_elem_of_In%filter_In.
    + rewrite EF. apply Forall_forall. by intros t [_ ?%negb_true_iff]%list_elem_of_In%filter_In.
  - rewrite <-(no_failing _ _ _ _ Hts), <-EF. by destruct F.
Qed.

(** One passing result file, as on_result writes it. *)
Definition demo_files : fsys := {[ ("r.yaml" : str) := on_result (passed_run "riscv_rand_test" 3) ]}.
Definition demo_loader (_ : str) : res yval := Ok (YMap (asdict (passed_run "riscv_rand_test" 3))).
Definition demo_xml (_ : list (str * list test_case)) : str := "".
Definition demo_collect : res (Z * fsys) :=
  collect_main demo_loader demo_xml demo_files "out" ["r.yaml" : str].
Definition demo_status : Z * fsys := match demo_collect with Ok x => x | Raise _ _ => (2, ∅) end.

Example collect_status_witness :
  demo_status.1 = 0 /\ ["r.yaml" : str] <> [] /\
  (exists P F, collect demo_loader demo_files ["r.yaml" : str] = Ok (P, F) /\
     (length P + length F = length ["r.yaml" : str])%nat /\
     Forall (fun t => r_passed t = true) P /\ Forall (fun t => r_passed t = false) F) /\
  (demo_status.1 = 0 <-> Forall (file_passed demo_loader demo_files) ["r.yaml" : str]).
Proof.
  split; [vm_compute; reflexivity|].
  apply (collect_status demo_loader demo_xml demo_files demo_status.2 "out" ["r.yaml" : str]).
  assert (is_ok demo_collect = true) as E by (vm_compute; reflexivity).
  change (demo_collect = Ok (demo_status.1, demo_status.2)). unfold demo_status. revert E.
  destruct demo_collect as [[? ?]|]; [reflexivity|discriminate].
Defined.

(** ** The JUnit suites *)

(** The text and the case of a result whose text can be built. *)
Definition text_of (t : test_run_result) : str :=
  match gen_test_run_result_text t with Ok s => s | Raise _ _ => [] end.
Definition case_of (t : test_run_result) : test_case :=
  TestCase (name_seed t) (text_of t) (if r_passed t then [] else [text_of t]).

(** The information of a name whose runs are [l], and after the tests [ts]. *)
Definition merge (l : list test_run_result) : suite_info :=
  SuiteInfo (case_of <$> l) (List.concat ((fun t => text_of t ++ [newline]) <$> l))
            (List.concat (text_of <$> List.filter (fun t => negb (r_passed t)) l)).
Definition runs_of (ts : list test_run_result) (name : str) : list test_run_result :=
  List.filter (fun t => bool_decide (r_name t = name)) ts.
Definition info_of (ts : list test_run_result) (name : str) : option suite_info :=
  if decide (runs_of ts name = []) then None else Some (merge (runs_of ts name)).

Definition extend (i : suite_info) (c : test_case) (text : str) (failed : bool) : suite_info :=
  SuiteInfo (unmerged i ++ [c]) (m_stdout i ++ text ++ [newline])
            (if failed then m_failures i ++ text else m_failures i).

Lemma add_case_lookup d name c text failed n :
  dict_get (add_case d name c text failed) n =
    if decide (n = name) then Some (extend (default (SuiteInfo [] [] []) (dict_get d name)) c text failed)
    else dict_get d n.
Proof.
  induction d as [|[n' i] d IH]; cbn [add_case dict_get].
  - case_decide as E1; case_decide as E2; try congruence; done.
  - destruct (decide (n' = name)) as [->|Hn]; cbn [dict_get].
    + case_decide as E1; case_decide as E2; try congruence; try done.
    + rewrite IH. destruct (decide (n = name)) as [->|Hn2]; [|done].
      by rewrite decide_False by done.
Qed.

Lemma merge_snoc l t :
  merge (l ++ [t]) = extend (merge l) (case_of t) (text_of t) (negb (r_passed t)).
Proof.
  unfold merge, extend; cbn [unmerged m_stdout m_failures].
  rewrite !fmap_app, !concat_app, List.filter_app, fmap_app, concat_app.
  cbn [fmap list_fmap List.concat]. rewrite !app_nil_r.
  cbn [List.filter]. destruct (r_passed t); cbn; by rewrite ?app_nil_r.
Qed.

Lemma default_info ts n : default (SuiteInfo [] [] []) (info_of ts n) = merge (runs_of ts n).
Proof. unfold info_of. case_decide as E; [by rewrite E|done]. Qed.

Lemma runs_of_snoc ts t n :
  runs_of (ts ++ [t]) n = runs_of ts n ++ (if decide (n = r_name t) then [t] else []).
Proof.
  unfold runs_of. rewrite List.filter_app. cbn [List.filter]. f_equal.
  case_decide as E; [by rewrite bool_decide_eq_true_2|by rewrite bool_decide_eq_false_2 by congruence].
Qed.

Lemma info_of_snoc ts t n :
  info_of (ts ++ [t]) n =
    if decide (n = r_name t) then
      Some (extend (default (SuiteInfo [] [] []) (info_of ts (r_name t))) (case_of t) (text_of t)
                   (negb (r_passed t)))
    else info_of ts n.
Proof.
  unfold info_of at 1. rewrite runs_of_snoc. destruct (decide (n = r_name t)) as [->|Hn].
  - rewrite default_info, <-merge_snoc. rewrite decide_False; [done|]. by intros [_ ?]%app_nil.
  - by rewrite app_nil_r.
Qed.

Lemma suites_fold d ts us d' :
  (forall n, dict_get d n = info_of ts n) ->
  res_fold add_result d us = Ok d' -> forall n, dict_get d' n = info_of (ts ++ us) n.
Proof.
  revert d ts; induction us as [|t us IH]; intros d ts Hd; cbn [res_fold].
  - intros [= <-]. by rewrite app_nil_r.
  - destruct (add_result d t) as [d1|] eqn:E; [|done]. cbn [mbind res_bind].
    replace (ts ++ t :: us) with ((ts ++ [t]) ++ us) by by rewrite <-app_assoc.
    apply IH. intros n. rewrite info_of_snoc. unfold add_result in E.
    destruct (gen_test_run_result_text t) as [text|] eqn:Et; [|done]. cbn in E. injection E as <-.
    rewrite add_case_lookup, !Hd. unfold case_of, text_of. rewrite Et.
    case_decide; [|done]. by destruct (r_passed t).
Qed.

Lemma add_case_names d name c text failed :
  NoDup d.*1 -> NoDup (add_case d name c text failed).*1 /\
  forall n, n ∈ (add_case d name c text failed).*1 <-> n = name \/ n ∈ d.*1.
Proof.
  induction d as [|[n' i] d IH]; intros Hd; cbn [add_case].
  - cbn. split; [repeat constructor; apply not_elem_of_nil|]. intros n. by rewrite elem_of_cons.
  - cbn in Hd. apply NoDup_cons in Hd as [Hn Hd]. destruct (IH Hd) as [IH1 IH2].
    case_decide as E; cbn.
    + subst n'. split; [by constructor|]. intros n. rewrite elem_of_cons. tauto.
    + split; [|intros n; rewrite !elem_of_cons, IH2; tauto].
      constructor; [|done]. rewrite IH2. by intros [->|?].
Qed.

(** (functional: the JUnit reports).  The normal report has one suite per
    test name, without repetition, and the suite holds one case for each run of
    that name, in order, with the run's text, as a failure too when the run
    failed; the merged report has one case per name with the texts of its runs
    put together. *)
Theorem junit_suites (P F : list test_run_result) (d : list (str * suite_info)) :
  test_suite_info P F = Ok d ->
  NoDup d.*1 /\
  (forall n, dict_get d n = info_of (P ++ F) n) /\
  Forall (fun t => r_name t ∈ d.*1) (P ++ F).
Proof.
  unfold test_suite_info. intros H. split; [|split].
  - revert H. assert (NoDup ([] : list (str * suite_info)).*1) as Hnil by constructor.
    revert Hnil. generalize ([] : list (str * suite_info)). generalize (P ++ F).
    induction l as [|t l IH]; intros d0 Hd; cbn [res_fold]; [by intros [= <-]|].
    destruct (add_result d0 t) as [d1|] eqn:E; [|done]. cbn [mbind res_bind]. apply IH.
    unfold add_result in E. destruct (gen_test_run_result_text t); [|done]. cbn in E.
    injection E as <-. by apply add_case_names.
  - exact (suites_fold [] [] (P ++ F) d (fun _ => eq_refl) H).
  - apply Forall_forall. intros t Ht.
    pose proof (suites_fold [] [] (P ++ F) d (fun _ => eq_refl) H (r_name t)) as E. cbn [app] in E.
    assert (is_Some (info_of (P ++ F) (r_name t))) as [i Hi].
    { unfold info_of. rewrite decide_False; [by eexists|]. intros En.
      assert (In t (runs_of (P ++ F) (r_name t))) as Hin; [|by rewrite En in Hin].
      apply filter_In. split; [by apply list_elem_of_In|by apply bool_decide_eq_true_2]. }
    rewrite Hi in E. apply dict_get_in in E. by apply (list_elem_of_fmap_2 fst) in E.
Qed.

Example junit_suites_witness :
  exists d, test_suite_info [passed_run "a" 1; passed_run "b" 2] [build_broken_test_run_result "no file"] = Ok d /\
  NoDup d.*1 /\
  (forall n, dict_get d n = info_of ([passed_run "a" 1; passed_run "b" 2] ++ [build_broken_test_run_result "no file"]) n) /\
  Forall (fun t => r_name t ∈ d.*1) ([passed_run "a" 1; passed_run "b" 2] ++ [build_broken_test_run_result "no file"]).
Proof.
  eexists. split; [vm_compute; reflexivity|].
  apply (junit_suites [passed_run "a" 1; passed_run "b" 2] [build_broken_test_run_result "no file"]).
  vm_compute; reflexivity.
Defined.
