(* ===== verification/SimCmd.v ===== *)
(** * Simulator commands

    dv/uvm/core_ibex: sim_cmd.py (the commands of a simulator with their options
    and environment variables filled in), run_rtl.py (the command of one test),
    sim.py (compiling the testbench and merging coverage) and
    sim_makefrag_gen.py (the makefile fragment of a configuration, through
    util/ibex_config.py). *)

From S2P Require Import Prelude PyStr PyRe PyIO PyArgparse IbexConfig TestList TestRun.
From Stdlib Require Import Ascii.
Local Open Scope Z_scope.

(** ** sim_cmd.py *)

Definition needle (name : str) : str := "<" ++ name ++ ">".

(** [subst_opt]: [string.replace] checks the type of its argument even where
    there is nothing to replace. *)
Definition subst_opt (string name : str) (enable : bool) (replacement : yval) : res str :=
  if enable then
    match replacement with
    | YNone =>
        if contains (needle name) string
        then Raise RuntimeError ("No replacement defined for " ++ needle name ++
                                 " (used in string: " ++ py_repr string ++ ").")
        else Ok string
    | v => r ← as_str v; Ok (replace (needle name) r string)
    end
  else Ok (replace (needle name) [] string).

Section Command.
Context (environ : str -> option str).

Definition subst_env_var (string env_var : str) : res str :=
  let env_var := strip env_var in
  if contains (needle env_var) string then
    match environ env_var with
    | None => Raise RuntimeError ("Cannot substitute " ++ needle env_var ++
                                  " in command because the environment variable $" ++
                                  env_var ++ " is not set.")
    | Some value => Ok (replace (needle env_var) value string)
    end
  else Ok string.

Definition subst_env_vars (string env_vars : str) : res str :=
  match strip env_vars with
  | [] => Ok string
  | vars => res_fold subst_env_var string (split ","%char vars)
  end.

(** An attribute of a string: another object has no such method. *)
Definition as_attr_str (v : yval) : res str :=
  match v with YScalar (SStr s) => Ok s | _ => raise AttributeError end.

(** [enable_dict] is a dict of booleans in order, [opts_dict] one of any values. *)
Definition subst_cmd (cmd : str) (enable_dict : list (str * bool)) (opts_dict : entry)
    (env_vars : yval) : res str :=
  cmd ← res_fold (fun cmd (kv : str * bool) =>
          subst_opt cmd kv.1 kv.2 (default YNone (dict_get opts_dict kv.1))) cmd enable_dict;
  vars ← as_attr_str env_vars;
  cmd ← subst_env_vars cmd vars;
  Ok (replace [newline] " " cmd).

Context (fs : str -> option str) (yaml_load : str -> res yval).

(** [for x in v]: a string yields its characters, a mapping its keys. *)
Definition iter_of (v : yval) : res (list yval) :=
  match v with
  | YList l => Ok l
  | YMap d => Ok ((fun k => YScalar (SStr k)) <$> d.*1)
  | YScalar (SStr s) => Ok ((fun c => YScalar (SStr [c])) <$> s)
  | _ => raise TypeError
  end.

(** The first entry for [simulator]. *)
Fixpoint find_tool (simulator : str) (entries : list yval) : res entry :=
  match entries with
  | [] => Raise RuntimeError ("Cannot find RTL simulator " ++ simulator)
  | YMap e :: entries' =>
      if str_is (default YNone (dict_get e "tool")) simulator then Ok e
      else find_tool simulator entries'
  | _ :: _ => raise AttributeError
  end.

Definition get_yaml_for_simulator (simulator yaml_path : str) : res entry :=
  data ← read_yaml fs yaml_load yaml_path;
  entries ← iter_of data;
  find_tool simulator entries.

Definition as_map (v : yval) : res entry :=
  match v with YMap d => Ok d | _ => raise TypeError end.

(** The value of an optional key read with a string default. *)
Definition env_var_of (e : entry) : yval := default (YScalar (SStr [])) (dict_get e "env_var").

(** Substituting in one command of the file, which has to be a string. *)
Definition subst_cmd_value (cmd : yval) (enables : list (str * bool)) (opts : entry) (env_vars : yval)
  : res str :=
  c ← as_attr_str cmd;
  subst_cmd c enables opts env_vars.

Definition get_simulator_cmd (simulator yaml_path : str) (enables : list (str * bool))
  : res (list str * str) :=
  e ← get_yaml_for_simulator simulator yaml_path;
  let env_vars := env_var_of e in
  compile ← (get e "compile" ≫= as_map);
  cmds ← (get compile "cmd" ≫= iter_of);
  compile_cmds ← res_map (fun arg => subst_cmd_value arg enables compile env_vars) cmds;
  sim ← (get e "sim" ≫= as_map);
  cmd ← get sim "cmd";
  sim_cmd ← subst_cmd_value cmd enables sim env_vars;
  Ok (compile_cmds, sim_cmd).

(** ** run_rtl.py *)

Definition subst_vars (string : str) (var_dict : list (str * str)) : str :=
  foldl (fun s (kv : str * str) => replace (needle kv.1) kv.2 s) string var_dict.

Definition test_binary (bin_dir test_name : str) (idx : Z) : str :=
  path_join bin_dir (test_name ++ "_" ++ str_of_Z idx ++ ".bin").

(** The substitutions that depend on the test and its iteration. *)
Definition test_vars (sim_dir rtl_test binary test_name : str) (idx : Z) : list (str * str) :=
  [("sim_dir" : str, sim_dir); ("rtl_test" : str, rtl_test); ("binary" : str, binary);
   ("test_name" : str, test_name); ("iteration" : str, str_of_Z idx)].

Definition get_test_sim_cmd (exists_file : str -> bool) (base_cmd : str) (test : entry)
    (idx seed : Z) (sim_dir bin_dir : str) (lsf_cmd : option str) : res str :=
  let it_cmd := subst_vars base_cmd [("seed" : str, str_of_Z seed)] in
  sim_cmd ← (match dict_get test "sim_opts" with
             | Some v => s ← as_attr_str v; Ok (it_cmd ++ " " ++ replace [newline] " " s)
             | None => Ok it_cmd
             end);
  v_name ← get test "test";
  v_rtl ← get test "rtl_test";
  rtl_test ← as_str v_rtl;
  test_name ← as_str v_name;
  let binary := test_binary bin_dir test_name idx in
  let sim_cmd := subst_vars sim_cmd (test_vars sim_dir rtl_test binary test_name idx) in
  if exists_file binary then
    Ok (match lsf_cmd with Some l => l ++ " " ++ sim_cmd | None => sim_cmd end)
  else Raise RuntimeError ("When computing simulation command for running iteration " ++
         str_of_Z idx ++ " of test " ++ test_name ++ ", cannot find the expected binary at " ++
         py_repr binary ++ ".").

(** [main] after argument parsing: the command given to the shell and the log
    file that takes its output; the exit status is 0 whatever the command does. *)
Definition run_rtl_main (exists_file : str -> bool) (get_entry : str -> res entry)
    (core_ibex simulator simulator_yaml : str) (en_cov en_wave : bool) (start_seed : Z)
    (test_dot_seed : str * Z) (lsf_cmd : option str) (bin_dir rtl_sim_dir sim_opts : str)
  : res (str * str) :=
  if start_seed <? 0 then Raise RuntimeError ("Invalid start seed: " ++ str_of_Z start_seed)
  else
    let '(testname, seed) := test_dot_seed in
    if seed <? start_seed then
      Raise RuntimeError ("Start seed is greater than test seed (" ++ str_of_Z start_seed ++
                          " > " ++ str_of_Z seed ++ ").")
    else
      let iteration := seed - start_seed in
      e ← get_entry testname;
      cmds ← get_simulator_cmd simulator simulator_yaml
               [("cov_opts" : str, en_cov); ("wave_opts" : str, en_wave)];
      let sim_cmd := subst_vars cmds.2
        [("out" : str, rtl_sim_dir); ("sim_opts" : str, sim_opts); ("cwd" : str, core_ibex)] in
      let test_sim_dir := path_join rtl_sim_dir (testname ++ "." ++ str_of_Z seed) in
      test_cmd ← get_test_sim_cmd exists_file sim_cmd e iteration seed test_sim_dir bin_dir lsf_cmd;
      Ok (test_cmd, path_join test_sim_dir "sim.log").
End Command.

(** ** sim.py *)

(** [run_cmd] of vendor/google_riscv-dv/scripts/lib.py: the shell gives the
    return code of a command, negative for one that a signal ended and none for
    one that was stopped for running too long. *)
Definition run_cmd (shell : str -> option Z) (exit_on_error : bool) (cmd : str) : res unit :=
  match shell cmd with
  | Some rc => if (0 <? rc) && exit_on_error then raise (SystemExit 1) else Ok tt
  | None => Ok tt
  end.

(** Commands in order: the outcome, and the commands that were started. *)
Fixpoint run_cmds (shell : str -> option Z) (cmds : list str) : res unit * list str :=
  match cmds with
  | [] => (Ok tt, [])
  | cmd :: cmds' =>
      match run_cmd shell true cmd with
      | Ok _ => let (r, ran) := run_cmds shell cmds' in (r, cmd :: ran)
      | r => (r, [cmd])
      end
  end.

Definition with_lsf (lsf_cmd : option str) (cmd : str) : str :=
  match lsf_cmd with Some l => l ++ " " ++ cmd | None => cmd end.

Definition rtl_compile (shell : str -> option Z) (compile_cmds : list str) (output_dir : str)
    (lsf_cmd : option str) (opts : str) : res unit * list str :=
  run_cmds shell
    ((fun cmd => with_lsf lsf_cmd
                   (subst_vars cmd [("out" : str, output_dir); ("cmp_opts" : str, opts)]))
     <$> compile_cmds).

(** [os.walk]: the directories below the base directory, each with the names of
    its subdirectories. *)
Definition coverage_dbs (walk : list (str * list str)) : list str :=
  omap (fun d : str * list str =>
    if bool_decide (("test.vdb" : str) ∈ d.2) then Some (path_join d.1 "test.vdb") else None) walk.

Definition gen_cov (shell : str -> option Z) (walk : str -> list (str * list str))
    (base_dir simulator : str) (lsf_cmd : option str) : res unit * list str :=
  match coverage_dbs (walk base_dir) with
  | [] => (raise (SystemExit 0), [])
  | dir_list =>
      if decide (simulator = ("vcs" : str)) then
        let cov_cmd := "urg -full64 -format both -dbname test.vdb -report " ++ base_dir ++
                       "/rtl_sim/urgReport -dir" ++ mjoin ((fun d => " " ++ d) <$> dir_list) in
        run_cmds shell [with_lsf lsf_cmd cov_cmd]
      else (raise (SystemExit 1), [])
  end.

(** [main]: the exit status and the commands that were run, [mkdir] first. *)
Definition sim_main (environ : str -> option str) (fs : str -> option str)
    (yaml_load : str -> res yval) (shell : str -> option Z)
    (walk : str -> list (str * list str)) (o simulator simulator_yaml cmp_opts : str)
    (en_cov en_wave en_cosim : bool) (steps : str) (lsf_cmd : option str)
  : res Z * list str :=
  if decide (lsf_cmd = Some []) then (Ok 1, [])
  else
    let output_dir := o ++ "/rtl_sim" in
    let wants step := bool_decide (steps = ("all" : str)) || contains step steps in
    let compiled :=
      if wants ("compile" : str) then
        match get_simulator_cmd environ fs yaml_load simulator simulator_yaml
                [("cov_opts" : str, en_cov); ("wave_opts" : str, en_wave);
                 ("cosim_opts" : str, en_cosim)] with
        | Ok (compile_cmds, _) => rtl_compile shell compile_cmds output_dir lsf_cmd cmp_opts
        | Raise c m => (Raise c m, [])
        end
      else (Ok tt, []) in
    match compiled with
    | (Raise c m, ran) => (Raise c m, ran)
    | (Ok _, ran) =>
        if wants ("cov" : str) then
          let (r, ran') := gen_cov shell walk o simulator lsf_cmd in
          (_ ← r; Ok 0, ran ++ ran')
        else (Ok 0, ran)
    end.

(** ** sim_makefrag_gen.py *)

Section Makefrag.
(** What [ibex_config.py] reads, and what it prints when asked for help. *)
Context (set_order : gset str -> list str) (yaml_load : str -> res yval)
        (fs : str -> option str) (env : str -> option str) (help_text : str).

(** Where to find the script, the configuration and its file. *)
Record gen_args := GenArgs { ibex_config_path : str; ibex_config_name : str; ibex_config_filename : str }.

(** [run_ibex_config]: what the script prints, or [GenError] where it exits with
    an error status or an exception.  A name or file name that starts with a dash
    is an option to the script's argument parser. *)
Definition ibex_config_args (a : gen_args) (output_type : str) : list str :=
  [ibex_config_name a; "--config_filename" : str; ibex_config_filename a; output_type;
   "--ins_hier_path" : str; "core_ibex_tb_top" : str; "--string_define_prefix" : str; "IBEX_CFG_" : str].
Definition asks_help (args : list str) : bool :=
  match parsed (config_parser env) args with Raise (SystemExit 0) _ => true | _ => false end.
Definition run_ibex_config (a : gen_args) (output_type : str) : res str :=
  if asks_help (ibex_config_args a output_type) then Ok help_text
  else match main set_order yaml_load fs env (ibex_config_args a output_type) with
       | Ok out => Ok out
       | Raise _ _ => raise GenError
       end.

Definition COMPILE : str := "COMPILE_OPTS += ".
Definition SIM : str := "SIM_OPTS += ".

Definition gen_vcs_makefrag (a : gen_args) : res str :=
  vcs_compile_opts ← run_ibex_config a "vcs_opts";
  Ok (COMPILE ++ vcs_compile_opts).
Definition gen_riviera_makefrag (a : gen_args) : res str :=
  riviera_compile_opts ← run_ibex_config a "riviera_compile_opts";
  riviera_sim_opts ← run_ibex_config a "riviera_sim_opts";
  Ok (COMPILE ++ riviera_compile_opts ++ SIM ++ riviera_sim_opts).
Definition gen_questa_makefrag (a : gen_args) : res str :=
  questa_compile_opts ← run_ibex_config a "questa_compile_opts";
  questa_sim_opts ← run_ibex_config a "questa_sim_opts";
  Ok (COMPILE ++ questa_compile_opts ++ SIM ++ questa_sim_opts).
Definition gen_xlm_makefrag (a : gen_args) : res str :=
  xlm_compile_opts ← run_ibex_config a "xlm_opts";
  Ok (COMPILE ++ xlm_compile_opts).
(** The text formatted is the function object's; [address] is where it is. *)
Definition gen_dsim_makefrag (address : str) (a : gen_args) : res str :=
  _ ← run_ibex_config a "dsim_compile_opts";
  Ok (COMPILE ++ "<function gen_dsim_makefrag at 0x" ++ address ++ ">").

Definition sim_fns (address : str) : list (str * (gen_args -> res str)) :=
  [("vcs" : str, gen_vcs_makefrag); ("riviera" : str, gen_riviera_makefrag);
   ("xlm" : str, gen_xlm_makefrag); ("questa" : str, gen_questa_makefrag);
   ("dsim" : str, gen_dsim_makefrag address)].

(** [main]: the file is opened, and emptied, before anything is generated. *)
Definition makefrag_main (address sim config_name ibex_top makefrag_name : str) (out : fsys)
  : res unit * fsys :=
  match dict_get (sim_fns address) sim with
  | None => (raise (SystemExit 2), out)
  | Some gen =>
      match gen (GenArgs (path_join ibex_top "util/ibex_config.py") config_name
                         (path_join ibex_top "ibex_configs.yaml")) with
      | Ok text => (Ok tt, <[makefrag_name := text]> out)
      | Raise GenError _ => (raise (SystemExit 1), <[makefrag_name := [] : str]> out)
      | Raise c m => (Raise c m, <[makefrag_name := [] : str]> out)
      end
  end.
End Makefrag.

Example subst_opt_ex :
  (subst_opt "vcs <wave_opts> -o x" "wave_opts" true (YScalar (SStr "-debug")),
   subst_opt "vcs <wave_opts> -o x" "wave_opts" false YNone)
  = (Ok ("vcs -debug -o x" : str), Ok ("vcs  -o x" : str)).
Proof. by_compute. Qed.

(** ** Command templates

    A command with placeholders is the text of a template: pieces of plain text
    and named holes.  Replacing text acts on the template. *)

Inductive piece :=
| Txt (s : str)
| Hole (name : str).
Definition template := list piece.

Definition show1 (p : piece) : str := match p with Txt s => s | Hole n => needle n end.
Definition show (t : template) : str := mjoin (show1 <$> t).

Definition plain (s : str) : Prop := "<"%char ∉ s.
Definition wf_name (n : str) : Prop := ("<"%char ∉ n) /\ (">"%char ∉ n).
Definition wf_piece (p : piece) : Prop := match p with Txt s => plain s | Hole n => wf_name n end.
Definition wf_template (t : template) : Prop := Forall wf_piece t.

Definition holes (t : template) : list str :=
  omap (fun p => match p with Hole n => Some n | Txt _ => None end) t.

(** Replace the holes named [k] by a template. *)
Definition expand (k : str) (v : template) (t : template) : template :=
  t ≫= (fun p => match p with Hole n => if decide (n = k) then v else [p] | Txt _ => [p] end).

(** Replace every hole at once, by what [d] gives for its name. *)
Definition fill (d : str -> option template) (t : template) : template :=
  t ≫= (fun p => match p with Hole n => default [p] (d n) | Txt _ => [p] end).

Lemma show_app t u : show (t ++ u) = show t ++ show u.
Proof. unfold show. by rewrite fmap_app, join_app. Qed.
Lemma show_cons p t : show (p :: t) = show1 p ++ show t.
Proof. done. Qed.

Lemma replace_skip old new s t :
  replace_go old new (s ++ t) (length s) = replace_go old new t 0.
Proof. by induction s. Qed.

Lemma replace_plain old new s t :
  plain s ->
  replace_go ("<"%char :: old) new (s ++ t) 0 = s ++ replace_go ("<"%char :: old) new t 0.
Proof.
  unfold plain. induction s as [|c s IH]; [done|]. intros [Hc Hs]%not_elem_of_cons.
  cbn [app replace_go starts_with]. replace (Ascii.eqb "<" c) with false; [by rewrite <-IH|].
  symmetry. by apply Ascii.eqb_neq.
Qed.

Lemma starts_with_name k n t :
  wf_name k -> wf_name n -> starts_with (k ++ ">") (n ++ ">" ++ t) = true -> k = n.
Proof.
  intros [_ Hk] [_ Hn]. rewrite starts_with_spec. intros [u H].
  assert (split1 ">" (n ++ ">"%char :: t) = split1 ">" (k ++ ">"%char :: u)) as E.
  { f_equal. cbn in H. by rewrite H, <-app_assoc. }
  rewrite !split1_app in E by done. by injection E.
Qed.

Lemma replace_needle_go k v t :
  wf_name k -> wf_template t ->
  replace_go (needle k) (show v) (show t) 0 = show (expand k v t).
Proof.
  intros Hk Ht. induction Ht as [|p t Hp Ht IH]; [done|].
  rewrite show_cons. destruct p as [s|n]; cbn [show1].
  - change (expand k v (Txt s :: t)) with (Txt s :: expand k v t). rewrite show_cons, <-IH.
    by apply (replace_plain (k ++ ">")).
  - change (expand k v (Hole n :: t)) with ((if decide (n = k) then v else [Hole n]) ++ expand k v t).
    rewrite show_app, <-IH. case_decide as E.
    + subst n. change (needle k ++ show t) with ("<"%char :: ((k ++ ">") ++ show t)).
      change (needle k) with ("<"%char :: (k ++ ">")) at 1. cbn [replace_go].
      change ("<"%char :: (k ++ ">") ++ show t) with (("<"%char :: (k ++ ">")) ++ show t).
      rewrite starts_with_app. f_equal. apply replace_skip.
    + change (show [Hole n]) with (needle n ++ []). rewrite app_nil_r.
      change (needle n ++ show t) with ("<"%char :: ((n ++ ">") ++ show t)).
      change (needle k) with ("<"%char :: (k ++ ">")) at 1. cbn [replace_go].
      replace (starts_with _ _) with false.
      * cbn [app needle String.list_ascii_of_string]. f_equal. apply (replace_plain (k ++ ">")).
        destruct Hp as [Hp _]. unfold plain. rewrite elem_of_app, list_elem_of_singleton. naive_solver.
      * symmetry. apply not_true_iff_false. cbn [starts_with]. rewrite <-(app_assoc n).
        rewrite Ascii.eqb_refl. intros H%starts_with_name; [by destruct E|done..].
Qed.

Lemma replace_needle k v t :
  wf_name k -> wf_template t -> replace (needle k) (show v) (show t) = show (expand k v t).
Proof. exact (replace_needle_go k v t). Qed.

(** *** The algebra of templates *)

Lemma wf_app t u : wf_template (t ++ u) <-> wf_template t /\ wf_template u.
Proof. apply Forall_app. Qed.

Lemma fill_app d t u : fill d (t ++ u) = fill d t ++ fill d u.
Proof. apply bind_app. Qed.

Lemma fill_cons d p t :
  fill d (p :: t) = (match p with Hole n => default [p] (d n) | Txt _ => [p] end) ++ fill d t.
Proof. done. Qed.

Lemma holes_cons p t :
  holes (p :: t) = match p with Hole n => n :: holes t | Txt _ => holes t end.
Proof. by destruct p. Qed.

Lemma expand_fill k v t : expand k v t = fill (fun n => if decide (n = k) then Some v else None) t.
Proof.
  unfold expand, fill. apply list_bind_ext; [|done]. intros [s|n]; [done|]. by case_decide.
Qed.

Lemma fill_ext d d' t : (forall n, n ∈ holes t -> d n = d' n) -> fill d t = fill d' t.
Proof.
  induction t as [|[s|n] t IH]; [done| |]; rewrite holes_cons; intros H; rewrite !fill_cons.
  - by rewrite IH.
  - rewrite IH by set_solver. by rewrite (H n) by set_solver.
Qed.

Lemma fill_id d t : (forall n, n ∈ holes t -> d n = None) -> fill d t = t.
Proof.
  induction t as [|[s|n] t IH]; [done| |]; rewrite holes_cons; intros H; rewrite fill_cons.
  - cbn. by rewrite IH.
  - rewrite IH by set_solver. by rewrite (H n) by set_solver.
Qed.

Lemma fill_fill d e t :
  fill e (fill d t) = fill (fun n => match d n with Some v => Some (fill e v) | None => e n end) t.
Proof.
  induction t as [|[s|n] t IH]; [done| |]; rewrite !fill_cons, fill_app, IH; [done|].
  f_equal. destruct (d n) as [v|]; [done|]. cbn. by rewrite app_nil_r.
Qed.

Lemma fill_wf d t :
  wf_template t -> (forall n v, n ∈ holes t -> d n = Some v -> wf_template v) -> wf_template (fill d t).
Proof.
  induction 1 as [|[s|n] t Hp Ht IH]; intros H; [constructor| |]; rewrite fill_cons, wf_app;
    rewrite holes_cons in H.
  - split; [by repeat constructor|]. by apply IH.
  - split; [|apply IH; set_solver]. destruct (d n) as [v|] eqn:E; [|by apply Forall_singleton].
    apply (H n); [set_solver|done].
Qed.

Lemma holes_fill d t n :
  n ∈ holes (fill d t) <->
  (n ∈ holes t /\ d n = None) \/ exists k v, k ∈ holes t /\ d k = Some v /\ n ∈ holes v.
Proof.
  unfold holes at 1, fill. rewrite list_elem_of_omap. setoid_rewrite list_elem_of_bind.
  assert (forall m, m ∈ holes t <-> Hole m ∈ t) as Hh.
  { intros m. unfold holes. rewrite list_elem_of_omap. split; [|eauto].
    intros ([|] & ? & [= <-]). done. }
  split.
  - intros ([|m] & (p & Hp & Hin) & [= ->]). destruct p as [s|k]; [set_solver|].
    destruct (d k) as [v|] eqn:E; cbn in Hp.
    + right. exists k, v. rewrite Hh. split_and!; [done..|].
      unfold holes. apply list_elem_of_omap. eauto.
    + left. assert (n = k) as -> by set_solver. by rewrite Hh.
  - intros [[Hn E]|(k & v & Hk & E & Hv)].
    + exists (Hole n). split; [|done]. exists (Hole n). rewrite E, <-Hh. set_solver.
    + unfold holes in Hv. apply list_elem_of_omap in Hv as (p & Hp & E'). exists p.
      split; [|done]. exists (Hole k). by rewrite E, <-Hh.
Qed.

(** The holes of a template are the placeholders in its text. *)
Lemma contains_needle k t :
  wf_name k -> wf_template t -> contains (needle k) (show t) = true <-> k ∈ holes t.
Proof.
  intros Hk Ht. split.
  - intros Hc. destruct (decide (k ∈ holes t)) as [|Hn]; [done|]. exfalso.
    apply contains_spec in Hc as (a & b & E).
    assert (show t = replace (needle k) (show []) (show t)) as H.
    { rewrite replace_needle by done. rewrite expand_fill, fill_id; [done|].
      intros n Hn'. case_decide; [by subst|done]. }
    assert (forall s, contains (needle k) s = true ->
              (length (replace_go (needle k) [] s 0) < length s)%nat) as Hlen.
    { clear. assert (forall s n, (length (replace_go (needle k) [] s n) <= length s)%nat) as Hle.
      { induction s as [|c s IH]; intros [|n]; cbn -[needle]; [lia..| |].
        - case_match; cbn -[needle]; [etrans; [apply IH|lia]|specialize (IH 0%nat); lia].
        - specialize (IH n). lia. }
      induction s as [|c s IH]; [done|]. cbn [contains replace_go].
      destruct (starts_with (needle k) (c :: s)); cbn [orb app length].
      - intros _. pose proof (Hle s (pred (length (needle k)))). lia.
      - intros Hc. specialize (IH Hc). lia. }
    assert (contains (needle k) (show t) = true) as Hc by (apply contains_spec; eauto).
    apply Hlen in Hc. rewrite H in Hc at 2. exact (Nat.lt_irrefl _ Hc).
  - intros Hin. unfold holes in Hin. apply list_elem_of_omap in Hin as ([|n] & Hin & [= ->]).
    apply list_elem_of_split in Hin as (t1 & t2 & ->). apply contains_spec.
    exists (show t1), (show t2). by rewrite show_app, show_cons.
Qed.

Lemma plain_show t : wf_template t -> holes t = [] -> plain (show t).
Proof.
  induction 1 as [|[s|n] t Hp Ht IH]; [by intros _ ?%not_elem_of_nil| |done].
  rewrite holes_cons, show_cons. intros H. unfold plain. cbn. rewrite elem_of_app.
  intros [|]; [by apply Hp|by apply IH].
Qed.

Lemma dict_get_none {A} (d : list (str * A)) n : dict_get d n = None <-> n ∉ d.*1.
Proof.
  induction d as [|[k s] d IH]; cbn; [by split; [intros _ ?%not_elem_of_nil|]|].
  rewrite not_elem_of_cons. case_decide as E; [subst; naive_solver|]. rewrite IH. naive_solver.
Qed.

(** Filling from a list of plain texts. *)
Definition texts (d : list (str * str)) (n : str) : option template :=
  (fun s => [Txt s]) <$> dict_get d n.
Definition plain_dict (d : list (str * str)) : Prop := Forall (fun kv => wf_name kv.1 /\ plain kv.2) d.

Lemma wf_texts d t : plain_dict d -> wf_template t -> wf_template (fill (texts d) t).
Proof.
  intros Hd Ht. apply fill_wf; [done|]. intros n v _. unfold texts.
  destruct (dict_get d n) as [s|] eqn:E; [|done]. intros [= <-]. apply Forall_singleton. cbn.
  induction Hd as [|[k s'] d [_ Hs] Hd IH]; [done|]. cbn in E. case_decide; [by simplify_eq|auto].
Qed.

Lemma holes_texts d t n :
  n ∈ holes (fill (texts d) t) <-> n ∈ holes t /\ dict_get d n = None.
Proof.
  rewrite holes_fill. unfold texts. split.
  - intros [[? E]|(k & v & _ & E & Hv)].
    + split; [done|]. by destruct (dict_get d n).
    + destruct (dict_get d k); [|done]. injection E as <-. by apply not_elem_of_nil in Hv.
  - intros [? E]. left. by rewrite E.
Qed.

Lemma fill_texts_cons k s d t :
  fill (texts ((k, s) :: d)) t = fill (texts d) (expand k [Txt s] t).
Proof.
  rewrite expand_fill, fill_fill. apply fill_ext. intros n _. unfold texts. cbn [dict_get].
  destruct (decide (k = n)), (decide (n = k)); congruence || done.
Qed.

Lemma expand_wf k v t : wf_template v -> wf_template t -> wf_template (expand k v t).
Proof. rewrite expand_fill. intros Hv Ht. apply fill_wf; [done|]. intros n u _. case_decide; congruence. Qed.

Lemma subst_vars_show d t :
  plain_dict d -> wf_template t -> subst_vars (show t) d = show (fill (texts d) t).
Proof.
  intros Hd. revert t. induction Hd as [|[k s] d [Hk Hs] Hd IH]; intros t Ht.
  - cbn. by rewrite fill_id.
  - cbn in Hk, Hs. rewrite fill_texts_cons. unfold subst_vars. cbn [foldl fst snd].
    pose proof (replace_needle k [Txt s] t Hk Ht) as E.
    replace (show [Txt s]) with s in E by (unfold show; cbn; by rewrite app_nil_r).
    rewrite E. apply IH, expand_wf; [by apply Forall_singleton|done].
Qed.

(** Substituting variables in a command replaces all its placeholders at
    once: the order of the dictionary plays no part, the text around the
    placeholders is kept, and a placeholder without a value stays. *)
Theorem subst_vars_simultaneous (d1 d2 : list (str * str)) (t : template) :
  wf_template t -> plain_dict d1 -> d1 ≡ₚ d2 -> NoDup d1.*1 ->
  subst_vars (show t) d1 = subst_vars (show t) d2 /\
  subst_vars (show t) d1 = show (fill (texts d1) t) /\
  forall n, n ∈ holes (fill (texts d1) t) <-> n ∈ holes t /\ n ∉ d1.*1.
Proof.
  intros Ht Hd Hp Hn.
  assert (forall d n s, NoDup (d : list (str * str)).*1 -> dict_get d n = Some s <-> (n, s) ∈ d) as Hget.
  { clear. intros d n s. induction d as [|[k s'] d IH]; cbn; intros Hd.
    - split; [done|by intros ?%not_elem_of_nil].
    - apply NoDup_cons in Hd as [Hk Hd]. rewrite elem_of_cons. case_decide as E.
      + subst. split; [intros [= <-]; by left|]. intros [[= ->]|H]; [done|].
        destruct Hk. apply list_elem_of_fmap. by exists (n, s).
      + rewrite IH by done. naive_solver. }
  split_and!.
  - rewrite !subst_vars_show; [|by unfold plain_dict; rewrite <-Hp|done..]. f_equal.
    apply fill_ext. intros n _. unfold texts. f_equal. apply option_eq. intros s.
    rewrite !Hget, Hp; [done| |done]. by rewrite <-Hp.
  - by apply subst_vars_show.
  - intros n. by rewrite holes_texts, dict_get_none.
Qed.

Ltac wf_text :=
  first [ apply Forall_nil_2
        | apply Forall_cons; split; wf_text
        | apply not_in_str; reflexivity
        | split; wf_text ].

Definition demo_template : template :=
  [Txt "run +dir="; Hole "sim_dir"; Txt " +seed="; Hole "seed"; Txt " "; Hole "other"].

Lemma subst_vars_simultaneous_witness :
  subst_vars (show demo_template) [("sim_dir" : str, "out" : str); ("seed" : str, "12" : str)]
    = ("run +dir=out +seed=12 <other>" : str) /\
  subst_vars (show demo_template) [("sim_dir" : str, "out" : str); ("seed" : str, "12" : str)]
    = subst_vars (show demo_template) [("seed" : str, "12" : str); ("sim_dir" : str, "out" : str)].
Proof.
  split; [by_compute|].
  apply (subst_vars_simultaneous _ _ demo_template).
  - wf_text.
  - wf_text.
  - constructor.
  - apply (bool_decide_unpack _). vm_compute. exact I.
Defined.

(** ** Options and environment variables *)

Section SubstCmd.
Context (environ : str -> option str).
Hypothesis environ_plain : forall n v, environ n = Some v -> plain v.

(** What becomes of a hole: an option that is off disappears, one that is on is
    the template the simulator file gives for it. *)
Definition option_choice (en : list (str * bool)) (topts : str -> option template) (n : str)
  : option template :=
  match dict_get en n with
  | None => None
  | Some false => Some []
  | Some true => topts n
  end.
Definition options_defined (en : list (str * bool)) (topts : str -> option template) (t : template)
  : Prop :=
  forall n, n ∈ holes t -> dict_get en n = Some true -> is_Some (topts n).

(** The texts of the options in the file's mapping; their own holes are not
    options. *)
Definition option_texts (en : list (str * bool)) (opts : entry) (topts : str -> option template)
  : Prop :=
  Forall (fun kb : str * bool => wf_name kb.1 /\
    match topts kb.1 with
    | Some v => dict_get opts kb.1 = Some (YScalar (SStr (show v))) /\ wf_template v /\
                forall n, n ∈ holes v -> dict_get en n = None
    | None => default YNone (dict_get opts kb.1) = YNone
    end) en.

Definition env_names (env_vars : str) : list str :=
  match strip env_vars with [] => [] | vars => strip <$> split ","%char vars end.
Definition env_choice (names : list str) (n : str) : option template :=
  if decide (n ∈ names) then (fun v => [Txt v]) <$> environ n else None.
Definition env_defined (names : list str) (t : template) : Prop :=
  forall n, n ∈ holes t -> n ∈ names -> is_Some (environ n).

(** A step that returns the text of [t'] if [P], and otherwise raises
    [RuntimeError]. *)
Definition gives (r : res str) (P : Prop) (t' : template) : Prop :=
  match r with
  | Ok s => P /\ s = show t'
  | Raise c _ => ~ P /\ c = RuntimeError
  end.

Lemma subst_env_var_gives t v :
  wf_template t -> wf_name (strip v) ->
  gives (subst_env_var environ (show t) v)
        (strip v ∈ holes t -> is_Some (environ (strip v)))
        (fill (env_choice [strip v]) t).
Proof.
  intros Ht Hv. unfold subst_env_var. destruct (contains _ _) eqn:Ec.
  - apply contains_needle in Ec; [|done..]. destruct (environ (strip v)) as [s|] eqn:E.
    + split; [by eexists|]. pose proof (replace_needle (strip v) [Txt s] t Hv Ht) as R.
      replace (show [Txt s]) with s in R by (unfold show; cbn; by rewrite app_nil_r).
      rewrite R, expand_fill. f_equal. apply fill_ext. intros n _. unfold env_choice.
      do 2 case_decide; subst; [by rewrite E|set_solver|set_solver|done].
    + split; [|done]. intros H. destruct (H Ec). done.
  - assert (strip v ∉ holes t) as Hn.
    { rewrite <-contains_needle by done. congruence. }
    split; [done|]. rewrite fill_id; [done|]. intros n Hin. unfold env_choice.
    case_decide; [set_solver|done].
Qed.

Lemma env_choice_wf names t : wf_template t -> wf_template (fill (env_choice names) t).
Proof.
  intros Ht. apply fill_wf; [done|]. intros n v _. unfold env_choice. case_decide; [|done].
  destruct (environ n) as [s|] eqn:E; [|done]. intros [= <-]. apply Forall_singleton.
  by apply (environ_plain n).
Qed.

Lemma env_fold_gives vars t :
  wf_template t -> Forall wf_name (strip <$> vars) ->
  gives (res_fold (subst_env_var environ) (show t) vars)
        (env_defined (strip <$> vars) t) (fill (env_choice (strip <$> vars)) t).
Proof.
  revert t. induction vars as [|v vars IH]; intros t Ht Hv; cbn [res_fold fmap list_fmap] in *.
  - split; [by intros n _ ?%not_elem_of_nil|]. rewrite fill_id; [done|]. intros n _. unfold env_choice.
    case_decide as H; [by apply not_elem_of_nil in H|done].
  - apply Forall_cons in Hv as [Hv Hvs]. pose proof (subst_env_var_gives t v Ht Hv) as H1.
    unfold gives in H1. destruct (subst_env_var _ _ _) as [s|c m]; cbn [mbind res_bind].
    + destruct H1 as [Hd ->].
      specialize (IH (fill (env_choice [strip v]) t) (env_choice_wf _ _ Ht) Hvs).
      assert (fill (env_choice (strip <$> vars)) (fill (env_choice [strip v]) t)
              = fill (env_choice (strip v :: (strip <$> vars))) t) as E.
      { rewrite fill_fill. apply fill_ext. intros n Hn. unfold env_choice.
        destruct (decide (n ∈ [strip v])) as [Hin|Hin].
        - assert (n = strip v) as -> by set_solver.
          destruct (decide (strip v ∈ strip v :: (strip <$> vars))) as [_|[]]; [|by left].
          destruct (Hd Hn) as [s Hs]. by rewrite Hs.
        - destruct (decide (n ∈ strip <$> vars)), (decide (n ∈ strip v :: (strip <$> vars)));
            done || set_solver. }
      rewrite E in IH. revert IH. unfold gives.
      assert (env_defined (strip <$> vars) (fill (env_choice [strip v]) t) <->
              env_defined (strip v :: (strip <$> vars)) t) as Hiff.
      { unfold env_defined. split.
        - intros H n Hn Hin. destruct (decide (n = strip v)) as [->|Hne]; [by apply Hd|].
          apply H; [|set_solver]. apply holes_fill. left. split; [done|]. unfold env_choice.
          rewrite decide_False; [done|set_solver].
        - intros H n Hn Hin. apply holes_fill in Hn as [[Hn _]|(k & u & _ & E' & Hu)].
          + apply H; [done|set_solver].
          + unfold env_choice in E'. case_decide; [|done]. destruct (environ k); [|done].
            injection E' as <-. by apply not_elem_of_nil in Hu. }
      by destruct (res_fold _ _ _); rewrite Hiff.
    + destruct H1 as [Hd ->]. split; [|done]. intros H. destruct Hd. intros Hin. apply H; [done|set_solver].
Qed.

Lemma env_vars_gives env_vars t :
  wf_template t -> Forall wf_name (env_names env_vars) ->
  gives (subst_env_vars environ (show t) env_vars)
        (env_defined (env_names env_vars) t) (fill (env_choice (env_names env_vars)) t).
Proof.
  intros Ht Hv. unfold subst_env_vars, env_names in *. destruct (strip env_vars) as [|c l].
  - apply (env_fold_gives []); [done|constructor].
  - by apply env_fold_gives.
Qed.

Lemma option_step k b en opts topts t :
  wf_template t -> option_texts ((k, b) :: en) opts topts ->
  gives (subst_opt (show t) k b (default YNone (dict_get opts k)))
        (k ∈ holes t -> b = true -> is_Some (topts k))
        (fill (option_choice [(k, b)] topts) t).
Proof.
  intros Ht H. apply Forall_cons in H as [[Hk H] _]. cbn [fst] in *.
  assert (forall v, fill (option_choice [(k, b)] topts) t = expand k v t <->
            fill (option_choice [(k, b)] topts) t
            = fill (fun n => if decide (n = k) then Some v else None) t) as Hx
    by (intros v; by rewrite expand_fill).
  unfold subst_opt. destruct b.
  - destruct (topts k) as [v|] eqn:E.
    + destruct H as (-> & Hv & _). cbn [default mbind res_bind as_str gives].
      split; [by eexists|]. rewrite replace_needle by done. f_equal. symmetry. apply Hx.
      apply fill_ext. intros n _. unfold option_choice. cbn.
      destruct (decide (k = n)), (decide (n = k)); congruence.
    + rewrite H. destruct (contains _ _) eqn:Ec.
      * apply contains_needle in Ec; [|done..]. split; [|done]. intros Hc. by destruct (Hc Ec eq_refl).
      * assert (k ∉ holes t) as Hn by (rewrite <-contains_needle by done; congruence).
        split; [done|]. rewrite fill_id; [done|]. intros n Hin. unfold option_choice. cbn.
        case_decide; [by subst|done].
  - split; [done|]. change (replace (needle k) (show []) (show t) = show (fill (option_choice [(k, false)] topts) t)).
    rewrite replace_needle by done. f_equal. symmetry. apply Hx.
    apply fill_ext. intros n _. unfold option_choice. cbn.
    destruct (decide (k = n)), (decide (n = k)); done || congruence.
Qed.

Lemma option_choice_wf en opts topts t :
  wf_template t -> option_texts en opts topts -> wf_template (fill (option_choice en topts) t).
Proof.
  intros Ht H. apply fill_wf; [done|]. intros n v _. unfold option_choice.
  assert (forall b, dict_get en n = Some b -> exists b', (n, b') ∈ en) as Hin.
  { clear. induction en as [|[k b'] en IH]; cbn; [done|]. intros b. case_decide; [intros _; subst; set_solver|].
    intros [b'' ?]%IH. set_solver. }
  destruct (dict_get en n) as [[]|] eqn:E; [| |done].
  - destruct (Hin _ eq_refl) as [b' Hb]. unfold option_texts in H. rewrite Forall_forall in H.
    destruct (H _ Hb) as [_ Hv]. cbn in Hv. intros Et. rewrite Et in Hv. by destruct Hv as (_ & ? & _).
  - intros [= <-]. constructor.
Qed.

Lemma option_texts_tail k b en opts topts :
  option_texts ((k, b) :: en) opts topts -> option_texts en opts topts.
Proof.
  intros H. apply Forall_cons in H as [_ H]. eapply Forall_impl; [exact H|]. intros [k' b'] [? Hv].
  split; [done|]. cbn in *. destruct (topts k'); [|done]. destruct Hv as (? & ? & Hn). split_and!; [done..|].
  intros n Hin. specialize (Hn n Hin). cbn in Hn. by case_decide.
Qed.

Lemma option_fold_gives en opts topts t :
  wf_template t -> NoDup en.*1 -> option_texts en opts topts ->
  gives (res_fold (fun cmd (kv : str * bool) =>
           subst_opt cmd kv.1 kv.2 (default YNone (dict_get opts kv.1))) (show t) en)
        (options_defined en topts t) (fill (option_choice en topts) t).
Proof.
  revert t. induction en as [|[k b] en IH]; intros t Ht Hd Ho; cbn [res_fold].
  - split; [by intros n _ ?|]. by rewrite fill_id.
  - pose proof (option_step k b en opts topts t Ht Ho) as H1. cbn in Hd.
    apply NoDup_cons in Hd as [Hk Hd]. unfold gives in H1. cbn [fst snd].
    destruct (subst_opt _ _ _ _) as [s|c m]; cbn [mbind res_bind].
    + destruct H1 as [H1 ->].
      assert (option_texts [(k, b)] opts topts) as Ho1.
      { apply Forall_cons in Ho as [[Hw Hv] _]. apply Forall_singleton. split; [done|].
        cbn in *. destruct (topts k); [|done]. destruct Hv as (? & ? & Hn). split_and!; [done..|].
        intros n Hin. specialize (Hn n Hin). by case_decide. }
      specialize (IH _ (option_choice_wf _ _ _ _ Ht Ho1) Hd (option_texts_tail _ _ _ _ _ Ho)).
      assert (forall u, topts k = Some u -> forall n, n ∈ holes u -> dict_get en n = None) as Hu.
      { intros u Eu n Hn. apply Forall_cons in Ho as [[_ Hv] _]. cbn in Hv. rewrite Eu in Hv.
        destruct Hv as (_ & _ & Hv). specialize (Hv n Hn). by case_decide. }
      assert (dict_get en k = None) as Hkn.
      { clear -Hk. induction en as [|[k' b'] en IH]; [done|]. cbn in *. case_decide; set_solver. }
      assert (fill (option_choice en topts) (fill (option_choice [(k, b)] topts) t)
              = fill (option_choice ((k, b) :: en) topts) t) as E.
      { rewrite fill_fill. apply fill_ext. intros n Hn. unfold option_choice. cbn.
        case_decide; [|done]. subst n. destruct b; [|done].
        destruct (topts k) as [u|] eqn:Eu; [|by destruct (H1 Hn eq_refl)].
        f_equal. apply fill_id. intros n' Hn'. by rewrite (Hu u). }
      rewrite E in IH. revert IH. unfold gives.
      assert (options_defined en topts (fill (option_choice [(k, b)] topts) t) <->
              options_defined ((k, b) :: en) topts t) as Hiff.
      { unfold options_defined. split.
        - intros H n Hn. cbn. case_decide; [intros [= ->]; subst; by apply H1|]. apply H.
          apply holes_fill. left. split; [done|]. unfold option_choice. cbn. by case_decide.
        - intros H n Hn Hin. apply holes_fill in Hn as [[Hn _]|(k' & u & _ & E' & Hv)].
          + apply H; [done|]. cbn. case_decide; [congruence|done].
          + unfold option_choice in E'. cbn in E'. case_decide; [|done]. subst k'.
            destruct b; [by rewrite (Hu u E' n Hv) in Hin|].
            injection E' as <-. by apply not_elem_of_nil in Hv. }
      by destruct (res_fold _ _ _); rewrite Hiff.
    + destruct H1 as [H1 ->]. split; [|done]. intros H. destruct H1. intros Hin ->.
      apply H; [done|]. cbn. by rewrite decide_True.
Qed.

(** [subst_cmd] returns exactly when every enabled option and every listed
    environment variable the command uses is defined; it then fills in all the
    options at once, the variables in the result at once, and makes the command
    one line.  Otherwise it raises [RuntimeError]. *)
Theorem subst_cmd_spec (t : template) (en : list (str * bool)) (opts : entry)
    (topts : str -> option template) (env_vars : str) :
  wf_template t -> NoDup en.*1 -> option_texts en opts topts ->
  Forall wf_name (env_names env_vars) ->
  let t1 := fill (option_choice en topts) t in
  match subst_cmd environ (show t) en opts (YScalar (SStr env_vars)) with
  | Ok s => s = replace [newline] " " (show (fill (env_choice (env_names env_vars)) t1)) /\
            options_defined en topts t /\ env_defined (env_names env_vars) t1
  | Raise c _ => c = RuntimeError /\
            ~ (options_defined en topts t /\ env_defined (env_names env_vars) t1)
  end.
Proof.
  intros Ht Hd Ho Hv t1. unfold subst_cmd. pose proof (option_fold_gives en opts topts t Ht Hd Ho) as H.
  unfold gives in H. destruct (res_fold _ _ _) as [s|c m]; cbn [mbind res_bind as_attr_str].
  - destruct H as [H ->].
    pose proof (env_vars_gives env_vars t1 (option_choice_wf _ _ _ _ Ht Ho) Hv) as He.
    unfold gives in He. fold t1. destruct (subst_env_vars _ _ _) as [s|c m]; cbn [mbind res_bind].
    + destruct He as [He ->]. by split_and!.
    + destruct He as [He ->]. split; [done|]. by intros [_ ?].
  - destruct H as [H ->]. split; [done|]. by intros [? _].
Qed.
End SubstCmd.

Definition demo_env (n : str) : option str := if decide (n = ("ROOT" : str)) then Some ("/iss" : str) else None.
Definition demo_en : list (str * bool) := [("cov_opts" : str, false); ("wave_opts" : str, true)].
Definition demo_wave : template := [Txt "-ucli -do "; Hole "cwd"; Txt "/vcs.tcl"].
Definition demo_opts : entry := [("wave_opts" : str, YScalar (SStr (show demo_wave)))].
Definition demo_topts (n : str) : option template :=
  if decide (n = ("wave_opts" : str)) then Some demo_wave else None.
Definition demo_cmd : template :=
  [Txt "simv -L"; Hole "ROOT"; Txt " "; Hole "cov_opts"; Txt " "; Hole "wave_opts"].

Lemma subst_cmd_spec_witness :
  subst_cmd demo_env (show demo_cmd) demo_en demo_opts (YScalar (SStr " ROOT,UNUSED"))
    = Ok ("simv -L/iss  -ucli -do <cwd>/vcs.tcl" : str) /\
  options_defined demo_en demo_topts demo_cmd.
Proof.
  assert (subst_cmd demo_env (show demo_cmd) demo_en demo_opts (YScalar (SStr " ROOT,UNUSED"))
          = Ok ("simv -L/iss  -ucli -do <cwd>/vcs.tcl" : str)) as E by by_compute.
  split; [exact E|].
  assert (forall n v, demo_env n = Some v -> plain v) as He.
  { intros n v. unfold demo_env. destruct (decide _); [|discriminate].
    intros H. injection H as <-. apply not_in_str. reflexivity. }
  assert (wf_template demo_cmd) as H1 by wf_text.
  assert (NoDup demo_en.*1) as H2 by (apply (bool_decide_unpack _); vm_compute; exact I).
  assert (option_texts demo_en demo_opts demo_topts) as H3.
  { apply Forall_cons. split; [|apply Forall_cons; split; [|apply Forall_nil_2]].
    - split; [split; apply not_in_str; reflexivity|reflexivity].
    - split; [split; apply not_in_str; reflexivity|].
      split; [reflexivity|]. split; [wf_text|]. intros n [->|H]%elem_of_cons; [reflexivity|].
      apply not_elem_of_nil in H. destruct H. }
  assert (Forall wf_name (env_names " ROOT,UNUSED")) as H4 by (vm_compute env_names; wf_text).
  pose proof (subst_cmd_spec demo_env He demo_cmd demo_en demo_opts demo_topts " ROOT,UNUSED" H1 H2 H3 H4) as H.
  cbv zeta in H. rewrite E in H. exact (proj1 (proj2 H)).
Defined.

(** ** The command of a test *)

Lemma plain_str_of_Z n : plain (str_of_Z n).
Proof.
  unfold plain, str_of_Z. assert (forall m, (0 <= m)%Z -> "<"%char ∉ digits 10 m) as H.
  { intros m Hm Hin. pose proof (digits10_digit m Hm) as Hd. rewrite Forall_forall in Hd.
    specialize (Hd _ Hin). discriminate. }
  destruct (Z.ltb_spec n 0).
  - intros [Hc|Hin]%elem_of_cons; [discriminate|]. apply (H (- n)); [lia|done].
  - apply H. lia.
Qed.

Lemma plain_app a b : plain (a ++ b) <-> plain a /\ plain b.
Proof. unfold plain. rewrite elem_of_app. naive_solver. Qed.

Lemma plain_path_join a b : plain a -> plain b -> plain (path_join a b).
Proof.
  intros Ha Hb. unfold path_join. case_match; [done|]. destruct a as [|c a]; [done|].
  case_match; rewrite !plain_app; split_and!; try done. apply not_in_str. reflexivity.
Qed.


(** The names [get_test_sim_cmd] substitutes after the test's own options are
    appended. *)
Definition test_holes : list str := ["sim_dir" : str; "rtl_test" : str; "binary" : str;
                                     "test_name" : str; "iteration" : str].

(** The command of a test: it exists exactly when the test's binary does; it
    is the simulator's command and the test's options with every placeholder
    they define filled in.  No placeholder is left when the simulator's command
    uses only [<seed>] and the test's names and the test's options only the
    latter; [<seed>] in the options of a test is never filled in. *)
Theorem test_command_spec (exists_file : str -> bool) (t u : template) (test : entry)
    (opts name rtl_test sim_dir bin_dir : str) (idx seed : Z) (lsf_cmd : option str) :
  wf_template t -> wf_template u ->
  dict_get test "test" = Some (YScalar (SStr name)) ->
  dict_get test "rtl_test" = Some (YScalar (SStr rtl_test)) ->
  dict_get test "sim_opts" = Some (YScalar (SStr opts)) ->
  replace [newline] " " opts = show u ->
  Forall plain [name; rtl_test; sim_dir; bin_dir] ->
  let binary := test_binary bin_dir name idx in
  let full := fill (texts (test_vars sim_dir rtl_test binary name idx))
                (fill (texts [("seed" : str, str_of_Z seed)]) t ++ Txt " " :: u) in
  get_test_sim_cmd exists_file (show t) test idx seed sim_dir bin_dir lsf_cmd =
    (if exists_file binary then Ok (with_lsf lsf_cmd (show full))
     else Raise RuntimeError ("When computing simulation command for running iteration " ++
            str_of_Z idx ++ " of test " ++ name ++ ", cannot find the expected binary at " ++
            py_repr binary ++ ".")) /\
  (forall n, n ∈ holes full <->
     (n ∉ test_holes) /\ (n ∈ holes t /\ n <> ("seed" : str) \/ n ∈ holes u)).
Proof.
  intros Ht Hu E1 E2 E3 Eu Hp binary full.
  repeat match goal with H : Forall plain (_ :: _) |- _ => apply Forall_cons in H as [? H] end.
  assert (plain binary) as Hb.
  { apply plain_path_join; [done|]. rewrite !plain_app. split_and!; [done|..|apply plain_str_of_Z|];
      apply not_in_str; reflexivity. }
  assert (plain_dict [("seed" : str, str_of_Z seed)]) as Hd1.
  { apply Forall_singleton. split; [wf_text|apply plain_str_of_Z]. }
  assert (plain_dict (test_vars sim_dir rtl_test binary name idx)) as Hd2.
  { unfold test_vars. repeat (apply Forall_cons; split; [split; [wf_text|done || apply plain_str_of_Z]|]).
    apply Forall_nil_2. }
  split.
  - unfold get_test_sim_cmd, get. rewrite E1, E2, E3. cbn [or_raise as_attr_str as_str mbind res_bind].
    rewrite subst_vars_show by done. rewrite Eu. fold binary.
    assert (show (fill (texts [("seed" : str, str_of_Z seed)]) t) ++ " " ++ show u
            = show (fill (texts [("seed" : str, str_of_Z seed)]) t ++ Txt " " :: u)) as ->
      by (by rewrite show_app).
    rewrite subst_vars_show; [done|done|]. rewrite wf_app. split; [by apply wf_texts|].
    apply Forall_cons. split; [apply not_in_str; reflexivity|done].
  - intros n. unfold full. rewrite holes_texts.
    assert (n ∈ holes (fill (texts [("seed" : str, str_of_Z seed)]) t ++ Txt " " :: u) <->
            n ∈ holes (fill (texts [("seed" : str, str_of_Z seed)]) t) \/ n ∈ holes u) as ->.
    { unfold holes. rewrite omap_app, elem_of_app. done. }
    rewrite holes_texts.
    assert (dict_get [("seed" : str, str_of_Z seed)] n = None <-> n <> ("seed" : str)) as ->.
    { rewrite dict_get_none. cbn. rewrite list_elem_of_singleton. naive_solver. }
    rewrite (dict_get_none (test_vars _ _ _ _ _)). change (test_vars _ _ _ _ _).*1 with test_holes.
    naive_solver.
Qed.

Definition demo_test : entry :=
  [("test" : str, YScalar (SStr "arith")); ("rtl_test" : str, YScalar (SStr "base_test"));
   ("sim_opts" : str, YScalar (SStr "+log=<sim_dir>/x +s=<seed>"))].

Lemma test_command_spec_witness :
  get_test_sim_cmd (fun f => bool_decide (f = ("bin/arith_2.bin" : str))) "simv +seed=<seed> +bin=<binary>"
      demo_test 2 12 "out" "bin" (Some ("bsub" : str))
    = Ok ("bsub simv +seed=12 +bin=bin/arith_2.bin +log=out/x +s=<seed>" : str) /\
  get_test_sim_cmd (fun _ => false) "simv +seed=<seed> +bin=<binary>" demo_test 2 12 "out" "bin" None
    = Raise RuntimeError ("When computing simulation command for running iteration 2 of test arith, cannot find the expected binary at 'bin/arith_2.bin'.").
Proof.
  pose (t := [Txt "simv +seed="; Hole "seed"; Txt " +bin="; Hole "binary"]).
  pose (u := [Txt "+log="; Hole "sim_dir"; Txt "/x +s="; Hole "seed"]).
  assert (wf_template t) as Ht by wf_text. assert (wf_template u) as Hu by wf_text.
  assert (Forall plain ["arith" : str; "base_test" : str; "out" : str; "bin" : str]) as Hp by wf_text.
  split.
  - etransitivity.
    + exact (proj1 (test_command_spec _ t u demo_test "+log=<sim_dir>/x +s=<seed>" "arith" "base_test"
               "out" "bin" 2 12 (Some ("bsub" : str)) Ht Hu eq_refl eq_refl eq_refl eq_refl Hp)).
    + by_compute.
  - etransitivity.
    + exact (proj1 (test_command_spec _ t u demo_test "+log=<sim_dir>/x +s=<seed>" "arith" "base_test"
               "out" "bin" 2 12 None Ht Hu eq_refl eq_refl eq_refl eq_refl Hp)).
    + by_compute.
Defined.

(** ** The makefile fragments *)

Section MakefragSpec.
Context (set_order : gset str -> list str) (yaml_load : str -> res yval)
        (fs : str -> option str) (env : str -> option str) (help_text : str).

(** The configuration of that name. *)
Definition load_config (name file : str) : res config :=
  v ← parse_config set_order yaml_load fs name file; to_config v.

Definition makefile_line (var : str) (so : sim_opts) (c : config) : str :=
  var ++ sim_output so "core_ibex_tb_top" "IBEX_CFG_" c ++ [newline].

(** The lines of each simulator's fragment. *)
Definition fragment_lines (c : config) (sim : str) : option (list str) :=
  dict_get
  [("vcs" : str, [makefile_line COMPILE vcs_opts c]);
   ("riviera" : str, [makefile_line COMPILE riviera_compile_opts c; makefile_line SIM riviera_sim_opts c]);
   ("xlm" : str, [makefile_line COMPILE xlm_opts c]);
   ("questa" : str, [makefile_line COMPILE questa_compile_opts c; makefile_line SIM questa_sim_opts c])]
  sim.

Lemma plain_path_join_arg a b : plain_arg a -> plain_arg b -> plain_arg (path_join a b).
Proof.
  unfold path_join, plain_arg. intros Ha Hb. case_match; [done|]. destruct a as [|c a]; [done|].
  assert (forall t, starts_with "-" ((c :: a) ++ t) = starts_with "-" (c :: a)) as Happ by (intros t; cbn; by rewrite !andb_true_r).
  case_match; by rewrite ?Happ.
Qed.

(** The script's command line gives it the configuration and the simulator. *)
Lemma run_ibex_config_out a so n :
  so ∈ sim_outputters -> n = cmd_name so ->
  plain_arg (ibex_config_name a) -> plain_arg (ibex_config_filename a) ->
  run_ibex_config set_order yaml_load fs env help_text a n =
  match load_config (ibex_config_name a) (ibex_config_filename a) with
  | Ok c => Ok (sim_output so "core_ibex_tb_top" "IBEX_CFG_" c ++ [newline])
  | Raise _ _ => raise GenError
  end.
Proof.
  intros Hso -> Hn Hf. unfold run_ibex_config, load_config.
  change (ibex_config_args a (cmd_name so))
    with (command_line so (ibex_config_name a) (ibex_config_filename a) "core_ibex_tb_top" "IBEX_CFG_").
  assert (Forall plain_arg [ibex_config_name a; ibex_config_filename a; "core_ibex_tb_top" : str; "IBEX_CFG_" : str])
    as Hp by by repeat constructor.
  unfold asks_help. rewrite (parse_command_line env so _ _ _ _ Hso Hp), main_sim_options by done.
  destruct (parse_config _ _ _ _ _) as [v|c m]; [|done]. cbn [mbind res_bind]. by destruct (to_config v).
Qed.

Local Ltac run_out so := rewrite (run_ibex_config_out _ so) by (set_solver || done).

(** For every simulator but DSim, the fragment consists of the makefile
    lines that add the options of that configuration to the compile (and
    simulation) variables; when the configuration cannot be loaded the
    program exits with 1 and leaves an empty file. *)
Theorem makefrag_spec (address sim config_name ibex_top makefrag_name : str) (out : fsys)
    (gen : gen_args -> res str) :
  plain_arg config_name -> plain_arg ibex_top ->
  dict_get (sim_fns set_order yaml_load fs env help_text address) sim = Some gen -> sim <> ("dsim" : str) ->
  makefrag_main set_order yaml_load fs env help_text address sim config_name ibex_top makefrag_name out =
  match load_config config_name (path_join ibex_top "ibex_configs.yaml") with
  | Ok c => (Ok tt, <[makefrag_name := mjoin (default [] (fragment_lines c sim))]> out)
  | Raise _ _ => (raise (SystemExit 1), <[makefrag_name := [] : str]> out)
  end.
Proof.
  intros Hn Ht Hg Hs. pose proof (plain_path_join_arg ibex_top "ibex_configs.yaml" Ht eq_refl) as Hf.
  unfold makefrag_main. rewrite Hg. cbn [sim_fns dict_get] in Hg.
  unfold fragment_lines. cbn [dict_get].
  repeat (case_decide; [injection Hg as <-|]); try done;
    [ unfold gen_vcs_makefrag; run_out vcs_opts
    | unfold gen_riviera_makefrag; run_out riviera_sim_opts; run_out riviera_compile_opts
    | unfold gen_xlm_makefrag; run_out xlm_opts
    | unfold gen_questa_makefrag; run_out questa_sim_opts; run_out questa_compile_opts ];
    cbn [ibex_config_name ibex_config_filename]; (destruct (load_config _ _); [|done]);
    cbn; unfold makefile_line; by rewrite app_nil_r, <-?app_assoc.
Qed.

(** The DSim fragment names no option of the configuration: whatever
    the configuration holds, the text written is the same. *)
Theorem dsim_fragment_constant (address config_name ibex_top makefrag_name : str) (out : fsys)
    (r : res unit) (out' : fsys) :
  plain_arg config_name -> plain_arg ibex_top ->
  makefrag_main set_order yaml_load fs env help_text address "dsim" config_name ibex_top makefrag_name out
    = (r, out') ->
  out' = <[makefrag_name := if is_ok r
             then COMPILE ++ "<function gen_dsim_makefrag at 0x" ++ address ++ ">" else []]> out.
Proof.
  intros Hn Ht. pose proof (plain_path_join_arg ibex_top "ibex_configs.yaml" Ht eq_refl) as Hf.
  unfold makefrag_main. cbn [sim_fns dict_get]. repeat (case_decide; [done|]).
  case_decide; [|done]. unfold gen_dsim_makefrag.
  run_out dsim_compile_opts.
  destruct (load_config _ _); cbn [mbind res_bind]; by intros [= <- <-].
Qed.
End MakefragSpec.

Definition demo_configs : yval :=
  YMap [("small" : str, YMap [("RV32E" : str, YScalar (SInt 0)); ("RegFile" : str, YScalar (SStr "ff"))])].
Definition demo_load (_ : str) : res yval := Ok demo_configs.
Definition any_file (_ : str) : option str := Some [].
Definition no_env (_ : str) : option str := None.

Lemma makefrag_spec_witness :
  (makefrag_main no_order demo_load any_file no_env "help" "7f" "riviera" "small" "ibex" "f.mk" ∅).1 = Ok tt /\
  makefrag_main no_order demo_load any_file no_env "help" "7f" "riviera" "small" "ibex" "f.mk" ∅
    = (Ok tt, <[("f.mk" : str) := mjoin (default []
         (fragment_lines [("RV32E" : str, SInt 0); ("RegFile" : str, SStr "ff")] "riviera"))]> ∅).
Proof.
  assert (makefrag_main no_order demo_load any_file no_env "help" "7f" "riviera" "small" "ibex" "f.mk" ∅
    = (Ok tt, <[("f.mk" : str) := mjoin (default []
         (fragment_lines [("RV32E" : str, SInt 0); ("RegFile" : str, SStr "ff")] "riviera"))]> ∅)) as E.
  { etransitivity.
    - apply (makefrag_spec no_order demo_load any_file no_env "help" "7f" "riviera" "small" "ibex" "f.mk" ∅
               (gen_riviera_makefrag no_order demo_load any_file no_env "help")); [reflexivity..|discriminate].
    - assert (load_config no_order demo_load any_file "small" (path_join "ibex" "ibex_configs.yaml")
              = Ok [("RV32E" : str, SInt 0); ("RegFile" : str, SStr "ff")]) as -> by by_compute.
      reflexivity. }
  split; [by rewrite E|exact E].
Defined.

Lemma dsim_fragment_constant_witness :
  (makefrag_main no_order demo_load any_file no_env "help" "7f" "dsim" "small" "ibex" "f.mk" ∅).2
  = <[("f.mk" : str) := "COMPILE_OPTS += <function gen_dsim_makefrag at 0x7f>" : str]> ∅.
Proof.
  etransitivity.
  - exact (dsim_fragment_constant no_order demo_load any_file no_env "help" "7f" "small" "ibex" "f.mk" ∅
             _ _ eq_refl eq_refl (surjective_pairing _)).
  - assert (is_ok (makefrag_main no_order demo_load any_file no_env "help" "7f" "dsim" "small" "ibex" "f.mk" ∅).1
            = true) as -> by by_compute.
    reflexivity.
Defined.

Example fragment_ex :
  fragment_lines [("RV32E" : str, SInt 0); ("RegFile" : str, SStr "ff")] "riviera"
  = Some [("COMPILE_OPTS += +define+IBEX_CFG_RegFile=ff" : str) ++ [newline];
          ("SIM_OPTS += -g/core_ibex_tb_top/RV32E=0" : str) ++ [newline]].
Proof. by_compute. Qed.
