(* ===== verification/TraceCsv.v ===== *)
(** * Instruction trace CSV files

    vendor/google_riscv-dv/scripts/riscv_trace_csv.py: the entries of an
    instruction trace and the CSV files that hold them, with the reader and the
    writer of Python's [csv] module in its default dialect. *)

From S2P Require Import Prelude PyStr PyRe PyIO IbexConfig RvLib.
From Stdlib Require Import Ascii.
Local Open Scope Z_scope.

(** ** Entries *)

(** [RiscvInstructionTraceEntry].  A column that is missing from a short row is
    [None]; it is only ever printed, so it is held as the text ["None"]. *)
Record trace_entry := TraceEntry {
  e_gpr : list str; e_csr : list str; e_instr : str; e_operand : str; e_pc : str;
  e_binary : str; e_instr_str : str; e_mode : str }.

Definition new_entry : trace_entry := TraceEntry [] [] [] [] [] [] [] [].

Definition get_trace_string (t : trace_entry) : str :=
  "pc[" ++ e_pc t ++ "] " ++ e_instr_str t ++ ": " ++ join " " (e_gpr t) ++ " " ++ join " " (e_csr t).

(** ** [csv.writer] *)

Definition needs_quote (field : str) : bool :=
  existsb (fun c => chr_in [","%char; DQ; CR; newline] c) field.
Definition write_field (field : str) : str :=
  if needs_quote field then [DQ] ++ replace [DQ] [DQ; DQ] field ++ [DQ] else field.
Definition write_row (row : list str) : str :=
  (match row with
   | [[]] => [DQ; DQ]
   | _ => join "," (write_field <$> row)
   end) ++ [CR; newline].

(** ** [csv.reader] *)

Inductive csv_state :=
| StartRecord | StartField | InField | InQuotedField | QuoteInQuotedField | EatCrNl.

Record csv_reader := CsvReader { c_state : csv_state; c_field : str; c_fields : list str }.

Definition fresh_reader : csv_reader := CsvReader StartRecord [] [].
Definition goto (r : csv_reader) (s : csv_state) : csv_reader := CsvReader s (c_field r) (c_fields r).
Definition add_char (r : csv_reader) (c : ascii) (s : csv_state) : csv_reader :=
  CsvReader s (c_field r ++ [c]) (c_fields r).
Definition save_field (r : csv_reader) (s : csv_state) : csv_reader :=
  CsvReader s [] (c_fields r ++ [c_field r]).
Definition is_crnl (c : ascii) : bool := Ascii.eqb c newline || Ascii.eqb c CR.

(** One character at the start of a field, and within one. *)
Definition start_field_char (r : csv_reader) (c : ascii) : csv_reader :=
  if is_crnl c then save_field r EatCrNl
  else if Ascii.eqb c DQ then goto r InQuotedField
  else if Ascii.eqb c "," then save_field r StartField
  else add_char r c InField.

Definition process_char (r : csv_reader) (c : ascii) : res csv_reader :=
  match c_state r with
  | StartRecord => Ok (if is_crnl c then goto r EatCrNl else start_field_char r c)
  | StartField => Ok (start_field_char r c)
  | InField =>
      Ok (if is_crnl c then save_field r EatCrNl
          else if Ascii.eqb c "," then save_field r StartField
          else add_char r c InField)
  | InQuotedField =>
      Ok (if Ascii.eqb c DQ then goto r QuoteInQuotedField else add_char r c InQuotedField)
  | QuoteInQuotedField =>
      Ok (if Ascii.eqb c DQ then add_char r c InQuotedField
          else if Ascii.eqb c "," then save_field r StartField
          else if is_crnl c then save_field r EatCrNl
          else add_char r c InField)
  | EatCrNl => if is_crnl c then Ok r else raise CsvError
  end.

(** The end of a line of the file. *)
Definition process_eol (r : csv_reader) : csv_reader :=
  match c_state r with
  | StartRecord | EatCrNl => goto r StartRecord
  | StartField | InField | QuoteInQuotedField => save_field r StartRecord
  | InQuotedField => r
  end.

Definition process_line (r : csv_reader) (line : str) : res csv_reader :=
  r' ← res_fold process_char r line; Ok (process_eol r').

(** The records of the lines; a quoted field may run over several of them, and
    is closed by the end of the file. *)
Fixpoint read_records (r : csv_reader) (lines : list str) : res (list (list str)) :=
  match lines with
  | [] =>
      match c_state r with
      | InQuotedField => Ok [c_fields (save_field r StartRecord)]
      | _ => Ok []
      end
  | line :: lines' =>
      r' ← process_line r line;
      match c_state r' with
      | StartRecord => rows ← read_records fresh_reader lines'; Ok (c_fields r' :: rows)
      | _ => read_records r' lines'
      end
  end.

Definition csv_rows (text : str) : res (list (list str)) :=
  read_records fresh_reader (lines_keep (universal_newlines text)).

(** [row[k]] of a [csv.DictReader] with these field names: the last column of a
    name counts, a column that is missing from the row is [None], and columns
    without a name are under the key [None]. *)
Definition row_get (fieldnames row : list str) (k : str) : res (option str) :=
  let named := zip fieldnames (Some <$> row) ++
               ((fun f => (f, None)) <$> drop (length row) fieldnames) in
  or_raise KeyError (dict_get (reverse named) k).

(** ** [RiscvInstructionTraceCsv] *)

Definition fields : list str :=
  ["pc" : str; "instr" : str; "gpr" : str; "csr" : str; "binary" : str; "mode" : str;
   "instr_str" : str; "operand" : str; "pad" : str].

Definition start_new_trace : str := write_row fields.

(** The dictionary of an entry in the order of [fields]; there is no [pad]. *)
Definition entry_row (t : trace_entry) : list str :=
  [e_pc t; e_instr t; join ";" (e_gpr t); join ";" (e_csr t); e_binary t; e_mode t;
   e_instr_str t; e_operand t; []].
Definition write_trace_entry (t : trace_entry) : str := write_row (entry_row t).

(** [None] has no [split]. *)
Definition split_semi (v : option str) : res (list str) :=
  s ← or_raise AttributeError v; Ok (split ";"%char s).
Definition none_text (v : option str) : str := default ("None" : str) v.

Definition read_row (fieldnames row : list str) : res trace_entry :=
  gpr ← row_get fieldnames row "gpr" ≫= split_semi;
  csr ← row_get fieldnames row "csr" ≫= split_semi;
  pc ← row_get fieldnames row "pc";
  operand ← row_get fieldnames row "operand";
  binary ← row_get fieldnames row "binary";
  instr_str ← row_get fieldnames row "instr_str";
  instr ← row_get fieldnames row "instr";
  mode ← row_get fieldnames row "mode";
  Ok (TraceEntry gpr csr (none_text instr) (none_text operand) (none_text pc) (none_text binary)
        (none_text instr_str) (none_text mode)).

(** The first record names the fields; empty records after it are skipped. *)
Definition read_trace (text : str) : res (list trace_entry) :=
  rows ← csv_rows text;
  match rows with
  | [] => Ok []
  | fieldnames :: rows' =>
      res_map (read_row fieldnames) (List.filter (fun row => negb (bool_decide (row = []))) rows')
  end.

(** [get_imm_hex_val]: the digits of an immediate as a 32-bit word. *)
Definition get_imm_hex_val (imm : str) : res str :=
  c ← py_nth imm 0;
  imm_val ← (if Ascii.eqb c "-" then Z.opp <$> int_of 0 (drop 1 imm) else int_of 0 imm);
  Ok (drop 2 (sint_to_hex imm_val)).

(** ** What the reader makes of a written row *)

Definition clean (s : str) : Prop := (CR ∉ s) /\ (newline ∉ s).

Lemma res_fold_app {A B} (f : B -> A -> res B) b l1 l2 :
  res_fold f b (l1 ++ l2) = (b' ← res_fold f b l1; res_fold f b' l2).
Proof.
  revert b. induction l1 as [|x l1 IH]; intros b; [done|]. cbn.
  destruct (f b x) as [b'|]; [cbn; apply IH|done].
Qed.

Lemma replace_chr_cons c new x s :
  replace [c] new (x :: s) = (if Ascii.eqb c x then new else [x]) ++ replace [c] new s.
Proof. cbn. destruct (Ascii.eqb c x); [by rewrite andb_true_r || cbn|done]. Qed.

Lemma clean_cons c s : clean (c :: s) <-> is_crnl c = false /\ clean s.
Proof.
  unfold clean, is_crnl. rewrite !not_elem_of_cons, orb_false_iff, !Ascii.eqb_neq. naive_solver.
Qed.

(** A field that is not quoted. *)
Lemma plain_fold f g fs :
  Forall (fun c => chr_in [","%char; DQ; CR; newline] c = false) f ->
  res_fold process_char (CsvReader InField g fs) f = Ok (CsvReader InField (g ++ f) fs).
Proof.
  intros H. revert g. induction H as [|c f Hc Hf IH]; intros g; [by rewrite app_nil_r|].
  unfold chr_in in Hc. apply bool_decide_eq_false in Hc. rewrite !not_elem_of_cons in Hc.
  destruct Hc as (H1 & _ & H3 & H4 & _). cbn [res_fold process_char c_state]. unfold is_crnl.
  rewrite !(proj2 (Ascii.eqb_neq _ _)) by done. cbn [orb mbind res_bind add_char c_field c_fields].
  unfold add_char. cbn. rewrite IH. by rewrite <-app_assoc.
Qed.

(** The inside of a quoted field. *)
Lemma quoted_fold f g fs rest :
  res_fold process_char (CsvReader InQuotedField g fs) (replace [DQ] [DQ; DQ] f ++ rest)
  = res_fold process_char (CsvReader InQuotedField (g ++ f) fs) rest.
Proof.
  revert g. induction f as [|c f IH]; intros g; [by rewrite app_nil_r|].
  rewrite replace_chr_cons, <-app_assoc. destruct (Ascii.eqb_spec DQ c) as [<-|Hn].
  - change (res_fold process_char (CsvReader InQuotedField (g ++ [DQ]) fs) (replace [DQ] [DQ; DQ] f ++ rest)
            = res_fold process_char (CsvReader InQuotedField (g ++ DQ :: f) fs) rest).
    by rewrite IH, <-app_assoc.
  - cbn [app res_fold process_char c_state]. rewrite (proj2 (Ascii.eqb_neq c DQ)) by congruence.
    cbn [mbind res_bind]. unfold add_char. cbn [c_field c_fields]. by rewrite IH, <-app_assoc.
Qed.

(** The states in which a field has just been read. *)
Inductive field_done (f : str) (fs : list str) : csv_reader -> Prop :=
| done_plain : field_done f fs (CsvReader InField f fs)
| done_quoted : field_done f fs (CsvReader QuoteInQuotedField f fs)
| done_empty : f = [] -> field_done f fs (CsvReader StartField f fs)
| done_first : f = [] -> field_done f fs (CsvReader StartRecord f fs).

Lemma field_fold f fs s :
  s = StartRecord \/ s = StartField ->
  exists r, res_fold process_char (CsvReader s [] fs) (write_field f) = Ok r /\ field_done f fs r.
Proof.
  intros Hs. unfold write_field. destruct (needs_quote f) eqn:Eq.
  - exists (CsvReader QuoteInQuotedField f fs). split; [|constructor].
    cbn [app res_fold]. assert (process_char (CsvReader s [] fs) DQ = Ok (CsvReader InQuotedField [] fs)) as ->
      by (by destruct Hs as [-> | ->]). cbn [mbind res_bind]. by rewrite quoted_fold.
  - unfold needs_quote in Eq.
    assert (Forall (fun c => chr_in [","%char; DQ; CR; newline] c = false) f) as Hf.
    { apply Forall_forall. intros c Hc. apply not_true_iff_false. intros Ht.
      apply not_true_iff_false in Eq. apply Eq, existsb_exists. exists c.
      by rewrite <-list_elem_of_In. }
    destruct Hf as [|c f Hc Hf].
    + eexists. split; [reflexivity|]. destruct Hs as [-> | ->]; by constructor.
    + exists (CsvReader InField (c :: f) fs). split; [|constructor]. cbn [res_fold].
      assert (process_char (CsvReader s [] fs) c = Ok (CsvReader InField [c] fs)) as ->.
      { unfold chr_in in Hc. apply bool_decide_eq_false in Hc. rewrite !not_elem_of_cons in Hc.
        destruct Hc as (H1 & H2 & H3 & H4 & _).
        destruct Hs as [-> | ->]; cbn [process_char c_state]; unfold start_field_char, is_crnl;
          by rewrite !(proj2 (Ascii.eqb_neq _ _)) by done. }
      cbn [mbind res_bind]. by rewrite plain_fold.
Qed.

Lemma comma_after f fs r : field_done f fs r ->
  process_char r ","%char = Ok (CsvReader StartField [] (fs ++ [f])).
Proof. by intros []; subst. Qed.

Lemma newline_after f fs r : field_done f fs r -> c_state r <> StartRecord ->
  process_char r newline = Ok (CsvReader EatCrNl [] (fs ++ [f])).
Proof. by intros []; subst. Qed.

(** A row of at least two fields. *)
Lemma row_fold row fs s :
  s = StartRecord \/ s = StartField -> row <> [] -> (s = StartRecord -> row <> [[]]) ->
  res_fold process_char (CsvReader s [] fs) (join "," (write_field <$> row) ++ [newline])
  = Ok (CsvReader EatCrNl [] (fs ++ row)).
Proof.
  revert fs s. induction row as [|f row IH]; intros fs s Hs Hne He; [done|].
  destruct (field_fold f fs s Hs) as (r & Hr & Hd). destruct row as [|f' row].
  - cbn [fmap list_fmap join]. rewrite res_fold_app, Hr. cbn [mbind res_bind res_fold].
    rewrite (newline_after f fs r Hd); [done|]. intros Hst. inversion Hd as [| | |E Er]; subst; try done.
    destruct Hs as [-> | ->]; [by apply He|].
    assert (c_state (CsvReader StartField [] fs) = StartRecord) as Ec; [|done].
    change (write_field []) with ([] : str) in Hr. cbn in Hr. injection Hr as Hr. done.
  - cbn [fmap list_fmap join]. rewrite <-!app_assoc, res_fold_app, Hr. cbn [mbind res_bind].
    cbn [String.list_ascii_of_string app res_fold]. rewrite (comma_after f fs r Hd). cbn [mbind res_bind].
    specialize (IH (fs ++ [f]) StartField (or_intror eq_refl) ltac:(done) ltac:(done)).
    etransitivity; [exact IH|]. by rewrite <-app_assoc.
Qed.

Lemma clean_app a b : clean (a ++ b) <-> clean a /\ clean b.
Proof. unfold clean. rewrite !elem_of_app. naive_solver. Qed.

Lemma clean_join sep l : clean sep -> Forall clean l -> clean (join sep l).
Proof.
  intros Hs. induction 1 as [|w l Hw Hl IH]; [by split; apply not_elem_of_nil|].
  destruct l as [|w' l]; [done|]. cbn [join] in *. by rewrite !clean_app.
Qed.

Lemma clean_write_field f : clean f -> clean (write_field f).
Proof.
  intros Hf. unfold write_field. case_match; [|done]. rewrite !clean_app.
  split_and!; [split; apply (bool_decide_unpack _); vm_compute; exact I| |
               split; apply (bool_decide_unpack _); vm_compute; exact I].
  clear H. induction f as [|c f IH]; [done|]. rewrite replace_chr_cons, clean_app.
  apply clean_cons in Hf as [Hc Hf]. split; [|by apply IH].
  assert (clean []) as Hn by (split; apply not_elem_of_nil).
  case_match; rewrite !clean_cons; [by split_and!|by split].
Qed.

Lemma write_row_text row : (2 <= length row)%nat ->
  write_row row = join "," (write_field <$> row) ++ [CR; newline].
Proof. destruct row as [|[] [|]]; cbn; try lia; done. Qed.

(** *** Reading never raises

    After the newline translation a line break is only at the end of a line, so
    the reader never meets a character after one. *)
Lemma process_body s r :
  Forall (fun c => is_crnl c = false) s -> c_state r <> EatCrNl ->
  exists r', res_fold process_char r s = Ok r' /\ c_state r' <> EatCrNl.
Proof.
  intros H. revert r; induction H as [|c s Hc Hs IH]; intros r Hr; [by exists r|].
  cbn [res_fold]. assert (exists r1, process_char r c = Ok r1 /\ c_state r1 <> EatCrNl) as (r1 & -> & H1).
  { unfold process_char, start_field_char. rewrite Hc.
    destruct (c_state r); try done; eexists; (split; [reflexivity|]); repeat case_match; done. }
  cbn [mbind res_bind]. by apply IH.
Qed.

Lemma process_line_total body r :
  Forall (fun c => is_crnl c = false) body -> c_state r <> EatCrNl ->
  (exists r', process_line r body = Ok r' /\ c_state r' <> EatCrNl) /\
  (exists r', process_line r (body ++ [newline]) = Ok r' /\ c_state r' <> EatCrNl).
Proof.
  intros Hb Hr. destruct (process_body body r Hb Hr) as (r1 & E1 & H1). unfold process_line.
  rewrite res_fold_app, E1. cbn [mbind res_bind res_fold]. split.
  - eexists. split; [reflexivity|]. unfold process_eol. destruct (c_state r1) eqn:E; try done.
    by rewrite E.
  - assert (exists r2, process_char r1 newline = Ok r2) as [r2 ->].
    { unfold process_char, start_field_char. cbn [is_crnl]. destruct (c_state r1); try done; by eexists. }
    cbn [mbind res_bind]. eexists. split; [reflexivity|]. unfold process_eol.
    destruct (c_state r2) eqn:E; try done. by rewrite E.
Qed.

Definition good_line (l : str) : Prop :=
  exists body, Forall (fun c => is_crnl c = false) body /\ (l = body \/ l = body ++ [newline]).

Lemma lines_good s : CR ∉ s -> Forall good_line (lines_keep s).
Proof.
  assert (good_line []) as Hn by (exists []; split; [constructor|by left]).
  induction s as [|c s IH]; [by repeat constructor|]. intros [Hc Hs]%not_elem_of_cons. cbn [lines_keep].
  specialize (IH Hs). destruct (Ascii.eqb_spec c newline) as [->|Hne].
  - constructor; [|done]. exists []. split; [constructor|by right].
  - assert (is_crnl c = false) as Hf.
    { unfold is_crnl. apply orb_false_iff. split; apply Ascii.eqb_neq; congruence. }
    destruct (lines_keep s) as [|l ls].
    + constructor; [|done]. exists [c]. split; [by repeat constructor|by left].
    + apply Forall_cons in IH as [(body & Hb & [-> | ->]) IH]; (constructor; [|done]);
        exists (c :: body); (split; [by constructor|]); [by left|by right].
Qed.

Lemma read_records_total lines r :
  Forall good_line lines -> c_state r <> EatCrNl -> exists rows, read_records r lines = Ok rows.
Proof.
  intros H. revert r; induction H as [|l lines (body & Hb & Hl) _ IH]; intros r Hr; cbn [read_records].
  - destruct (c_state r); by eexists.
  - assert (exists r', process_line r l = Ok r' /\ c_state r' <> EatCrNl) as (r' & -> & Hr').
    { destruct (process_line_total body r Hb Hr). by destruct Hl as [-> | ->]. }
    cbn [mbind res_bind]. destruct (IH fresh_reader ltac:(done)) as [rows Erows]. rewrite Erows.
    destruct (c_state r') eqn:Es; cbn [mbind res_bind]; [by eexists|apply IH; congruence..].
Qed.

(** Every text is read. *)
Lemma csv_total text : exists rows, csv_rows text = Ok rows.
Proof. apply read_records_total; [|done]. apply lines_good, universal_no_cr. Qed.

Lemma comma_clean : clean ",".
Proof. split; apply (bool_decide_unpack _); vm_compute; exact I. Qed.

Lemma rows_roundtrip rows :
  Forall (fun row => (2 <= length row)%nat /\ Forall clean row) rows ->
  csv_rows (mjoin (write_row <$> rows)) = Ok rows.
Proof.
  unfold csv_rows. induction 1 as [|row rows [Hlen Hc] Hr IH]; [done|].
  change (mjoin (write_row <$> row :: rows)) with (write_row row ++ mjoin (write_row <$> rows)).
  rewrite write_row_text by done.
  assert (clean (join "," (write_field <$> row))) as [H1 H2].
  { apply clean_join; [exact comma_clean|]. apply Forall_fmap. eapply Forall_impl; [exact Hc|].
    intros f. apply clean_write_field. }
  rewrite <-app_assoc. cbn [app]. rewrite universal_line, lines_keep_line by done.
  cbn [read_records]. unfold process_line.
  change (res_fold process_char fresh_reader) with (res_fold process_char (CsvReader StartRecord [] [])).
  rewrite row_fold; [|by left|by destruct row; cbn in *; [lia|]|destruct row as [|? [|]]; cbn in *; lia || done].
  cbn [mbind res_bind process_eol c_state goto c_field c_fields]. by rewrite IH.
Qed.

(** ** The round trip of a trace *)

(** What is read back: a trace without register updates gets one empty update,
    since an empty text splits into one empty part. *)
Definition norm (l : list str) : list str := match l with [] => [[]] | _ => l end.
Definition norm_entry (t : trace_entry) : trace_entry :=
  TraceEntry (norm (e_gpr t)) (norm (e_csr t)) (e_instr t) (e_operand t) (e_pc t) (e_binary t)
    (e_instr_str t) (e_mode t).

Record entry_ok (t : trace_entry) : Prop := {
  gpr_ok : Forall (fun u => clean u /\ ";"%char ∉ u) (e_gpr t);
  csr_ok : Forall (fun u => clean u /\ ";"%char ∉ u) (e_csr t);
  text_ok : Forall clean [e_instr t; e_operand t; e_pc t; e_binary t; e_instr_str t; e_mode t] }.

Lemma split_join_norm l : Forall (fun u => clean u /\ ";"%char ∉ u) l ->
  split ";"%char (join ";" l) = norm l.
Proof.
  intros H. destruct H as [|u l Hu Hl]; [done|]. apply split_join; [done|].
  constructor; [apply Hu|]. eapply Forall_impl; [exact Hl|]. by intros ? [].
Qed.

Lemma read_entry_row t : entry_ok t -> read_row fields (entry_row t) = Ok (norm_entry t).
Proof.
  intros [Hg Hc _]. unfold read_row.
  assert (forall k v, row_get fields (entry_row t) k = Ok v ->
            forall A (f : option str -> res A), (row_get fields (entry_row t) k ≫= f) = f v) as Hk
    by (by intros k v ->).
  rewrite (Hk "gpr" (Some (join ";" (e_gpr t))) eq_refl), (Hk "csr" (Some (join ";" (e_csr t))) eq_refl).
  cbn [split_semi or_raise mbind res_bind].
  rewrite !split_join_norm by done. reflexivity.
Qed.

Lemma csv_read_back (ts : list trace_entry) :
  Forall entry_ok ts ->
  read_trace (start_new_trace ++ mjoin (write_trace_entry <$> ts)) = Ok (norm_entry <$> ts).
Proof.
  intros H. unfold read_trace.
  assert (start_new_trace ++ mjoin (write_trace_entry <$> ts)
          = mjoin (write_row <$> (fields :: (entry_row <$> ts)))) as ->.
  { change (mjoin (write_row <$> fields :: (entry_row <$> ts)))
      with (write_row fields ++ mjoin (write_row <$> (entry_row <$> ts))).
    by rewrite <-list_fmap_compose. }
  rewrite rows_roundtrip.
  - cbn [mbind res_bind].
    replace (List.filter _ _) with (entry_row <$> ts) by (clear; induction ts as [|t ts IH]; cbn; by rewrite <-?IH).
    apply res_map_ok. induction H as [|t ts Ht Hts IH]; [constructor|].
    cbn [fmap list_fmap]. constructor; [by apply read_entry_row|done].
  - constructor.
    + split; [cbn; lia|]. repeat constructor; apply (bool_decide_unpack _); vm_compute; exact I.
    + apply Forall_fmap. eapply Forall_impl; [exact H|]. intros t [Hg Hc Ht]. split; [cbn; lia|].
      repeat match goal with H : Forall clean (_ :: _) |- _ => apply Forall_cons in H as [? H] end.
      assert (forall l, Forall (fun u => clean u /\ ";"%char ∉ u) l -> clean (join ";" l)) as Hj.
      { intros l Hl. apply clean_join; [split; apply (bool_decide_unpack _); vm_compute; exact I|].
        eapply Forall_impl; [exact Hl|]. by intros ? []. }
      repeat (constructor; [first [done | by apply Hj | split; apply not_elem_of_nil]|]). constructor.
Qed.

(** C35 Writing a trace and reading it back gives the trace, with an entry
    without updates read as one with a single empty update: the quoting of the
    writer is undone by the reader for every text without line breaks. *)
Theorem csv_roundtrip (ts : list trace_entry) :
  Forall entry_ok ts ->
  read_trace (start_new_trace ++ mjoin (write_trace_entry <$> ts)) = Ok (norm_entry <$> ts).
Proof. apply csv_read_back. Qed.

Definition demo_csv_entry : trace_entry :=
  TraceEntry ["sp:80001000" : str] [] "addi" "sp,sp,-16" "80000080" "1141" ("addi" ++ [DQ] ++ "x2,x2") "3".

Lemma csv_roundtrip_witness :
  read_trace (start_new_trace ++ mjoin (write_trace_entry <$> [demo_csv_entry])) = Ok [norm_entry demo_csv_entry] /\
  entry_ok demo_csv_entry.
Proof.
  assert (entry_ok demo_csv_entry) as H.
  { constructor.
    - apply Forall_singleton. split; [split|]; apply (bool_decide_unpack _); vm_compute; exact I.
    - constructor.
    - repeat constructor; apply (bool_decide_unpack _); vm_compute; exact I. }
  split; [|exact H]. apply (csv_roundtrip [demo_csv_entry]). apply Forall_cons. split; [exact H|constructor].
Defined.
