(* ===== verification/InstrCompare.v ===== *)
(** * Comparing two instruction traces

    vendor/google_riscv-dv/scripts/instr_trace_compare.py: the comparison of two
    trace CSV files by the register updates they record, the text it writes to
    its log, and what its verdict means. *)

From S2P Require Import Prelude PyStr PyRe PyIO IbexConfig TestList TestRun TraceCsv.
From Stdlib Require Import Ascii.
Local Open Scope Z_scope.

(** ** [check_update_gpr] *)

Definition gpr_map := gmap str str.

(** The loop over the updates; [changed] is [gpr_state_change]. *)
Fixpoint check_updates (updates : list str) (changed : bool) (gpr : gpr_map) : res (bool * gpr_map) :=
  match updates with
  | [] => Ok (changed, gpr)
  | update :: updates' =>
      if bool_decide (update = []) then Ok (false, gpr)
      else
        match split ":"%char update with
        | [rd; rd_val] =>
            changed ← (match gpr !! rd with
                       | Some v => Ok (if bool_decide (rd_val = v) then changed else true)
                       | None => n ← int_of 16 rd_val; Ok (if n =? 0 then changed else true)
                       end);
            check_updates updates' changed (<[rd := rd_val]> gpr)
        | _ => Raise (SystemExit 1) ("Illegal GPR update format:" ++ update)
        end
  end.
Definition check_update_gpr (gpr_update : list str) (gpr : gpr_map) : res (bool * gpr_map) :=
  check_updates gpr_update false gpr.

(** ** [compare_trace_csv] *)

(** The truth value of an option; an object of another class counts as true. *)
Definition py_bool (v : yval) : bool :=
  match v with
  | YNone => false
  | YScalar (SStr s) => negb (bool_decide (s = []))
  | YScalar (SInt n) => negb (n =? 0)
  | YScalar (SBool b) => b
  | YList l => match l with [] => false | _ => true end
  | YMap l => match l with [] => false | _ => true end
  | YOther _ => true
  end.

(** Moving trace 2 forward to its next register change: whether there is one,
    the registers after it and the index behind it. *)
Fixpoint advance (rest : list trace_entry) (gpr_val_2 : gpr_map) (trace_2_index : nat)
  : res (bool * gpr_map * nat) :=
  match rest with
  | [] => Ok (false, gpr_val_2, trace_2_index)
  | t :: rest' =>
      r ← check_update_gpr (e_gpr t) gpr_val_2;
      let (changed, g) := r : bool * gpr_map in
      if changed then Ok (true, g, S trace_2_index) else advance rest' g (S trace_2_index)
  end.

Record cmp := Cmp {
  gpr_val_1 : gpr_map; gpr_val_2 : gpr_map; trace_1_index : nat; trace_2_index : nat;
  matched_cnt : Z; mismatch_cnt : Z }.

Section Compare.
Context (name1 name2 : str) (mismatch_print_limit : yval) (instr_trace_1 instr_trace_2 : list trace_entry).

Definition nat_str (n : nat) : str := str_of_Z (Z.of_nat n).
Definition mismatch_line (n : Z) : str := "Mismatch[" ++ str_of_Z n ++ "]:" ++ [newline].
Definition trace_line (name : str) (index : nat) (t : trace_entry) : str :=
  name ++ "[" ++ nat_str index ++ "] : " ++ get_trace_string t ++ [newline].
Definition left_line (n : nat) (name : str) : str :=
  nat_str n ++ " instructions left in trace " ++ name ++ [newline].

(** The comparison of the updates of two instructions; unequal numbers of
    updates and unequal updates are reported in the same way. *)
Definition compare_updates (trace trace2 : trace_entry) (index2 : nat) (st : cmp) : out cmp :=
  if bool_decide (e_gpr trace = e_gpr trace2) then
    mret (Cmp (gpr_val_1 st) (gpr_val_2 st) (trace_1_index st) (trace_2_index st)
              (matched_cnt st + 1) (mismatch_cnt st))
  else
    let n := mismatch_cnt st + 1 in
    limit ← lift (as_int mismatch_print_limit);
    _ ← (if n <=? limit then
           say (mismatch_line n ++ trace_line name1 index2 trace ++ trace_line name2 index2 trace2)
         else mret tt);
    mret (Cmp (gpr_val_1 st) (gpr_val_2 st) (trace_1_index st) (trace_2_index st) (matched_cnt st) n).

(** One instruction of trace 1: the state, and whether the loop stops. *)
Definition compare_instr (trace : trace_entry) (st : cmp) : out (cmp * bool) :=
  let i1 := S (trace_1_index st) in
  let st := Cmp (gpr_val_1 st) (gpr_val_2 st) i1 (trace_2_index st) (matched_cnt st) (mismatch_cnt st) in
  if bool_decide (e_gpr trace = []) then mret (st, false)
  else
    r1 ← lift (check_update_gpr (e_gpr trace) (gpr_val_1 st));
    let (changed1, g1) := r1 : bool * gpr_map in
    let st := Cmp g1 (gpr_val_2 st) i1 (trace_2_index st) (matched_cnt st) (mismatch_cnt st) in
    if negb changed1 then mret (st, false)
    else
      r2 ← lift (advance (drop (trace_2_index st) instr_trace_2) (gpr_val_2 st) (trace_2_index st));
      let '((changed2, g2), i2) := r2 : bool * gpr_map * nat in
      let st := Cmp g1 g2 i1 i2 (matched_cnt st) (mismatch_cnt st) in
      st ← (if negb changed2 then
              let n := mismatch_cnt st + 1 in
              _ ← say (mismatch_line n ++ "[" ++ nat_str i1 ++ "] " ++ name1 ++ " : " ++
                       get_trace_string trace ++ [newline] ++
                       left_line (length instr_trace_1 - i1 + 1) name1);
              mret (Cmp g1 g2 i1 i2 (matched_cnt st) n)
            else
              trace2 ← lift (py_nth instr_trace_2 (i2 - 1));
              compare_updates trace trace2 (i2 - 1) st);
      mret (st, bool_decide (i2 = length instr_trace_2)).

Fixpoint compare_loop (l : list trace_entry) (st : cmp) : out cmp :=
  match l with
  | [] => mret st
  | trace :: l' =>
      r ← compare_instr trace st;
      let (st', stop) := r : cmp * bool in
      if stop then mret st' else compare_loop l' st'
  end.

(** The instructions of trace 2 from its next register change on. *)
Definition remaining (st : cmp) : out Z :=
  r2 ← lift (advance (drop (trace_2_index st) instr_trace_2) (gpr_val_2 st) (trace_2_index st));
  let '((changed2, _), i2) := r2 : bool * gpr_map * nat in
  if changed2 then
    let n := (length instr_trace_2 - (i2 - 1))%nat in
    _ ← say (left_line n name2); mret (Z.of_nat n)
  else mret 0.

Definition compare_result (matched mismatch : Z) : str :=
  if mismatch =? 0 then "[PASSED]: " ++ str_of_Z matched ++ " matched" ++ [newline]
  else "[FAILED]: " ++ str_of_Z matched ++ " matched, " ++ str_of_Z mismatch ++ " mismatch" ++ [newline].

Definition compare_traces (in_order_mode : bool) : out str :=
  counts ← (if in_order_mode then
              st ← compare_loop instr_trace_1 (Cmp ∅ ∅ 0 0 0 0);
              n ← remaining st;
              mret (matched_cnt st, mismatch_cnt st + n)
            else mret (0, 0) : out (Z * Z));
  let result := compare_result counts.1 counts.2 in
  _ ← say (result ++ [newline]);
  mret result.
End Compare.

(** The optional arguments. *)
Definition compare_kwargs : list str :=
  ["in_order_mode" : str; "coalescing_limit" : str; "verbose" : str; "mismatch_print_limit" : str;
   "compare_final_value_only" : str].
Definition kwarg (opts : entry) (k : str) (d : yval) : yval := default d (dict_get opts k).

(** [compare_trace_csv].  The log is opened, and so created, first; what was
    written to it stays when an exception ends the comparison.  With an empty
    log name the text goes to standard output, which is left out. *)
Definition compare_trace_csv_text (csv1 csv2 name1 name2 : str) (opts : entry) (fs : fsys) : out str :=
  let in_order_mode :=
    if py_bool (kwarg opts "compare_final_value_only" (YScalar (SInt 0))) then false
    else py_bool (kwarg opts "in_order_mode" (YScalar (SInt 1))) in
  _ ← say (name1 ++ " : " ++ csv1 ++ [newline] ++ name2 ++ " : " ++ csv2 ++ [newline]);
  text1 ← lift (or_raise FileNotFoundError (fs !! csv1));
  text2 ← lift (or_raise FileNotFoundError (fs !! csv2));
  instr_trace_1 ← lift (read_trace text1);
  instr_trace_2 ← lift (read_trace text2);
  compare_traces name1 name2 (kwarg opts "mismatch_print_limit" (YScalar (SInt 5)))
    instr_trace_1 instr_trace_2 in_order_mode.

Definition compare_trace_csv (csv1 csv2 name1 name2 log : str) (opts : entry) (fs : fsys)
  : res str * fsys :=
  if negb (forallb (fun k => bool_decide (k ∈ compare_kwargs)) opts.*1) then (raise TypeError, fs)
  else
    let old := default [] (fs !! log) in
    let created := if bool_decide (log = []) then fs else <[log := old]> fs in
    let (text, r) := compare_trace_csv_text csv1 csv2 name1 name2 opts created in
    (r, if bool_decide (log = []) then fs else <[log := old ++ text]> fs).

Definition upd (u : str) : trace_entry := TraceEntry [u] [[]] [] [] [] [] [] [].
Example compare_traces_ex :
  (compare_traces "ibex" "spike" (YScalar (SInt 5)) [upd "a0:1"; upd "a0:1"; upd "a1:2"]
     [upd "a0:1"; upd ""; upd "a1:2"] true).2 = Ok (("[PASSED]: 2 matched" : str) ++ [newline]).
Proof. by_compute. Qed.

(** ** What the comparison counts *)

(** The instructions of a trace by what they change: the updates of one that
    changes a register, or nothing. *)
Definition event := option (list str).
Fixpoint events (g : gpr_map) (trace : list trace_entry) : res (list event) :=
  match trace with
  | [] => Ok []
  | t :: trace' =>
      r ← check_update_gpr (e_gpr t) g;
      l ← events r.2 trace';
      Ok ((if r.1 : bool then Some (e_gpr t) else None) :: l)
  end.
Definition changes (E : list event) : list (list str) := omap id E.

(** The first change of a trace and the trace behind it. *)
Fixpoint next_change (E : list event) : option (list str * list event) :=
  match E with
  | [] => None
  | None :: E' => next_change E'
  | Some c :: E' => Some (c, E')
  end.

(** Matches and mismatches of the changes of trace 1 against trace 2. *)
Fixpoint counts (C1 : list (list str)) (E2 : list event) : Z * Z :=
  match C1 with
  | [] => match next_change E2 with None => (0, 0) | Some (_, E2') => (0, Z.of_nat (S (length E2'))) end
  | c1 :: C1' =>
      match next_change E2 with
      | None => (0, 1)
      | Some (c2, E2') =>
          let '(m, k) := match E2' with [] => (0, 0) | _ => counts C1' E2' end in
          if bool_decide (c1 = c2) then (m + 1, k) else (m, k + 1)
      end
  end.

Lemma advance_events rest g i E :
  events g rest = Ok E ->
  match next_change E with
  | None => exists g', advance rest g i = Ok (false, g', (i + length rest)%nat)
  | Some (c, E') => exists g' pre t rest', rest = pre ++ t :: rest' /\ c = e_gpr t /\
      advance rest g i = Ok (true, g', (i + S (length pre))%nat) /\ events g' rest' = Ok E'
  end.
Proof.
  revert g i E. induction rest as [|t rest IH]; intros g i E; cbn [events advance].
  - intros [= <-]. exists g. by rewrite Nat.add_0_r.
  - destruct (check_update_gpr (e_gpr t) g) as [[ch g1]|]; [|done]. cbn [mbind res_bind fst snd].
    destruct (events g1 rest) as [E'|] eqn:Ee; [|done]. intros [= <-]. destruct ch; cbn [next_change].
    + exists g1, [], t, rest. by rewrite Nat.add_1_r.
    + specialize (IH g1 (S i) E' Ee). destruct (next_change E') as [[c E'']|].
      * destruct IH as (g' & pre & t' & rest' & -> & -> & Ha & Hev). exists g', (t :: pre), t', rest'.
        rewrite Ha. cbn [length]. split_and!; [done..| |done]. do 2 f_equal. lia.
      * destruct IH as [g' ->]. exists g'. cbn [length]. do 2 f_equal. lia.
Qed.

Lemma events_length g trace E : events g trace = Ok E -> length E = length trace.
Proof.
  revert g E. induction trace as [|t trace IH]; intros g E; cbn; [by intros [= <-]|].
  destruct (check_update_gpr _ _) as [[ch g1]|]; [|done]. cbn.
  destruct (events g1 trace) as [E'|] eqn:Ee; [|done]. intros [= <-]. cbn. by rewrite (IH g1 E').
Qed.


Section Counts.
Context (name1 name2 : str) (limit : yval) (tr1 tr2 : list trace_entry) (lim : Z).
Hypothesis limit_int : as_int limit = Ok lim.

Lemma drop_pre {A} i (l pre rest : list A) : drop i l = pre ++ rest -> drop (i + length pre) l = rest.
Proof. intros H. by rewrite <-drop_drop, H, drop_app_length. Qed.

(** What [compare_loop] and the scan behind it add to the counts of [st]. *)
Definition adds (r : out cmp) (st : cmp) (mk : Z * Z) : Prop :=
  exists st' n, r.2 = Ok st' /\ (remaining name2 tr2 st').2 = Ok n /\
    matched_cnt st' = matched_cnt st + mk.1 /\ mismatch_cnt st' + n = mismatch_cnt st + mk.2.

Lemma remaining_end st : trace_2_index st = length tr2 -> (remaining name2 tr2 st).2 = Ok 0.
Proof. intros E. unfold remaining. by rewrite E, drop_all. Qed.

Lemma adds_end st E2 : (trace_2_index st <= length tr2)%nat ->
  events (gpr_val_2 st) (drop (trace_2_index st) tr2) = Ok E2 -> adds (mret st) st (counts [] E2).
Proof.
  intros Hi H2. exists st, (counts [] E2).2. split_and!; [done| |cbn; destruct (next_change E2) as [[]|]; cbn; lia|done].
  unfold remaining. pose proof (advance_events _ _ (trace_2_index st) _ H2) as Ha. cbn [counts].
  destruct (next_change E2) as [[c E']|].
  - destruct Ha as (g' & pre & t & rest' & Hd & -> & Ha & Hev).
    rewrite (out_bind_ok (lift _) _ _ Ha). cbn [snd out_bind mbind mret out_ret say]. do 2 f_equal.
    rewrite (events_length _ _ _ Hev).
    assert (length tr2 = trace_2_index st + (length pre + S (length rest')))%nat as ->; [|lia].
    apply (f_equal length) in Hd. rewrite length_drop, length_app in Hd. cbn in Hd. lia.
  - destruct Ha as [g' Ha]. by rewrite (out_bind_ok (lift _) _ _ Ha).
Qed.

Lemma compare_updates_counts t t2 i st :
  exists st', (compare_updates name1 name2 limit t t2 i st).2 = Ok st' /\
    gpr_val_1 st' = gpr_val_1 st /\ gpr_val_2 st' = gpr_val_2 st /\
    trace_1_index st' = trace_1_index st /\ trace_2_index st' = trace_2_index st /\
    (matched_cnt st', mismatch_cnt st') =
      (if bool_decide (e_gpr t = e_gpr t2) then (matched_cnt st + 1, mismatch_cnt st)
       else (matched_cnt st, mismatch_cnt st + 1)).
Proof.
  unfold compare_updates. case_bool_decide; [by eexists|].
  rewrite (out_bind_ok (lift _) _ lim) by done. eexists.
  split_and!; [rewrite (out_bind_ok _ _ tt); [done|by case_match]|done..].
Qed.

(** A change in trace 1 that meets one in trace 2. *)
Lemma compare_instr_change t st g1 g2 pre t2 rest :
  e_gpr t <> [] -> check_update_gpr (e_gpr t) (gpr_val_1 st) = Ok (true, g1) ->
  drop (trace_2_index st) tr2 = pre ++ t2 :: rest ->
  advance (drop (trace_2_index st) tr2) (gpr_val_2 st) (trace_2_index st)
    = Ok (true, g2, (trace_2_index st + S (length pre))%nat) ->
  exists st', (compare_instr name1 name2 limit tr1 tr2 t st).2 =
      Ok (st', bool_decide (rest = [])) /\
    gpr_val_1 st' = g1 /\ gpr_val_2 st' = g2 /\
    trace_2_index st' = (trace_2_index st + S (length pre))%nat /\
    matched_cnt st' = matched_cnt st + (if bool_decide (e_gpr t = e_gpr t2) then 1 else 0) /\
    mismatch_cnt st' = mismatch_cnt st + (if bool_decide (e_gpr t = e_gpr t2) then 0 else 1).
Proof.
  intros He Ec Hd Ha.
  assert (length tr2 = trace_2_index st + S (length pre) + length rest)%nat as Hlen.
  { pose proof (f_equal length Hd) as Hl. rewrite length_drop, length_app in Hl. cbn in Hl. lia. }
  assert (py_nth tr2 (trace_2_index st + S (length pre) - 1) = Ok t2) as Hn.
  { unfold py_nth. replace (trace_2_index st + S (length pre) - 1)%nat with (trace_2_index st + length pre)%nat by lia.
    by rewrite <-lookup_drop, Hd, list_lookup_middle. }
  set (i2 := (trace_2_index st + S (length pre))%nat) in *.
  destruct (compare_updates_counts t t2 (i2 - 1)
              (Cmp g1 g2 (S (trace_1_index st)) i2 (matched_cnt st) (mismatch_cnt st)))
    as (st' & Hs & G1 & G2 & G3 & G4 & Hmk).
  exists st'. unfold compare_instr. rewrite bool_decide_false by done.
  rewrite (out_bind_ok (lift _) _ _ Ec). cbn [negb].
  rewrite (out_bind_ok (lift _) _ _ Ha). cbn [negb].
  rewrite (out_bind_ok _ _ st').
  - cbn [snd mret out_ret]. split; [|case_bool_decide; injection Hmk as -> ->; split_and!; cbn in *; lia || done].
    do 2 f_equal. apply bool_decide_ext. rewrite Hlen. split; intros E; [destruct rest; [done|cbn in E; lia]|].
    rewrite E. cbn. lia.
  - rewrite (out_bind_ok (lift _) _ _ Hn). exact Hs.
Qed.

Lemma compare_loop_counts l st E1 E2 :
  (trace_2_index st <= length tr2)%nat -> events (gpr_val_1 st) l = Ok E1 ->
  events (gpr_val_2 st) (drop (trace_2_index st) tr2) = Ok E2 ->
  adds (compare_loop name1 name2 limit tr1 tr2 l st) st (counts (changes E1) E2).
Proof.
  revert st E1 E2. induction l as [|t l IH]; intros st E1 E2 Hi H1 H2.
  { injection H1 as <-. by apply adds_end. }
  cbn [events] in H1. destruct (check_update_gpr (e_gpr t) (gpr_val_1 st)) as [[ch g1]|] eqn:Ec; [|done].
  cbn [mbind res_bind fst snd] in H1. destruct (events g1 l) as [E1'|] eqn:Ee; [|done].
  injection H1 as <-. cbn [compare_loop].
  destruct (decide (e_gpr t = [])) as [He|He].
  { unfold compare_instr. rewrite bool_decide_true by done.
    rewrite He in Ec. injection Ec as <- <-. cbn [changes omap list_omap id].
    exact (IH (Cmp _ _ _ _ _ _) E1' E2 Hi Ee H2). }
  destruct ch; cbn [changes omap list_omap id].
  2:{ assert (adds (compare_loop name1 name2 limit tr1 tr2 l
              (Cmp g1 (gpr_val_2 st) (S (trace_1_index st)) (trace_2_index st) (matched_cnt st) (mismatch_cnt st)))
              st (counts (changes E1') E2)) as (st' & n & Hr & Hrest) by exact (IH (Cmp _ _ _ _ _ _) E1' E2 Hi Ee H2).
      exists st', n. split; [|exact Hrest]. rewrite (out_bind_ok _ _ (Cmp g1 (gpr_val_2 st)
        (S (trace_1_index st)) (trace_2_index st) (matched_cnt st) (mismatch_cnt st), false)); [exact Hr|].
      unfold compare_instr. rewrite bool_decide_false by done.
      rewrite (out_bind_ok (lift _) _ _ Ec). reflexivity. }
  pose proof (advance_events _ _ (trace_2_index st) _ H2) as Ha. cbn [counts].
  destruct (next_change E2) as [[c E']|].
  - destruct Ha as (g' & pre & t2 & rest' & Hd & -> & Ha & Hev).
    pose proof (drop_pre _ _ (pre ++ [t2]) rest' ltac:(by rewrite <-app_assoc)) as Hd'.
    rewrite length_app, Nat.add_1_r in Hd'.
    destruct (compare_instr_change t st g1 g' pre t2 rest' He Ec Hd Ha)
      as (st' & Hs & G1 & G2 & G4 & Hm & Hk).
    unfold adds. rewrite (out_bind_ok _ _ _ Hs). pose proof (events_length _ _ _ Hev) as Hlen.
    destruct (decide (rest' = [])) as [Hstop|Hstop];
      [rewrite (bool_decide_true _ Hstop)|rewrite (bool_decide_false _ Hstop)].
    + rewrite Hstop in Hlen, Hd. apply nil_length_inv in Hlen. subst E'. exists st', 0. split_and!; [done|..].
      * apply remaining_end. rewrite G4. apply (f_equal length) in Hd.
        rewrite length_drop, length_app in Hd. cbn in Hd. lia.
      * rewrite Hm. case_bool_decide; cbn; lia.
      * rewrite Hk. case_bool_decide; cbn; lia.
    + destruct (IH st' E1' E') as (st'' & n & Hr & Hn & Hm' & Hk').
      { rewrite G4. apply (f_equal length) in Hd. rewrite length_drop, length_app in Hd. cbn in Hd. lia. }
      { by rewrite G1. } { by rewrite G2, G4, Hd'. }
      exists st'', n. split_and!; [done..| |]; destruct E' as [|e E']; try (by destruct Hstop; apply nil_length_inv; symmetry);
        fold (changes E1'); destruct (counts (changes E1') (e :: E')) as [m k]; cbn [fst snd] in *;
        case_bool_decide; cbn [fst snd]; lia.
  - destruct Ha as [g' Ha]. rewrite length_drop in Ha.
    replace (trace_2_index st + (length tr2 - trace_2_index st))%nat with (length tr2) in Ha by lia.
    unfold adds. eexists (Cmp g1 g' (S (trace_1_index st)) (length tr2) (matched_cnt st) (mismatch_cnt st + 1)), 0.
    split_and!; [|by apply remaining_end|cbn; lia..].
    rewrite (out_bind_ok _ _ (Cmp g1 g' (S (trace_1_index st)) (length tr2) (matched_cnt st) (mismatch_cnt st + 1), true));
      [done|].
    unfold compare_instr. rewrite bool_decide_false by done.
    rewrite (out_bind_ok (lift _) _ _ Ec). cbn [negb].
    rewrite (out_bind_ok (lift _) _ _ Ha). cbn [negb].
    erewrite (out_bind_ok _ _ _); [|reflexivity]. cbn [snd mret out_ret trace_2_index]. by rewrite bool_decide_true.
Qed.
End Counts.

(** ** The verdict *)

(** Trace 1 makes the changes of trace 2 and, unless trace 2 ends with one, no
    others. *)
Definition agree (C1 : list (list str)) (E2 : list event) : Prop :=
  C1 = changes E2 \/ (changes E2 `prefix_of` C1 /\ exists c, last E2 = Some (Some c)).

Lemma next_change_spec E :
  match next_change E with
  | None => changes E = [] /\ forall c, last E <> Some (Some c)
  | Some (c, E') => changes E = c :: changes E' /\
      (forall d, last E = Some (Some d) <-> (E' = [] /\ c = d) \/ last E' = Some (Some d))
  end.
Proof.
  induction E as [|[c|] E IH]; cbn [next_change]; [done| |].
  - split; [done|]. intros d. destruct E as [|e E]; [naive_solver|].
    rewrite last_cons_cons. naive_solver.
  - destruct (next_change E) as [[c E']|].
    + destruct IH as [Hc Hl]. split; [done|]. intros d. destruct E as [|e E]; [done|].
      by rewrite last_cons_cons.
    + destruct IH as [Hc Hl]. split; [done|]. intros c. destruct E as [|e E]; [done|].
      by rewrite last_cons_cons.
Qed.

Lemma counts_pos C1 E2 : 0 <= (counts C1 E2).1 /\ 0 <= (counts C1 E2).2.
Proof.
  revert E2. induction C1 as [|c C1 IH]; intros E2; cbn [counts]; destruct (next_change E2) as [[c2 E']|];
    cbn [fst snd]; try lia.
  destruct E' as [|e E'].
  - case_bool_decide; cbn; lia.
  - destruct (counts C1 (e :: E')) as [m k] eqn:E. specialize (IH (e :: E')). rewrite E in IH. cbn in IH.
    case_bool_decide; cbn; lia.
Qed.

Lemma counts_agree C1 E2 :
  (counts C1 E2).2 = 0 <-> agree C1 E2.
Proof.
  revert E2. induction C1 as [|c C1 IH]; intros E2; cbn [counts]; pose proof (next_change_spec E2) as Hn;
    unfold agree; destruct (next_change E2) as [[c2 E']|]; destruct Hn as [Hc Hl]; rewrite Hc.
  - split; [cbn; lia|]. intros [|[Hp _]]; [done|]. by apply prefix_nil_inv in Hp.
  - split; [by left|done].
  - assert (forall d, last E2 = Some (Some d) <-> (E' = [] /\ c2 = d) \/ last E' = Some (Some d)) as _ by exact Hl.
    transitivity (c = c2 /\ (E' = [] \/ E' <> [] /\ agree C1 E')).
    + destruct E' as [|e E'].
      * case_bool_decide; cbn; naive_solver lia.
      * specialize (IH (e :: E')). pose proof (counts_pos C1 (e :: E')) as [_ Hp].
        destruct (counts C1 (e :: E')) as [m k]. cbn [fst snd] in *.
        case_bool_decide; cbn [snd]; [|split; [lia|naive_solver]].
        rewrite IH. split; [intros; split; [done|by right]|]. by intros [_ [|[_ ?]]].
    + unfold agree. split.
      * intros [-> [->|[Hne [-> |[Hp [d Hd]]]]]]; [right|by left|right].
        -- split; [apply prefix_cons, prefix_nil|]. exists c2. rewrite Hl. by left.
        -- split; [by apply prefix_cons|]. exists d. rewrite Hl. by right.
      * intros [[= -> ->]|[Hp [d Hd]]].
        -- split; [done|]. destruct E' as [|e E']; [by left|]. right. split; [done|]. by left.
        -- pose proof (prefix_cons_inv_1 _ _ _ _ Hp) as ->. split; [done|].
           apply prefix_cons_inv_2 in Hp. destruct E' as [|e E']; [by left|]. right. split; [done|].
           right. split; [done|]. exists d. apply Hl in Hd as [[? _]|]; done.
  - cbn [snd]. split; [lia|]. intros [|[_ [c' Hd]]]; [done|]. by apply Hl in Hd.
Qed.

Lemma counts_matched C1 E2 : agree C1 E2 -> (counts C1 E2).1 = Z.of_nat (length (changes E2)).
Proof.
  intros H. apply counts_agree in H. revert E2 H. induction C1 as [|c C1 IH]; intros E2; cbn [counts];
    pose proof (next_change_spec E2) as Hn; destruct (next_change E2) as [[c2 E']|]; destruct Hn as [Hc _];
    rewrite Hc; cbn [fst snd length]; try lia.
  destruct E' as [|e E'].
  - case_bool_decide; cbn; lia.
  - specialize (IH (e :: E')). pose proof (counts_pos C1 (e :: E')) as [_ Hp].
    destruct (counts C1 (e :: E')) as [m k]. cbn [fst snd] in *.
    case_bool_decide; cbn [fst snd]; [|lia]. intros Hk. rewrite (IH Hk). lia.
Qed.

Lemma result_passed m k : 0 <= k -> starts_with "[PASSED]: " (compare_result m k) = true <-> k = 0.
Proof.
  intros Hk. unfold compare_result. destruct (Z.eqb_spec k 0) as [->|Hne].
  - split; [done|]. intros _. apply starts_with_app.
  - split; [done|]. intros ->. done.
Qed.

(** The verdict on two well-formed traces. *)
Lemma compare_traces_verdict (name1 name2 : str) (limit : yval) (lim : Z) (tr1 tr2 : list trace_entry)
    (E1 E2 : list event) :
  as_int limit = Ok lim -> events ∅ tr1 = Ok E1 -> events ∅ tr2 = Ok E2 ->
  exists verdict, (compare_traces name1 name2 limit tr1 tr2 true).2 = Ok verdict /\
    (starts_with "[PASSED]: " verdict = true <-> agree (changes E1) E2) /\
    (agree (changes E1) E2 ->
       verdict = compare_result (Z.of_nat (length (changes E2))) 0).
Proof.
  intros Hl H1 H2.
  destruct (compare_loop_counts name1 name2 limit tr1 tr2 lim Hl tr1 (Cmp ∅ ∅ 0 0 0 0) E1 E2)
    as (st & n & Hr & Hn & Hm & Hk); [cbn; lia|done|by rewrite drop_0|].
  pose proof (counts_agree (changes E1) E2) as Ha. pose proof (counts_pos (changes E1) E2) as [_ Hp].
  exists (compare_result (matched_cnt st) (mismatch_cnt st + n)). cbn [matched_cnt mismatch_cnt] in Hm, Hk.
  rewrite Hm, Hk, !Z.add_0_l. split_and!.
  - unfold compare_traces. rewrite (out_bind_ok _ _ (matched_cnt st, mismatch_cnt st + n)).
    + rewrite (out_bind_ok _ _ tt) by done. cbn [snd fst mret out_ret]. by rewrite Hm, Hk, !Z.add_0_l.
    + rewrite (out_bind_ok _ _ st) by done. by rewrite (out_bind_ok _ _ n).
  - by rewrite result_passed.
  - intros Hag. rewrite (counts_matched _ _ Hag). by rewrite (proj2 Ha Hag).
Qed.

(** C17 Two traces whose updates are well-formed always get a verdict, and it is
    "passed" exactly when the instructions of trace 1 that change a register
    make the changes of trace 2, in order, and no others; when trace 2 ends with
    a change, further changes in trace 1 are not looked at.  A passing verdict
    counts every change of trace 2. *)
Theorem compare_verdict (name1 name2 : str) (limit : yval) (lim : Z) (tr1 tr2 : list trace_entry)
    (E1 E2 : list event) :
  as_int limit = Ok lim -> events ∅ tr1 = Ok E1 -> events ∅ tr2 = Ok E2 ->
  exists verdict, (compare_traces name1 name2 limit tr1 tr2 true).2 = Ok verdict /\
    (starts_with "[PASSED]: " verdict = true <-> agree (changes E1) E2) /\
    (agree (changes E1) E2 ->
       verdict = compare_result (Z.of_nat (length (changes E2))) 0).
Proof. apply compare_traces_verdict. Qed.

Definition demo_rtl : list trace_entry := [upd "a0:1"; upd "a0:1"; upd "a1:2"].
Definition demo_iss : list trace_entry := [upd "a0:1"; upd ""; upd "a1:2"].
Definition demo_extra : list trace_entry := demo_rtl ++ [upd "a0:7"].

Lemma compare_verdict_witness :
  (compare_traces "ibex" "spike" (YScalar (SInt 5)) demo_rtl demo_iss true).2
    = Ok (("[PASSED]: 2 matched" : str) ++ [newline]) /\
  (compare_traces "ibex" "spike" (YScalar (SInt 5)) demo_extra demo_iss true).2
    = Ok (("[PASSED]: 2 matched" : str) ++ [newline]).
Proof.
  pose (E2 := [Some ["a0:1" : str]; None; Some ["a1:2" : str]] : list event).
  pose (E1 := [Some ["a0:1" : str]; None; Some ["a1:2" : str]] : list event).
  pose (E1' := [Some ["a0:1" : str]; None; Some ["a1:2" : str]; Some ["a0:7" : str]] : list event).
  split.
  - destruct (compare_verdict "ibex" "spike" (YScalar (SInt 5)) 5 demo_rtl demo_iss E1 E2 eq_refl
                ltac:(by_compute) ltac:(by_compute)) as (v & Hv & _ & Hm).
    rewrite Hv, Hm by (left; reflexivity). reflexivity.
  - destruct (compare_verdict "ibex" "spike" (YScalar (SInt 5)) 5 demo_extra demo_iss E1' E2 eq_refl
                ltac:(by_compute) ltac:(by_compute)) as (v & Hv & _ & Hm).
    rewrite Hv, Hm; [reflexivity|]. right. split; [|by eexists].
    exists [["a0:7" : str]]. reflexivity.
Defined.

(** With [compare_final_value_only] nothing is compared: any two readable
    files pass. *)
Theorem final_value_only_passes (csv1 csv2 name1 name2 log text1 text2 : str) (tr1 tr2 : list trace_entry)
    (fs : fsys) :
  fs !! csv1 = Some text1 -> fs !! csv2 = Some text2 -> log <> csv1 -> log <> csv2 ->
  read_trace text1 = Ok tr1 -> read_trace text2 = Ok tr2 ->
  (compare_trace_csv csv1 csv2 name1 name2 log
     [("compare_final_value_only" : str, YScalar (SInt 1))] fs).1
  = Ok (compare_result 0 0).
Proof.
  intros H1 H2 Hn1 Hn2 R1 R2. unfold compare_trace_csv.
  replace (forallb _ _) with true by reflexivity. cbn [negb].
  set (created := if bool_decide (log = []) then fs else _).
  assert (created !! csv1 = Some text1 /\ created !! csv2 = Some text2) as [C1 C2].
  { unfold created. case_bool_decide; [done|].
    split; (etrans; [by apply lookup_insert_ne|done]). }
  destruct (compare_trace_csv_text _ _ _ _ _ created) as [text r] eqn:E. cbn [fst].
  apply (f_equal snd) in E. cbn [snd] in E. rewrite <-E. unfold compare_trace_csv_text.
  rewrite (out_bind_ok _ _ tt) by done. rewrite (out_bind_ok _ _ text1) by (cbn; by rewrite C1).
  rewrite (out_bind_ok _ _ text2) by (cbn; by rewrite C2).
  rewrite (out_bind_ok _ _ tr1) by done. rewrite (out_bind_ok _ _ tr2) by done. reflexivity.
Qed.

Definition demo_csvs : fsys := <[("a" : str) := [] : str]> (<[("b" : str) := start_new_trace]> ∅).

Lemma final_value_only_passes_witness :
  (compare_trace_csv "a" "b" "ibex" "spike" "log"
     [("compare_final_value_only" : str, YScalar (SInt 1))] demo_csvs).1
  = Ok (("[PASSED]: 0 matched" : str) ++ [newline]).
Proof.
  etransitivity.
  - apply (final_value_only_passes "a" "b" "ibex" "spike" "log" [] start_new_trace [] [] demo_csvs);
      [reflexivity|reflexivity|discriminate|discriminate|reflexivity|by_compute].
  - reflexivity.
Defined.
