(* ===== verification/IbexLog.v ===== *)
(** * The Ibex simulation log

    dv/uvm/core_ibex/riscv_dv_extension/ibex_log_to_trace_csv.py: the verdict of
    the UVM log, and the conversion of the tracer's log to an instruction trace
    CSV file. *)

From S2P Require Import Prelude PyStr PyRe PyIO Tracer IbexConfig RvLib TestList TestRun TraceCsv.
From Stdlib Require Import Ascii.
Local Open Scope Z_scope.

(** ** Expressions *)

(** Groups: 1 time, 2 cycle, 3 pc, 4 bin, 5 instr. *)
Definition INSTR_RE : regex :=
  rseq [RBol; star is_space; RGrp 1 (plus is_digit); plus is_space; RGrp 2 (plus is_digit);
        plus is_space; RGrp 3 (plus is_hexlow); plus is_space; RGrp 4 (plus is_hexlow);
        plus is_space; RGrp 5 (rseq [plus not_space; plus is_space; plus not_space]); star is_space].

(** Groups: 1 the whole, 2 rd, 3 rd_val. *)
Definition RD_RE : regex :=
  RGrp 1 (rseq [lit "x"; RGrp 2 (RCat (RChr (between 49 57)) (star is_digit)); lit "=0x";
                RGrp 3 (plus is_hexlow)]).

(** Groups: 1 rd, 2 imm, 3 rs1. *)
Definition low_alnum (c : ascii) : bool := between 97 122 c || is_digit c.
Definition ADDR_RE : regex :=
  rseq [RGrp 1 (plus_lazy low_alnum); lit ",";
        RGrp 2 (plus_lazy (fun c => Ascii.eqb c "-" || is_digit c)); lit "(";
        RGrp 3 (plus low_alnum); lit ")"].

(** ** Operands *)

Definition branch_instrs : list str :=
  ["beq" : str; "bne" : str; "blt" : str; "bge" : str; "bltu" : str; "bgeu" : str; "c.beqz" : str;
   "c.bnez" : str; "beqz" : str; "bnez" : str; "bgez" : str; "bltz" : str; "blez" : str;
   "bgtz" : str; "c.j" : str; "j" : str; "c.jal" : str; "jal" : str].

(** [process_imm]: the target address becomes an offset. *)
Definition process_imm (instr_name pc operands : str) : res str :=
  if bool_decide (instr_name ∈ branch_instrs) then
    let '(front, imm) := match rsplit1 ","%char operands with
                         | Some (a, b) => (a ++ ",", b)
                         | None => ([], operands)
                         end in
    target ← int_of 16 imm;
    here ← int_of 16 pc;
    Ok (front ++ sint_to_hex (target - here))
  else Ok operands.

Definition convert_operands_to_abi (operand_str : str) : str :=
  join "," ((fun op => let converted_op := gpr_to_abi op in
                       if bool_decide (converted_op = ("na" : str)) then op else converted_op)
            <$> split ","%char operand_str).

(** [expand_trace_entry]; the immediate it stores in the entry is not a column
    of the file. *)
Definition expand_trace_entry (trace : trace_entry) (operands : str) : res trace_entry :=
  operands ← process_imm (e_instr trace) (e_pc trace) operands;
  r ← convert_pseudo_instr (e_instr trace) operands (e_binary trace);
  let (instr, operands) := r : str * str in
  operands ← (match re_search ADDR_RE operands with
              | Some n => _ ← get_imm_hex_val (grp n 2);
                          Ok (join "," [grp n 1; grp n 3; grp n 2])
              | None => Ok operands
              end);
  Ok (TraceEntry (e_gpr trace) (e_csr trace) instr (convert_operands_to_abi operands) (e_pc trace)
        (e_binary trace) (e_instr_str trace) (e_mode trace)).

(** ** The log *)

Definition add_gpr (t : trace_entry) (u : str) : trace_entry :=
  TraceEntry (e_gpr t ++ [u]) (e_csr t) (e_instr t) (e_operand t) (e_pc t) (e_binary t)
    (e_instr_str t) (e_mode t).

(** The entry of a line, if it is one of an instruction. *)
Definition convert_line (full_trace : bool) (line : str) : res (option trace_entry) :=
  match re_search INSTR_RE line with
  | None => Ok None
  | Some m =>
      let instr_str := grp m 5 in
      instr ← py_nth (words instr_str) 0;
      let trace := TraceEntry [] [] instr [] (grp m 3) (grp m 4) instr_str [] in
      trace ← (if full_trace then ops ← py_nth (words instr_str) 1; expand_trace_entry trace ops
               else Ok trace);
      Ok (Some (match re_search RD_RE line with
                | Some c => add_gpr trace (gpr_to_abi ("x" ++ grp c 2) ++ ":" ++ grp c 3)
                | None => trace
                end))
  end.

(** The loop over the lines: the number of instructions; the rows are written as
    they are found. *)
Fixpoint process_lines (full_trace : bool) (lines : list str) (instr_cnt : Z) : out Z :=
  match lines with
  | [] => mret instr_cnt
  | line :: lines' =>
      if contains "ecall" line then mret instr_cnt
      else
        e ← lift (convert_line full_trace line);
        match e with
        | None => process_lines full_trace lines' instr_cnt
        | Some t => _ ← say (write_trace_entry t); process_lines full_trace lines' (instr_cnt + 1)
        end
  end.

Definition _process_ibex_sim_log_fd (log_text : str) (full_trace : bool) : out Z :=
  _ ← say start_new_trace;
  process_lines full_trace (lines_keep (universal_newlines log_text)) 0.

Definition process_ibex_sim_log (full_trace : bool) (ibex_log csv : str) (fs : fsys) : res unit * fsys :=
  match fs !! ibex_log with
  | None => (Raise RuntimeError ("Logfile " ++ ibex_log ++ " not found"), fs)
  | Some log_text =>
      let (csv_text, r) := _process_ibex_sim_log_fd log_text full_trace in
      (count ← r;
       (if count =? 0 then Raise RuntimeError ("No instructions in logfile: " ++ ibex_log) else Ok tt),
       <[csv := csv_text]> fs)
  end.

(** ** The UVM log *)

Definition error_line (line : str) : bool :=
  contains "UVM_ERROR" line || contains "UVM_FATAL" line || contains "Error" line.
Definition passed_line (line : str) : bool := contains "RISC-V UVM TEST PASSED" line.
Definition failed_line (line : str) : bool := contains "RISC-V UVM TEST FAILED" line.

Record uvm_state := UvmState { u_passed : bool; u_failed : bool; u_log : list str; u_seen : bool }.

Fixpoint uvm_scan (lines : list str) (st : uvm_state) : uvm_state :=
  match lines with
  | [] => st
  | line :: lines' =>
      let st := if error_line line && negb (u_seen st)
                then UvmState (u_passed st) true (u_log st ++ [strip line]) (u_seen st) else st in
      let st := if passed_line line then UvmState true (u_failed st) (u_log st) true else st in
      if failed_line line then UvmState (u_passed st) true (u_log st) true
      else uvm_scan lines' st
  end.

Definition no_such_file (path : str) : str := "[Errno 2] No such file or directory: " ++ py_repr path.

Definition check_ibex_uvm_log (fs : fsys) (uvm_log : str) : res (bool * list str) :=
  match fs !! uvm_log with
  | None => Raise FileNotFoundError (no_such_file uvm_log)
  | Some text =>
      let st := uvm_scan (lines_keep (universal_newlines text)) (UvmState false false [] false) in
      Ok (if u_failed st then false else u_passed st, u_log st)
  end.

Definition demo_line : str :=
  "             100         20 80000080 00500513 addi x10,x0,5 x10=0x00000005".
Example convert_line_ex :
  convert_line true demo_line =
  Ok (Some (TraceEntry ["a0:00000005" : str] [] "addi" "a0,zero,5" "80000080" "00500513" "addi x10,x0,5" [])).
Proof. by_compute. Qed.

(** ** The verdict of the UVM log *)

Lemma uvm_failed_stays lines st : u_failed st = true -> u_failed (uvm_scan lines st) = true.
Proof.
  revert st. induction lines as [|line lines IH]; intros st H; [done|]. cbn [uvm_scan].
  destruct (error_line line && negb (u_seen st)), (passed_line line), (failed_line line);
    cbn [u_failed]; try done; apply IH; done.
Qed.

Lemma uvm_passed_stays lines st : u_passed st = true -> u_passed (uvm_scan lines st) = true.
Proof.
  revert st. induction lines as [|line lines IH]; intros st H; [done|]. cbn [uvm_scan].
  destruct (error_line line && negb (u_seen st)), (passed_line line), (failed_line line);
    cbn [u_passed]; try done; apply IH; done.
Qed.

(** After the result was seen only a second, failing result matters. *)
Lemma uvm_seen lines st :
  u_seen st = true -> u_passed st = true -> u_failed st = false ->
  (u_failed (uvm_scan lines st) = false <-> Forall (fun l => failed_line l = false) lines) /\
  u_log (uvm_scan lines st) = u_log st.
Proof.
  revert st. induction lines as [|line lines IH]; intros st Hs Hp Hf; [done|].
  cbn [uvm_scan]. rewrite Hs, andb_false_r, Forall_cons.
  destruct (passed_line line), (failed_line line); cbn [u_seen u_passed u_failed u_log];
    try (by split; [split; [done|intros [? _]; done]|]).
  - destruct (IH (UvmState true (u_failed st) (u_log st) true)) as [H1 H2]; [done..|].
    rewrite H1, H2. cbn. naive_solver.
  - destruct (IH st) as [H1 H2]; [done..|]. rewrite H1, H2. naive_solver.
Qed.

(** A result that says "passed", and no error before it. *)
Definition clean_pass (lines : list str) : Prop :=
  exists pre line post, lines = pre ++ line :: post /\ passed_line line = true /\
    Forall (fun l => error_line l = false) (pre ++ [line]).

Lemma uvm_unseen lines :
  let st := uvm_scan lines (UvmState false false [] false) in
  (u_failed st = false /\ u_passed st = true <->
   clean_pass lines /\ Forall (fun l => failed_line l = false) lines) /\
  (u_failed st = false -> u_log st = []).
Proof.
  induction lines as [|line lines IH].
  - split; [|done]. split; [by intros [_ ?]|]. intros [(pre & l & post & E & _) _]. by destruct pre.
  - cbn [uvm_scan u_seen negb]. rewrite andb_true_r.
    assert (forall st, u_failed st = true -> error_line line = true \/ failed_line line = true ->
      (u_failed (uvm_scan lines st) = false /\ u_passed (uvm_scan lines st) = true <->
       clean_pass (line :: lines) /\ Forall (fun l => failed_line l = false) (line :: lines)) /\
      (u_failed (uvm_scan lines st) = false -> u_log (uvm_scan lines st) = [])) as Hbad.
    { intros st Hst Hl. rewrite (uvm_failed_stays lines st Hst). split; [|done]. split; [by intros []|].
      intros [(pre & l & post & E & _ & He) Hf]. apply Forall_cons in Hf as [Hf _].
      destruct Hl as [Hl|Hl]; [|congruence]. destruct pre as [|x pre]; injection E as E1 _; subst;
        apply Forall_cons in He as [He _]; congruence. }
    destruct (error_line line) eqn:Ee.
    { destruct (passed_line line), (failed_line line) eqn:Ef; try (apply Hbad; [done|by left]);
        cbn [u_failed u_passed u_log]; (split; [|done]); (split; [by intros []|]); intros [_ Hf];
        apply Forall_cons in Hf as [Hf _]; congruence. }
    destruct (failed_line line) eqn:Ef.
    { destruct (passed_line line); cbn [u_failed u_passed u_log]; (split; [|done]); (split; [by intros []|]);
        intros [_ Hf]; apply Forall_cons in Hf as [Hf _]; congruence. }
    destruct (passed_line line) eqn:Ep.
    + destruct (uvm_seen lines (UvmState true false [] true) eq_refl eq_refl eq_refl) as [H1 H2].
      cbn [u_failed u_log]. rewrite H1, H2. split; [|done]. rewrite Forall_cons. split.
      * intros [Hf _]. split; [|done]. exists [], line, lines. split_and!; [done..|by apply Forall_singleton].
      * intros [_ [_ Hf]]. split; [done|]. by apply uvm_passed_stays.
    + destruct IH as [IH1 IH2]. split; [|done]. rewrite IH1, Forall_cons. unfold clean_pass. split.
      * intros [(pre & l & post & -> & Hp & He) Hf]. split; [|done]. exists (line :: pre), l, post.
        split_and!; [done..|]. by apply Forall_cons.
      * intros [(pre & l & post & E & Hp & He) [_ Hf]]. split; [|done].
        destruct pre as [|x pre]; injection E as E1 E; [congruence|]. subst x lines.
        exists pre, l, post. apply Forall_cons in He as [_ He]. done.
Qed.

(** The UVM log passes exactly when some line reports a passed test with no
    error, fatal error or UVM error up to it and no line reports a failed test;
    and then no failure lines are returned. *)
Theorem uvm_log_verdict (fs : fsys) (uvm_log text : str) :
  fs !! uvm_log = Some text ->
  let lines := lines_keep (universal_newlines text) in
  exists passed log_out, check_ibex_uvm_log fs uvm_log = Ok (passed, log_out) /\
    (passed = true <-> clean_pass lines /\ Forall (fun l => failed_line l = false) lines) /\
    (passed = true -> log_out = []).
Proof.
  intros H lines. unfold check_ibex_uvm_log. rewrite H. eexists _, _. split; [reflexivity|].
  destruct (uvm_unseen lines) as [H1 H2]. fold lines.
  destruct (u_failed (uvm_scan lines _)); (split; [|by intros; first [done|apply H2]]).
  - split; [done|]. intros Hc. by apply H1 in Hc as [? _].
  - rewrite <-H1. naive_solver.
Qed.

Definition demo_uvm : str :=
  "UVM_INFO start" ++ [newline] ++ "--- RISC-V UVM TEST PASSED ---" ++ [newline] ++ "UVM_ERROR :    0" ++ [newline].

Lemma uvm_log_verdict_witness :
  check_ibex_uvm_log {[ ("sim.log" : str) := demo_uvm ]} "sim.log" = Ok (true, []).
Proof.
  destruct (uvm_log_verdict {[ ("sim.log" : str) := demo_uvm ]} "sim.log" demo_uvm (lookup_singleton_eq _ _))
    as (p & l & E & Hp & Hl).
  assert (p = true) as Ht.
  { apply Hp. split.
    - exists ["UVM_INFO start" ++ [newline]], ("--- RISC-V UVM TEST PASSED ---" ++ [newline]),
        ["UVM_ERROR :    0" ++ [newline]].
      split; [reflexivity|]. split; [reflexivity|]. repeat constructor.
    - repeat constructor. }
  etransitivity; [exact E|]. rewrite Ht, (Hl Ht). reflexivity.
Defined.

(** ** From a line of the tracer to an entry *)

Definition no_eq (s : str) : Prop := "="%char ∉ s.

Lemma matches_rd b a s' :
  matches RD_RE (Cur b a []) s' ->
  exists c d e, a = "x"%char :: (c :: d) ++ "="%char :: e /\ between 49 57 c = true /\
                Forall (fun c => is_digit c = true) (c :: d).
Proof.
  unfold RD_RE. inversion 1 as [| | | | | | | |? ? ? s1 H1|]; subst; [|discriminate].
  cbn [rseq foldr lit fmap list_fmap String.list_ascii_of_string] in H1.
  apply matches_cat_inv in H1 as (s2 & Hx & H1). apply matches_cat_inv in H1 as (s3 & Hd & H1).
  apply matches_cat_inv in H1 as (s4 & He & _).
  apply matches_cat_inv in Hx as (s5 & Hx & Hn). inversion Hn; subst; [|discriminate].
  inversion Hx as [|? c a2 ? Ea Hc| | | | | | | |]; subst; [|discriminate]. cbn in Ea. subst a.
  apply Ascii.eqb_eq in Hc. subst c.
  inversion Hd as [| | | | | | | |? ? ? s6 H6|]; subst; [|discriminate].
  apply matches_cat_inv in H6 as (s7 & H7 & H8).
  inversion H7 as [|? c a3 ? Ea Hc| | | | | | | |]; subst; [|discriminate]. cbn in Ea. subst a2.
  inversion H8 as [| | | | |? ? ? l a4 ? E Hl Hm| | | |]; subst; [|discriminate]. cbn in E. subst a3.
  apply matches_cat_inv in He as (s8 & He & _).
  inversion He as [|? c2 a5 ? Ea Hc2| | | | | | | |]; subst; [|discriminate]. cbn in Ea. subst a4.
  apply Ascii.eqb_eq in Hc2. subst c2. exists c, l, a5. split_and!; [done..|].
  constructor; [|done]. unfold between in Hc. unfold is_digit, between.
  apply andb_true_iff in Hc as [Ha Hb]. apply andb_true_iff. split; [|done].
  apply Z.leb_le. apply Z.leb_le in Ha. lia.
Qed.

Lemma match_at_rd_none b a :
  (forall c d e, a = "x"%char :: (c :: d) ++ "="%char :: e -> between 49 57 c = true ->
     Forall (fun c => is_digit c = true) (c :: d) -> False) ->
  match_at RD_RE b a = None.
Proof.
  intros H. unfold match_at. destruct (rm RD_RE (Cur b a []) Some) as [x|] eqn:E; [|done].
  apply rm_sound in E as (s' & Hm & _). apply matches_rd in Hm as (c & d & e & Ha & Hc & Hd).
  destruct (H c d e Ha Hc Hd).
Qed.

(** Skipping a text in which no match starts. *)
Lemma search_skip r b p a :
  (forall p1 p2, p = p1 ++ p2 -> p2 <> [] -> match_at r (reverse p1 ++ b) (p2 ++ a) = None) ->
  search_from r b (p ++ a) = search_from r (reverse p ++ b) a.
Proof.
  revert b. induction p as [|c p IH]; intros b H; [done|]. cbn [app search_from].
  assert (match_at r b (c :: p ++ a) = None) as -> by exact (H [] (c :: p) eq_refl ltac:(done)).
  cbn [orelse].
  rewrite IH; [by rewrite reverse_cons, <-app_assoc|].
  intros p1 p2 -> Hp. specialize (H (c :: p1) p2 eq_refl Hp).
  by rewrite reverse_cons, <-app_assoc in H.
Qed.

Lemma digits_no_eq d : Forall (fun c => is_digit c = true) d -> no_eq d.
Proof. intros H Hin. rewrite Forall_forall in H. by specialize (H _ Hin). Qed.

Lemma first_eq t e d e' :
  no_eq t -> Forall (fun c => is_digit c = true) d ->
  t ++ "="%char :: e = "x"%char :: d ++ "="%char :: e' -> t = "x"%char :: d.
Proof.
  intros Ht Hd E. assert (split1 "="%char (t ++ "="%char :: e) = split1 "="%char (("x"%char :: d) ++ "="%char :: e')) as Es
    by (by rewrite E).
  rewrite !split1_app in Es; [by injection Es| |done].
  intros [?|Hin]%elem_of_cons; [done|]. by apply (digits_no_eq d).
Qed.

(** A text that shows the writing of a register only after the characters of
    [p], all of it before the first equals sign. *)
Lemma search_rd_at b p n rest :
  no_eq p -> Forall (fun c => is_digit c = true) n -> no_eq n ->
  search_from RD_RE b (p ++ "x"%char :: n ++ "="%char :: rest) =
  search_from RD_RE (reverse p ++ b) ("x"%char :: n ++ "="%char :: rest).
Proof.
  intros Hp Hn Hn'. apply search_skip. intros p1 p2 -> Hne. apply match_at_rd_none.
  intros c0 d0 e E _ Hd. set (d := c0 :: d0) in *. clearbody d.
  assert (p2 ++ "x"%char :: n = "x"%char :: d) as Ep.
  { apply (first_eq _ rest d e); [|done|by rewrite <-app_assoc].
    unfold no_eq in *. rewrite elem_of_app, elem_of_cons. rewrite elem_of_app in Hp. naive_solver. }
  destruct p2 as [|c p2]; [done|]. injection Ep as -> Ep. rewrite <-Ep in Hd.
  apply Forall_app in Hd as [_ Hd]. by apply Forall_cons in Hd as [? _].
Qed.

Lemma search_rd_none b p : no_eq p -> search_from RD_RE b p = None.
Proof.
  intros Hp. rewrite <-(app_nil_r p), search_skip.
  - cbn [search_from]. rewrite match_at_rd_none; [done|]. by intros c [|] e E.
  - intros p1 p2 -> _. apply match_at_rd_none. intros c d e E _ _. unfold no_eq in Hp.
    rewrite app_nil_r in E. apply Hp. rewrite E. set_solver.
Qed.

(** Equals signs after a character that is no digit: the mark of an
    interrupt. *)
Lemma search_rd_mark b p c rest :
  no_eq p -> is_digit c = false -> c <> "="%char ->
  search_from RD_RE b (p ++ c :: "="%char :: "="%char :: rest) =
  search_from RD_RE (reverse (p ++ [c; "="%char; "="%char]) ++ b) rest.
Proof.
  intros Hp Hc Hce.
  replace (p ++ c :: "="%char :: "="%char :: rest) with ((p ++ [c; "="%char; "="%char]) ++ rest)
    by (by rewrite <-app_assoc).
  apply search_skip. intros p1 p2 E Hne. apply match_at_rd_none. intros c0 d0 e Ed _ Hd.
  assert (p2 = ["="%char] \/ p2 = ["="%char; "="%char] \/ exists q, p2 = q ++ [c; "="%char; "="%char] /\ no_eq q)
    as [->|[->|(q & -> & Hq)]].
  { clear -E Hne Hp. revert p1 E. induction p as [|x p IH]; intros p1 E.
    - destruct p1 as [|y p1]; [cbn in E; subst p2; right; right; exists []; split; [done|by apply not_elem_of_nil]|].
      injection E as <- E. destruct p1 as [|y p1]; [cbn in E; subst; auto|].
      injection E as <- E. destruct p1 as [|y p1]; [cbn in E; subst; auto|].
      injection E as <- E. by destruct p1, p2.
    - destruct p1 as [|y p1].
      + cbn in E. subst p2. right. right. by exists (x :: p).
      + injection E as <- E. apply (IH ltac:(unfold no_eq in *; set_solver) p1 E). }
  - done.
  - done.
  - set (d := c0 :: d0) in *. assert (d <> []) as Hdn by done. clearbody d.
    rewrite <-app_assoc in Ed. cbn [app] in Ed.
    assert (q ++ [c] = "x"%char :: d) as Eq.
    { apply (first_eq _ ("="%char :: rest) d e); [|done|by rewrite <-app_assoc].
      unfold no_eq in *. rewrite elem_of_app, list_elem_of_singleton. naive_solver. }
    destruct q as [|y q]; [injection Eq as _ <-; done|]. injection Eq as -> <-.
    apply Forall_app in Hd as [_ Hd]. apply Forall_cons in Hd as [? _]. congruence.
Qed.

(** *** The columns of the line *)

Lemma hexlow_not_space c : is_hexlow c = true -> is_space c = false.
Proof. by intros [? _]%hexlow_chars. Qed.
Lemma space_not_hexlow c : is_space c = true -> is_hexlow c = false.
Proof. intros H. destruct (is_hexlow c) eqn:E; [|done]. apply hexlow_not_space in E. congruence. Qed.
#[export] Hint Resolve hexlow_not_space space_not_hexlow : cheriot.

Lemma run_split (p : ascii -> bool) s :
  exists l a, s = l ++ a /\ Forall (fun c => p c = true) l /\ stops p a.
Proof.
  induction s as [|c s (l & a & -> & Hl & Ha)]; [by exists [], []|].
  destruct (p c) eqn:E; [exists (c :: l), a; by split_and!; [|constructor|]|].
  exists [], (c :: l ++ a). by split_and!.
Qed.

Lemma instr_columns s0 d0 s1 d1 s2 h1 s3 h2 s4 w1 s5 w2 rest :
  Forall (fun c => is_space c = true) s0 -> Forall (fun c => is_space c = true) s1 ->
  Forall (fun c => is_space c = true) s2 -> Forall (fun c => is_space c = true) s3 ->
  Forall (fun c => is_space c = true) s4 -> Forall (fun c => is_space c = true) s5 ->
  s1 <> [] -> s2 <> [] -> s3 <> [] -> s4 <> [] -> s5 <> [] ->
  Forall (fun c => is_digit c = true) d0 -> Forall (fun c => is_digit c = true) d1 ->
  Forall (fun c => is_hexlow c = true) h1 -> Forall (fun c => is_hexlow c = true) h2 ->
  Forall (fun c => not_space c = true) w1 -> Forall (fun c => not_space c = true) w2 ->
  d0 <> [] -> d1 <> [] -> h1 <> [] -> h2 <> [] -> w1 <> [] -> w2 <> [] -> stops not_space rest ->
  exists m, re_search INSTR_RE
      (s0 ++ d0 ++ s1 ++ d1 ++ s2 ++ h1 ++ s3 ++ h2 ++ s4 ++ (w1 ++ s5 ++ w2) ++ rest) = Some m /\
    grp m 3 = h1 /\ grp m 4 = h2 /\ grp m 5 = w1 ++ s5 ++ w2.
Proof.
  intros. destruct (run_split is_space rest) as (sp & r & -> & Hsp & Hr). set (line := s0 ++ _).
  assert (forall l : str, l <> [] -> (1 <= length l)%nat) as Hlen.
  { intros [|? ?]; [done|cbn; lia]. }
  assert (exists x, rm INSTR_RE (Cur [] line []) Some = Some x /\
    caps x = [(5%nat, w1 ++ s5 ++ w2); (4%nat, h2); (3%nat, h1); (2%nat, d1); (1%nat, d0)]) as (x & Hx & Hc).
  { eexists. split; [|shelve]. unfold INSTR_RE, line. cbn [rseq foldr].
    apply rm_cat, rm_bol.
    columns is_digit. columns is_space. columns is_digit. columns is_space. columns is_hexlow.
    columns is_space. columns is_hexlow. columns is_space.
    apply rm_cat; apply rm_run; [assumption| |auto with arith|cbv beta].
    { rewrite <-!app_assoc. apply (stops_app _ not_space); auto with cheriot. }
    apply rm_cat. cbn [rm]. change (rm (RCat (plus not_space) (RCat (plus is_space) (RCat (plus not_space) REps))))
      with (rm (rseq [plus not_space; plus is_space; plus not_space])).
    rewrite <-!app_assoc. unfold rseq. cbn [foldr].
    columns is_space. columns not_space.
    apply rm_run; [assumption|done|auto with arith|cbv beta].
    replace (w1 ++ s5 ++ w2 ++ sp ++ r) with ((w1 ++ s5 ++ w2) ++ sp ++ r) by (by rewrite <-!app_assoc).
    rewrite capture_text. cbn [rm bef aft caps].
    apply rep_greedy_run; [done..|lia|]. cbv beta. reflexivity.
    Unshelve. reflexivity. }
  eexists. split.
  - unfold re_search. apply search_from_here. unfold match_at. rewrite Hx. reflexivity.
  - unfold grp, group. cbn [m_cur]. by rewrite Hc.
Qed.

(** *** The registers of the line *)

(** The writes a line shows, each as a register, its value and what follows it:
    the integer result, then the capability result. *)
Definition shown_writes (a : accessed) : list (Z * Z * str) :=
  match a_rd a with Some r => [(rv_addr r, rv_data r, [])] | None => [] end ++
  match a_cd a with Some c => [(cv_addr c, cv_data c, "+0x" ++ fmt_h 9 (cv_cap c))] | None => [] end.
Definition put_shown (w : Z * Z * str) : str :=
  " " ++ reg_addr_to_str w.1.1 ++ "=0x" ++ fmt_h 8 w.1.2 ++ w.2.

(** The register the instruction changes, and its new value.  The tracer shows a
    write to x0 too, as for [jal x0] or [nop], but it changes nothing. *)
Definition write_of (a : accessed) : option (Z * Z) :=
  List.find (fun w => negb (w.1 =? 0)) (fst <$> shown_writes a).

Definition reads (a : accessed) : str :=
  opt put_read (a_rs1 a) ++ opt put_cap_read (a_cs1 a) ++ opt put_read (a_rs2 a) ++
  opt put_cap_read (a_cs2 a) ++ opt put_read (a_rs3 a).
Definition mems (a : accessed) : str := opt put_mem (a_mem a) ++ opt put_memc (a_memc a).

Lemma contents_split a : contents a = reads a ++ mjoin (put_shown <$> shown_writes a) ++ mems a.
Proof.
  assert (opt put_write (a_rd a) ++ opt put_cap_write (a_cd a) = mjoin (put_shown <$> shown_writes a)) as <-.
  - unfold shown_writes, put_shown.
    destruct (a_rd a) as [[rn rd]|], (a_cd a) as [[cn cd cc]|];
      cbn [opt app fmap list_fmap fst snd]; unfold put_write, put_cap_write;
      cbn [rv_addr rv_data cv_addr cv_data cv_cap mjoin list_join];
      by rewrite ?(app_nil_r : forall s : str, s ++ "" = s), ?app_nil_r.
  - unfold contents, reads, mems. by rewrite <-!app_assoc.
Qed.

Lemma no_eq_app a b : no_eq (a ++ b) <-> no_eq a /\ no_eq b.
Proof. unfold no_eq. rewrite elem_of_app. naive_solver. Qed.
Lemma no_eq_class (p : ascii -> bool) s :
  p "="%char = false -> Forall (fun c => p c = true) s -> no_eq s.
Proof. intros Hp H Hin. rewrite Forall_forall in H. specialize (H _ Hin). cbn in H. congruence. Qed.
Lemma no_eq_fmt_h w n : 0 <= n -> no_eq (fmt_h w n).
Proof. intros H. by apply (no_eq_class is_hexlow), fmt_h_hexlow. Qed.
Lemma no_eq_reg n : 0 <= n -> no_eq (reg_addr_to_str n).
Proof.
  intros H. unfold reg_addr_to_str. rewrite str_of_Z_pos by done.
  assert (no_eq (digits 10 n)) by (by apply digits_no_eq, digits10_digit).
  assert (no_eq " x" /\ no_eq "x") as [? ?] by (split; apply (bool_decide_unpack _); vm_compute; exact I).
  destruct (n <? 10); by apply no_eq_app.
Qed.
Ltac no_eq_lit :=
  lazymatch goal with |- no_eq (String.list_ascii_of_string _) =>
    unfold no_eq; apply (bool_decide_unpack _); vm_compute; exact I end.
Ltac no_eq_pieces :=
  repeat first [ apply no_eq_fmt_h; first [lia | apply land_pos; lia] | apply no_eq_reg; lia
               | no_eq_lit | apply no_eq_app; split ].

Lemma no_eq_read r : reg_ok r -> no_eq (put_read r).
Proof. unfold reg_ok, width. intros [? ?]. unfold put_read. no_eq_pieces. Qed.
Lemma no_eq_cap_read r : cap_ok r -> no_eq (put_cap_read r).
Proof. unfold cap_ok, width. intros (? & ? & ?). unfold put_cap_read. no_eq_pieces. Qed.
Lemma no_eq_mem m : mem_ok m -> no_eq (put_mem m).
Proof.
  unfold mem_ok, width. intros (? & ? & ?). unfold put_mem. apply no_eq_app. split; [no_eq_lit|].
  apply no_eq_app. split; [no_eq_pieces|]. apply no_eq_app.
  split; repeat case_match; no_eq_pieces.
Qed.
Lemma no_eq_memc m : memc_ok m -> no_eq (put_memc m).
Proof.
  unfold memc_ok, width. intros (? & ? & ? & ? & ?). unfold put_memc. apply no_eq_app. split; [no_eq_lit|].
  apply no_eq_app. split; [no_eq_pieces|]. case_match; no_eq_pieces.
Qed.
Lemma no_eq_opt {A} (P : A -> Prop) (f : A -> str) o :
  (forall a, P a -> no_eq (f a)) -> ok_opt P o -> no_eq (opt f o).
Proof. intros H. destruct o; cbn; [apply H|]. intros _. apply not_elem_of_nil. Qed.

Lemma no_eq_reads a : accessed_ok a -> no_eq (reads a).
Proof.
  intros []. unfold reads. rewrite !no_eq_app.
  split_and!; eapply no_eq_opt; eauto using no_eq_read, no_eq_cap_read.
Qed.

Lemma no_eq_mems a : accessed_ok a -> no_eq (mems a).
Proof. intros []. unfold mems. rewrite no_eq_app. split; eapply no_eq_opt; eauto using no_eq_mem, no_eq_memc. Qed.

Lemma mems_stops a : stops is_hexlow (mems a ++ [newline]).
Proof. unfold mems. by destruct (a_mem a), (a_memc a). Qed.

Lemma reg_digits n :
  0 < n < 32 -> exists c ds, str_of_Z n = c :: ds /\ between 49 57 c = true /\
                             Forall (fun c => is_digit c = true) ds.
Proof.
  intros Hn. assert ((match str_of_Z (n - 1 + 1) with
                      | c :: ds => between 49 57 c && forallb is_digit ds | [] => false end) = true) as H.
  { apply (forall_below (fun n => match str_of_Z (n + 1) with
                      | c :: ds => between 49 57 c && forallb is_digit ds | [] => false end) 31);
      [by_compute|lia]. }
  replace (n - 1 + 1) with n in H by lia. destruct (str_of_Z n) as [|c ds]; [done|].
  apply andb_true_iff in H as [Hc Hd]. exists c, ds. split_and!; [done..|].
  apply Forall_forall. intros x Hx. rewrite forallb_forall in Hd. by apply Hd, list_elem_of_In.
Qed.

(** The writing of a register, where the line shows it. *)
Lemma match_rd_here b n v tail :
  0 < n < 32 -> Forall (fun c => is_hexlow c = true) v -> v <> [] -> stops is_hexlow tail ->
  exists m, search_from RD_RE b ("x"%char :: str_of_Z n ++ "="%char :: "0x" ++ v ++ tail) = Some m /\
    grp m 2 = str_of_Z n /\ grp m 3 = v.
Proof.
  intros Hn Hv Hne Ht. destruct (reg_digits n Hn) as (c & ds & -> & Hc & Hds).
  set (a := "x"%char :: _).
  assert (exists x w, rm RD_RE (Cur b a []) Some = Some x /\
    caps x = [(1%nat, w); (3%nat, v); (2%nat, c :: ds)]) as (x & w & Hx & Hcap).
  { eexists _, _. split; [|shelve]. unfold RD_RE, a. cbn [rm rseq foldr lit fmap list_fmap String.list_ascii_of_string aft bef caps Ascii.eqb].
    cbn [rm aft bef caps]. replace (Ascii.eqb "x" "x") with true by reflexivity. cbn [rm aft bef caps app].
    rewrite Hc. change (ds ++ "="%char :: "0"%char :: "x"%char :: v ++ tail) with (ds ++ ("=0x" ++ v ++ tail)).
    apply rep_greedy_run; [done|done|lia|]. cbv beta.
    change (c :: ds ++ "=0x" ++ v ++ tail) with ((c :: ds) ++ ("=0x" ++ v ++ tail)).
    rewrite capture_text. cbn [rm aft bef caps app String.list_ascii_of_string].
    replace (Ascii.eqb "=" "=") with true by reflexivity. replace (Ascii.eqb "0" "0") with true by reflexivity.
    replace (Ascii.eqb "x" "x") with true by reflexivity.
    apply rep_greedy_run; [done|done|destruct v; [done|cbn; lia]|]. cbv beta.
    rewrite capture_text. reflexivity. Unshelve. 2: reflexivity. }
  eexists. split.
  - apply search_from_here. unfold match_at. rewrite Hx. reflexivity.
  - unfold grp, group. cbn [m_cur]. by rewrite Hcap.
Qed.

(** *** The entry of the line *)

Lemma words_word w cur s :
  Forall (fun c => not_space c = true) w -> words_go cur (w ++ s) = words_go (reverse w ++ cur) s.
Proof.
  revert cur. induction w as [|c w IH]; intros cur H; [done|]. apply Forall_cons in H as [Hc H].
  cbn [app words_go]. rewrite (word_not_space _ Hc), IH by done. by rewrite reverse_cons, <-app_assoc.
Qed.
Lemma words_spaces ws s : Forall (fun c => is_space c = true) ws -> words_go [] (ws ++ s) = words_go [] s.
Proof. induction 1 as [|c ws Hc H IH]; [done|]. cbn [app words_go]. by rewrite Hc, IH. Qed.

Lemma words_two w1 ws w2 :
  Forall (fun c => not_space c = true) w1 -> w1 <> [] -> Forall (fun c => is_space c = true) ws ->
  ws <> [] -> Forall (fun c => not_space c = true) w2 -> w2 <> [] -> words (w1 ++ ws ++ w2) = [w1; w2].
Proof.
  intros H1 N1 Hs Ns H2 N2. unfold words. rewrite words_word, app_nil_r by done.
  destruct Hs as [|c ws Hc Hs]; [done|]. cbn [app words_go]. rewrite Hc.
  assert (forall w : str, w <> [] -> match reverse w with [] => [] | _ => [reverse (reverse w)] end = [w]) as Hf.
  { intros w Hw. rewrite reverse_involutive. destruct (reverse w) eqn:E; [|done].
    destruct Hw. rewrite <-(reverse_involutive w), E. done. }
  assert (words_go [] w2 = [w2]) as Hw2.
  { rewrite <-(app_nil_r w2) at 1. rewrite words_word, app_nil_r by done. cbn [words_go]. by apply Hf. }
  rewrite words_spaces by done. rewrite Hw2, Hf by done. done.
Qed.

(** The instruction text: a mnemonic, operands, and what may follow them after white
    space, without equals signs.  (The decoder writes nothing after the operands but
    for an unknown special register, whose number has leading blanks.) *)
Record operands_ok (mn ws ops rest : str) : Prop := {
  mn_ok : Forall (fun c => not_space c = true) mn; mn_some : mn <> [];
  ws_ok : Forall (fun c => is_space c = true) ws; ws_some : ws <> [];
  ops_ok : Forall (fun c => not_space c = true) ops; ops_some : ops <> [];
  rest_ok : stops not_space rest;
  text_no_eq : no_eq mn /\ no_eq ops /\ no_eq rest }.

Lemma operands_no_eq mn ws ops rest : operands_ok mn ws ops rest -> no_eq (mn ++ ws ++ ops ++ rest).
Proof. intros [_ _ Hws _ _ _ _ (? & ? & ?)]. rewrite !no_eq_app. split_and!; try done. by apply (no_eq_class is_space). Qed.

Lemma spaces_no_eq ws : Forall (fun c => is_space c = true) ws -> no_eq ws.
Proof. by apply no_eq_class. Qed.

(** The columns before the instruction text, without their last tab. *)
Definition columns_of (r : retired) : str :=
  replicate (15 - length (digits 10 (r_time r))) " "%char ++ digits 10 (r_time r) ++
  (tab :: replicate (10 - length (digits 10 (r_cycle r))) " "%char) ++ digits 10 (r_cycle r) ++
  [tab] ++ fmt_h 8 (r_pc r) ++ insn_pad r ++ insn_hex r.

Lemma columns_no_eq r : retired_ok r -> no_eq (columns_of r).
Proof.
  intros (Ht & Hc & Hp & Hi)%retired_pos. unfold columns_of. change (tab :: ?l) with ([tab] ++ l).
  rewrite !no_eq_app.
  assert (no_eq [tab]) by (unfold no_eq; apply (bool_decide_unpack _); vm_compute; exact I).
  assert (forall k, no_eq (replicate k " "%char)) by (intros k; by apply spaces_no_eq, is_space_replicate).
  split_and!; auto using digits_no_eq, digits10_digit, no_eq_fmt_h.
  - unfold insn_pad. destruct (r_compressed r); unfold no_eq; apply (bool_decide_unpack _); vm_compute; exact I.
  - unfold insn_hex. by apply no_eq_fmt_h.
Qed.

(** Up to the contents of the line, nothing looks like a written register. *)
Lemma search_rd_contents r mid X :
  retired_ok r -> no_eq mid ->
  exists b p, no_eq p /\
    search_from RD_RE [] (columns_of r ++ tab :: mark r ++ mid ++ X) = search_from RD_RE b (p ++ X).
Proof.
  intros Hr Hm. pose proof (columns_no_eq r Hr) as Hc.
  assert (no_eq [tab] /\ no_eq "-->" /\ no_eq ">" /\ no_eq "") as (N1 & N2 & N3 & N4).
  { split_and!; unfold no_eq; apply (bool_decide_unpack _); vm_compute; exact I. }
  assert (forall mk, no_eq mk -> exists b p, no_eq p /\
    search_from RD_RE [] (columns_of r ++ tab :: mk ++ mid ++ X) = search_from RD_RE b (p ++ X)) as Hplain.
  { intros mk Hmk. exists [], (columns_of r ++ [tab] ++ mk ++ mid). split.
    - rewrite !no_eq_app. by split_and!.
    - by rewrite <-!app_assoc. }
  unfold mark. destruct (r_trap r); [by apply Hplain|]. destruct (r_intr r); [|by apply Hplain].
  eexists _, (">" ++ mid). split; [by apply no_eq_app|].
  rewrite <-app_assoc. by apply search_rd_mark.
Qed.

Definition reg_pad (n : Z) : str := if n <? 10 then " " else "".
Lemma reg_addr_split n : reg_addr_to_str n = reg_pad n ++ "x"%char :: str_of_Z n.
Proof. unfold reg_addr_to_str, reg_pad. by destruct (n <? 10). Qed.

(** A write to x0 is passed over. *)
Lemma search_rd_x0 b p rest :
  no_eq p -> search_from RD_RE b (p ++ "x0=" ++ rest) = search_from RD_RE (reverse (p ++ "x0=") ++ b) rest.
Proof.
  intros Hp. rewrite (app_assoc p). apply search_skip. intros p1 p2 E Hne. apply match_at_rd_none.
  intros c d e Ed Hc Hd.
  assert (exists q, p2 = q ++ ["="%char]) as [q ->].
  { destruct (exists_last Hne) as (q & x & ->). exists q.
    rewrite app_assoc in E. change ("x0=" : str) with (["x"%char; "0"%char] ++ ["="%char]) in E.
    rewrite app_assoc in E. by apply app_inj_tail in E as [_ <-]. }
  change ("x0=" : str) with (["x"%char; "0"%char] ++ ["="%char]) in E. rewrite !app_assoc in E.
  apply app_inj_tail in E as [E _].
  assert (no_eq (p ++ ["x"%char; "0"%char])) as Hn.
  { unfold no_eq in *. rewrite elem_of_app. intros [|H]; [done|]. set_solver. }
  rewrite E in Hn. apply not_elem_of_app in Hn as [_ Hn].
  rewrite <-app_assoc in Ed. assert (q = "x"%char :: c :: d) as -> by (by apply (first_eq _ rest _ e)).
  (* [c :: d] ends a text that ends in [x0], so it is [0] or contains [x] *)
  change ["x"%char; "0"%char] with (["x"%char] ++ ["0"%char]) in E.
  destruct (exists_last (l := c :: d) ltac:(done)) as (l & y & El). rewrite El in E, Hd.
  change ("x"%char :: l ++ [y]) with (("x"%char :: l) ++ [y]) in E. rewrite !app_assoc in E.
  apply app_inj_tail in E as [E <-]. destruct l as [|z l _] using rev_ind.
  - injection El as -> _. done.
  - rewrite app_comm_cons, app_assoc in E. apply app_inj_tail in E as [_ <-].
    apply Forall_app in Hd as [[_ Hx]%Forall_app _]. by inversion Hx.
Qed.

(** What follows a value is no hexadecimal digit. *)
Definition shown_ok (w : Z * Z * str) : Prop :=
  0 <= w.1.1 < 32 /\ 0 <= w.1.2 /\ no_eq w.2 /\ (w.2 = [] \/ stops is_hexlow w.2 /\ w.2 <> []).

Lemma shown_writes_ok a : accessed_ok a -> Forall shown_ok (shown_writes a).
Proof.
  intros [_ _ _ _ _ Hrd Hcd _ _]. unfold shown_writes, shown_ok. apply Forall_app. split.
  - destruct (a_rd a) as [[]|]; [|done]. destruct Hrd as [Hn Hd]. unfold width in *. cbn in *.
    apply Forall_singleton. cbn. split_and!; [lia..|apply not_elem_of_nil|by left].
  - destruct (a_cd a) as [[]|]; [|done]. destruct Hcd as (Hn & Hd & Hc). unfold width in *. cbn in *.
    apply Forall_singleton. cbn [fst snd]. split_and!; [lia..| |by right].
    apply (no_eq_app "+0x"). split; [no_eq_lit|apply no_eq_fmt_h; lia].
Qed.

Lemma shown_stops w ws X : shown_ok w -> stops is_hexlow X ->
  stops is_hexlow (w.2 ++ mjoin (put_shown <$> ws) ++ X).
Proof.
  intros (_ & _ & _ & [-> | [Hs Hn]]) HX.
  - by destruct ws.
  - destruct w as [[n d] s]. by destruct s.
Qed.

(** The first write to another register than x0 is found. *)
Lemma search_rd_shown ws b p X :
  no_eq p -> no_eq X -> stops is_hexlow X -> Forall shown_ok ws ->
  match search_from RD_RE b (p ++ mjoin (put_shown <$> ws) ++ X) with
  | Some c => exists n d, List.find (fun w => negb (w.1 =? 0)) (fst <$> ws) = Some (n, d) /\
                grp c 2 = str_of_Z n /\ grp c 3 = fmt_h 8 d
  | None => List.find (fun w => negb (w.1 =? 0)) (fst <$> ws) = None
  end.
Proof.
  intros Hp HX Hs Hws. revert b p Hp. induction Hws as [|w ws Hw Hws IH]; intros b p Hp.
  { change (search_from RD_RE b (p ++ mjoin (put_shown <$> []) ++ X)) with (search_from RD_RE b (p ++ X)).
    by rewrite search_rd_none by (by apply no_eq_app). }
  pose proof (shown_stops w ws X Hw Hs) as Hstop. destruct Hw as (Hn & Hd & Hsf & _).
  destruct w as [[n d] sf]. cbn [fst snd] in *.
  assert (mjoin (put_shown <$> (n, d, sf) :: ws) ++ X =
    " " ++ reg_pad n ++ "x"%char :: str_of_Z n ++ "=0x" ++ fmt_h 8 d ++ sf ++ mjoin (put_shown <$> ws) ++ X) as ->.
  { cbn [fmap list_fmap mjoin list_join]. unfold put_shown at 1. cbn [fst snd]. rewrite reg_addr_split.
    rewrite <-!app_assoc. cbn [app]. by rewrite <-?app_assoc. }
  set (tail := sf ++ mjoin (put_shown <$> ws) ++ X) in *.
  assert (no_eq (p ++ " " ++ reg_pad n)) as Hpp.
  { unfold reg_pad. rewrite !no_eq_app. split_and!; [done|no_eq_lit|case_match; no_eq_lit]. }
  cbn [fmap list_fmap List.find fst snd]. destruct (Z.eqb_spec n 0) as [->|Hn0]; cbn [negb].
  - specialize (IH (reverse ((p ++ " " ++ reg_pad 0) ++ "x0=") ++ b) ("0x" ++ fmt_h 8 d ++ sf)).
    replace (p ++ " " ++ reg_pad 0 ++ "x"%char :: str_of_Z 0 ++ "=0x" ++ fmt_h 8 d ++ tail)
      with ((p ++ " " ++ reg_pad 0) ++ "x0=" ++ ("0x" ++ fmt_h 8 d ++ sf) ++ mjoin (put_shown <$> ws) ++ X).
    + rewrite search_rd_x0 by done. apply IH.
      rewrite !no_eq_app. split_and!; [no_eq_lit|by apply no_eq_fmt_h|done].
    + unfold tail. rewrite <-!app_assoc. done.
  - assert (Forall (fun c => is_digit c = true) (str_of_Z n)) as Hdig.
    { rewrite str_of_Z_pos by lia. apply digits10_digit. lia. }
    pose proof (search_rd_at b (p ++ " " ++ reg_pad n) (str_of_Z n) ("0x" ++ fmt_h 8 d ++ tail) Hpp Hdig
                  (digits_no_eq _ Hdig)) as E.
    destruct (match_rd_here (reverse (p ++ " " ++ reg_pad n) ++ b) n (fmt_h 8 d) tail)
      as (m & Hm & H2 & H3); [lia|by apply fmt_h_hexlow|by apply fmt_h_not_nil|done|].
    rewrite <-!app_assoc in E. cbn [app String.list_ascii_of_string] in E, Hm |- *.
    rewrite E, Hm. by exists n, d.
Qed.

(** The update the line shows is found. *)
Lemma search_rd_line r text :
  r_decoded r = text -> no_eq text -> retired_ok r -> accessed_ok (r_data r) ->
  match re_search RD_RE (dumpline r ++ [newline]) with
  | Some c => exists n d, write_of (r_data r) = Some (n, d) /\ grp c 2 = str_of_Z n /\ grp c 3 = fmt_h 8 d
  | None => write_of (r_data r) = None
  end.
Proof.
  intros Hd Ht Hr Ha. pose proof (retired_pos r Hr) as (Hrt & Hrc & _ & _).
  assert (no_eq [tab] /\ no_eq [newline]) as [N1 N2].
  { split; unfold no_eq; apply (bool_decide_unpack _); vm_compute; exact I. }
  assert (dumpline r ++ [newline] = columns_of r ++ tab :: mark r ++ (text ++ [tab] ++ reads (r_data r)) ++
            mjoin (put_shown <$> shown_writes (r_data r)) ++ mems (r_data r) ++ [newline]) as ->.
  { pose proof (dumpline_columns r text [] ltac:(by rewrite app_nil_r) Hrt Hrc) as E.
    rewrite E, contents_split. unfold columns_of. rewrite <-!app_assoc. cbn [app]. by rewrite <-?app_assoc. }
  unfold re_search.
  destruct (search_rd_contents r (text ++ [tab] ++ reads (r_data r))
    (mjoin (put_shown <$> shown_writes (r_data r)) ++ mems (r_data r) ++ [newline])) as (b & p & Hp & ->);
    [done|by rewrite !no_eq_app; split_and!; [| |apply no_eq_reads]|].
  apply search_rd_shown; [done| |apply mems_stops|by apply shown_writes_ok].
  apply no_eq_app. split; [by apply no_eq_mems|done].
Qed.

Lemma convert_tracer_line (r : retired) (mn ws ops rest : str) (full_trace : bool) :
  r_decoded r = mn ++ ws ++ ops ++ rest -> operands_ok mn ws ops rest ->
  retired_ok r -> accessed_ok (r_data r) ->
  let trace := TraceEntry [] [] (mark r ++ mn) [] (fmt_h 8 (r_pc r)) (insn_hex r)
                 (mark r ++ mn ++ ws ++ ops) [] in
  convert_line full_trace (dumpline r ++ [newline]) =
  (t ← (if full_trace then expand_trace_entry trace ops else Ok trace);
   Ok (Some (match write_of (r_data r) with
             | Some (n, d) => add_gpr t (gpr_to_abi ("x" ++ str_of_Z n) ++ ":" ++ fmt_h 8 d)
             | None => t
             end))).
Proof.
  intros Hd Ho Hr Ha trace.
  assert (exists m, re_search INSTR_RE (dumpline r ++ [newline]) = Some m /\
            grp m 3 = fmt_h 8 (r_pc r) /\ grp m 4 = insn_hex r /\ grp m 5 = mark r ++ mn ++ ws ++ ops)
    as (m & Hm & H3 & H4 & H5).
  { apply retired_pos in Hr as (Ht & Hc & Hp & Hi). destruct Ho as [Hmn Nmn Hws Nws Hops Nops Hrest _].
    rewrite (dumpline_columns r (mn ++ ws ++ ops ++ rest) []) by (done || by rewrite app_nil_r).
    pose proof (digits_spec 10 (r_time r) ltac:(lia) Ht) as (Hne0 & _).
    pose proof (digits_spec 10 (r_cycle r) ltac:(lia) Hc) as (Hne1 & _).
    destruct (instr_columns (replicate (15 - length (digits 10 (r_time r))) " "%char) (digits 10 (r_time r))
      (tab :: replicate (10 - length (digits 10 (r_cycle r))) " "%char) (digits 10 (r_cycle r))
      [tab] (fmt_h 8 (r_pc r)) (insn_pad r) (insn_hex r) [tab] (mark r ++ mn) ws ops
      (rest ++ [tab] ++ contents (r_data r) ++ [newline])) as (m & Hm & H3 & H4 & H5);
      auto using is_space_replicate, digits10_digit, fmt_h_not_nil, fmt_h_hexlow.
    - unfold insn_pad. destruct (r_compressed r); repeat constructor.
    - by apply fmt_h_hexlow.
    - apply Forall_app. split; [apply mark_word|done].
    - by apply fmt_h_not_nil.
    - by intros [_ ?]%app_nil.
    - by destruct rest.
    - exists m. rewrite <-Hm. rewrite <-app_assoc in H5. split_and!; [|done..].
      f_equal. rewrite <-!app_assoc. reflexivity. }
  unfold convert_line. rewrite Hm, H3, H4, H5.
  assert (words (mark r ++ mn ++ ws ++ ops) = [mark r ++ mn; ops]) as ->.
  { rewrite (app_assoc (mark r)). destruct Ho. apply words_two; try done.
    - apply Forall_app. split; [apply mark_word|done].
    - by intros [_ ?]%app_nil. }
  cbn [py_nth or_raise lookup list_lookup mbind res_bind].
  pose proof (search_rd_line r _ Hd (operands_no_eq _ _ _ _ Ho) Hr Ha) as Hrd.
  assert (forall t, match re_search RD_RE (dumpline r ++ [newline]) with
            | Some c => add_gpr t (gpr_to_abi ("x" ++ grp c 2) ++ ":" ++ grp c 3) | None => t end =
            match write_of (r_data r) with
             | Some (n, d) => add_gpr t (gpr_to_abi ("x" ++ str_of_Z n) ++ ":" ++ fmt_h 8 d)
             | None => t end) as Hu.
  { intros t. destruct (re_search RD_RE _) as [c|].
    - destruct Hrd as (n & d & -> & -> & ->). done.
    - by rewrite Hrd. }
  fold trace. destruct full_trace; cbn [mbind res_bind].
  - destruct (expand_trace_entry trace ops); [|done]. cbn [mbind res_bind]. by rewrite Hu.
  - by rewrite Hu.
Qed.


(** An addition that writes its result. *)
Definition addi_retired : retired := {|
  r_time := 120; r_cycle := 12; r_pc := 0x80000008; r_insn := 0x00550513;
  r_trap := false; r_intr := true; r_decoded := "addi" ++ [tab] ++ "x10,x10,5";
  r_data := Accessed (Some (RegVal 10 0x7)) None None None None (Some (RegVal 10 0xc)) None None None |}.


(** A jump that writes x0. *)
Definition jump_retired : retired := {|
  r_time := 150; r_cycle := 15; r_pc := 0x80000010; r_insn := 0x0100006f;
  r_trap := false; r_intr := false; r_decoded := "jal" ++ [tab] ++ "x0,80000020";
  r_data := Accessed None None None None None (Some (RegVal 0 0)) None None None |}.
Example jump_line :
  dumpline jump_retired = "            150" ++ [tab] ++ "        15" ++ [tab] ++ "80000010" ++ [tab] ++ "0100006f" ++
    [tab] ++ "jal" ++ [tab] ++ "x0,80000020" ++ [tab] ++ "  x0=0x00000000" /\
  convert_line true (dumpline jump_retired ++ [newline]) =
  Ok (Some (TraceEntry [] [] "jal" "zero,0x10" "80000010" "0100006f" ("jal" ++ [tab] ++ "x0,80000020") [])).
Proof. split; by_compute. Qed.
