(* ===== verification/SpikeLog.v ===== *)
(** * The Spike simulation log

    vendor/google_riscv-dv/scripts/spike_log_to_trace_csv.py: the state machine
    that reads the executed instructions and their effects from a Spike log, and
    the conversion of the log to an instruction trace CSV file. *)

From S2P Require Import Prelude PyStr PyRe PyIO IbexConfig RvLib TestList TestRun TraceCsv IbexLog.
From Stdlib Require Import Ascii.
Local Open Scope Z_scope.

(** ** Expressions *)

(** Groups: 1 the core, 2 pri, 3 addr, 4 bin, 5 reg, 6 val. *)
Definition RD_RE : regex :=
  rseq [ROpt (RGrp 1 (rseq [lit "core"; plus is_space; plus is_digit; lit ":"; plus is_space]));
        RGrp 2 (RChr is_digit); lit " 0x"; RGrp 3 (plus_lazy is_hexlow); lit " (";
        RGrp 4 (star_lazy dot); lit ") ";
        RGrp 5 (rseq [RChr (chr_in "xf"); star is_space; star_lazy is_digit]); lit " 0x";
        RGrp 6 (plus is_hexlow)].

(** Groups: 1 addr, 2 bin, 3 instr. *)
Definition CORE_RE : regex :=
  rseq [lit "core"; plus is_space; plus is_digit; lit ":"; plus is_space; lit "0x";
        RGrp 1 (plus_lazy is_hexlow); lit " (0x"; RGrp 2 (star_lazy dot); lit ") ";
        RGrp 3 (star_lazy dot); REol].

Definition end_trampoline_re : regex :=
  rseq [lit "core"; star dot; lit ": 0x"; star (Ascii.eqb "0"); lit "1010 "].

(** ** Instructions *)

Definition with_operand (t : trace_entry) (operand : str) : trace_entry :=
  TraceEntry (e_gpr t) (e_csr t) (e_instr t) operand (e_pc t) (e_binary t) (e_instr_str t) (e_mode t).

(** The offset of a [jal] in decimal. *)
Definition jal_imm (imm : str) : res str :=
  c ← py_nth imm 0;
  if Ascii.eqb c "-" then n ← int_of 16 (drop 1 imm); Ok ("-" ++ str_of_Z n)
  else n ← int_of 16 imm; Ok (str_of_Z n).

Definition process_instr (trace : trace_entry) : res trace_entry :=
  trace ← (if bool_decide (e_instr trace = ("jal" : str)) then
             let '(front, imm) := match rsplit1 ","%char (e_operand trace) with
                                  | Some (a, b) => (a ++ ",", b)
                                  | None => ([], e_operand trace)
                                  end in
             imm ← jal_imm imm; Ok (with_operand trace (front ++ imm))
           else Ok trace);
  Ok (match re_search ADDR_RE (e_operand trace) with
      | Some m => with_operand trace (grp m 1 ++ "," ++ grp m 3 ++ "," ++ grp m 2)
      | None => trace
      end).

Definition read_spike_instr (m : rmatch) (full_trace : bool) : res trace_entry :=
  let disasm := replace "pc - " "-" (replace "pc + " "" (grp m 3)) in
  let instr := TraceEntry [] [] [] [] (grp m 1) (grp m 2) disasm [] in
  if full_trace then
    opcode ← py_nth (split " "%char disasm) 0;
    let operand := replace " " "" (drop (length opcode) disasm) in
    r ← convert_pseudo_instr opcode operand (e_binary instr);
    let (i, operand) := r : str * str in
    process_instr (TraceEntry [] [] i operand (e_pc instr) (e_binary instr) disasm [])
  else Ok instr.

(** ** [read_spike_trace] *)

Inductive fsm :=
| Trampoline
| Instr
| Effect (instr : trace_entry).

(** What the generator yields, and how it ends. *)
Definition yields : Type := list (trace_entry * bool) * res unit.
Definition yield (y : trace_entry * bool) (r : yields) : yields := (y :: r.1, r.2).

Definition is_ecall (t : trace_entry) : bool := bool_decide (e_instr_str t = ("ecall" : str)).
Definition illegal_line (line : str) : bool := contains "trap_illegal_instruction" line.

(** The effect of a commit line on the instruction. *)
Definition add_commit (t : trace_entry) (line : str) : trace_entry :=
  match re_match RD_RE line with
  | Some m => TraceEntry (e_gpr t ++ [gpr_to_abi (replace " " "" (grp m 5)) ++ ":" ++ grp m 6])
                (e_csr t) (e_instr t) (e_operand t) (e_pc t) (e_binary t) (e_instr_str t) (grp m 2)
  | None => t
  end.

Fixpoint read_spike_lines (full_trace : bool) (lines : list str) (st : fsm) : yields :=
  match lines with
  | [] => match st with Effect instr => ([(instr, false)], Ok tt) | _ => ([], Ok tt) end
  | line :: lines' =>
      (* a core line: the new instruction, where [ecall] ends the trace *)
      let fetch m :=
        match read_spike_instr m full_trace with
        | Raise c msg => ([], Raise c msg)
        | Ok instr => if is_ecall instr then ([(instr, false)], Ok tt)
                      else read_spike_lines full_trace lines' (Effect instr)
        end in
      match st with
      | Trampoline =>
          read_spike_lines full_trace lines'
            (match re_match end_trampoline_re line with Some _ => Instr | None => Trampoline end)
      | Instr =>
          match re_match CORE_RE line with
          | None => read_spike_lines full_trace lines' Instr
          | Some m => fetch m
          end
      | Effect instr =>
          match re_match CORE_RE line with
          | Some m => yield (instr, false) (fetch m)
          | None =>
              if illegal_line line then yield (instr, true) (read_spike_lines full_trace lines' Instr)
              else read_spike_lines full_trace lines' (Effect (add_commit instr line))
          end
      end
  end.

Definition read_spike_trace (log_text : str) (full_trace : bool) : yields :=
  read_spike_lines full_trace (lines_keep (universal_newlines log_text)) Trampoline.

(** ** [process_spike_sim_log] *)

(** Which instructions are written. *)
Definition spike_written (full_trace : bool) (t : trace_entry) : bool :=
  full_trace || negb (bool_decide (e_gpr t = []))
  || bool_decide (e_instr_str t ∈ ["wfi" : str; "ecall" : str]).

Definition process_spike_text (log_text : str) (full_trace : bool) : out Z :=
  let (ys, r) := read_spike_trace log_text full_trace in
  let written := List.filter (spike_written full_trace) ys.*1 in
  _ ← say (mjoin (write_trace_entry <$> written));
  _ ← lift r;
  mret (Z.of_nat (length written)).

(** The CSV file is opened before the log. *)
Definition process_spike_sim_log (full_trace : bool) (spike_log csv : str) (fs : fsys) : res Z * fsys :=
  let (text, r) :=
    (_ ← say start_new_trace;
     match fs !! spike_log with
     | None => lift (Raise FileNotFoundError (no_such_file spike_log))
     | Some log_text => process_spike_text log_text full_trace
     end) in
  (r, <[csv := text]> fs).

Definition demo_spike : list str :=
  ["core   0: 0x0000000000001010 (0x0182b283) ld      t0, 24(t0)" : str;
   "core   0: 0x80000000 (0x00a00513) li      a0, 10" : str;
   "3 0x80000000 (0x00a00513) x10 0x0000000a" : str;
   "core   0: 0x80000004 (0xffffffff) unknown" : str;
   "core   0: exception trap_illegal_instruction, epc 0x80000004" : str;
   "core   0: 0x80000008 (0x0000006f) j       pc + 0x8" : str;
   "core   0: 0x80000010 (0x00000073) ecall" : str;
   "core   0: 0x80000014 (0x00a00513) li      a0, 10" : str].
Example read_spike_ex :
  (fun y : trace_entry * bool => (e_instr y.1, e_operand y.1, e_gpr y.1, y.2)) <$> (read_spike_lines true demo_spike Trampoline).1
  = [("li" : str, "a0,10" : str, ["a0:0000000a" : str], false); ("unknown" : str, [], [], true);
     ("jal" : str, "zero,8" : str, [], false); ("ecall" : str, [], [], false)].
Proof. by_compute. Qed.

(** ** The state machine groups the lines of an instruction *)

Definition is_core (line : str) : bool := match re_match CORE_RE line with Some _ => true | None => false end.

Fixpoint take_lines (p : str -> bool) (l : list str) : list str :=
  match l with [] => [] | x :: l' => if p x then x :: take_lines p l' else [] end.

(** A core line with the lines up to the next one. *)
Fixpoint blocks (lines : list str) : list (rmatch * list str) :=
  match lines with
  | [] => []
  | line :: lines' =>
      match re_match CORE_RE line with
      | Some m => (m, take_lines (fun l => negb (is_core l)) lines') :: blocks lines'
      | None => blocks lines'
      end
  end.

(** The instruction of a block, with the commits before a trap. *)
Definition block_entry (instr : trace_entry) (follow : list str) : trace_entry * bool :=
  (foldl add_commit instr (take_lines (fun l => negb (illegal_line l)) follow),
   existsb illegal_line follow).

(** The blocks up to the first [ecall], whose lines are not looked at. *)
Fixpoint executed (full_trace : bool) (bs : list (rmatch * list str)) : yields :=
  match bs with
  | [] => ([], Ok tt)
  | (m, follow) :: bs' =>
      match read_spike_instr m full_trace with
      | Raise c msg => ([], Raise c msg)
      | Ok instr => if is_ecall instr then ([(instr, false)], Ok tt)
                    else yield (block_entry instr follow) (executed full_trace bs')
      end
  end.

Lemma block_entry_step instr line follow :
  block_entry instr (line :: follow) =
  if illegal_line line then (instr, true) else block_entry (add_commit instr line) follow.
Proof. unfold block_entry. cbn. by destruct (illegal_line line). Qed.

Lemma fsm_blocks full_trace lines :
  read_spike_lines full_trace lines Instr = executed full_trace (blocks lines) /\
  forall instr, read_spike_lines full_trace lines (Effect instr) =
    yield (block_entry instr (take_lines (fun l => negb (is_core l)) lines))
          (executed full_trace (blocks lines)).
Proof.
  induction lines as [|line lines [IH1 IH2]]; [done|]. cbn [read_spike_lines blocks take_lines].
  assert (is_core line = match re_match CORE_RE line with Some _ => true | None => false end) as -> by done.
  destruct (re_match CORE_RE line) as [m|]; cbn [negb].
  - cbn [executed]. destruct (read_spike_instr m full_trace) as [i|]; [|done].
    destruct (is_ecall i); [done|]. rewrite IH2. done.
  - split; [done|]. intros instr. rewrite block_entry_step.
    destruct (illegal_line line); [by rewrite IH1|apply IH2].
Qed.

Lemma trampoline_skip full_trace pre line rest :
  Forall (fun l => re_match end_trampoline_re l = None) pre -> is_Some (re_match end_trampoline_re line) ->
  read_spike_lines full_trace (pre ++ line :: rest) Trampoline = read_spike_lines full_trace rest Instr.
Proof.
  intros H [m Hm]. induction H as [|l pre Hl H IH]; cbn [app read_spike_lines]; [by rewrite Hm|].
  by rewrite Hl, IH.
Qed.

(** The state machine yields one entry for every core line after Spike's
    trampoline up to the first [ecall], with the register commits of the lines
    before the next core line or the illegal-instruction trap among them; and it
    ends without an exception when operands are not extracted. *)
Theorem spike_trace_blocks (full_trace : bool) (pre rest : list str) (line : str) :
  Forall (fun l => re_match end_trampoline_re l = None) pre -> is_Some (re_match end_trampoline_re line) ->
  read_spike_lines full_trace (pre ++ line :: rest) Trampoline = executed full_trace (blocks rest) /\
  (full_trace = false -> (executed full_trace (blocks rest)).2 = Ok tt).
Proof.
  intros Hp Hl. split.
  - rewrite trampoline_skip by done. apply fsm_blocks.
  - intros ->. induction (blocks rest) as [|[m follow] bs IH]; [done|]. cbn [executed read_spike_instr].
    by destruct (is_ecall _).
Qed.

Lemma spike_trace_blocks_witness :
  read_spike_lines false demo_spike Trampoline = executed false (blocks (drop 1 demo_spike)) /\
  length (executed false (blocks (drop 1 demo_spike))).1 = 4%nat.
Proof.
  split; [|by_compute].
  apply (spike_trace_blocks false [] (drop 1 demo_spike)
           "core   0: 0x0000000000001010 (0x0182b283) ld      t0, 24(t0)").
  - constructor.
  - assert (exists m, re_match end_trampoline_re
              "core   0: 0x0000000000001010 (0x0182b283) ld      t0, 24(t0)" = Some m) as [m Hm]
      by (vm_compute; eexists; reflexivity).
    exists m. exact Hm.
Defined.
