(* ===== verification/ConvEntries.v ===== *)
(** * The entries the log converters write

    What ibex_log_to_trace_csv.py and spike_log_to_trace_csv.py put into the CSV
    files, as lists of entries: every entry can be read back from the file, and
    each of its register updates is one the comparison accepts. *)

From S2P Require Import Prelude PyStr PyRe PyIO RvLib TraceCsv InstrCompare IbexLog SpikeLog.
From Stdlib Require Import Ascii.
Local Open Scope Z_scope.

(** ** Clean texts *)

Lemma clean_forall s : clean s <-> Forall (fun c => is_crnl c = false) s.
Proof.
  unfold clean. rewrite Forall_forall. split.
  - intros [H1 H2] c Hc. unfold is_crnl. apply orb_false_iff. split; apply Ascii.eqb_neq; congruence.
  - intros H. split; intros Hin; by apply H in Hin.
Qed.

Lemma clean_nil : clean [].
Proof. split; apply not_elem_of_nil. Qed.
Lemma clean_class p s : Forall (fun c => p c = true) s -> (forall c, p c = true -> is_crnl c = false) -> clean s.
Proof. intros H Hp. apply clean_forall. eapply Forall_impl; [exact H|]. exact Hp. Qed.
Lemma clean_lit (s : str) : forallb (fun c => negb (is_crnl c)) s = true -> clean s.
Proof.
  intros H. apply clean_forall, Forall_forall. intros c Hc. rewrite forallb_forall in H.
  apply list_elem_of_In, H, negb_true_iff in Hc. exact Hc.
Qed.
Lemma clean_app_2 a b : clean a -> clean b -> clean (a ++ b).
Proof. rewrite clean_app. done. Qed.
Lemma clean_factor s p q t : clean s -> s = p ++ t ++ q -> clean t.
Proof. intros H ->. rewrite !clean_app in H. tauto. Qed.
Lemma clean_cons_2 c s : is_crnl c = false -> clean s -> clean (c :: s).
Proof. rewrite clean_cons. done. Qed.

(** A concatenation of clean texts and literals. *)
Ltac clean_text :=
  match goal with
  | |- clean (_ :: _) => apply clean_cons_2; [reflexivity|clean_text]
  | |- clean _ => first [ assumption | apply clean_lit; reflexivity | apply clean_app_2; [clean_text|clean_text] ]
  end.

Lemma hexlow_clean c : is_hexlow c = true -> is_crnl c = false.
Proof. revert c. all_chars. Qed.
Lemma not_space_clean c : is_space c = false -> is_crnl c = false.
Proof. revert c. all_chars. Qed.

Lemma words_clean s : Forall clean (words s).
Proof.
  unfold words. assert (forall cur, clean cur -> Forall clean (words_go cur s)) as H; [|apply H, clean_nil].
  induction s as [|c s IH]; intros cur Hc; cbn [words_go].
  - destruct cur; [constructor|]. constructor; [|constructor].
    rewrite clean_forall in *. by apply Forall_reverse.
  - destruct (is_space c) eqn:E.
    + destruct cur; [apply IH, clean_nil|]. constructor; [|apply IH, clean_nil].
      rewrite clean_forall in *. by apply Forall_reverse.
    + apply IH, clean_cons_2; [by apply not_space_clean|done].
Qed.
Lemma py_nth_clean l i x : Forall clean l -> py_nth l i = Ok x -> clean x.
Proof. intros H E%or_raise_ok. rewrite Forall_lookup in H. by eapply H. Qed.

Lemma split_clean c s : clean s -> Forall clean (split c s).
Proof.
  rewrite clean_forall. induction 1 as [|a s Ha Hs IH]; cbn [split]; [constructor; [apply clean_nil|constructor]|].
  destruct (Ascii.eqb a c); [constructor; [apply clean_nil|done]|].
  destruct (split c s) as [|w r]; [constructor; [apply clean_lit; cbn; by rewrite Ha|constructor]|].
  apply Forall_cons in IH as [Hw Hr]. constructor; [by apply clean_cons_2|done].
Qed.

Lemma grp_clean r m n s : match_of r m -> subject m = s -> clean s -> clean (grp m n).
Proof. intros H <- Hs. destruct (grp_factor r m n H) as (p & q & E). by eapply clean_factor. Qed.
Lemma search_grp_clean r m n s : re_search r s = Some m -> clean s -> clean (grp m n).
Proof. intros [H E]%re_search_of Hs. by eapply grp_clean. Qed.

Lemma replace_clean old new s : clean new -> clean s -> clean (replace old new s).
Proof.
  intros Hn Hs. assert (forall k, clean (replace_go old new s k)) as Hgo.
  { rewrite clean_forall in Hs. induction Hs as [|c s Hc Hs IH]; intros k; [apply clean_nil|].
    cbn [replace_go]. destruct k; [|apply IH]. case_match; [by apply clean_app_2|by apply clean_cons_2]. }
  unfold replace. destruct old; [|apply Hgo]. apply clean_app_2; [done|].
  clear Hgo. rewrite clean_forall in Hs. induction Hs as [|c s Hc Hs IH]; [apply clean_nil|].
  cbn. apply clean_cons_2; [done|]. by apply clean_app_2.
Qed.

(** ** Register updates *)

(** An update the comparison takes apart: a name and a hexadecimal value. *)
Definition good_update (u : str) : Prop :=
  exists rd v, u = (rd ++ ":" ++ v) /\ (":"%char ∉ rd) /\ (";"%char ∉ rd) /\ clean rd /\
    v <> [] /\ Forall (fun c => is_hexlow c = true) v.

Lemma abi_name g : (":"%char ∉ gpr_to_abi g) /\ (";"%char ∉ gpr_to_abi g) /\ clean (gpr_to_abi g).
Proof.
  set (ok := fun s : str => forallb (fun c => negb (chr_in [":"%char; ";"%char; CR; newline] c)) s).
  assert (ok (gpr_to_abi g) = true) as H.
  { unfold gpr_to_abi. destruct (assoc g switcher) as [v|] eqn:E; [|reflexivity]. cbn [default].
    apply assoc_in in E. assert (forallb (fun kv => ok kv.2) switcher = true) as Hall by (vm_compute; reflexivity).
    rewrite forallb_forall in Hall. apply (Hall (g, v)), list_elem_of_In, E. }
  unfold ok in H. rewrite forallb_forall in H.
  assert (forall c, c ∈ [":"%char; ";"%char; CR; newline] -> c ∉ gpr_to_abi g) as Hn.
  { intros c Hc Hin. apply list_elem_of_In, H in Hin. apply negb_true_iff in Hin.
    unfold chr_in in Hin. by apply bool_decide_eq_false in Hin. }
  split_and!; [apply Hn; set_solver..|]. split; apply Hn; set_solver.
Qed.

Lemma abi_update g v :
  v <> [] -> Forall (fun c => is_hexlow c = true) v -> good_update (gpr_to_abi g ++ ":" ++ v).
Proof. intros Hne Hv. destruct (abi_name g) as (H1 & H2 & H3). exists (gpr_to_abi g), v. by split_and!. Qed.

Lemma good_update_csv u : good_update u -> clean u /\ ";"%char ∉ u.
Proof.
  intros (rd & v & -> & _ & Hs & Hc & _ & Hv). split.
  - apply clean_app_2; [done|]. apply clean_app_2; [by apply clean_lit|]. eapply clean_class; [exact Hv|exact hexlow_clean].
  - rewrite !elem_of_app. intros [H|[H|H]]; [done|by apply list_elem_of_singleton in H|].
    rewrite Forall_forall in Hv. by apply Hv in H.
Qed.

Lemma good_updates_checked us ch g : Forall good_update us -> exists r, check_updates us ch g = Ok r.
Proof.
  intros H. revert ch g; induction H as [|u us (rd & v & -> & Hrd & _ & _ & Hne & Hv) _ IH]; intros ch g; cbn [check_updates]; [by eexists|].
  rewrite bool_decide_eq_false_2 by (by destruct rd).
  change (rd ++ ":" ++ v) with (rd ++ ":"%char :: v). rewrite split_app_sep by done.
  assert (":"%char ∉ v) as Hcv by (intros Hin; rewrite Forall_forall in Hv; by apply Hv in Hin).
  rewrite split_absent by done.
  assert (exists n, int_of 16 v = Ok n) as [n Hn].
  { assert (Forall (fun c => base_class 16 c = true) v) as Hb.
    { eapply Forall_impl; [exact Hv|]. all_chars. }
    destruct (int_of_total 16 v ltac:(by right) ltac:(destruct v; cbn; [done|lia]) Hb) as (n & Hn & _). by exists n. }
  destruct (g !! rd) as [w|]; cbn [mbind res_bind]; [apply IH|]. rewrite Hn. cbn [mbind res_bind]. apply IH.
Qed.

(** An entry that is read back and whose updates are checked. *)
Definition entry_good (t : trace_entry) : Prop := entry_ok t /\ Forall good_update (e_gpr t).

Lemma entry_good_intro t :
  Forall good_update (e_gpr t) -> e_csr t = [] ->
  Forall clean [e_instr t; e_operand t; e_pc t; e_binary t; e_instr_str t; e_mode t] -> entry_good t.
Proof.
  intros Hg Hc Ht. split; [|done]. split; [|by rewrite Hc|done].
  eapply Forall_impl; [exact Hg|]. exact good_update_csv.
Qed.


Lemma check_norm l g : check_update_gpr (norm l) g = check_update_gpr l g.
Proof. by destruct l. Qed.

Lemma events_total es g : Forall entry_good es -> exists E, events g es = Ok E.
Proof.
  intros H. revert g; induction H as [|t es [_ Ht] _ IH]; intros g; cbn [events]; [by eexists|].
  destruct (good_updates_checked (e_gpr t) false g Ht) as [[ch g'] Hr]. unfold check_update_gpr. rewrite Hr. cbn [mbind res_bind].
  destruct (IH g') as [E HE]. cbn [snd]. rewrite HE. by eexists.
Qed.

(** ** The RTL log *)

Lemma good_line_factor l p t q :
  good_line l -> l = p ++ t ++ q -> (forall t' , t <> t' ++ [newline]) -> clean t.
Proof.
  intros (body & Hb & Hl) E Ht. apply clean_forall in Hb.
  destruct Hl as [-> | ->]; [by eapply clean_factor|].
  destruct q as [|c q' _] using rev_ind.
  - rewrite app_nil_r in E. destruct t as [|c t' _] using rev_ind; [apply clean_nil|].
    rewrite app_assoc in E. apply app_inj_tail in E as [_ <-]. by destruct (Ht t').
  - rewrite !app_assoc in E. apply app_inj_tail in E as [E _]. rewrite <-app_assoc in E. by eapply clean_factor.
Qed.

Lemma good_line_no_cr l : good_line l -> CR ∉ l.
Proof.
  intros (body & Hb & Hl). apply clean_forall in Hb as [Hb _].
  destruct Hl as [-> | ->]; [done|]. rewrite elem_of_app, list_elem_of_singleton. by intros [|].
Qed.

(** The instruction text ends in a character that is no white space. *)
Lemma instr_text_clean line m : good_line line -> re_search INSTR_RE line = Some m -> clean (grp m 5).
Proof.
  intros Hl [Hm Hs]%re_search_of. destruct (grp_factor _ _ 5 Hm) as (p & q & E). rewrite Hs in E.
  eapply good_line_factor; [exact Hl|exact E|]. intros t' Et.
  destruct (grp_captured _ _ 5 Hm) as [Hn|(r0 & s1 & s2 & u & Hin & Hr & E1 & _)]; [rewrite Hn in Et; by destruct t'|].
  assert (r0 = rseq [plus not_space; plus is_space; plus not_space]) as ->.
  { cbn in Hin. repeat (apply elem_of_cons in Hin as [Hin|Hin]; [first [discriminate Hin|by injection Hin]|]).
    by apply not_elem_of_nil in Hin. }
  apply matches_cat_inv in Hr as (s3 & H1 & Hr). apply matches_cat_inv in Hr as (s4 & H2 & Hr).
  apply matches_cat_inv in Hr as (s5 & H3 & Hr). assert (s5 = s2) as -> by (by inversion Hr).
  pose proof (matches_span _ _ _ H1) as (l1 & A1 & _). pose proof (matches_span _ _ _ H2) as (l2 & A2 & _).
  pose proof (matches_span _ _ _ H3) as (l3 & A3 & _). pose proof (matches_class _ _ _ _ _ _ H3 A3) as Hc.
  assert (l3 <> []) as Hne.
  { inversion H3 as [| | | | |g' m' p' l a s0 Ea Hla Hma| | | |]; subst; [|discriminate]. cbn in A3.
    rewrite Ea in A3. apply app_inv_tail in A3 as ->. by destruct l3; cbn in Hma; [lia|]. }
  rewrite A1, A2, A3, !app_assoc in E1. apply app_inv_tail in E1. rewrite Et in E1.
  destruct l3 as [|c l' _] using rev_ind; [done|].
  rewrite !app_assoc in E1. apply app_inj_tail in E1 as [_ ->].
  apply Forall_app in Hc as [_ Hc]. apply Forall_cons in Hc as [Hc _]. discriminate Hc.
Qed.

Lemma hex_group r m n :
  match_of r m -> Forall (fun g => g.1 = n -> exists b k, g.2 = RRep b k is_hexlow) (groups_of r) -> clean (grp m n).
Proof. intros Hm Hg. eapply clean_class; [by eapply grp_class|exact hexlow_clean]. Qed.

(** Decide which groups of a concrete expression have a number. *)
Ltac group_cases :=
  repeat (apply Forall_cons; split; [intros Hnum; first [discriminate Hnum | by do 2 eexists]|]); apply Forall_nil_2.

Lemma sint_to_hex_clean n : clean (sint_to_hex n).
Proof.
  unfold sint_to_hex, hex. pose proof (Z.mod_pos_bound (n + 2 ^ 32) (2 ^ 32) ltac:(done)) as H.
  rewrite (proj2 (Z.ltb_ge _ 0)) by lia. apply clean_app_2; [by apply clean_lit|].
  eapply clean_class; [apply digits_hexlow; lia|exact hexlow_clean].
Qed.

Lemma process_imm_clean i pc ops ops' : clean ops -> process_imm i pc ops = Ok ops' -> clean ops'.
Proof.
  unfold process_imm. intros Hc. case_bool_decide; [|by intros [= <-]].
  destruct (match rsplit1 ","%char ops with Some (a, b) => (a ++ ",", b) | None => ([], ops) end) as [front imm] eqn:E.
  intros H1. res_inv. apply clean_app_2; [|apply sint_to_hex_clean].
  destruct (rsplit1 ","%char ops) as [[a' b]|] eqn:Er; injection E as <- <-; [|apply clean_nil].
  apply rsplit1_some in Er as [-> _]. apply clean_app in Hc as [Hc _]. apply clean_app_2; [done|by apply clean_lit].
Qed.

Lemma operand_clean ops i x : clean ops -> operand ops i = Ok x -> clean x.
Proof. intros H. apply py_nth_clean, split_clean, H. Qed.

Lemma tables_clean :
  forallb (fun x : str * str * action => forallb (fun c => negb (is_crnl c)) x.1.2 &&
    match x.2 with SetTo s | Append s | Prepend s => forallb (fun c => negb (is_crnl c)) s | _ => true end) base_table &&
  forallb (fun x : str * str * str => forallb (fun c => negb (is_crnl c)) x.1.2 &&
    forallb (fun c => negb (is_crnl c)) x.2) rv32b_table = true.
Proof. by_compute. Qed.

Lemma find3_in {A} k (l : list (str * str * A)) i a : find3 k l = Some (i, a) -> exists x, x ∈ l /\ x.1.2 = i /\ x.2 = a.
Proof.
  unfold find3. destruct (head _) as [x|] eqn:E; [|done]. intros [= <- <-]. exists x. split; [|done].
  assert (x ∈ filter (fun x => x.1.1 = k) l) as Hin by (by destruct (filter _ l); [|injection E as ->; left]).
  by apply list_elem_of_filter in Hin as [_ Hin].
Qed.

Lemma act_clean a ops ops' :
  match a with SetTo s | Append s | Prepend s => clean s | _ => True end -> clean ops -> act a ops = Ok ops' -> clean ops'.
Proof.
  intros Ha Hc. destruct a; cbn; [by intros [= <-]|intros [= <-]; by apply clean_app_2..| |];
    [unfold zero_between|unfold swap_first]; intros H; res_inv;
    repeat match goal with E : operand _ _ = Ok _ |- _ => apply (operand_clean _ _ _ Hc) in E end;
    clean_text.
Qed.

Lemma convert_jalr_clean ops : clean ops -> clean (convert_jalr ops).
Proof.
  intros Hc. unfold convert_jalr.
  assert (clean (match re_search BASE_RE ops with
                 | Some m => grp m 1 ++ "," ++ grp m 3 ++ "," ++ grp m 2 | None => ops end)) as H.
  { destruct (re_search BASE_RE ops) as [m|] eqn:E; [|done].
    pose proof (fun n => search_grp_clean _ _ n _ E Hc) as Hg. pose proof (Hg 1%nat). pose proof (Hg 2%nat).
    pose proof (Hg 3%nat). clean_text. }
  revert H. generalize (match re_search BASE_RE ops with Some m => grp m 1 ++ "," ++ grp m 3 ++ "," ++ grp m 2 | None => ops end).
  intros t Ht. case_match; clean_text.
Qed.

Lemma convert_pseudo_clean i ops b i' ops' :
  clean i -> clean ops -> convert_pseudo_instr i ops b = Ok (i', ops') -> clean i' /\ clean ops'.
Proof.
  intros Hi Hc. pose proof tables_clean as Ht. apply andb_true_iff in Ht as [Hb Hr].
  rewrite forallb_forall in Hb, Hr. unfold convert_pseudo_instr.
  destruct (find3 i base_table) as [[i1 a]|] eqn:E1.
  - intros H. res_inv. apply find3_in in E1 as (x & Hx & <- & <-). apply list_elem_of_In, Hb in Hx.
    apply andb_true_iff in Hx as [H1 H2]. split; [by apply clean_lit|].
    eapply act_clean; [|exact Hc|exact E]. destruct x.2; try done; by apply clean_lit.
  - repeat case_bool_decide;
      try (intros [= <- <-]; split; clean_text).
    + intros [= <- <-]. split; [done|]. case_match; clean_text.
    + intros [= <- <-]. split; [done|by apply convert_jalr_clean].
    + destruct (last b) as [c|]; [|done]. cbn [or_raise mbind res_bind].
      destruct (Ascii.eqb c "2"); intros [= <- <-]; split; by apply clean_lit.
    + destruct (find3 i rv32b_table) as [[i1 suf]|] eqn:E2; [|by intros [= <- <-]].
      intros [= <- <-]. apply find3_in in E2 as (x & Hx & <- & <-). apply list_elem_of_In, Hr in Hx.
      apply andb_true_iff in Hx as [Hx1 Hx2]. split; [by apply clean_lit|]. apply clean_lit in Hx2. clean_text.
Qed.

Lemma convert_operands_clean ops : clean ops -> clean (convert_operands_to_abi ops).
Proof.
  intros H. unfold convert_operands_to_abi. apply clean_join; [by apply clean_lit|].
  apply Forall_fmap. eapply Forall_impl; [by apply split_clean|]. cbn. intros op Hop.
  case_bool_decide; [done|]. apply abi_name.
Qed.

(** What the entry of an RTL line holds so far. *)
Definition texts (t : trace_entry) : list str :=
  [e_instr t; e_operand t; e_pc t; e_binary t; e_instr_str t; e_mode t].

Lemma expand_clean t ops t' :
  Forall clean (texts t) -> clean ops -> expand_trace_entry t ops = Ok t' ->
  Forall clean (texts t') /\ e_gpr t' = e_gpr t /\ e_csr t' = e_csr t.
Proof.
  intros Ht Hc H. unfold expand_trace_entry in H.
  repeat match goal with H : Forall clean (texts _) |- _ => unfold texts in H
    | H : Forall clean (_ :: _) |- _ => apply Forall_cons in H as [? H] end.
  destruct (process_imm (e_instr t) (e_pc t) ops) as [ops1|] eqn:E1; [|discriminate H].
  apply process_imm_clean in E1; [|done]. cbn [mbind res_bind] in H.
  destruct (convert_pseudo_instr (e_instr t) ops1 (e_binary t)) as [[i ops2]|] eqn:E2; [|discriminate H].
  apply convert_pseudo_clean in E2 as [Hi Hops2]; [|done..]. cbn [mbind res_bind] in H.
  destruct (match re_search ADDR_RE ops2 with
            | Some n => _ ← get_imm_hex_val (grp n 2); Ok (join "," [grp n 1; grp n 3; grp n 2])
            | None => Ok ops2 end) as [ops3|] eqn:E3; [|discriminate H].
  assert (clean ops3) as Hops3.
  { destruct (re_search ADDR_RE ops2) as [n|] eqn:En; [|by injection E3 as <-]. res_inv.
    pose proof (fun k => search_grp_clean _ _ k _ En Hops2) as Hg.
    pose proof (Hg 1%nat). pose proof (Hg 2%nat). pose proof (Hg 3%nat). clean_text. }
  cbn [mbind res_bind] in H. injection H as <-. cbn. split; [|done].
  repeat (apply Forall_cons; split; [try done; by apply convert_operands_clean|]). apply Forall_nil_2.
Qed.

(** Every line of the RTL log becomes an entry that is read back and whose
    update is checked. *)
Lemma convert_line_good line t :
  good_line line -> convert_line true line = Ok (Some t) -> entry_good t.
Proof.
  intros Hl. unfold convert_line. destruct (re_search INSTR_RE line) as [m|] eqn:E; [|done].
  pose proof (instr_text_clean _ _ Hl E) as H5. pose proof (re_search_of _ _ _ E) as [Hm _].
  assert (clean (grp m 3)) as H3 by (apply (hex_group _ _ _ Hm); group_cases).
  assert (clean (grp m 4)) as H4 by (apply (hex_group _ _ _ Hm); group_cases).
  destruct (py_nth (words (grp m 5)) 0) as [instr|] eqn:E0; [|done]. cbn [mbind res_bind].
  destruct (py_nth (words (grp m 5)) 1) as [ops|] eqn:E1; [|done]. cbn [mbind res_bind].
  apply py_nth_clean in E0; [|apply words_clean]. apply py_nth_clean in E1; [|apply words_clean].
  destruct (expand_trace_entry _ ops) as [t1|] eqn:Ee; [|done]. cbn [mbind res_bind]. intros [= <-].
  apply expand_clean in Ee as (Ht & Hg & Hc); [|by repeat (constructor; [try done; apply clean_nil|]); constructor|done].
  cbn in Hg, Hc. destruct (re_search IbexLog.RD_RE line) as [c|] eqn:Er.
  - apply entry_good_intro; [|exact Hc|exact Ht]. cbn [add_gpr e_gpr]. rewrite Hg. constructor; [|constructor].
    pose proof (re_search_of _ _ _ Er) as [Hr _].
    destruct (grp_class_some _ _ 3 is_hexlow Hr eq_refl) as [Hx Hne]; [group_cases|]. by apply abi_update.
  - apply entry_good_intro; [by rewrite Hg|exact Hc|exact Ht].
Qed.

(** The entries of the lines up to the first [ecall]. *)
Fixpoint rtl_entries (lines : list str) : res (list trace_entry) :=
  match lines with
  | [] => Ok []
  | line :: lines' =>
      if contains "ecall" line then Ok []
      else e ← convert_line true line; es ← rtl_entries lines'; Ok (option_list e ++ es)
  end.

Lemma process_lines_entries lines n text k :
  process_lines true lines n = (text, Ok k) ->
  exists es, rtl_entries lines = Ok es /\ text = mjoin (write_trace_entry <$> es) /\ k = n + Z.of_nat (length es).
Proof.
  revert n text; induction lines as [|l lines IH]; intros n text; cbn [process_lines rtl_entries].
  - intros [= <- <-]. exists []. split_and!; [done|done|cbn; lia].
  - destruct (contains "ecall" l); [intros [= <- <-]; exists []; split_and!; [done|done|cbn; lia]|].
    destruct (convert_line true l) as [[t|]|c m]; cbn [mbind res_bind]; [| |done].
    + unfold mbind, out_bind, lift. cbn [fst snd say].
      destruct (process_lines true lines (n + 1)) as [text' r] eqn:E. cbn [fst snd]. intros [= <- ->].
      destruct (IH _ _ E) as (es & -> & -> & ->). exists (t :: es). split_and!; [done|done|cbn [length]; lia].
    + unfold mbind, out_bind, lift. cbn [fst snd].
      destruct (process_lines true lines n) as [text' r] eqn:E. cbn [fst snd]. intros [= <- ->].
      destruct (IH _ _ E) as (es & -> & -> & ->). by exists es.
Qed.

Lemma rtl_entries_good lines es : Forall good_line lines -> rtl_entries lines = Ok es -> Forall entry_good es.
Proof.
  intros H. revert es; induction H as [|l lines Hl _ IH]; intros es; cbn [rtl_entries]; [by intros [= <-]|].
  destruct (contains "ecall" l); [by intros [= <-]|].
  destruct (convert_line true l) as [o|] eqn:E; [|done]. cbn [mbind res_bind].
  destruct (rtl_entries lines) as [es'|]; [|done]. cbn [mbind res_bind]. intros [= <-].
  apply Forall_app. split; [|by apply IH]. destruct o; cbn; [|constructor].
  constructor; [by eapply convert_line_good|constructor].
Qed.

Lemma text_lines_good text : Forall good_line (lines_keep (universal_newlines text)).
Proof. apply lines_good, universal_no_cr. Qed.

(** ** The Spike log *)

Lemma dot_group_clean r m n line :
  good_line line -> match_of r m -> subject m = line ->
  Forall (fun g => g.1 = n -> exists b k, g.2 = RRep b k dot) (groups_of r) -> clean (grp m n).
Proof.
  intros Hl Hm Hs Hg. pose proof (grp_class _ _ _ _ Hm Hg) as Hd.
  destruct (grp_factor r m n Hm) as (p & q & E). rewrite Hs in E.
  eapply good_line_factor; [exact Hl|exact E|]. intros t' Et. rewrite Et in Hd.
  apply Forall_app in Hd as [_ Hd]. apply Forall_cons in Hd as [Hd _]. discriminate Hd.
Qed.

Lemma read_spike_instr_good m line t :
  good_line line -> re_match CORE_RE line = Some m -> read_spike_instr m false = Ok t -> entry_good t.
Proof.
  intros Hl [Hm Hs]%re_match_of [= <-]. apply entry_good_intro; [constructor|done|]. cbn.
  assert (clean (grp m 1)) as H1 by (apply (hex_group _ _ _ Hm); group_cases).
  assert (clean (grp m 2)) as H2 by (apply (dot_group_clean _ _ _ _ Hl Hm Hs); group_cases).
  assert (clean (grp m 3)) as H3 by (apply (dot_group_clean _ _ _ _ Hl Hm Hs); group_cases).
  assert (clean (replace "pc - " "-" (replace "pc + " "" (grp m 3)))) as H4.
  { apply replace_clean; [by apply clean_lit|]. apply replace_clean; [apply clean_nil|done]. }
  repeat (apply Forall_cons; split; [first [done|apply clean_nil]|]). apply Forall_nil_2.
Qed.

(** A group around one digit. *)
Lemma digit_group_clean r m n :
  match_of r m -> Forall (fun g => g.1 = n -> g.2 = RChr is_digit) (groups_of r) -> clean (grp m n).
Proof.
  intros H Hg. destruct (grp_captured r m n H) as [->|(r0 & s1 & s2 & q & Hin & Hm & E1 & _)]; [apply clean_nil|].
  rewrite Forall_forall in Hg. pose proof (Hg _ Hin eq_refl) as Er. cbn in Er. subst r0.
  inversion Hm as [|p c a s0 E Hc| | | | | | | |]; subst; [|discriminate]. cbn in E1. rewrite E in E1.
  change (c :: a) with ([c] ++ a) in E1. apply app_inv_tail in E1 as <-. apply clean_cons_2; [|apply clean_nil].
  revert Hc. generalize c. all_chars.
Qed.

Lemma add_commit_good t line : entry_good t -> entry_good (add_commit t line).
Proof.
  intros [[Hg Hc Ht] Hu]. unfold add_commit. destruct (re_match SpikeLog.RD_RE line) as [m|] eqn:E; [|by split].
  pose proof (re_match_of _ _ _ E) as [Hm _].
  assert (good_update (gpr_to_abi (replace " " "" (grp m 5)) ++ ":" ++ grp m 6)) as Hn.
  { destruct (grp_class_some _ _ 6 is_hexlow Hm eq_refl) as [Hx Hne]; [group_cases|]. by apply abi_update. }
  assert (clean (grp m 2)) as H2.
  { apply (digit_group_clean _ _ _ Hm). repeat (apply Forall_cons; split; [by intros [=]|]). apply Forall_nil_2. }
  split; [split|]; cbn.
  - apply Forall_app. split; [done|]. constructor; [by apply good_update_csv|constructor].
  - done.
  - repeat match goal with H : Forall clean (_ :: _) |- _ => apply Forall_cons in H as [? H] end.
    repeat (apply Forall_cons; split; [done|]); done.
  - apply Forall_app. split; [done|]. by constructor.
Qed.

Lemma yield_entries y r : (yield y r).1.*1 = y.1 :: r.1.*1.
Proof. done. Qed.

Lemma spike_entries_good lines st :
  Forall good_line lines -> match st with Effect t => entry_good t | _ => True end ->
  Forall entry_good (read_spike_lines false lines st).1.*1.
Proof.
  intros H. revert st; induction H as [|line lines Hl H IH]; intros st Hst; cbn [read_spike_lines].
  - destruct st; cbn; [constructor..|]. by apply Forall_singleton.
  - assert (forall m, re_match CORE_RE line = Some m ->
      Forall entry_good (match read_spike_instr m false with
        | Raise c msg => ([], Raise c msg)
        | Ok instr => if is_ecall instr then ([(instr, false)], Ok tt)
                      else read_spike_lines false lines (Effect instr) end).1.*1) as Hf.
    { intros m Em. destruct (read_spike_instr m false) as [i|] eqn:Ei; [|constructor].
      pose proof (read_spike_instr_good _ _ _ Hl Em Ei) as Hi.
      destruct (is_ecall i); [by apply Forall_singleton|by apply IH]. }
    destruct st as [| |t]; [apply IH; by destruct (re_match end_trampoline_re line)|destruct (re_match CORE_RE line) as [m|] eqn:Em; [by apply Hf|by apply IH]|].
    destruct (re_match CORE_RE line) as [m|] eqn:Em; [rewrite yield_entries; constructor; [done|by apply Hf]|].
    destruct (illegal_line line); [rewrite yield_entries; constructor; [done|by apply IH]|].
    apply IH. by apply add_commit_good.
Qed.

(** The entries of a Spike log whose instructions are not expanded. *)
Definition iss_entries (log_text : str) : list trace_entry :=
  List.filter (spike_written false) (read_spike_trace log_text false).1.*1.

Lemma iss_entries_good log_text : Forall entry_good (iss_entries log_text).
Proof.
  unfold iss_entries. pose proof (spike_entries_good _ Trampoline (text_lines_good log_text) I) as H.
  rewrite Forall_forall in H |- *. intros t Ht. apply H.
  apply list_elem_of_In, filter_In in Ht as [Ht _]. by apply list_elem_of_In.
Qed.

(** ** The files of entries *)

(** An entry without updates comes back with one empty update, which the
    comparison skips. *)
Lemma events_norm es g : events g (norm_entry <$> es) = events g es.
Proof.
  revert g; induction es as [|t es IH]; intros g; [done|]. cbn [fmap list_fmap events norm_entry e_gpr].
  rewrite check_norm. destruct (check_update_gpr (e_gpr t) g) as [[ch g']|] eqn:E; [|done].
  cbn [mbind res_bind fst snd]. rewrite IH. destruct (e_gpr t) as [|u us]; [|done].
  by injection E as <- <-.
Qed.

Lemma read_entries es :
  Forall entry_good es ->
  exists tr E, read_trace (start_new_trace ++ mjoin (write_trace_entry <$> es)) = Ok tr /\
    events ∅ tr = Ok E /\ events ∅ es = Ok E.
Proof.
  intros H. destruct (events_total es ∅ H) as [E HE]. exists (norm_entry <$> es), E. split_and!; [|by rewrite events_norm|done].
  apply csv_read_back. eapply Forall_impl; [exact H|]. by intros t [].
Qed.

Lemma rtl_text_entries log_text text n :
  _process_ibex_sim_log_fd log_text true = (text, Ok n) ->
  exists es, rtl_entries (lines_keep (universal_newlines log_text)) = Ok es /\ n = Z.of_nat (length es) /\
    Forall entry_good es /\ text = start_new_trace ++ mjoin (write_trace_entry <$> es).
Proof.
  unfold _process_ibex_sim_log_fd. intros H.
  destruct (process_lines true (lines_keep (universal_newlines log_text)) 0) as [text' r] eqn:E.
  unfold mbind, out_bind in H. cbn [say fst snd] in H. injection H as <- ->.
  apply process_lines_entries in E as (es & Hes & -> & ->). exists es.
  split_and!; [done|lia|by eapply rtl_entries_good, Hes; apply text_lines_good|done].
Qed.

Lemma iss_text_entries log_text text n :
  process_spike_text log_text false = (text, Ok n) ->
  n = Z.of_nat (length (iss_entries log_text)) /\ text = mjoin (write_trace_entry <$> iss_entries log_text).
Proof.
  unfold process_spike_text, iss_entries. destruct (read_spike_trace log_text false) as [ys [u|c m]]; [|done].
  cbn. intros [= <- <-]. split; [done|]. by rewrite !app_nil_r.
Qed.
