(* ===== verification/TracerLog.v ===== *)
(** * The tracer's log as the converter reads it

    The whole log ibex_tracer.sv writes for a sequence of retired instructions,
    and what ibex_log_to_trace_csv.py makes of it: one entry per instruction up
    to the first [ecall], in order, with the register each of them wrote. *)

From S2P Require Import Prelude PyStr PyRe PyIO CapDecode TraceObj TraceParse Tracer RvLib TraceCsv InstrCompare IbexLog SpikeLog ConvEntries.
From Stdlib Require Import Ascii.
Local Open Scope Z_scope.

(** The first line of the log and the lines of the instructions. *)
Definition tracer_header : str :=
  "Time" ++ [tab] ++ "Cycle" ++ [tab] ++ "PC" ++ [tab] ++ "Insn" ++ [tab] ++
  "Decoded instruction" ++ [tab] ++ "Register and memory contents".
Definition tracer_log (rs : list retired) : str := text_of (tracer_header :: (dumpline <$> rs)).

(** An instruction with operands as the tracer prints it: a mnemonic and operands
    without equals signs and line ends (the formats of the [decode_] functions), and
    values of their widths.  Any register may be shown as written, x0 too. *)
Record readable (r : retired) : Prop := {
  r_text : exists mn ws ops rest, r_decoded r = mn ++ ws ++ ops ++ rest /\ operands_ok mn ws ops rest;
  r_clean : clean (r_decoded r);
  r_values : retired_ok r;
  r_access : accessed_ok (r_data r) }.

(** An instruction without operands, from [decode_mnemonic]: a bare mnemonic, and
    nothing accessed. *)
Definition bare (r : retired) : Prop :=
  Forall (fun c => not_space c = true) (r_decoded r) /\ r_decoded r <> [] /\ contents (r_data r) = [].
Definition printable (r : retired) : Prop := readable r \/ (retired_ok r /\ bare r).
Definition has_operands (r : retired) : bool := existsb is_space (r_decoded r).

(** The update of a retired instruction, under the register's ABI name: none when it
    writes x0. *)
Definition retired_update (r : retired) : list str :=
  match write_of (r_data r) with
  | Some (n, d) => [gpr_to_abi ("x" ++ str_of_Z n) ++ ":" ++ fmt_h 8 d]
  | None => []
  end.

(** The instructions before the first line that names [ecall], and those among
    them that have operands: the converter skips the others. *)
Fixpoint before_ecall (rs : list retired) : list retired :=
  match rs with
  | [] => []
  | r :: rs' => if contains "ecall" (dumpline r ++ [newline]) then [] else r :: before_ecall rs'
  end.

Definition converted (rs : list retired) : list retired := List.filter has_operands (before_ecall rs).

(** ** The lines are free of line ends *)

Lemma digits_clean b n : 2 <= b <= 16 -> 0 <= n -> clean (digits b n).
Proof.
  intros Hb Hn. eapply clean_class; [by apply digits_hexlow|exact hexlow_clean].
Qed.
Lemma pad_clean c w s : is_crnl c = false -> clean s -> clean (pad_left c w s).
Proof.
  intros Hc Hs. apply clean_app_2; [|done]. apply clean_forall, Forall_replicate, Hc.
Qed.
Lemma str_of_Z_clean n : clean (str_of_Z n).
Proof.
  unfold str_of_Z. destruct (Z.ltb_spec n 0); [apply clean_cons_2; [done|]|]; apply digits_clean; lia.
Qed.
Lemma fmt_h_clean w n : clean (fmt_h w n).
Proof.
  apply pad_clean; [done|]. unfold fmt_x.
  destruct (Z.ltb_spec n 0); [apply clean_cons_2; [done|]|]; apply digits_clean; lia.
Qed.
Lemma fmt_d_clean w n : clean (fmt_d w n).
Proof. apply pad_clean; [done|apply str_of_Z_clean]. Qed.
Lemma reg_addr_clean n : clean (reg_addr_to_str n).
Proof. unfold reg_addr_to_str. case_match; (apply clean_app_2; [by apply clean_lit|apply str_of_Z_clean]). Qed.
Lemma opt_clean {A} (f : A -> str) o : (forall a, clean (f a)) -> clean (opt f o).
Proof. intros H. destruct o; [apply H|apply clean_nil]. Qed.

#[local] Hint Resolve clean_nil str_of_Z_clean fmt_h_clean fmt_d_clean reg_addr_clean : cheriot.

(** A text of pieces. *)
Ltac clean_pieces :=
  repeat first [ solve [auto with cheriot] | by apply clean_lit | apply clean_app_2
               | apply clean_cons_2; [reflexivity|] | case_match ].

Lemma contents_clean a : clean (contents a).
Proof.
  unfold contents. repeat apply clean_app_2; apply opt_clean; intros x;
    unfold put_read, put_cap_read, put_write, put_cap_write, put_mem, put_memc; clean_pieces.
Qed.

Lemma dumpline_clean r : clean (r_decoded r) -> clean (dumpline r).
Proof.
  intros H. pose proof (contents_clean (r_data r)). unfold dumpline, insn_str, disp_str. clean_pieces.
Qed.

(** ** Instructions without operands

    Their lines have five columns, one less than the converter looks for. *)

Lemma words_step w ws s :
  Forall (fun c => not_space c = true) w -> w <> [] -> Forall (fun c => is_space c = true) ws -> ws <> [] ->
  words (w ++ ws ++ s) = w :: words s.
Proof.
  intros Hw Nw Hs Ns. unfold words. rewrite words_word, app_nil_r by done.
  destruct Hs as [|c ws Hc Hs]; [done|]. cbn [app words_go]. rewrite Hc, words_spaces by done.
  destruct (reverse w) eqn:E; [by apply (f_equal reverse) in E; rewrite reverse_involutive in E|].
  by rewrite <-E, reverse_involutive.
Qed.

Lemma words_some w s : Forall (fun c => not_space c = true) w -> w <> [] -> (1 <= length (words (w ++ s)))%nat.
Proof.
  intros Hw Nw. unfold words. rewrite words_word, app_nil_r by done.
  assert (forall cur : str, cur <> [] -> (1 <= length (words_go cur s))%nat) as H.
  { induction s as [|c s IH]; intros cur Hc; cbn [words_go]; [by destruct cur; cbn; [|lia]|].
    destruct (is_space c); [|by apply IH]. rewrite length_app. destruct cur; [done|cbn; lia]. }
  apply H. intros E%(f_equal reverse). rewrite reverse_involutive in E. done.
Qed.

Lemma plus_span p s1 s2 :
  matches (plus p) s1 s2 -> exists l, aft s1 = l ++ aft s2 /\ Forall (fun c => p c = true) l /\ l <> [].
Proof.
  inversion 1 as [| | | | |g' m' p' l a s0 E Hl Hm| | | |]; subst; [|discriminate].
  exists l. split_and!; [done..|]. by destruct l; cbn in Hm; [lia|].
Qed.
Lemma star_span p s1 s2 :
  matches (star p) s1 s2 -> exists l, aft s1 = l ++ aft s2 /\ Forall (fun c => p c = true) l.
Proof.
  inversion 1 as [| | | | |g' m' p' l a s0 E Hl Hm| | | |]; subst; [|discriminate]. by exists l.
Qed.
Lemma grp_span n r s1 s2 : matches (RGrp n r) s1 s2 -> exists s, matches r s1 s /\ aft s = aft s2.
Proof. inversion 1; subst; [by eexists|discriminate]. Qed.

Ltac spans :=
  repeat match goal with
  | H : matches (RCat _ _) _ _ |- _ => apply matches_cat_inv in H as (? & H & ?)
  | H : matches (RGrp _ _) _ _ |- _ => apply grp_span in H as (? & H & ?)
  | H : matches (plus _) _ _ |- _ => apply plus_span in H as (? & ? & ? & ?)
  | H : matches (star _) _ _ |- _ => apply star_span in H as (? & ? & ?)
  | H : matches REps _ _ |- _ => inversion H; clear H; subst; [|discriminate]
  end.

Lemma digits_word s : Forall (fun c => is_digit c = true) s -> Forall (fun c => not_space c = true) s.
Proof. intros H. eapply Forall_impl; [exact H|]. all_chars. Qed.
Lemma hexlow_word s : Forall (fun c => is_hexlow c = true) s -> Forall (fun c => not_space c = true) s.
Proof. intros H. eapply Forall_impl; [exact H|]. all_chars. Qed.

(** A line with an instruction has six words. *)
Lemma instr_words line m : re_search INSTR_RE line = Some m -> (6 <= length (words line))%nat.
Proof.
  intros [(s & Hm & _) <-]%re_search_of. unfold subject.
  unfold INSTR_RE in Hm. cbn [rseq foldr] in Hm. apply matches_cat_inv in Hm as (s0 & Hb & Hm).
  assert (m_pre m = [] /\ s0 = Cur (m_pre m) (m_subject_aft m) []) as [-> ->].
  { inversion Hb as [| | | | | | | | |r b s1 E Hat]; subst. injection E as <-. unfold at_bol in Hat. cbn in Hat.
    by destruct (m_pre m). }
  spans. cbn [aft] in *. change (reverse [] ++ m_subject_aft m) with (m_subject_aft m).
  repeat match goal with E : aft ?x = aft ?y |- _ => rewrite <-?E in *; clear E end.
  repeat match goal with E : aft ?x = ?l ++ aft ?y |- _ => rewrite E in *; clear E end.
  match goal with E : m_subject_aft m = _ |- _ => rewrite E end.
  unfold words. rewrite words_spaces by done.
  repeat match goal with
  | E : aft ?y = _ |- context [words_go [] (aft ?y)] =>
      change (words_go [] (aft y)) with (words (aft y)); rewrite E; clear E;
      first [rewrite words_step by auto using digits_word, hexlow_word; cbn [length]; unfold words | idtac]
  end.
  match goal with |- context [words (?w ++ ?r)] => pose proof (words_some w r) as Hw end.
  assert (forall n, (1 <= n)%nat -> (6 <= S (S (S (S (S n)))))%nat) as Hn by lia. by apply Hn, Hw.
Qed.

Lemma bare_words r : retired_ok r -> bare r -> length (words (dumpline r ++ [newline])) = 5%nat.
Proof.
  intros (Ht & Hc & Hp & Hi)%retired_pos (Hd & Hne & Hcon).
  rewrite (dumpline_columns r (r_decoded r) []) by (done || by rewrite app_nil_r). rewrite Hcon.
  pose proof (digits_spec 10 (r_time r) ltac:(lia) Ht) as (N1 & _).
  pose proof (digits_spec 10 (r_cycle r) ltac:(lia) Hc) as (N2 & _).
  pose proof (fmt_h_not_nil 8 (r_pc r) Hp) as N3.
  assert (insn_hex r <> []) as N4 by (by apply fmt_h_not_nil).
  assert (Forall (fun c => is_space c = true) (insn_pad r)) as S1 by (unfold insn_pad; destruct (r_compressed r); repeat constructor).
  assert (insn_pad r <> []) as N5 by done.
  assert (Forall (fun c => is_space c = true) [tab]) as S2 by (repeat constructor).
  assert (Forall (fun c => is_space c = true) ([tab] ++ [newline])) as S3 by (repeat constructor).
  rewrite <-!app_assoc. unfold words. rewrite words_spaces by (by apply is_space_replicate).
  change (words_go []) with words.
  rewrite words_step by (try done; try apply digits_word, digits10_digit; auto using is_space_replicate).
  rewrite words_step by (try done; by apply digits_word, digits10_digit).
  rewrite words_step by (try done; by apply hexlow_word, fmt_h_hexlow).
  rewrite words_step by (try done; by apply hexlow_word, fmt_h_hexlow).
  rewrite (app_assoc (mark r)).
  pose proof (words_step (mark r ++ r_decoded r) ([tab] ++ [newline]) []) as Hlast.
  rewrite app_nil_r in Hlast. cbn [app] in Hlast |- *. rewrite Hlast; [done| | |done|done].
  - apply Forall_app. split; [apply mark_word|done].
  - by intros [_ ?]%app_nil.
Qed.

Lemma convert_bare r : retired_ok r -> bare r -> convert_line true (dumpline r ++ [newline]) = Ok None.
Proof.
  intros Hr Hb. unfold convert_line. destruct (re_search INSTR_RE _) as [m|] eqn:E; [|done].
  apply instr_words in E. rewrite bare_words in E by done. lia.
Qed.

(** ** The entries *)

Lemma expand_keeps t ops t' :
  expand_trace_entry t ops = Ok t' -> e_gpr t' = e_gpr t /\ e_pc t' = e_pc t /\ e_binary t' = e_binary t.
Proof.
  unfold expand_trace_entry. intros H.
  destruct (process_imm _ _ ops) as [ops1|]; [|discriminate H]. cbn [mbind res_bind] in H.
  destruct (convert_pseudo_instr _ ops1 _) as [[i ops2]|]; [|discriminate H]. cbn [mbind res_bind] in H.
  destruct (match re_search ADDR_RE ops2 with
            | Some n => _ ← get_imm_hex_val (grp n 2); Ok (join "," [grp n 1; grp n 3; grp n 2])
            | None => Ok ops2 end); [|discriminate H].
  cbn [mbind res_bind] in H. by injection H as <-.
Qed.

(** What an entry says about the instruction it was made from. *)
Definition entry_of (t : trace_entry) (r : retired) : Prop :=
  e_gpr t = retired_update r /\ e_pc t = fmt_h 8 (r_pc r) /\ e_binary t = insn_hex r.

Lemma convert_readable r o :
  readable r -> convert_line true (dumpline r ++ [newline]) = Ok o -> exists t, o = Some t /\ entry_of t r.
Proof.
  intros [(mn & ws & ops & rest & Ht & Ho) _ Hv Ha] H.
  rewrite (convert_tracer_line r mn ws ops rest true Ht Ho Hv Ha) in H. res_inv.
  apply expand_keeps in E as (Hg & Hp & Hb). cbn in Hg, Hp, Hb. eexists. split; [done|].
  unfold entry_of, retired_update. destruct (write_of (r_data r)) as [[n d]|]; [|done].
  cbn [add_gpr e_gpr e_pc e_binary]. by rewrite Hg.
Qed.

Lemma has_operands_readable r : readable r -> has_operands r = true.
Proof.
  unfold has_operands. intros [(mn & ws & ops & rest & -> & [_ _ Hws Nws _ _ _ _]) _ _ _]. apply existsb_exists.
  destruct Hws as [|c ws Hc _]; [done|]. exists c. rewrite !in_app_iff. cbn. tauto.
Qed.
Lemma has_operands_bare r : bare r -> has_operands r = false.
Proof.
  intros (H & _). unfold has_operands. induction H as [|c s Hc _ IH]; [done|]. cbn [existsb].
  by rewrite (word_not_space _ Hc).
Qed.

(** A line is converted when the instruction has operands. *)
Lemma convert_printable r o :
  printable r -> convert_line true (dumpline r ++ [newline]) = Ok o ->
  match o with Some t => has_operands r = true /\ entry_of t r | None => has_operands r = false end.
Proof.
  intros [Hr|[Hv Hb]] H.
  - apply (convert_readable r o Hr) in H as (t & -> & Ht). auto using has_operands_readable.
  - rewrite convert_bare in H by done. injection H as <-. by apply has_operands_bare.
Qed.

Lemma printable_clean r : printable r -> clean (r_decoded r).
Proof.
  intros [[_ Hc _ _]|[_ (H & _)]]; [done|]. eapply clean_class; [exact H|].
  intros c Hc. by apply not_space_clean, word_not_space.
Qed.

Lemma tracer_lines rs :
  Forall printable rs ->
  lines_keep (universal_newlines (tracer_log rs)) =
  (tracer_header ++ [newline]) :: ((fun r => dumpline r ++ [newline]) <$> rs).
Proof.
  intros H. unfold tracer_log. rewrite readlines_text.
  - cbn [fmap list_fmap]. f_equal. rewrite <-list_fmap_compose. done.
  - constructor.
    + destruct (clean_lit tracer_header) as [? ?]; [by_compute|done].
    + apply Forall_fmap. eapply Forall_impl; [exact H|]. intros r Hr.
      by destruct (dumpline_clean r (printable_clean r Hr)).
Qed.

Lemma printable_entries rs es :
  Forall printable rs -> rtl_entries ((fun r => dumpline r ++ [newline]) <$> rs) = Ok es ->
  Forall2 entry_of es (converted rs).
Proof.
  intros H. unfold converted. revert es; induction H as [|r rs Hr H IH]; intros es;
    cbn [fmap list_fmap rtl_entries before_ecall]; [intros [= <-]; constructor|].
  destruct (contains "ecall" _); [intros [= <-]; constructor|]. cbn [List.filter].
  destruct (convert_line true _) as [o|] eqn:E; [|done]. cbn [mbind res_bind].
  intros Hes. change (list_fmap _ _ (fun r => dumpline r ++ [newline]) rs)
    with ((fun r => dumpline r ++ [newline]) <$> rs) in Hes.
  destruct (rtl_entries _) as [es'|]; [|done]. cbn [mbind res_bind option_list app] in Hes. injection Hes as <-.
  apply (convert_printable r o Hr) in E. destruct o as [t|].
  - destruct E as [-> Ht]. cbn [option_list app]. constructor; [done|by apply IH].
  - rewrite E. by apply IH.
Qed.

Lemma tracer_log_converted rs es :
  Forall printable rs -> rtl_entries (lines_keep (universal_newlines (tracer_log rs))) = Ok es ->
  Forall2 entry_of es (converted rs).
Proof.
  intros H. rewrite tracer_lines by done. cbn [rtl_entries].
  replace (contains "ecall" (tracer_header ++ [newline])) with false by by_compute.
  replace (convert_line true (tracer_header ++ [newline])) with (Ok (None : option trace_entry)) by by_compute.
  cbn [mbind res_bind]. destruct (rtl_entries _) as [es'|] eqn:E; [|done].
  cbn [mbind res_bind option_list app]. intros [= <-]. by apply printable_entries.
Qed.

(** Events depend on the updates alone. *)
Lemma events_same_gpr es es' g : e_gpr <$> es = e_gpr <$> es' -> events g es = events g es'.
Proof.
  revert es' g; induction es as [|t es IH]; intros [|t' es'] g; cbn [fmap list_fmap]; try done.
  intros [= Ht Hes]. cbn [events]. rewrite Ht. destruct (check_update_gpr (e_gpr t') g) as [[ch g']|]; [|done].
  cbn [mbind res_bind snd fst]. by rewrite (IH es' g' Hes).
Qed.

(** The register changes of the retired instructions, as the comparison counts
    them. *)
Definition retired_entry (r : retired) : trace_entry :=
  TraceEntry (retired_update r) [] [] [] (fmt_h 8 (r_pc r)) (insn_hex r) [] [].
Definition retired_events (rs : list retired) : res (list event) :=
  events ∅ (retired_entry <$> converted rs).

Lemma events_of_retired es rs : Forall2 entry_of es rs -> events ∅ es = events ∅ (retired_entry <$> rs).
Proof.
  intros H. apply events_same_gpr. induction H as [|t r es rs (Ht & _) _ IH]; [done|].
  cbn [fmap list_fmap]. by rewrite Ht, IH.
Qed.

(** The CSV file that ibex_log_to_trace_csv.py writes for the log of a
    sequence of retired instructions reads back as one entry per instruction with
    operands up to the first [ecall], in order, each with the program counter, the
    instruction word and the register write of its instruction. *)
Theorem tracer_log_to_csv (rs : list retired) (log csv : str) (fs fs' : fsys) :
  Forall printable rs -> fs !! log = Some (tracer_log rs) ->
  process_ibex_sim_log true log csv fs = (Ok tt, fs') ->
  exists text es, fs' !! csv = Some text /\ read_trace text = Ok (norm_entry <$> es) /\
    Forall2 entry_of es (converted rs) /\ converted rs <> [].
Proof.
  intros Hrs Hlog H. unfold process_ibex_sim_log in H. rewrite Hlog in H.
  destruct (_process_ibex_sim_log_fd (tracer_log rs) true) as [text [n|]] eqn:E; [|done].
  cbn [mbind res_bind] in H. destruct (Z.eqb_spec n 0) as [|Hn]; [done|]. injection H as <-.
  destruct (rtl_text_entries _ _ _ E) as (es & Hes & -> & Hg & ->).
  pose proof (tracer_log_converted rs es Hrs Hes) as H2.
  eexists _, es. split_and!; [apply lookup_insert_eq| |done|].
  - apply csv_read_back. eapply Forall_impl; [exact Hg|]. by intros t [].
  - intros E0. rewrite E0 in H2. apply Forall2_nil_inv_r in H2 as ->. by apply Hn.
Qed.

Definition lui_retired : retired := {|
  r_time := 130; r_cycle := 13; r_pc := 0x8000000c; r_insn := 0x6505;
  r_trap := false; r_intr := false; r_decoded := "c.lui" ++ [tab] ++ "x10,0x1";
  r_data := Accessed None None None None None (Some (RegVal 10 0x1000)) None None None |}.
Definition ecall_retired : retired := {|
  r_time := 140; r_cycle := 14; r_pc := 0x8000000e; r_insn := 0x73;
  r_trap := true; r_intr := false; r_decoded := "ecall";
  r_data := Accessed None None None None None None None None None |}.
Definition demo_retired : list retired := [addi_retired; lui_retired; jump_retired; ecall_retired].
Definition demo_rtl_files : fsys := <[("rtl.log" : str) := tracer_log demo_retired]> ∅.

Lemma demo_printable : Forall printable demo_retired.
Proof.
  assert (forall r mn ops, r_decoded r = mn ++ [tab] ++ ops -> Forall (fun c => not_space c = true) mn -> mn <> [] ->
    Forall (fun c => not_space c = true) ops -> ops <> [] -> no_eq mn -> no_eq ops -> clean (r_decoded r) ->
    retired_ok r -> accessed_ok (r_data r) -> readable r) as Hr.
  { intros r mn ops Hd ? ? ? ? ? ?. constructor; [|done..]. exists mn, [tab], ops, []. rewrite app_nil_r.
    split; [done|]. constructor; try done; [repeat constructor|split_and!; [done..|apply not_elem_of_nil]]. }
  assert (retired_ok addi_retired /\ retired_ok lui_retired /\ retired_ok jump_retired /\ retired_ok ecall_retired)
    as (? & ? & ? & ?) by (split_and!; constructor; cbn; lia).
  repeat (apply Forall_cons; split); [left|left|left|right|apply Forall_nil_2].
  - apply (Hr _ "addi" "x10,x10,5"); try done; try (by apply clean_lit); try no_eq_lit; try by repeat constructor.
  - apply (Hr _ "c.lui" "x10,0x1"); try done; try (by apply clean_lit); try no_eq_lit; try by repeat constructor.
  - apply (Hr _ "jal" "x0,80000020"); try done; try (by apply clean_lit); try no_eq_lit; try by repeat constructor.
  - split; [done|]. split_and!; [repeat constructor|done|reflexivity].
Qed.

Lemma tracer_log_to_csv_witness :
  exists text es, (process_ibex_sim_log true "rtl.log" "rtl.csv" demo_rtl_files).2 !! ("rtl.csv" : str) = Some text /\
    read_trace text = Ok (norm_entry <$> es) /\ Forall2 entry_of es (converted demo_retired) /\
    converted demo_retired <> [].
Proof.
  apply (tracer_log_to_csv demo_retired "rtl.log" "rtl.csv" demo_rtl_files).
  - exact demo_printable.
  - apply lookup_insert_eq.
  - assert ((process_ibex_sim_log true "rtl.log" "rtl.csv" demo_rtl_files).1 = Ok tt) as E by by_compute.
    rewrite <-E. apply surjective_pairing.
Defined.
