(* ===== verification/OvpsimLog.v ===== *)
(** * The OVPsim simulation log

    vendor/google_riscv-dv/scripts/ovpsim_log_to_trace_csv.py: the conversion of
    an OVPsim log to an instruction trace CSV file.  The [sed] commands it runs
    on the log first are a parameter. *)

From S2P Require Import Prelude PyStr PyRe PyIO RvLib TraceCsv InstrCompare IbexLog SpikeLog ConvEntries.
From Stdlib Require Import Ascii.
Local Open Scope Z_scope.

(** ** Expressions *)

Definition is_alpha (c : ascii) : bool := between 65 90 c || between 97 122 c.

Module Ovpsim.
(** Groups: 1 addr, 2 section, 3 mode, 4 bin, 5 instr_str. *)
Definition INSTR_RE : regex :=
  rseq [lit "riscvOVPsim"; star dot; lit ", 0x"; RGrp 1 (star_lazy dot);
        RGrp 2 (rseq [lit "("; star dot; lit "):"; ROpt (lit " ")]);
        RGrp 3 (star_lazy is_alpha); plus is_space; RGrp 4 (star_lazy is_hexlow); plus is_space;
        RGrp 5 (star_lazy dot); REol].

(** Groups: 1 r, 2 pre, 3 val.  [[0-9]{0,2}?] prefers fewer digits. *)
Definition RD_RE : regex :=
  let digit := RChr is_digit in
  rseq [lit " "; RGrp 1 (rseq [star (between 97 122); RAlt REps (RCat digit (RAlt REps digit))]);
        lit " "; RGrp 2 (plus_lazy is_hexlow); lit " -> "; RGrp 3 (plus_lazy is_hexlow); REol].

(** ** Instructions *)

(** The mode column; an unknown mode is [None], which is written as nothing. *)
Definition convert_mode (pri : str) : str :=
  if contains "Machine" pri then "3"
  else if contains "Supervisor" pri then "1"
  else if contains "User" pri then "0"
  else [].

Definition is_csr (r : str) : res bool :=
  if Nat.ltb 4 (length r) then Ok true
  else
    c ← py_nth r 0;
    Ok (chr_in ["m"%char; "u"%char; "d"%char] c
        || bool_decide (r ∈ ["frm" : str; "fcsr" : str; "vl" : str; "satp" : str])).

Definition with_instr (t : trace_entry) (instr operand : str) : trace_entry :=
  TraceEntry (e_gpr t) (e_csr t) instr operand (e_pc t) (e_binary t) (e_instr_str t) (e_mode t).

(** The renaming of a compressed instruction, from its name with [c.]. *)
Definition rename_compressed (instr operand : str) (trace_binary : Z) : str * str :=
  if contains "sp,sp," operand && bool_decide (instr = ("c.addi" : str)) then
    ("c.addi16sp" : str,
     "sp," ++ match rsplit1 ","%char operand with Some (_, b) => b | None => operand end)
  else if contains ",sp," operand && bool_decide (instr = ("c.addi" : str)) then ("c.addi4spn" : str, operand)
  else if contains "(sp)" operand && negb (trace_binary mod 4 =? 0) then (instr ++ "sp", operand)
  else (instr, operand).

Definition process_compressed_instr (trace : trace_entry) : res trace_entry :=
  trace_binary ← int_of 16 (e_binary trace);
  let o := split ","%char (e_operand trace) in
  if Nat.eqb (length (e_binary trace)) 4 then
    let (instr, operand) := rename_compressed ("c." ++ e_instr trace) (e_operand trace) trace_binary in
    let operand := if negb (chr_in operand "("%char) && Nat.ltb 2 (length o)
                   then join "," (drop 1 o) else operand in
    operand ← (if bool_decide (instr = ("c.jal" : str)) then py_nth o 1 else Ok operand);
    Ok (with_instr trace instr operand)
  else Ok trace.

Definition process_imm (trace : trace_entry) : res trace_entry :=
  operand ← IbexLog.process_imm (e_instr trace) (e_pc trace) (e_operand trace);
  Ok (with_operand trace operand).

(** [instr reg, imm(reg)] as [reg,reg,imm]. *)
Definition base_operands (operand : str) : option str :=
  m ← re_search BASE_RE operand; Some (grp m 1 ++ "," ++ grp m 3 ++ "," ++ grp m 2).

Definition process_jalr (trace : trace_entry) : trace_entry :=
  let operand := if chr_in (e_operand trace) ","%char then e_operand trace else "ra," ++ e_operand trace in
  with_operand trace (default (operand ++ ",0") (base_operands operand)).

Definition process_trace (trace : trace_entry) : res trace_entry :=
  trace ← process_compressed_instr trace;
  trace ← process_imm trace;
  let trace := if bool_decide (e_instr trace = ("jalr" : str)) then process_jalr trace else trace in
  r ← convert_pseudo_instr (e_instr trace) (e_operand trace) (e_binary trace);
  let (instr, operand) := r : str * str in
  Ok (with_instr trace instr (default operand (base_operands operand))).

(** The entry an instruction line starts. *)
Definition new_instr (m : rmatch) (full_trace : bool) : res trace_entry :=
  let trace := TraceEntry [] [] [] [] (grp m 1) (grp m 4) (grp m 5) (convert_mode (grp m 3)) in
  if full_trace then
    instr ← py_nth (split " "%char (grp m 5)) 0;
    process_trace (with_instr trace instr (replace " " "" (drop (length instr) (grp m 5))))
  else Ok trace.

(** ** The log *)

(** A changed register joins the entry of the current instruction. *)
Definition add_update (t : trace_entry) (csr : bool) (u : str) : trace_entry :=
  if csr then TraceEntry (e_gpr t) (e_csr t ++ [u]) (e_instr t) (e_operand t) (e_pc t) (e_binary t) (e_instr_str t) (e_mode t)
  else add_gpr t u.

(** The loop over the lines; [prev_trace] is [None] where the code has 0. *)
Fixpoint ovpsim_lines (full_trace : bool) (lines : list str) (prev_trace : option trace_entry) (instr_cnt : Z)
  : out Z :=
  match lines with
  | [] => mret instr_cnt
  | line :: lines' =>
      match re_search INSTR_RE line with
      | Some m =>
          instr_cnt ← match prev_trace with
                      | Some t => _ ← say (write_trace_entry t); mret (instr_cnt + 1)
                      | None => mret instr_cnt
                      end;
          t ← lift (new_instr m full_trace);
          ovpsim_lines full_trace lines' (Some t) instr_cnt
      | None =>
          match re_search RD_RE line with
          | Some c =>
              csr ← lift (is_csr (grp c 1));
              match prev_trace with
              | Some t => ovpsim_lines full_trace lines' (Some (add_update t csr (grp c 1 ++ ":" ++ grp c 3))) instr_cnt
              | None => lift (raise AttributeError)
              end
          | None => ovpsim_lines full_trace lines' prev_trace instr_cnt
          end
      end
  end.

Definition header_cmd (ovpsim_log : str) : str := "sed -i '/Info 1:/,$!d' " ++ ovpsim_log.
Definition end_cmd (dont_truncate_after_first_ecall : bool) (ovpsim_log : str) : str :=
  (if dont_truncate_after_first_ecall then "sed -i '/^Info --/q' " else "sed -i '/ecall/q' ") ++ ovpsim_log.

Definition RET_FATAL : Z := -1.

Definition process_ovpsim_text (log_text : str) (full_trace : bool) : out Z :=
  _ ← say start_new_trace;
  ovpsim_lines full_trace (lines_keep (universal_newlines log_text)) None 0.

(** [os_system] runs a shell command on the files. *)
Definition process_ovpsim_sim_log (os_system : str -> fsys -> fsys) (dont_truncate_after_first_ecall full_trace : bool)
    (ovpsim_log csv : str) (fs : fsys) : res unit * fsys :=
  let fs := os_system (header_cmd ovpsim_log) fs in
  let fs := os_system (end_cmd dont_truncate_after_first_ecall ovpsim_log) fs in
  match fs !! ovpsim_log with
  | None => (Raise FileNotFoundError (no_such_file ovpsim_log), fs)
  | Some log_text =>
      let (text, r) := process_ovpsim_text log_text full_trace in
      (instr_cnt ← r; (if instr_cnt =? 0 then raise (SystemExit RET_FATAL) else Ok tt), <[csv := text]> fs)
  end.
End Ovpsim.

Definition demo_ovpsim : list str :=
  ["Info 1: 'riscvOVPsim/cpu', 0x0000000080000000(_start): Machine 00a00513 li      a0,10" : str;
   "Info   a0 00000000 -> 0000000a" : str;
   "Info 2: 'riscvOVPsim/cpu', 0x0000000080000004(_start+4): Machine 0141     addi    sp,sp,16" : str;
   "Info   sp 80001000 -> 80001010" : str;
   "Info   mstatus 00000000 -> 00001800" : str;
   "Info 3: 'riscvOVPsim/cpu', 0x0000000080000006(_start+6): Machine 00000073 ecall" : str].
Example ovpsim_ex :
  Ovpsim.ovpsim_lines true ((fun l => l ++ [newline]) <$> demo_ovpsim) None 0 =
  (write_trace_entry (TraceEntry ["a0:0000000a" : str] [] "li" "a0,10" "0000000080000000" "00a00513" "li      a0,10" "3") ++
   write_trace_entry (TraceEntry ["sp:80001010" : str] ["mstatus:00001800" : str] "c.addi16sp" "sp,16"
     "0000000080000004" "0141" "addi    sp,sp,16" "3"), Ok 2).
Proof. by_compute. Qed.

(** ** What the log says *)

(** The entries of the log: the one at hand and those of the lines. *)
Fixpoint ovpsim_entries (full_trace : bool) (lines : list str) (prev_trace : option trace_entry) : res (list trace_entry) :=
  match lines with
  | [] => Ok (option_list prev_trace)
  | line :: lines' =>
      match re_search Ovpsim.INSTR_RE line with
      | Some m =>
          t ← Ovpsim.new_instr m full_trace;
          es ← ovpsim_entries full_trace lines' (Some t);
          Ok (option_list prev_trace ++ es)
      | None =>
          match re_search Ovpsim.RD_RE line with
          | Some c =>
              csr ← Ovpsim.is_csr (grp c 1);
              t ← or_raise AttributeError prev_trace;
              ovpsim_entries full_trace lines' (Some (Ovpsim.add_update t csr (grp c 1 ++ ":" ++ grp c 3)))
          | None => ovpsim_entries full_trace lines' prev_trace
          end
      end
  end.

Lemma entries_some full_trace lines t es : ovpsim_entries full_trace lines (Some t) = Ok es -> es <> [].
Proof.
  revert t es; induction lines as [|line lines IH]; intros t es; cbn [ovpsim_entries option_list app]; [by intros [= <-]|].
  destruct (re_search Ovpsim.INSTR_RE line) as [m|].
  { destruct (Ovpsim.new_instr m full_trace); [|done]. cbn [mbind res_bind].
    destruct (ovpsim_entries _ lines _); [|done]. by intros [= <-]. }
  destruct (re_search Ovpsim.RD_RE line) as [c|]; [|by apply IH].
  destruct (Ovpsim.is_csr _); [|done]. cbn [mbind res_bind or_raise]. by apply IH.
Qed.

(** All entries but the last are written. *)
Lemma ovpsim_lines_entries full_trace lines prev_trace n text k :
  Ovpsim.ovpsim_lines full_trace lines prev_trace n = (text, Ok k) ->
  exists es, ovpsim_entries full_trace lines prev_trace = Ok es /\
    text = mjoin (write_trace_entry <$> removelast es) /\ k = n + Z.of_nat (length (removelast es)).
Proof.
  revert prev_trace n text; induction lines as [|line lines IH]; intros prev_trace n text;
    cbn [Ovpsim.ovpsim_lines ovpsim_entries].
  - intros [= <- <-]. exists (option_list prev_trace). split; [done|]. destruct prev_trace; cbn; split; done || lia.
  - destruct (re_search Ovpsim.INSTR_RE line) as [m|].
    + destruct (Ovpsim.new_instr m full_trace) as [t|c msg]; [|by destruct prev_trace].
      destruct prev_trace as [t0|]; unfold mbind, out_bind, lift; cbn [fst snd say mret out_ret].
      * destruct (Ovpsim.ovpsim_lines full_trace lines (Some t) (n + 1)) as [text' r] eqn:E.
        cbn [fst snd]. intros [= <- ->]. destruct (IH _ _ _ E) as (es & Hes & -> & ->). unfold res_bind.
        rewrite Hes. exists (t0 :: es). split; [done|]. destruct es as [|e es]; [by apply entries_some in Hes|].
        cbn [removelast fmap list_fmap mjoin list_join length]. split; [by rewrite app_nil_r|lia].
      * destruct (Ovpsim.ovpsim_lines full_trace lines (Some t) n) as [text' r] eqn:E.
        cbn [fst snd]. intros [= <- ->]. destruct (IH _ _ _ E) as (es & Hes & -> & ->). unfold res_bind.
        rewrite Hes. by exists es.
    + destruct (re_search Ovpsim.RD_RE line) as [c|]; [|by apply IH].
      destruct (Ovpsim.is_csr (grp c 1)) as [csr|]; [|done]. destruct prev_trace as [t0|]; [|done].
      unfold mbind, out_bind, lift. cbn [fst snd res_bind or_raise].
      destruct (Ovpsim.ovpsim_lines full_trace lines _ n) as [text' r] eqn:E. cbn [fst snd]. intros [= <- ->].
      by apply IH.
Qed.

(** ** The entries can be read back and compared *)

(** Every class of an expression is within [p]. *)
Fixpoint all_in (p : ascii -> bool) (r : regex) : Prop :=
  match r with
  | RChr q | RRep _ _ q => forall c, q c = true -> p c = true
  | RCat r1 r2 | RAlt r1 r2 => all_in p r1 /\ all_in p r2
  | ROpt r | RGrp _ r => all_in p r
  | _ => True
  end.

Lemma matches_all_in p r s s' l :
  matches r s s' -> all_in p r -> aft s = l ++ aft s' -> Forall (fun c => p c = true) l.
Proof.
  intros H. revert l; induction H as [s|q c a s E Hc|r1 r2 s1 s2 s3 H1 IH1 H2 IH2|r1 r2 s s' H IH|r1 r2 s s' H IH
    |g m q k a s E Hk Hm|r s s' H IH|r s|i r s s' H IH|r b s Hr Hb]; cbn [all_in]; intros l Hp El;
    try (by apply (app_inv_tail _ [] l) in El as <-; constructor).
  - cbn [step aft] in El. rewrite E in El. apply (app_inv_tail a [c] l) in El as <-. by repeat constructor; apply Hp.
  - destruct Hp as [Hp1 Hp2]. pose proof (matches_span _ _ _ H1) as (l1 & A1 & _).
    pose proof (matches_span _ _ _ H2) as (l2 & A2 & _). rewrite A1, A2, app_assoc in El.
    apply app_inv_tail in El as <-. apply Forall_app. split; [by apply IH1|by apply IH2].
  - by apply IH; [apply Hp|].
  - by apply IH; [apply Hp|].
  - cbn [aft] in El. rewrite E in El. apply app_inv_tail in El as <-. eapply Forall_impl; [exact Hk|]. done.
  - by apply IH.
  - by apply IH.
Qed.

(** The name of a register in a change. *)
Lemma register_name line c :
  re_search Ovpsim.RD_RE line = Some c -> Forall (fun x => low_alnum x = true) (grp c 1).
Proof.
  intros [Hm _]%re_search_of.
  destruct (grp_captured _ _ 1 Hm) as [->|(r0 & s1 & s2 & p & Hin & Hr & E1 & _)]; [constructor|].
  eapply matches_all_in; [exact Hr| |exact E1].
  cbn in Hin. repeat (apply elem_of_cons in Hin as [Hin|Hin]; [first [discriminate Hin|injection Hin as ->]|]);
    [|by apply not_elem_of_nil in Hin].
  unfold rseq, foldr, star, all_in.
  repeat split; try done; intros x Hx; unfold low_alnum; rewrite Hx; by rewrite ?orb_true_r.
Qed.

Lemma change_good line c :
  re_search Ovpsim.RD_RE line = Some c -> good_update (grp c 1 ++ ":" ++ grp c 3).
Proof.
  intros E. pose proof (register_name _ _ E) as Hn. pose proof (re_search_of _ _ _ E) as [Hm _].
  destruct (grp_class_some _ _ 3 is_hexlow Hm eq_refl) as [Hx Hne]; [group_cases|].
  assert (forall x, low_alnum x = false -> x ∉ grp c 1) as Hout.
  { intros x Hx' Hin. rewrite Forall_forall in Hn. apply Hn in Hin. congruence. }
  exists (grp c 1), (grp c 3). split_and!; try done; try (by apply Hout). split; by apply Hout.
Qed.

Lemma after_comma_clean s : clean s -> clean (match rsplit1 ","%char s with Some (_, b) => b | None => s end).
Proof.
  intros Hs. destruct (rsplit1 ","%char s) as [[a b]|] eqn:E; [|done]. apply rsplit1_some in E as [-> _].
  apply clean_app in Hs as [_ Hs]. by apply (clean_app [","%char] b) in Hs as [_ Hs].
Qed.

Lemma compressed_clean t t' :
  Forall clean (texts t) -> Ovpsim.process_compressed_instr t = Ok t' ->
  Forall clean (texts t') /\ e_gpr t' = e_gpr t /\ e_csr t' = e_csr t.
Proof.
  intros Ht. unfold Ovpsim.process_compressed_instr.
  destruct (int_of 16 (e_binary t)) as [b|]; [|done]. cbn [mbind res_bind].
  destruct (Nat.eqb _ 4); [|by intros [= <-]].
  destruct (Ovpsim.rename_compressed ("c." ++ e_instr t) (e_operand t) b) as [instr operand] eqn:E.
  unfold texts in *. repeat match goal with H : Forall clean (_ :: _) |- _ => apply Forall_cons in H as [? H] end.
  assert (clean instr /\ clean operand) as [Hi Ho].
  { assert (clean ("c." ++ e_instr t)) as Hc by clean_text.
    revert E Hc. generalize ("c." ++ e_instr t : str). intros i E Hc. unfold Ovpsim.rename_compressed in E.
    repeat match type of E with (if ?b then _ else _) = _ => destruct b end; injection E as <- <-; split;
      try done; try (by apply clean_lit); try clean_text.
    do 3 (apply clean_cons_2; [reflexivity|]). by apply after_comma_clean. }
  assert (Forall clean (split ","%char (e_operand t))) as Hs by (by apply split_clean).
  set (op := if negb _ && _ then _ else operand).
  assert (clean op) as Hop.
  { unfold op. case_match; [|done]. apply clean_join; [by apply clean_lit|]. by apply Forall_drop. }
  clearbody op.
  destruct (if bool_decide (instr = ("c.jal" : str)) then py_nth (split ","%char (e_operand t)) 1 else Ok op) as [op'|] eqn:E1; [|done].
  cbn [mbind res_bind]. intros [= <-]. cbn. split; [|done].
  assert (clean op') by (case_bool_decide; [by eapply py_nth_clean|by injection E1 as <-]).
  repeat (apply Forall_cons; split; [done|]); done.
Qed.

Lemma base_operands_clean s : clean s -> clean (default s (Ovpsim.base_operands s)).
Proof.
  intros Hs. unfold Ovpsim.base_operands. destruct (re_search BASE_RE s) as [m|] eqn:E; [|done]. cbn.
  pose proof (fun n => search_grp_clean _ _ n _ E Hs) as Hg. pose proof (Hg 1%nat). pose proof (Hg 2%nat).
  pose proof (Hg 3%nat). clean_text.
Qed.

Lemma jalr_clean t : Forall clean (texts t) -> Forall clean (texts (Ovpsim.process_jalr t)).
Proof.
  intros H. unfold texts, Ovpsim.process_jalr in *. cbn [with_operand e_instr e_operand e_pc e_binary e_instr_str e_mode].
  repeat match goal with H : Forall clean (_ :: _) |- _ => apply Forall_cons in H as [? H] end.
  set (op := if chr_in (e_operand t) ","%char then _ else _).
  assert (clean op) as Hop by (unfold op; case_match; [done|clean_text]).
  clearbody op. pose proof (base_operands_clean op Hop) as Hb.
  assert (clean (default (op ++ ",0") (Ovpsim.base_operands op))).
  { destruct (Ovpsim.base_operands op); cbn in *; [done|clean_text]. }
  repeat (apply Forall_cons; split; [done|]); done.
Qed.

Lemma process_trace_clean t t' :
  Forall clean (texts t) -> Ovpsim.process_trace t = Ok t' ->
  Forall clean (texts t') /\ e_gpr t' = e_gpr t /\ e_csr t' = e_csr t.
Proof.
  intros Ht. unfold Ovpsim.process_trace.
  destruct (Ovpsim.process_compressed_instr t) as [t1|] eqn:E1; [|done]. cbn [mbind res_bind].
  destruct (compressed_clean _ _ Ht E1) as (H1 & Hg & Hc).
  destruct (Ovpsim.process_imm t1) as [t2|] eqn:E2; [|done]. cbn [mbind res_bind].
  assert (Forall clean (texts t2) /\ e_gpr t2 = e_gpr t1 /\ e_csr t2 = e_csr t1) as (H2 & Hg2 & Hc2).
  { unfold Ovpsim.process_imm in E2. destruct (process_imm _ _ _) as [op|] eqn:Ei; [|discriminate E2].
    cbn [mbind res_bind] in E2. injection E2 as <-. split; [|done]. unfold texts in *. cbn.
    repeat match goal with H : Forall clean (_ :: _) |- _ => apply Forall_cons in H as [? H] end.
    apply process_imm_clean in Ei; [|done]. repeat (apply Forall_cons; split; [done|]); done. }
  set (t3 := if bool_decide _ then _ else t2).
  assert (Forall clean (texts t3) /\ e_gpr t3 = e_gpr t2 /\ e_csr t3 = e_csr t2) as (H3 & Hg3 & Hc3).
  { unfold t3. case_bool_decide; [|done]. split; [by apply jalr_clean|done]. }
  clearbody t3. destruct (convert_pseudo_instr _ _ _) as [[i op]|] eqn:E3; [|done]. cbn [mbind res_bind].
  intros [= <-]. cbn. split; [|split; congruence].
  unfold texts in *. repeat match goal with H : Forall clean (_ :: _) |- _ => apply Forall_cons in H as [? H] end.
  apply convert_pseudo_clean in E3 as [Hi Hop]; [|done..]. apply base_operands_clean in Hop.
  cbn. repeat (apply Forall_cons; split; [done|]); done.
Qed.

Lemma new_instr_good line m full_trace t :
  good_line line -> re_search Ovpsim.INSTR_RE line = Some m -> Ovpsim.new_instr m full_trace = Ok t -> entry_good t.
Proof.
  intros Hl [Hm Hs]%re_search_of. unfold Ovpsim.new_instr.
  assert (clean (grp m 1)) as H1 by (apply (dot_group_clean _ _ _ _ Hl Hm Hs); group_cases).
  assert (clean (grp m 4)) as H4 by (apply (hex_group _ _ _ Hm); group_cases).
  assert (clean (grp m 5)) as H5 by (apply (dot_group_clean _ _ _ _ Hl Hm Hs); group_cases).
  assert (clean (Ovpsim.convert_mode (grp m 3))) as H3.
  { unfold Ovpsim.convert_mode. repeat case_match; by apply clean_lit. }
  set (t0 := TraceEntry _ _ _ _ _ _ _ _).
  assert (forall i op, clean i -> clean op -> Forall clean (texts (Ovpsim.with_instr t0 i op))) as Ht.
  { intros i op Hi Hop. cbn. repeat (apply Forall_cons; split; [done|]); done. }
  destruct full_trace.
  - destruct (py_nth (split " "%char (grp m 5)) 0) as [i|] eqn:E; [|done]. cbn [mbind res_bind].
    intros Hp. apply py_nth_clean in E; [|by apply split_clean].
    assert (clean (replace " " "" (drop (length i) (grp m 5)))) as Hop.
    { apply replace_clean; [apply clean_nil|]. rewrite clean_forall in *. by apply Forall_drop. }
    apply process_trace_clean in Hp as (Hc & Hg & Hcs); [|by apply Ht].
    apply entry_good_intro; [by rewrite Hg|by rewrite Hcs|exact Hc].
  - intros [= <-]. apply entry_good_intro; [constructor|done|]. apply (Ht [] []); apply clean_nil.
Qed.

Lemma add_update_good t csr u : entry_good t -> good_update u -> entry_good (Ovpsim.add_update t csr u).
Proof.
  intros [[Hg Hc Ht] Hu] Hn. pose proof (good_update_csv _ Hn) as Hv.
  destruct csr; (split; [split|]); cbn; try done;
    (apply Forall_app; split; [done|]; by apply Forall_singleton).
Qed.

Lemma ovpsim_entries_good full_trace lines prev_trace es :
  Forall good_line lines -> (forall t, prev_trace = Some t -> entry_good t) ->
  ovpsim_entries full_trace lines prev_trace = Ok es -> Forall entry_good es.
Proof.
  intros H. revert prev_trace es; induction H as [|line lines Hl H IH]; intros prev es Hp; cbn [ovpsim_entries].
  - intros [= <-]. destruct prev; cbn; [apply Forall_singleton; by apply Hp|constructor].
  - destruct (re_search Ovpsim.INSTR_RE line) as [m|] eqn:E.
    + destruct (Ovpsim.new_instr m full_trace) as [t|] eqn:Et; [|done]. cbn [mbind res_bind].
      pose proof (new_instr_good _ _ _ _ Hl E Et) as Ht.
      destruct (ovpsim_entries _ lines _) as [es'|] eqn:Es; [|done]. cbn [mbind res_bind]. intros [= <-].
      apply Forall_app. split; [destruct prev; cbn; [apply Forall_singleton; by apply Hp|constructor]|].
      eapply IH; [|exact Es]. by intros ? [= <-].
    + destruct (re_search Ovpsim.RD_RE line) as [c|] eqn:Ec; [|by apply IH].
      destruct (Ovpsim.is_csr _) as [csr|]; [|done]. cbn [mbind res_bind].
      destruct prev as [t|]; [|done]. cbn [or_raise mbind res_bind]. apply IH.
      intros ? [= <-]. apply add_update_good; [by apply Hp|by eapply change_good].
Qed.

Lemma removelast_forall {A} (P : A -> Prop) l : Forall P l -> Forall P (removelast l).
Proof. induction 1 as [|x l Hx H IH]; [constructor|]. cbn. destruct l; [constructor|by constructor]. Qed.

(** The text a conversion writes. *)
Lemma ovpsim_text_entries log_text full_trace text k :
  Ovpsim.process_ovpsim_text log_text full_trace = (text, Ok k) ->
  exists es, ovpsim_entries full_trace (lines_keep (universal_newlines log_text)) None = Ok es /\
    k = Z.of_nat (length (removelast es)) /\ Forall entry_good (removelast es) /\
    text = start_new_trace ++ mjoin (write_trace_entry <$> removelast es).
Proof.
  unfold Ovpsim.process_ovpsim_text. intros H.
  destruct (Ovpsim.ovpsim_lines full_trace (lines_keep (universal_newlines log_text)) None 0) as [text' r] eqn:E.
  unfold mbind, out_bind in H. cbn [say fst snd] in H. injection H as <- ->.
  apply ovpsim_lines_entries in E as (es & Hes & -> & ->). exists es. split_and!; [done|lia| |done].
  apply removelast_forall. eapply ovpsim_entries_good, Hes; [apply text_lines_good|done].
Qed.

Lemma ovpsim_convert os_system dont_truncate full_trace log csv fs fs' :
  Ovpsim.process_ovpsim_sim_log os_system dont_truncate full_trace log csv fs = (Ok tt, fs') ->
  let fs2 := os_system (Ovpsim.end_cmd dont_truncate log) (os_system (Ovpsim.header_cmd log) fs) in
  exists log_text es, fs2 !! log = Some log_text /\
    ovpsim_entries full_trace (lines_keep (universal_newlines log_text)) None = Ok es /\
    removelast es <> [] /\ Forall entry_good (removelast es) /\
    fs' = <[csv := start_new_trace ++ mjoin (write_trace_entry <$> removelast es)]> fs2.
Proof.
  intros H fs2. unfold Ovpsim.process_ovpsim_sim_log in H. fold fs2 in H. clearbody fs2.
  destruct (fs2 !! log) as [t|]; [|done].
  destruct (Ovpsim.process_ovpsim_text t full_trace) as [text [k|c m]] eqn:E; [|done].
  cbn [mbind res_bind] in H. destruct (Z.eqb_spec k 0) as [|Hk]; [done|]. injection H as <-.
  apply ovpsim_text_entries in E as (es & Hes & -> & Hg & ->). exists t, es. split_and!; try done.
  intros E0. by rewrite E0 in Hk.
Qed.

(** *** The [sed] commands

    [sed -i] edits a file in place, as long as the shell passes its path on as
    it is. *)
Definition shell_plain (path : str) : bool :=
  forallb (fun c => is_alpha c || is_digit c || chr_in ["/"%char; "."%char; "_"%char; "-"%char] c) path.
Definition edits (os_system : str -> fsys -> fsys) (cmd : str -> str) (edit : str -> str) : Prop :=
  forall path fs, shell_plain path = true ->
    os_system (cmd path) fs = match fs !! path with Some text => <[path := edit text]> fs | None => fs end.

Lemma edited os_system dont_truncate head tail log fs text :
  edits os_system Ovpsim.header_cmd head -> edits os_system (Ovpsim.end_cmd dont_truncate) tail ->
  shell_plain log = true ->
  let fs2 := os_system (Ovpsim.end_cmd dont_truncate log) (os_system (Ovpsim.header_cmd log) fs) in
  fs2 !! log = Some text ->
  (exists log_text, fs !! log = Some log_text /\ text = tail (head log_text)) /\
  forall p, p <> log -> fs2 !! p = fs !! p.
Proof.
  intros Hh Ht Hp fs2. unfold fs2. rewrite Hh by done. destruct (fs !! log) as [t|] eqn:E.
  - rewrite Ht, file_insert by done. rewrite file_insert. intros [= <-]. split; [by exists t|].
    intros p Hne. by rewrite !file_insert_ne by done.
  - rewrite Ht by done. rewrite E. by rewrite E.
Qed.

(** A successful conversion of an OVPsim log writes a CSV file that reads
    back as the entries of the log's instructions, with the register changes of
    the lines up to the next instruction, but without the last instruction: that
    one is never written. *)
Theorem ovpsim_drops_last (os_system : str -> fsys -> fsys) (dont_truncate full_trace : bool) (log csv : str) (fs fs' : fsys) :
  Ovpsim.process_ovpsim_sim_log os_system dont_truncate full_trace log csv fs = (Ok tt, fs') ->
  exists log_text es text,
    os_system (Ovpsim.end_cmd dont_truncate log) (os_system (Ovpsim.header_cmd log) fs) !! log = Some log_text /\
    ovpsim_entries full_trace (lines_keep (universal_newlines log_text)) None = Ok es /\
    fs' !! csv = Some text /\ read_trace text = Ok (norm_entry <$> removelast es) /\ removelast es <> [].
Proof.
  intros H. apply ovpsim_convert in H as (t & es & Ht & Hes & Hne & Hg & ->).
  eexists t, es, _. split_and!; [done|done|apply lookup_insert_eq| |done].
  apply csv_read_back. eapply Forall_impl; [exact Hg|]. by intros ? [].
Qed.

Definition no_sed (_ : str) (fs : fsys) : fsys := fs.
Definition demo_ovpsim_files : fsys := <[("ovp.log" : str) := text_of demo_ovpsim]> ∅.

Lemma ovpsim_drops_last_witness :
  exists log_text es text, demo_ovpsim_files !! ("ovp.log" : str) = Some log_text /\
    ovpsim_entries true (lines_keep (universal_newlines log_text)) None = Ok es /\
    (Ovpsim.process_ovpsim_sim_log no_sed false true "ovp.log" "ovp.csv" demo_ovpsim_files).2 !! ("ovp.csv" : str) = Some text /\
    read_trace text = Ok (norm_entry <$> removelast es) /\ removelast es <> [].
Proof.
  apply (ovpsim_drops_last no_sed false true "ovp.log" "ovp.csv" demo_ovpsim_files).
  assert ((Ovpsim.process_ovpsim_sim_log no_sed false true "ovp.log" "ovp.csv" demo_ovpsim_files).1 = Ok tt) as E by by_compute.
  rewrite <-E. apply surjective_pairing.
Defined.

(** A shell that knows the two commands. *)
Fixpoint lines_from (word : str) (lines : list str) : list str :=
  match lines with [] => [] | l :: lines' => if contains word l then lines else lines_from word lines' end.
Fixpoint lines_to (word : str) (lines : list str) : list str :=
  match lines with [] => [] | l :: lines' => if contains word l then [l] else l :: lines_to word lines' end.
Definition sed_from (text : str) : str := mjoin (lines_from "Info 1:" (lines_keep text)).
Definition sed_to (text : str) : str := mjoin (lines_to "ecall" (lines_keep text)).
Definition edit_file (edit : str -> str) (path : str) (fs : fsys) : fsys :=
  match fs !! path with Some text => <[path := edit text]> fs | None => fs end.
Definition demo_shell (cmd : str) (fs : fsys) : fsys :=
  if starts_with "sed -i '/Info 1:/,$!d' " cmd then edit_file sed_from (drop 23 cmd) fs
  else edit_file sed_to (drop 18 cmd) fs.

Lemma demo_shell_edits : edits demo_shell Ovpsim.header_cmd sed_from /\ edits demo_shell (Ovpsim.end_cmd false) sed_to.
Proof. split; intros path fs _; reflexivity. Qed.
