(* ===== verification/TraceLaws.v ===== *)
(** * What a run recorded as passed means, for tools that keep their contract

    The contract of the tools compare.py calls ([TraceToolsLaws]): a converter
    writes a CSV file of the entries its log holds and touches no file but these
    two, and the comparison reports success only when both files make the same
    register changes.  From the contract follows what a passed run means. *)

From S2P Require Import Prelude PyStr PyRe PyIO IbexConfig TestList TestRun TraceCsv InstrCompare IbexLog SpikeLog ConvEntries.
Local Open Scope Z_scope.

(** ** The contract *)

Definition csv_text (es : list trace_entry) : str := start_new_trace ++ mjoin (write_trace_entry <$> es).

(** The first trace makes the register changes of the second: neither has an
    update the comparison cannot read, and the changes agree. *)
Definition same_changes (es1 es2 : list trace_entry) : Prop :=
  exists E1 E2, events ∅ es1 = Ok E1 /\ events ∅ es2 = Ok E2 /\ agree (changes E1) E2.

(** A converter of logs that hold certain entries. *)
Definition converts (f : str -> str -> fsys -> res unit * fsys) (path_ok : str -> Prop)
    (holds : str -> list trace_entry -> Prop) : Prop :=
  forall log csv fs fs', path_ok log -> log <> csv -> f log csv fs = (Ok tt, fs') ->
  exists text es, fs !! log = Some text /\ holds text es /\ Forall entry_good es /\
    fs' !! csv = Some (csv_text es) /\ forall p, p <> log -> p <> csv -> fs' !! p = fs !! p.

Class TraceToolsLaws (tools : TraceTools) := {
  uvm_good : str -> Prop;
  rtl_holds : str -> list trace_entry -> Prop;
  iss_holds : str -> str -> list trace_entry -> Prop;
  iss_path_ok : str -> str -> Prop;
  uvm_law fs log lines :
    TestRun.check_ibex_uvm_log fs log = Ok (true, lines) -> exists text, fs !! log = Some text /\ uvm_good text;
  rtl_law : converts TestRun.process_ibex_sim_log (fun _ => True) rtl_holds;
  spike_law : converts TestRun.process_spike_sim_log (iss_path_ok "spike") (iss_holds "spike");
  ovpsim_law : converts TestRun.process_ovpsim_sim_log (iss_path_ok "ovpsim") (iss_holds "ovpsim");
  compare_law csv1 csv2 n1 n2 log fs fs' verdict es1 es2 :
    TestRun.compare_trace_csv csv1 csv2 n1 n2 log [] fs = (Ok verdict, fs') ->
    log <> csv1 -> log <> csv2 -> starts_with "[PASSED]: " verdict = true ->
    Forall entry_good es1 -> Forall entry_good es2 ->
    fs !! csv1 = Some (csv_text es1) -> fs !! csv2 = Some (csv_text es2) -> same_changes es1 es2 }.

(** ** A passed run *)

Section Laws.
Context {tools : TraceTools} {laws : TraceToolsLaws tools}.

Lemma iss_law iss : converts (iss_convert iss) (iss_path_ok iss) (iss_holds iss).
Proof.
  intros log csv fs fs' Hp Hne. unfold iss_convert.
  case_bool_decide as H1; [subst; by apply spike_law|].
  case_bool_decide as H2; [subst; by apply ovpsim_law|done].
Qed.

Lemma passed_run_laws (test : entry) (name : str) (idx seed : Z)
    (rtl_log_dir iss iss_log_dir bin_dir : str) (fs fs' : fsys) (r : test_run_result) :
  let rtl_log := path_join rtl_log_dir "trace_core_00000000.log" in
  let rtl_csv := path_join rtl_log_dir "trace_core_00000000.csv" in
  let iss_log := path_join iss_log_dir ((name ++ "." ++ str_of_Z idx) ++ ".log") in
  let iss_csv := path_join iss_log_dir ((name ++ "." ++ str_of_Z idx) ++ ".csv") in
  let compare_log := path_join rtl_log_dir "compare.log" in
  get test "test" = Ok (YScalar (SStr name)) ->
  dict_get test "no_post_compare" = None -> dict_get test "compare_opts" = None ->
  NoDup [rtl_log; rtl_csv; iss_log; iss_csv; compare_log] -> iss_path_ok iss iss_log ->
  compare_test_run test idx seed rtl_log_dir iss iss_log_dir bin_dir fs = (Ok r, fs') ->
  r_passed r = true ->
  exists uvm_text rtl_text iss_text es1 es2,
    fs !! path_join rtl_log_dir "sim.log" = Some uvm_text /\ uvm_good uvm_text /\
    fs !! rtl_log = Some rtl_text /\ rtl_holds rtl_text es1 /\
    fs !! iss_log = Some iss_text /\ iss_holds iss iss_text es2 /\ same_changes es1 es2.
Proof.
  intros rtl_log rtl_csv iss_log iss_csv compare_log Hn Hpost Hopts Hnd Hiss Hr Hp.
  rewrite !NoDup_cons, !not_elem_of_cons in Hnd.
  destruct Hnd as ((N1 & N2 & N3 & N4 & _) & (N5 & N6 & N7 & _) & (N8 & N9 & _) & (N10 & _) & _).
  destruct (compare_test_run_decides test name idx seed rtl_log_dir iss iss_log_dir bin_dir fs fs' r Hn Hr)
    as [_ Hiff]. apply Hiff in Hp as (lines & fs1 & Hu & Hi & [Hx|Ht]); [congruence|].
  destruct (uvm_law _ _ _ Hu) as (uvm_text & Hut & Hug).
  fold rtl_log in Hi. fold rtl_csv in Hi.
  destruct (rtl_law _ _ _ _ I N1 Hi) as (rtl_text & es1 & Hrt & Hrh & Hrg & Hrc & Hrf).
  destruct Ht as (fs2 & opts & verdict & fs3 & Hs & Ho & Hcmp & _ & Hpass).
  unfold compare_opts in Ho. rewrite Hopts in Ho. injection Ho as <-.
  fold iss_log in Hs. fold iss_csv in Hs, Hcmp. fold rtl_csv in Hcmp. fold compare_log in Hcmp.
  destruct (iss_law iss _ _ _ _ Hiss N8 Hs) as (iss_text & es2 & Hit & Hih & Hig & Hic & Hif).
  rewrite Hrf in Hit by (by apply not_eq_sym).
  exists uvm_text, rtl_text, iss_text, es1, es2. split_and!; try done.
  eapply compare_law; [exact Hcmp|by apply not_eq_sym|by apply not_eq_sym|exact Hpass|exact Hrg|exact Hig|..].
  - rewrite file_delete_ne by (by apply not_eq_sym). rewrite Hif by done. exact Hrc.
  - rewrite file_delete_ne by (by apply not_eq_sym). exact Hic.
Qed.
End Laws.
