(* ===== verification/TraceFlow.v ===== *)
(** * The post-processing of one test run

    The implementation of the interface [TraceTools] of compare.py by the models
    of ibex_log_to_trace_csv.py, spike_log_to_trace_csv.py,
    ovpsim_log_to_trace_csv.py and instr_trace_compare.py.  It keeps the contract
    [TraceToolsLaws], and so a passed run has the meaning stated there, spelled
    out for Spike, for OVPsim and for a log the tracer wrote. *)

From S2P Require Import Prelude PyStr PyRe PyIO IbexConfig TestList TestRun TraceCsv InstrCompare IbexLog SpikeLog ConvEntries Tracer TracerLog OvpsimLog TraceLaws.
From Stdlib Require Import Ascii.
Local Open Scope Z_scope.

Section Flow.
(** The shell, which the converter of OVPsim logs runs [sed] with. *)
Context (os_system : str -> fsys -> fsys).

(** The functions as compare.py calls them. *)
#[local] Instance trace_tools : TraceTools := {|
  TestRun.check_ibex_uvm_log := IbexLog.check_ibex_uvm_log;
  TestRun.process_ibex_sim_log := fun log csv fs => IbexLog.process_ibex_sim_log true log csv fs;
  TestRun.process_spike_sim_log := fun log csv fs =>
    let (r, fs') := SpikeLog.process_spike_sim_log false log csv fs in ((_ ← r; Ok tt), fs');
  TestRun.process_ovpsim_sim_log := Ovpsim.process_ovpsim_sim_log os_system false true;
  TestRun.compare_trace_csv := InstrCompare.compare_trace_csv |}.

(** ** The contract is kept *)

(** A UVM log that reports a pass before any error, and no failure. *)
Definition uvm_passes (text : str) : Prop :=
  let lines := lines_keep (universal_newlines text) in
  clean_pass lines /\ Forall (fun l => failed_line l = false) lines.

(** The entries of the logs. *)
Definition rtl_log_entries (text : str) (es : list trace_entry) : Prop :=
  rtl_entries (lines_keep (universal_newlines text)) = Ok es /\ es <> [].
Definition iss_log_entries (iss text : str) (es : list trace_entry) : Prop :=
  if bool_decide (iss = ("spike" : str)) then es = iss_entries text
  else forall head tail, edits os_system Ovpsim.header_cmd head -> edits os_system (Ovpsim.end_cmd false) tail ->
    exists all, ovpsim_entries true (lines_keep (universal_newlines (tail (head text)))) None = Ok all /\
                es = removelast all.

(** OVPsim's log is edited through the shell. *)
Definition log_path_ok (iss path : str) : Prop :=
  iss = ("spike" : str) \/
  (shell_plain path = true /\ (exists head, edits os_system Ovpsim.header_cmd head) /\
   exists tail, edits os_system (Ovpsim.end_cmd false) tail).

Lemma uvm_kept fs log lines :
  IbexLog.check_ibex_uvm_log fs log = Ok (true, lines) -> exists text, fs !! log = Some text /\ uvm_passes text.
Proof.
  unfold IbexLog.check_ibex_uvm_log. destruct (fs !! log) as [text|]; [|done]. intros H. exists text. split; [done|].
  unfold uvm_passes. destruct (uvm_unseen (lines_keep (universal_newlines text))) as [Hv _]. apply Hv.
  injection H as H _. by destruct (u_failed (uvm_scan _ _)).
Qed.

Lemma rtl_kept : converts (IbexLog.process_ibex_sim_log true) (fun _ => True) rtl_log_entries.
Proof.
  intros log csv fs fs' _ _. unfold IbexLog.process_ibex_sim_log.
  destruct (fs !! log) as [text|] eqn:Et; [|done].
  destruct (_process_ibex_sim_log_fd text true) as [t [n|]] eqn:E; [|done]. cbn [mbind res_bind].
  destruct (Z.eqb_spec n 0) as [|Hn]; [done|]. intros [= <-].
  destruct (rtl_text_entries _ _ _ E) as (es & Hes & -> & Hg & ->). exists text, es.
  split; [done|split; [split; [done|by intros ->]|split; [done|split; [apply file_insert|]]]].
  intros p _ Hp. apply file_insert_ne. by apply not_eq_sym.
Qed.

Lemma spike_kept :
  converts (fun log csv fs => let (r, fs') := SpikeLog.process_spike_sim_log false log csv fs in ((_ ← r; Ok tt), fs'))
    (log_path_ok "spike") (iss_log_entries "spike").
Proof.
  intros log csv fs fs' _ _. unfold SpikeLog.process_spike_sim_log.
  destruct (fs !! log) as [text|] eqn:Et; [|done].
  destruct (process_spike_text text false) as [t r] eqn:E. unfold mbind, out_bind. cbn [say fst snd].
  destruct r as [n|]; [|done]. cbn [res_bind]. intros [= <-]. apply iss_text_entries in E as [_ ->].
  exists text, (iss_entries text). split_and!; [done|done|apply iss_entries_good|apply file_insert|].
  intros p _ Hp. apply file_insert_ne. by apply not_eq_sym.
Qed.

Lemma ovpsim_kept :
  converts (Ovpsim.process_ovpsim_sim_log os_system false true) (log_path_ok "ovpsim") (iss_log_entries "ovpsim").
Proof.
  intros log csv fs fs' [Hx|(Hp & (h & Hh) & (tl & Ht))] Hne H; [discriminate Hx|].
  apply ovpsim_convert in H as (t & all & Hl & Hall & _ & Hg & ->).
  destruct (edited _ _ _ _ _ _ _ Hh Ht Hp Hl) as [(text & Ht1 & _) Hsame].
  exists text, (removelast all). split; [done|split; [|split; [done|split; [apply file_insert|]]]].
  - intros h' tl' Hh' Ht'. destruct (edited _ _ _ _ _ _ _ Hh' Ht' Hp Hl) as [(text' & Ht1' & ->) _].
    rewrite Ht1 in Ht1'. injection Ht1' as <-. by exists all.
  - intros p H1 H2. rewrite file_insert_ne by (by apply not_eq_sym). by apply Hsame.
Qed.

Lemma compare_passed csv1 csv2 n1 n2 log fs fs' verdict :
  InstrCompare.compare_trace_csv csv1 csv2 n1 n2 log [] fs = (Ok verdict, fs') ->
  log <> csv1 -> log <> csv2 -> starts_with "[PASSED]: " verdict = true ->
  exists text1 text2 tr1 tr2, fs !! csv1 = Some text1 /\ fs !! csv2 = Some text2 /\
    read_trace text1 = Ok tr1 /\ read_trace text2 = Ok tr2 /\
    forall E1 E2, events ∅ tr1 = Ok E1 -> events ∅ tr2 = Ok E2 -> agree (changes E1) E2.
Proof.
  intros H Hl1 Hl2 Hp. unfold InstrCompare.compare_trace_csv in H.
  replace (forallb _ _) with true in H by reflexivity. cbn [negb] in H.
  set (created := if bool_decide (log = []) then fs else _) in H.
  assert (created !! csv1 = fs !! csv1 /\ created !! csv2 = fs !! csv2) as [C1 C2].
  { unfold created. case_bool_decide; [done|]. split; by apply lookup_insert_ne. }
  destruct (compare_trace_csv_text _ _ _ _ _ created) as [text r] eqn:E.
  injection H as -> _. apply (f_equal snd) in E. cbn [snd] in E. unfold compare_trace_csv_text in E.
  rewrite (out_bind_ok _ _ tt) in E by done. rewrite C1, C2 in E.
  destruct (fs !! csv1) as [text1|]; [|discriminate E]. rewrite (out_bind_ok _ _ text1) in E by done.
  destruct (fs !! csv2) as [text2|]; [|discriminate E]. rewrite (out_bind_ok _ _ text2) in E by done.
  destruct (read_trace text1) as [tr1|] eqn:R1; [|discriminate E]. rewrite (out_bind_ok _ _ tr1) in E by done.
  destruct (read_trace text2) as [tr2|] eqn:R2; [|discriminate E]. rewrite (out_bind_ok _ _ tr2) in E by done.
  exists text1, text2, tr1, tr2. split_and!; [done..|]. intros E1 E2 H1 H2.
  destruct (compare_traces_verdict n1 n2 (YScalar (SInt 5)) 5 tr1 tr2 E1 E2 eq_refl H1 H2) as (v & Hv & Ha & _).
  apply Ha. replace v with verdict; [done|].
  enough (Ok verdict = Ok v) as Hok by (by injection Hok). rewrite <-E, <-Hv. reflexivity.
Qed.

Lemma compare_kept csv1 csv2 n1 n2 log fs fs' verdict es1 es2 :
  InstrCompare.compare_trace_csv csv1 csv2 n1 n2 log [] fs = (Ok verdict, fs') ->
  log <> csv1 -> log <> csv2 -> starts_with "[PASSED]: " verdict = true ->
  Forall entry_good es1 -> Forall entry_good es2 ->
  fs !! csv1 = Some (csv_text es1) -> fs !! csv2 = Some (csv_text es2) -> same_changes es1 es2.
Proof.
  intros H N1 N2 Hv H1 H2 F1 F2.
  destruct (compare_passed _ _ _ _ _ _ _ _ H N1 N2 Hv) as (x1 & x2 & tr1 & tr2 & Hx1 & Hx2 & R1 & R2 & Hag).
  rewrite F1 in Hx1. rewrite F2 in Hx2. injection Hx1 as <-. injection Hx2 as <-.
  destruct (read_entries es1 H1) as (tr1' & E1 & R1' & He1 & He1').
  destruct (read_entries es2 H2) as (tr2' & E2 & R2' & He2 & He2').
  unfold csv_text in R1, R2. rewrite R1 in R1'. injection R1' as <-. rewrite R2 in R2'. injection R2' as <-.
  exists E1, E2. split; [exact He1'|split; [exact He2'|exact (Hag _ _ He1 He2)]].
Qed.

#[local] Instance trace_tools_laws : TraceToolsLaws trace_tools := {|
  uvm_good := uvm_passes; rtl_holds := rtl_log_entries; iss_holds := iss_log_entries; iss_path_ok := log_path_ok;
  uvm_law := uvm_kept; rtl_law := rtl_kept; spike_law := spike_kept; ovpsim_law := ovpsim_kept;
  compare_law := compare_kept |}.

(** ** What a passed run means *)

Section Run.
Context (test : entry) (name : str) (idx seed : Z) (rtl_log_dir iss_log_dir bin_dir : str).
Let rtl_log := path_join rtl_log_dir "trace_core_00000000.log".
Let iss_log := path_join iss_log_dir ((name ++ "." ++ str_of_Z idx) ++ ".log").

(** A run of a test without options of its own, on files of different names. *)
Definition plain_run : Prop :=
  get test "test" = Ok (YScalar (SStr name)) /\
  dict_get test "no_post_compare" = None /\ dict_get test "compare_opts" = None /\
  NoDup [rtl_log; path_join rtl_log_dir "trace_core_00000000.csv"; iss_log;
         path_join iss_log_dir ((name ++ "." ++ str_of_Z idx) ++ ".csv"); path_join rtl_log_dir "compare.log"].

Lemma passed_spike fs fs' r :
  plain_run -> compare_test_run (tools := trace_tools) test idx seed rtl_log_dir "spike" iss_log_dir bin_dir fs = (Ok r, fs') ->
  r_passed r = true ->
  exists uvm_text rtl_text iss_text es,
    fs !! path_join rtl_log_dir "sim.log" = Some uvm_text /\ uvm_passes uvm_text /\
    fs !! rtl_log = Some rtl_text /\ rtl_log_entries rtl_text es /\
    fs !! iss_log = Some iss_text /\ same_changes es (iss_entries iss_text).
Proof.
  intros (Hn & Hpost & Hopts & Hnd) Hr Hp.
  destruct (passed_run_laws (laws := trace_tools_laws) test name idx seed rtl_log_dir "spike" iss_log_dir bin_dir fs fs' r Hn Hpost Hopts Hnd
              (or_introl eq_refl : log_path_ok "spike" iss_log) Hr Hp) as (u & t1 & t2 & es1 & es2 & Hu & Hug & H1 & Hh1 & H2 & Hh2 & Hs).
  exists u, t1, t2, es1. change (iss_log_entries "spike" t2 es2) in Hh2.
  unfold iss_log_entries in Hh2. rewrite bool_decide_true in Hh2 by done. subst es2.
  exact (conj Hu (conj Hug (conj H1 (conj Hh1 (conj H2 Hs))))).
Qed.



(** With OVPsim as the reference, where the two [sed] commands edit its log in
    place, a run recorded as passed means that the converted RTL log makes the
    register changes of the edited OVPsim log without its last instruction. *)
Theorem passed_run_ovpsim (head tail : str -> str) (fs fs' : fsys) (r : test_run_result) :
  plain_run -> edits os_system Ovpsim.header_cmd head -> edits os_system (Ovpsim.end_cmd false) tail ->
  shell_plain iss_log = true ->
  compare_test_run (tools := trace_tools) test idx seed rtl_log_dir "ovpsim" iss_log_dir bin_dir fs = (Ok r, fs') ->
  r_passed r = true ->
  exists rtl_text iss_text es all,
    fs !! rtl_log = Some rtl_text /\ rtl_log_entries rtl_text es /\ fs !! iss_log = Some iss_text /\
    ovpsim_entries true (lines_keep (universal_newlines (tail (head iss_text)))) None = Ok all /\
    same_changes es (removelast all).
Proof.
  intros (Hn & Hpost & Hopts & Hnd) Hh Ht Hplain Hr Hp.
  destruct (passed_run_laws (laws := trace_tools_laws) test name idx seed rtl_log_dir "ovpsim" iss_log_dir bin_dir fs fs' r Hn Hpost Hopts Hnd
              (or_intror (conj Hplain (conj (ex_intro _ head Hh) (ex_intro _ tail Ht))) : log_path_ok "ovpsim" iss_log) Hr Hp) as (u & t1 & t2 & es1 & es2 & _ & _ & H1 & Hh1 & H2 & Hh2 & Hs).
  change (iss_log_entries "ovpsim" t2 es2) in Hh2. unfold iss_log_entries in Hh2. rewrite bool_decide_false in Hh2 by done.
  destruct (Hh2 head tail Hh Ht) as (all & Hall & ->). exists t1, t2, es1, all.
  exact (conj H1 (conj Hh1 (conj H2 (conj Hall Hs)))).
Qed.
End Run.
End Flow.

(** ** A run *)

Definition nl (l : list str) : str := mjoin ((fun s => s ++ [newline]) <$> l).
Definition demo_run_files : fsys :=
  list_to_map
    [("rtl/sim.log" : str, demo_uvm);
     ("rtl/trace_core_00000000.log" : str, nl ["Time	Cycle	PC	Insn	Decoded instruction	Register and memory contents" : str; demo_line;
        "             120         22 80000084 00000073 ecall" : str]);
     ("iss/arith.0.log" : str, nl
        ["core   0: 0x0000000000001010 (0x0182b283) ld      t0, 24(t0)" : str;
         "core   0: 0x80000080 (0x00500513) li      a0, 5" : str;
         "3 0x80000080 (0x00500513) x10 0x00000005" : str;
         "core   0: 0x80000084 (0x00000073) ecall" : str])].
Definition demo_run_entry : entry := [("test" : str, YScalar (SStr "arith"))].
Definition demo_run : res test_run_result * fsys :=
  @compare_test_run (trace_tools no_sed) demo_run_entry 0 5 "rtl" "spike" "iss" "bin" demo_run_files.
Definition demo_run_result : test_run_result :=
  match demo_run.1 with Ok r => r | Raise _ _ => passed_run [] 0 end.

(** The tests of the runs below. *)
Lemma demo_plain : plain_run demo_run_entry "arith" 0 "rtl" "iss".
Proof. split_and!; try reflexivity. apply (bool_decide_unpack _). vm_compute. exact I. Qed.


(** The same run on the log of the instructions of [demo_retired]. *)
Definition retired_run_files : fsys :=
  list_to_map
    [("rtl/sim.log" : str, demo_uvm);
     ("rtl/trace_core_00000000.log" : str, tracer_log demo_retired);
     ("iss/arith.0.log" : str, nl
        ["core   0: 0x0000000000001010 (0x0182b283) ld      t0, 24(t0)" : str;
         "core   0: 0x80000008 (0x00550513) addi    a0, a0, 5" : str;
         "3 0x80000008 (0x00550513) x10 0x0000000c" : str;
         "core   0: 0x8000000c (0x6505) c.lui   a0, 0x1" : str;
         "3 0x8000000c (0x6505) x10 0x00001000" : str;
         "core   0: 0x80000010 (0x0100006f) j       pc + 0x10" : str;
         "core   0: 0x8000000e (0x00000073) ecall" : str])].
Definition retired_run : res test_run_result * fsys :=
  @compare_test_run (trace_tools no_sed) demo_run_entry 0 5 "rtl" "spike" "iss" "bin" retired_run_files.
Definition retired_run_result : test_run_result :=
  match retired_run.1 with Ok r => r | Raise _ _ => passed_run [] 0 end.


(** A run against OVPsim. *)
Definition ovpsim_run_files : fsys :=
  list_to_map
    [("rtl/sim.log" : str, demo_uvm);
     ("rtl/trace_core_00000000.log" : str, tracer_log demo_retired);
     ("iss/arith.0.log" : str, nl
        ["riscvOVPsim" : str;
         "Info 1: 'riscvOVPsim/cpu', 0x0000000080000008(_start): Machine 00550513 addi    a0,a0,5" : str;
         "Info   a0 00000007 -> 0000000c" : str;
         "Info 2: 'riscvOVPsim/cpu', 0x000000008000000c(_start+4): Machine 6505     lui     a0,0x1" : str;
         "Info   a0 0000000c -> 00001000" : str;
         "Info 3: 'riscvOVPsim/cpu', 0x000000008000000e(_start+6): Machine 00000073 ecall" : str])].
Definition ovpsim_run : res test_run_result * fsys :=
  @compare_test_run (trace_tools demo_shell) demo_run_entry 0 5 "rtl" "ovpsim" "iss" "bin" ovpsim_run_files.
Definition ovpsim_run_result : test_run_result :=
  match ovpsim_run.1 with Ok r => r | Raise _ _ => passed_run [] 0 end.

Lemma passed_run_ovpsim_witness :
  r_passed ovpsim_run_result = true /\
  exists rtl_text iss_text es all, rtl_log_entries rtl_text es /\
    ovpsim_entries true (lines_keep (universal_newlines (sed_to (sed_from iss_text)))) None = Ok all /\
    same_changes es (removelast all).
Proof.
  assert (ovpsim_run.1 = Ok ovpsim_run_result /\ r_passed ovpsim_run_result = true) as [E Hp] by (split; by_compute).
  split; [exact Hp|].
  destruct (passed_run_ovpsim demo_shell demo_run_entry "arith" 0 5 "rtl" "iss" "bin" sed_from sed_to ovpsim_run_files
              ovpsim_run.2 ovpsim_run_result) as (t1 & t2 & es & all & _ & H1 & _ & H2).
  - exact demo_plain.
  - apply demo_shell_edits.
  - apply demo_shell_edits.
  - reflexivity.
  - change (ovpsim_run = (Ok ovpsim_run_result, ovpsim_run.2)). rewrite <-E. apply surjective_pairing.
  - exact Hp.
  - exists t1, t2, es, all. exact (conj H1 H2).
Defined.
