(* ===== verification/Intermediates.v ===== *)
(** * Generated formal properties (dv/formal/check/tita_unsealer_props)

    [generate_intermediates.py] cuts the property that the unsealer sequence
    writes back without an error into one property per executed instruction
    ([generate_intermediate_props]) and into one covered sequence per branch
    ([generate_branches]).  A generator is the list of what it yields with how it
    ends; what is written to a file is the text of the [out] monad, which keeps
    what was written before an exception.

    The theorems: the texts generated have balanced brackets, each generated
    antecedent is the part of the given one before a divider, the names of the
    properties are distinct, a generated property parses back, and the two
    failures of the divider loop. *)

From S2P Require Import Prelude PyStr PyRe.
From Stdlib Require Import Ascii.

(** ** Closing brackets *)

Definition OPEN : ascii := "("%char.
Definition CLOSE : ascii := ")"%char.

Definition close_brackets (text : str) : str :=
  let open_count := count_chr OPEN text in
  let close_count := count_chr CLOSE text in
  if (close_count <? open_count)%nat then text ++ repeat CLOSE (open_count - close_count) else text.

(** ** The divider loop *)

(** What a generator yields, and how it ends. *)
Definition gen (A : Type) : Type := list A * res unit.

(** One yield of [iter_lines]. *)
Record line_item := LineItem { l_index : nat; l_until : str; l_last : str }.

Definition divider_re (dividers : list str) : regex := ralt (lit <$> dividers).
(** The pattern [match_last_line] has in every call. *)
Definition INSTR_WB : regex := rseq [lit "`INSTR_WB("; RGrp 1 (plus is_word); lit ")"].

Definition last_name (match_last_line : option regex) (last_line : str) : str :=
  match match_last_line with
  | Some re => match re_search re last_line with Some m => grp m 1 | None => "na" end
  | None => last_line
  end.

Definition divider_item (mll : option regex) (text : str) (i last_end : nat) (m : rmatch) : line_item :=
  LineItem i (rstrip is_space (take (m_start m) text))
    (last_name mll (strip (drop last_end (take (m_start m) text)))).

Fixpoint divider_loop (mll : option regex) (text : str) (i last_end : nat) (ms : list rmatch)
  : list line_item :=
  match ms with
  | [] => []
  | m :: ms' =>
      let it := divider_item mll text i last_end m in
      (match l_last it with [] => [] | _ => [it] end) ++ divider_loop mll text (S i) (m_end m) ms'
  end.

(** The value of [i] after the loop, which is unbound when nothing matched. *)
Definition loop_i (ms : list rmatch) : res nat :=
  match ms with [] => raise UnboundLocalError | _ => Ok (pred (length ms)) end.

Definition iter_lines (text : str) (dividers : list str) (mll : option regex) (yield_last : bool)
  : gen line_item :=
  let ms := finditer (divider_re dividers) text in
  let items := divider_loop mll text 0 0 ms in
  if yield_last then
    match loop_i ms with
    | Ok i =>
        let last_end := default 0%nat (m_end <$> last ms) in
        (items ++ [LineItem (S i) (rstrip is_space text) (last_name mll (strip (drop last_end text)))], Ok tt)
    | Raise c msg => (items, Raise c msg)
    end
  else (items, Ok tt).

(** ** Texts *)

Definition make_property (name antecedent consequent : str) : str :=
  let antecedent := close_brackets antecedent in
  [newline] ++ "property " ++ name ++ "_prop; " ++ [newline; "009"%char] ++ "(" ++ antecedent ++ " " ++
  [newline; "009"%char] ++ "|-> " ++ consequent ++ ");" ++ [newline] ++ "endproperty; " ++ [newline] ++
  name ++ ": assert property (" ++ name ++ "_prop);" ++ [newline] ++ "    ".

Definition make_sequence (name sequence : str) (check_cover : bool) : str :=
  let sequence := close_brackets sequence in
  let cover := if check_cover
               then [newline] ++ "cover_" ++ name ++ ": cover sequence (" ++ name ++ ");" else [] in
  [newline] ++ "sequence " ++ name ++ ";" ++ [newline; "009"%char] ++ "(" ++ sequence ++ ");" ++
  [newline] ++ "endsequence;" ++ cover ++ [newline].

(** ** Parsing a property *)

Definition parse_property_body (property_text : str) : res (str * str) :=
  let property_text := if starts_with "((" property_text then drop 1 property_text
                       else strip (lstrip (Ascii.eqb OPEN) property_text) in
  let property_text := if ends_with "));" property_text
                       then strip (take (length property_text - 2) property_text)
                       else strip (rstrip (chr_in ");") property_text) in
  match find_str "|->" property_text with
  | Some k => Ok (take k property_text, strip (drop (k + 3) property_text))
  | None => raise ValueError
  end.

Definition PROPERTY_RE : regex := rseq [lit "property"; plus is_space; RGrp 1 (plus is_word); lit ";"].

Definition parse_property_text (text : str) : res (str * str * str) :=
  match re_search PROPERTY_RE text with
  | None => Raise ValueError "No property found in the text"
  | Some m =>
      let name := grp m 1 in
      let name := if ends_with "_prop" name then take (length name - 5) name else name in
      let text := drop (m_end m) text in
      match re_search (lit "endproperty") text with
      | None => Raise ValueError "No endproperty found in the text"
      | Some e =>
          let property_text := strip (take (m_start e) text) in
          '(antecedent, consequent) ← parse_property_body property_text;
          Ok (name, antecedent, consequent)
      end
  end.

(** ** The generators *)

Definition index_str (i : nat) : str := str_of_Z (Z.of_nat i).

(** What the generators yield: a text, or a pair of a name and a text. *)
Inductive item := Text (p : str) | Named (prop_name p : str).

Definition prop_name (name : str) (l : line_item) : str :=
  name ++ "_" ++ index_str (l_index l + 1) ++ "_" ++ l_last l.

Definition intermediate (name consequent : str) (yield_prop_names : bool) (l : line_item) : list item :=
  match l_until l with
  | [] => []
  | _ =>
      let prop := make_property (prop_name name l) (l_until l) consequent in
      [if yield_prop_names then Named (prop_name name l) prop else Text prop]
  end.

Definition generate_intermediate_props (property_text : str) (dividers : list str)
    (yield_prop_names yield_last : bool) : gen item :=
  match parse_property_text property_text with
  | Raise c msg => ([], Raise c msg)
  | Ok (name, antecedent, consequent) =>
      let lines := iter_lines antecedent dividers (Some INSTR_WB) yield_last in
      (lines.1 ≫= intermediate name consequent yield_prop_names, lines.2)
  end.

Definition branch_text (branch_signal branch_sequence curr_sequence : str) : str :=
  curr_sequence ++ " && " ++ branch_signal ++ " " ++ [newline; "009"%char] ++ "##1 ~wbexc_exists " ++
  [newline; "009"%char] ++ "##1 " ++ branch_sequence.

Definition branch (branch_signal branch_sequence : str) (check_cover : bool) (l : line_item) : list item :=
  match l_until l with
  | [] => []
  | _ => [Text (make_sequence ("branch_" ++ index_str (l_index l + 1) ++ "_" ++ l_last l)
                 (branch_text branch_signal branch_sequence (l_until l)) check_cover)]
  end.

Definition generate_branches (main_sequence branch_signal branch_sequence : str)
    (include_success check_cover : bool) : gen item :=
  let lines := iter_lines main_sequence ["&& instr_will_progress && ~" ++ branch_signal]
                 (Some INSTR_WB) false in
  let items := lines.1 ≫= branch branch_signal branch_sequence check_cover in
  if include_success then
    match last lines.1 with
    | Some l => (items ++ [Text (make_sequence ("branch_" ++ index_str (l_index l + 2) ++ "_success")
                                   main_sequence check_cover)], lines.2)
    | None => (items, raise UnboundLocalError)
    end
  else (items, lines.2).

(** ** Writing a file *)

Definition item_text (p : item) : str := match p with Text t | Named _ t => t end.
Definition item_prop (p : item) : list str :=
  match p with Text _ => [] | Named n _ => [n ++ "_prop"] end.

Definition combined (combined_prop_name : str) (prop_names : list str) : str :=
  "property " ++ combined_prop_name ++ "_prop;" ++ [newline] ++
  ["009"%char] ++ "(" ++ join " and " prop_names ++ ");" ++ [newline] ++
  "endproperty;" ++ [newline] ++
  combined_prop_name ++ ": assert property (" ++ combined_prop_name ++ "_prop);" ++ [newline].

(** The text the file has afterwards; an exception of the generator leaves what
    was written before it. *)
Definition write_intermediates (generator : gen item) (combined_prop_name : option str) : out unit :=
  _ ← say (generator.1 ≫= fun p => item_text p ++ [newline]);
  _ ← lift generator.2;
  match combined_prop_name, generator.1 ≫= item_prop with
  | Some ((_ :: _) as name), (_ :: _) as prop_names => say (combined name prop_names)
  | _, _ => mret tt
  end.

Definition property_str : str := "
property no_wbexc_err_prop;
    (assumption and (`INSTR_WB(l00_cgettag) && instr_will_progress 
        ##1 `INSTR_WB(l04_beqz) && instr_will_progress && ~wbexc_has_branched 
        ##1 `INSTR_WB(l06_cgetbase) && instr_will_progress 
        ##1 `INSTR_WB(l0a_bne) && instr_will_progress && ~wbexc_has_branched 
        ##1 `INSTR_WB(l0e_cgetlen) && instr_will_progress 
        ##1 `INSTR_WB(l12_beqz) && instr_will_progress && ~wbexc_has_branched 
        ##1 `INSTR_WB(l14_cgetperm) && instr_will_progress 
        ##1 `INSTR_WB(l18_andi) && instr_will_progress 
        ##1 `INSTR_WB(l1c_bne) && instr_will_progress && ~wbexc_has_branched 
        ##1 `INSTR_WB(l1e_cunseal) && instr_will_progress 
        ##1 `INSTR_WB(l22_cgettag) && instr_will_progress 
        ##1 `INSTR_WB(l26_beqz) && instr_will_progress && ~wbexc_has_branched 
        ##1 `INSTR_WB(l28_clw) && ~instr_will_progress 
        ##1 instr_will_progress
        ##1 `INSTR_WB(l2a_bne) && instr_will_progress && ~wbexc_has_branched
        ##1 `INSTR_WB(l2e_cgettop) && instr_will_progress
        ##1 `INSTR_WB(l32_cinoffset) && instr_will_progress
        ##1 `INSTR_WB(l36_sub) && instr_will_progress
        ##1 `INSTR_WB(l3a_csetboundsexact) && instr_will_progress
        ##1 `INSTR_WB(l3e_cret))
        |-> (~wbexc_err | (obj_ptr_safe && us_auth_safe))
        );
endproperty
no_wbexc_err: assert property (no_wbexc_err_prop);
".

Definition write_branches : out unit :=
  match parse_property_text property_str with
  | Raise c msg => lift (Raise c msg)
  | Ok (_, sequence, _) =>
      write_intermediates (generate_branches sequence "wbexc_has_branched" "failure_sequence" true true) None
  end.

Definition write_no_wbexc_err_intermediates : out unit :=
  write_intermediates
    (generate_intermediate_props property_str ["&& instr_will_progress" : str; "##1 instr_will_progress" : str] true false)
    (Some ("no_wbexc_err" : str)).

(** ** Balanced brackets *)

(** Read a text from depth [d]; [None] when a bracket closes that was not
    open. *)
Fixpoint scan (d : nat) (s : str) : option nat :=
  match s with
  | [] => Some d
  | c :: s' =>
      if Ascii.eqb c OPEN then scan (S d) s'
      else if Ascii.eqb c CLOSE then match d with O => None | S d' => scan d' s' end
      else scan d s'
  end.
Definition balanced (s : str) : Prop := scan 0 s = Some 0%nat.

Lemma scan_app d a b : scan d (a ++ b) = scan d a ≫= fun e => scan e b.
Proof.
  revert d; induction a as [|c a IH]; intros d; [done|]. cbn [app scan].
  destruct (Ascii.eqb c OPEN); [done|]. destruct (Ascii.eqb c CLOSE); [|done].
  destruct d; [done|]. apply IH.
Qed.

(** The depth reached is the difference of the counts. *)
Lemma scan_count d s e :
  scan d s = Some e -> (d + count_chr OPEN s = e + count_chr CLOSE s)%nat.
Proof.
  unfold count_chr. revert d; induction s as [|c s IH]; intros d; cbn [scan].
  - intros [= ->]. done.
  - rewrite !filter_cons.
    destruct (Ascii.eqb_spec c OPEN) as [->|H1]; [|destruct (Ascii.eqb_spec c CLOSE) as [->|H2]].
    + intros H%IH. repeat case_decide; cbn; (done || lia).
    + destruct d; [done|]. intros H%IH. repeat case_decide; cbn; (done || lia).
    + intros H%IH. repeat case_decide; cbn; (done || lia).
Qed.

Lemma scan_more k d s e : scan d s = Some e -> scan (k + d) s = Some (k + e)%nat.
Proof.
  revert d; induction s as [|c s IH]; intros d; cbn [scan]; [by intros [= ->]|].
  destruct (Ascii.eqb c OPEN); [intros H%IH; by rewrite <-Nat.add_succ_r|].
  destruct (Ascii.eqb c CLOSE); [|apply IH].
  destruct d; [done|]. rewrite Nat.add_succ_r. apply IH.
Qed.

Lemma balanced_scan d s : balanced s -> scan d s = Some d.
Proof. intros H. apply (scan_more d) in H. by rewrite Nat.add_0_r in H. Qed.

(** Characters that are no brackets. *)
Definition plain (c : ascii) : Prop := c <> OPEN /\ c <> CLOSE.
Lemma plain_balanced s : Forall plain s -> balanced s.
Proof.
  unfold balanced. induction 1 as [|c s [H1 H2] _ IH]; [done|]. cbn [scan].
  apply Ascii.eqb_neq in H1, H2. by rewrite H1, H2.
Qed.

Lemma balanced_app a b : balanced a -> balanced b -> balanced (a ++ b).
Proof. unfold balanced. intros Ha Hb. by rewrite scan_app, Ha. Qed.

Lemma scan_closes d : scan d (repeat CLOSE d) = Some 0%nat.
Proof. by induction d. Qed.

(** Closing the brackets of a text that closes none too many balances it. *)
Lemma close_brackets_balanced text : is_Some (scan 0 text) -> balanced (close_brackets text).
Proof.
  intros [d Hd]. pose proof (scan_count _ _ _ Hd) as Hc. unfold close_brackets.
  destruct (Nat.ltb_spec (count_chr CLOSE text) (count_chr OPEN text)).
  - unfold balanced. rewrite scan_app, Hd. cbn.
    replace (count_chr OPEN text - count_chr CLOSE text)%nat with d by lia. apply scan_closes.
  - unfold balanced. rewrite Hd. f_equal. lia.
Qed.

Lemma scan_prefix d a b : is_Some (scan d (a ++ b)) -> is_Some (scan d a).
Proof. rewrite scan_app. destruct (scan d a); [by eauto|]. by intros [? [=]]. Qed.

Lemma scan_step d a b e : scan d a = Some e -> scan d (a ++ b) = scan e b.
Proof. intros H. by rewrite scan_app, H. Qed.

(** Read a concatenation of literals and balanced texts. *)
Ltac scan_text :=
  repeat first
    [ erewrite scan_step; [|first [apply balanced_scan; assumption | vm_compute; reflexivity]]
    | vm_compute; reflexivity ].

Lemma make_property_balanced name antecedent consequent :
  Forall plain name -> is_Some (scan 0 antecedent) -> balanced consequent ->
  balanced (make_property name antecedent consequent).
Proof.
  intros Hn%plain_balanced Ha%close_brackets_balanced Hc. unfold balanced, make_property.
  cbv zeta. scan_text.
Qed.

Lemma make_sequence_balanced name sequence check_cover :
  Forall plain name -> is_Some (scan 0 sequence) -> balanced (make_sequence name sequence check_cover).
Proof.
  intros Hn%plain_balanced Ha%close_brackets_balanced. unfold balanced, make_sequence. cbv zeta.
  destruct check_cover; rewrite <-?app_assoc; scan_text.
Qed.

(** ** The divider loop *)

Lemma word_plain c : is_word c = true -> plain c.
Proof. intros H. split; intros ->; discriminate H. Qed.
Lemma words_plain s : Forall (fun c => is_word c = true) s -> Forall plain s.
Proof. intros H. eapply Forall_impl; [exact H|]. apply word_plain. Qed.

Lemma last_name_word t : Forall (fun c => is_word c = true) (last_name (Some INSTR_WB) t).
Proof.
  unfold last_name. destruct (re_search INSTR_WB t) as [m|] eqn:E; [|by repeat constructor].
  apply search_from_of in E.
  destruct (grp_obeys INSTR_WB m 1 (GRule 1 is_word 1) E eq_refl eq_refl) as [H _]. exact H.
Qed.

(** A match of the dividers stands before one of them. *)
Lemma divider_match dividers text m :
  dividers <> [] -> m ∈ finditer (divider_re dividers) text ->
  exists d, d ∈ dividers /\ starts_with d (drop (m_start m) text) = true /\
            text = take (m_start m) text ++ drop (m_start m) text.
Proof.
  intros Hne Hm. pose proof (finditer_subject _ _ _ Hm) as Hs. apply finditer_of in Hm as (s & Hm & Es).
  apply matches_ralt in Hm as (r & Hr & Hm); [|by destruct dividers].
  apply list_elem_of_fmap in Hr as (d & -> & Hd). apply matches_lit in Hm. cbn in Hm.
  exists d. split_and!; [done| |by rewrite take_drop]. unfold subject in Hs. unfold m_start.
  rewrite <-Hs, <-length_reverse, drop_app_length. apply starts_with_spec. eauto.
Qed.

(** What the loop yields: each item cuts the text at a divider. *)
Definition cut_at (dividers : list str) (text : str) (l : line_item) : Prop :=
  exists k d, d ∈ dividers /\ starts_with d (drop k text) = true /\
              l_until l = rstrip is_space (take k text).

Lemma divider_loop_in mll text i e ms l :
  l ∈ divider_loop mll text i e ms ->
  exists m j e', m ∈ ms /\ l = divider_item mll text j e' m.
Proof.
  revert i e; induction ms as [|m ms IH]; intros i e; cbn [divider_loop]; [by intros H%not_elem_of_nil|].
  intros [H|H]%elem_of_app.
  - destruct (l_last _); [by apply not_elem_of_nil in H|].
    apply list_elem_of_singleton in H as ->. do 3 eexists. split; [by left|done].
  - apply IH in H as (m' & j & e' & Hm & ->). do 3 eexists. split; [by right|done].
Qed.

Lemma iter_lines_in text dividers mll l :
  dividers <> [] -> l ∈ (iter_lines text dividers mll false).1 -> cut_at dividers text l.
Proof.
  intros Hne H. apply divider_loop_in in H as (m & j & e & Hm & ->).
  destruct (divider_match _ _ _ Hne Hm) as (d & Hd & Hs & _). by exists (m_start m), d.
Qed.

Lemma iter_lines_last text dividers yield_last l :
  l ∈ (iter_lines text dividers (Some INSTR_WB) yield_last).1 ->
  Forall (fun c => is_word c = true) (l_last l) /\ exists t, text = l_until l ++ t.
Proof.
  assert (forall k, exists t, text = rstrip is_space (take k text) ++ t) as Hp.
  { intros k. destruct (rstrip_prefix is_space (take k text)) as [t Ht].
    exists (t ++ drop k text). by rewrite app_assoc, <-Ht, take_drop. }
  assert (forall i e ms, l ∈ divider_loop (Some INSTR_WB) text i e ms ->
    Forall (fun c => is_word c = true) (l_last l) /\ exists t, text = l_until l ++ t) as Hl.
  { intros i e ms (m & j & e' & _ & ->)%divider_loop_in. split; [apply last_name_word|apply Hp]. }
  unfold iter_lines. destruct yield_last; [|apply Hl].
  destruct (loop_i _) as [i|]; cbn [fst]; [|apply Hl].
  intros [H|H%list_elem_of_singleton]%elem_of_app; [by eapply Hl|subst l; cbn].
  split; [apply last_name_word|apply rstrip_prefix].
Qed.

(** The indices grow. *)
Lemma divider_loop_index mll text i e ms :
  NoDup (l_index <$> divider_loop mll text i e ms) /\
  Forall (fun l => i <= l_index l < i + length ms)%nat (divider_loop mll text i e ms).
Proof.
  revert i e; induction ms as [|m ms IH]; intros i e; cbn [divider_loop]; [by split; constructor|].
  destruct (IH (S i) (m_end m)) as [Hn Hf].
  assert (Forall (fun l => i <= l_index l < i + length (m :: ms))%nat
            (divider_loop mll text (S i) (m_end m) ms)) as Hf'.
  { eapply Forall_impl; [exact Hf|]. cbn. intros x Hx. lia. }
  destruct (l_last _); [by split|]. cbn [app fmap list_fmap]. split.
  - constructor; [|done]. intros (x & Ex & Hx)%list_elem_of_fmap.
    rewrite Forall_forall in Hf. apply Hf in Hx. cbn in Ex. lia.
  - constructor; [cbn; lia|done].
Qed.

Lemma iter_lines_index text dividers mll yield_last :
  NoDup (l_index <$> (iter_lines text dividers mll yield_last).1).
Proof.
  unfold iter_lines. generalize (finditer (divider_re dividers) text). intros ms.
  destruct (divider_loop_index mll text 0 0 ms) as [Hn Hf]. destruct yield_last; [|done].
  unfold loop_i. destruct ms as [|m ms'] eqn:E; [done|]. rewrite <-E in *. cbn [fst].
  rewrite fmap_app. apply NoDup_app. split_and!; [done| |apply NoDup_singleton].
  intros j (l & -> & Hl)%list_elem_of_fmap Hj. cbn in Hj. apply list_elem_of_singleton in Hj.
  rewrite Forall_forall in Hf. apply Hf in Hl. subst ms. cbn in Hl, Hj. lia.
Qed.

(** ** The names of the generated properties *)

Lemma parse_property_text_name text name antecedent consequent :
  parse_property_text text = Ok (name, antecedent, consequent) ->
  Forall (fun c => is_word c = true) name.
Proof.
  unfold parse_property_text. destruct (re_search PROPERTY_RE text) as [m|] eqn:E; [|done].
  apply search_from_of in E.
  destruct (grp_obeys PROPERTY_RE m 1 (GRule 1 is_word 1) E eq_refl eq_refl) as [Hw _]. cbn in Hw.
  destruct (re_search (lit "endproperty") _) as [e|]; [|done]. intros H. res_inv.
  destruct a as [a c]. injection H as <- <- <-.
  case_match; [by apply Forall_take|done].
Qed.

Lemma index_str_inj i j : index_str i = index_str j -> i = j.
Proof. unfold index_str. intros H%str_of_Z_inj; lia. Qed.
Lemma index_str_digits i : Forall (fun c => is_digit c = true) (index_str i).
Proof.
  unfold index_str, str_of_Z. rewrite (proj2 (Z.ltb_ge _ 0)) by lia. apply digits10_digit. lia.
Qed.
Lemma index_str_no_sep i : "_"%char ∉ index_str i.
Proof.
  intros H. pose proof (index_str_digits i) as Hd. rewrite Forall_forall in Hd.
  by apply Hd in H.
Qed.

(** The index can be read off the name. *)
Lemma prop_name_index name l l' : prop_name name l = prop_name name l' -> l_index l = l_index l'.
Proof.
  unfold prop_name. intros H%app_inv_head. cbn in H. injection H as H.
  apply (f_equal (split1 "_"%char)) in H.
  rewrite !split1_app in H by apply index_str_no_sep. injection H as H _.
  apply index_str_inj in H. lia.
Qed.

Lemma indexed_plain name i last :
  Forall (fun c => is_word c = true) name -> Forall (fun c => is_word c = true) last ->
  Forall plain (name ++ "_" ++ index_str i ++ "_" ++ last).
Proof.
  intros Hn Hl. pose proof (index_str_digits i) as Hd.
  repeat (apply Forall_app; split); try (by apply words_plain); try (by repeat constructor).
  eapply Forall_impl; [exact Hd|]. intros c Hc. apply word_plain. revert c Hc. all_chars.
Qed.

Lemma intermediate_in name consequent b lines p :
  p ∈ lines ≫= intermediate name consequent b <->
  exists l, l ∈ lines /\ l_until l <> [] /\
    p = (let t := make_property (prop_name name l) (l_until l) consequent in
         if b then Named (prop_name name l) t else Text t).
Proof.
  rewrite list_elem_of_bind. unfold intermediate. split.
  - intros (l & Hp & Hl). exists l. destruct (l_until l); [by apply not_elem_of_nil in Hp|].
    apply list_elem_of_singleton in Hp. done.
  - intros (l & Hl & Hne & ->). exists l. split; [|done]. destruct (l_until l); [done|].
    by apply list_elem_of_singleton.
Qed.

(** ** Properties *)

(** C40 Every property [generate_intermediate_props] yields has balanced
    brackets, and its antecedent is the given one up to a divider, brackets
    closed: provided the given antecedent closes no bracket it did not open, and
    the consequent is balanced. *)
Theorem intermediates_wellformed text dividers names name antecedent consequent p :
  parse_property_text text = Ok (name, antecedent, consequent) ->
  dividers <> [] -> is_Some (scan 0 antecedent) -> balanced consequent ->
  p ∈ (generate_intermediate_props text dividers names false).1 ->
  balanced (item_text p) /\
  exists l k d, d ∈ dividers /\ starts_with d (drop k antecedent) = true /\
    item_text p = make_property (prop_name name l) (rstrip is_space (take k antecedent)) consequent.
Proof.
  intros Hp Hne Ha Hc Hin. unfold generate_intermediate_props in Hin. rewrite Hp in Hin. cbn [fst] in Hin.
  apply intermediate_in in Hin as (l & Hl & _ & ->).
  destruct (iter_lines_last _ _ _ _ Hl) as [Hw [t Ht]].
  destruct (iter_lines_in _ _ _ _ Hne Hl) as (k & d & Hd & Hs & Hu).
  assert (balanced (make_property (prop_name name l) (l_until l) consequent)) as Hb.
  { apply make_property_balanced; [|by rewrite Ht in Ha; apply scan_prefix in Ha|done].
    apply indexed_plain; [by eapply parse_property_text_name|done]. }
  rewrite Hu in Hb |- *. destruct names; (split; [exact Hb|by exists l, k, d]).
Qed.

(** The names of the properties a run yields are pairwise distinct, and
    with them the names [write_intermediates] combines. *)
Theorem prop_names_distinct text dividers yield_last :
  NoDup ((generate_intermediate_props text dividers true yield_last).1 ≫= item_prop).
Proof.
  unfold generate_intermediate_props.
  destruct (parse_property_text text) as [[[name a] c]|]; [|apply NoDup_nil_2].
  cbn [fst]. pose proof (iter_lines_index a dividers (Some INSTR_WB) yield_last) as Hn.
  induction (iter_lines a dividers (Some INSTR_WB) yield_last).1 as [|l lines IH]; [apply NoDup_nil_2|].
  cbn [fmap list_fmap] in Hn. apply NoDup_cons in Hn as [Hl Hn]. apply IH in Hn.
  cbn [mbind list_bind]. rewrite bind_app. apply NoDup_app. split_and!; [| |exact Hn].
  - unfold intermediate. destruct (l_until l); [apply NoDup_nil_2|apply NoDup_singleton].
  - intros n (q & Hq & Hi)%list_elem_of_bind (q' & Hq' & Hi')%list_elem_of_bind.
    apply intermediate_in in Hi' as (l' & Hl' & _ & ->). cbn in Hq'.
    unfold intermediate in Hi. destruct (l_until l); [by apply not_elem_of_nil in Hi|].
    apply list_elem_of_singleton in Hi as ->. cbn in Hq. apply list_elem_of_singleton in Hq as ->.
    apply list_elem_of_singleton, app_inv_tail, prop_name_index in Hq'.
    apply Hl. rewrite Hq'. apply list_elem_of_fmap. eauto.
Qed.

(** ** A generated property parses back *)

Lemma close_brackets_ext text : exists n, close_brackets text = text ++ repeat CLOSE n.
Proof.
  unfold close_brackets. case_match; [by eexists|]. exists 0%nat. by rewrite app_nil_r.
Qed.

Lemma contains_closes needle s n :
  CLOSE ∉ needle -> needle <> [] -> contains needle s = false ->
  contains needle (s ++ repeat CLOSE n) = false.
Proof.
  intros Hc Hne. revert s. induction n as [|n IH]; intros s Hs; cbn [repeat]; [by rewrite app_nil_r|].
  change (CLOSE :: repeat CLOSE n) with ([CLOSE] ++ repeat CLOSE n). rewrite app_assoc. apply IH.
  apply contains_sep; [done..|]. by destruct needle.
Qed.

(** The texts of a property that [parse_property_text] can take apart. *)
Record parseable (name antecedent consequent : str) : Prop := {
  p_name : name <> [] /\ Forall (fun c => is_word c = true) name;
  p_ant : match antecedent with [] => False | c :: _ => is_space c = false end;
  p_ant_arrow : contains "|->" antecedent = false;
  p_ant_end : contains "endproperty" antecedent = false;
  p_cons : stripped consequent;
  p_cons_last : exists s c, consequent = s ++ [c] /\ c <> ";"%char;
  p_cons_end : contains "endproperty" consequent = false }.

Definition body (antecedent consequent : str) : str :=
  antecedent ++ " " ++ [newline; "009"%char] ++ "|-> " ++ consequent.

Lemma stripped_app a b :
  match a with [] => False | c :: _ => is_space c = false end ->
  match reverse b with [] => False | c :: _ => is_space c = false end -> stripped (a ++ b).
Proof.
  intros Ha Hb. split; [by destruct a|]. rewrite reverse_app. by destruct (reverse b).
Qed.
Lemma strip_stripped s : stripped s -> strip s = s.
Proof. intros [H1 H2]. by apply strip_id. Qed.

Lemma body_ends ant cons s c :
  match ant with [] => False | c :: _ => is_space c = false end ->
  cons = s ++ [c] -> is_space c = false -> stripped (body ant cons).
Proof.
  intros Ha -> Hc. unfold body. apply stripped_app; [done|].
  rewrite !app_assoc. by rewrite reverse_app.
Qed.

(** Cutting the outer brackets. *)
Lemma parse_property_body_spec ant cons s c :
  match ant with [] => False | c :: _ => is_space c = false end ->
  contains "|->" ant = false -> stripped cons -> cons = s ++ [c] -> c <> ";"%char ->
  parse_property_body (OPEN :: body ant cons ++ ");") =
    Ok (ant ++ " " ++ [newline; "009"%char], cons).
Proof.
  intros Ha Harr Hst Hs Hc.
  assert (is_space c = false) as Hsp by (destruct Hst as [_ H]; by rewrite Hs, reverse_app in H).
  pose proof (body_ends _ _ _ _ Ha Hs Hsp) as Hb.
  assert (stripped (body ant cons ++ ");")) as Hb1.
  { destruct ant; [done|]. by apply (stripped_app (body _ _)). }
  unfold parse_property_body.
  assert ((if starts_with "((" (OPEN :: body ant cons ++ ");")
           then drop 1 (OPEN :: body ant cons ++ ");")
           else strip (lstrip (Ascii.eqb OPEN) (OPEN :: body ant cons ++ ");")))
          = body ant cons ++ ");") as ->.
  { destruct ant as [|a ant]; [done|]. set (t := body (a :: ant) cons ++ ");") in *.
    assert (exists t', t = a :: t') as [t' Et] by (by eexists). rewrite Et in *.
    assert (starts_with "((" (OPEN :: a :: t') = Ascii.eqb OPEN a) as ->.
    { change (Ascii.eqb OPEN OPEN && (Ascii.eqb OPEN a && true) = Ascii.eqb OPEN a).
      by rewrite andb_true_r. }
    unfold lstrip. cbn [drop_while drop]. rewrite Ascii.eqb_refl.
    destruct (Ascii.eqb OPEN a); [done|by apply strip_stripped]. }
  assert ((if ends_with "));" (body ant cons ++ ");")
           then strip (take (length (body ant cons ++ ");") - 2) (body ant cons ++ ");"))
           else strip (rstrip (chr_in ");") (body ant cons ++ ");"))) = body ant cons) as ->.
  { destruct (ends_with "));" _) eqn:E.
    - rewrite length_app, Nat.add_sub, take_app_length. by apply strip_stripped.
    - rewrite rstrip_app by (repeat constructor).
      assert (c <> CLOSE) as Hc'.
      { intros ->. rewrite Hs in E. unfold body, ends_with in E. rewrite !app_assoc, !reverse_app in E.
        discriminate E. }
      assert (body ant cons = (ant ++ " " ++ [newline; "009"%char] ++ "|-> " ++ s) ++ [c]) as ->.
      { unfold body. rewrite Hs. by rewrite <-!app_assoc. }
      rewrite rstrip_last; [|].
      + rewrite <-!app_assoc, <-Hs. by apply strip_stripped.
      + unfold chr_in. apply bool_decide_eq_false. cbn. rewrite !elem_of_cons, elem_of_nil.
        intros [H|[H|[]]]; [by apply Hc'|by apply Hc]. }
  assert (find_str "|->" (body ant cons) = Some (length ant + 3)%nat) as ->.
  { unfold body. replace (ant ++ " " ++ [newline; "009"%char] ++ "|-> " ++ cons)
      with ((ant ++ " " ++ [newline; "009"%char]) ++ "|->" ++ " " ++ cons)
      by (by rewrite <-!app_assoc).
    rewrite find_str_first; [by rewrite length_app|]. rewrite <-app_assoc.
    apply contains_sep; [by apply not_in_str|done|done|reflexivity]. }
  unfold body. f_equal. f_equal.
  - replace (ant ++ " " ++ [newline; "009"%char] ++ "|-> " ++ cons)
      with ((ant ++ " " ++ [newline; "009"%char]) ++ "|-> " ++ cons)
      by (by rewrite <-!app_assoc).
    apply take_app_length'. by rewrite length_app.
  - replace (drop _ _) with (" " ++ cons).
    + rewrite <-(app_nil_r cons) at 1. apply strip_core; [by repeat constructor|by constructor|done].
    + rewrite drop_app_ge by lia. replace (_ - _)%nat with 6%nat by lia. done.
Qed.

(** Associate a concatenation to the right. *)
Ltac flatten := repeat progress (rewrite <-?app_assoc; cbn [app]).

Lemma search_property w rest :
  w <> [] -> Forall (fun c => is_word c = true) w ->
  exists m, re_search PROPERTY_RE ([newline] ++ "property " ++ w ++ ";" ++ rest) = Some m /\
    grp m 1 = w /\ drop (m_end m) ([newline] ++ "property " ++ w ++ ";" ++ rest) = rest.
Proof.
  intros Hne Hw. set (x := Cur (";"%char :: reverse w ++ reverse ([newline] ++ "property ")) rest [(1%nat, w)]).
  assert (match_at PROPERTY_RE [newline] ("property " ++ w ++ ";" ++ rest)
          = Some (RMatch [newline] x ("property " ++ w ++ ";" ++ rest))) as Hm.
  { unfold match_at. assert (rm PROPERTY_RE (Cur [newline] ("property " ++ w ++ ";" ++ rest) []) Some = Some x) as ->;
      [|done].
    change ("property " ++ w ++ ";" ++ rest) with ("property" ++ " " ++ w ++ ";" ++ rest).
    unfold PROPERTY_RE. apply rm_cat. rewrite rm_lit. apply rm_cat.
    apply rm_run; [by repeat constructor| |by cbn; lia|].
    { apply (stops_app _ is_word); [done|done|]. all_chars. }
    apply rm_cat. apply rm_grp_run; [done|done| |reflexivity].
    destruct w; [done|cbn; lia]. }
  exists (RMatch [newline] x ("property " ++ w ++ ";" ++ rest)). split_and!.
  - unfold re_search. cbn [app search_from]. change (match_at PROPERTY_RE [] _) with (@None rmatch).
    cbn [orelse]. by apply search_from_here.
  - done.
  - replace ([newline] ++ "property " ++ w ++ ";" ++ rest)
      with (([newline] ++ "property " ++ w ++ ";") ++ rest) by (by flatten).
    apply drop_app_length'. unfold m_end, x. cbn [m_cur bef].
    rewrite length_cons, !length_app, !length_reverse. cbn. lia.
Qed.

(** Parsing a generated property gives back its name, the antecedent with
    its brackets closed (and the white space before the arrow), and the
    consequent. *)
Theorem parse_make_property name antecedent consequent :
  parseable name antecedent consequent ->
  parse_property_text (make_property name antecedent consequent) =
    Ok (name, close_brackets antecedent ++ " " ++ [newline; "009"%char], consequent).
Proof.
  intros [[Hne Hw] Ha Harr Hend Hst (s & c & Hs & Hc) Hcend].
  destruct (close_brackets_ext antecedent) as [n Hn].
  set (ant := close_brackets antecedent) in *.
  assert (match ant with [] => False | c :: _ => is_space c = false end) as Ha'.
  { rewrite Hn. by destruct antecedent. }
  assert (contains "|->" ant = false /\ contains "endproperty" ant = false) as [Harr' Hend'].
  { rewrite Hn. split; apply contains_closes; first [by apply not_in_str | done]. }
  set (prop := OPEN :: body ant consequent ++ ");").
  set (tail := "; " ++ [newline] ++ name ++ ": assert property (" ++ name ++ "_prop);" ++ [newline] ++ "    ").
  assert (make_property name antecedent consequent =
    [newline] ++ "property " ++ (name ++ "_prop") ++ ";" ++
      ((" " ++ [newline; "009"%char]) ++ prop ++ [newline]) ++ "endproperty" ++ tail) as ->.
  { unfold make_property, prop, body, tail. fold ant. cbv zeta. by flatten. }
  destruct (search_property (name ++ "_prop")
    (((" " ++ [newline; "009"%char]) ++ prop ++ [newline]) ++ "endproperty" ++ tail)) as (m & Em & Eg & Ee).
  { by destruct name. }
  { apply Forall_app. split; [done|]. by repeat constructor. }
  unfold parse_property_text. rewrite Em, Eg, Ee.
  unfold re_search. rewrite search_lit, find_str_first.
  2:{ unfold prop, body.
      replace ((_ ++ _ ++ [newline]) ++ _)
        with ((" " ++ [newline; "009"%char]) ++ OPEN :: (ant ++ " "%char ::
               (([newline; "009"%char] ++ "|->") ++ " "%char ::
                (consequent ++ CLOSE :: (";" ++ [newline] ++ "endpropert")))))
        by (by flatten).
      repeat (apply contains_sep; [by apply not_in_str|done| |]); done || reflexivity. }
  cbn [fmap option_fmap option_map]. unfold m_start at 1. cbn [m_pre].
  rewrite app_nil_r, length_reverse, length_take.
  rewrite Nat.min_l by (rewrite !length_app; lia). rewrite take_app_length.
  rewrite strip_core; [|by repeat constructor|by repeat constructor|].
  2:{ by apply (stripped_app (OPEN :: body ant consequent) ");"). }
  unfold prop. rewrite (parse_property_body_spec _ _ s c) by done. cbn [mbind res_bind].
  assert (ends_with "_prop" (name ++ "_prop") = true) as ->.
  { unfold ends_with. by rewrite reverse_app, starts_with_app. }
  rewrite length_app, Nat.add_sub, take_app_length. done.
Qed.


(** ** Branches *)

Lemma finditer_lit_nil d s : finditer (lit d) s = [] <-> contains d s = false.
Proof.
  unfold finditer. cbn [finditer_go]. rewrite search_lit, <-find_str_none.
  by destruct (find_str d s).
Qed.

Lemma last_name_not_nil t : last_name (Some INSTR_WB) t <> [].
Proof.
  unfold last_name. destruct (re_search INSTR_WB t) as [m|] eqn:E; [|done].
  apply search_from_of in E.
  destruct (grp_obeys INSTR_WB m 1 (GRule 1 is_word 1) E eq_refl eq_refl) as [_ H]. cbn in H.
  intros Hn. rewrite Hn in H. cbn in H. lia.
Qed.

(** The loop yields once per divider found. *)
Lemma divider_loop_length text i e ms : length (divider_loop (Some INSTR_WB) text i e ms) = length ms.
Proof.
  revert i e; induction ms as [|m ms IH]; intros i e; [done|]. cbn [divider_loop length].
  rewrite length_app, IH. unfold divider_item at 1. cbn [l_last].
  destruct (last_name _ _) eqn:E; [by apply last_name_not_nil in E|done].
Qed.

Lemma branch_in sig bs cover lines p :
  p ∈ lines ≫= branch sig bs cover ->
  exists l, l ∈ lines /\ p = Text (make_sequence ("branch_" ++ index_str (l_index l + 1) ++ "_" ++ l_last l)
                                     (branch_text sig bs (l_until l)) cover).
Proof.
  intros (l & Hp & Hl)%list_elem_of_bind. exists l. split; [done|]. unfold branch in Hp.
  destruct (l_until l); [by apply not_elem_of_nil in Hp|]. by apply list_elem_of_singleton in Hp.
Qed.

Lemma branch_balanced sig bs cover i last until :
  Forall plain sig -> Forall plain bs -> Forall (fun c => is_word c = true) last ->
  is_Some (scan 0 until) ->
  balanced (make_sequence ("branch_" ++ index_str i ++ "_" ++ last) (branch_text sig bs until) cover).
Proof.
  intros Hs%plain_balanced Hb%plain_balanced Hl [d Hd]. apply make_sequence_balanced.
  - apply (indexed_plain "branch"); [by repeat constructor|done].
  - exists d. unfold branch_text. erewrite scan_step by exact Hd.
    do 2 (erewrite scan_step; [|apply balanced_scan; first [done | reflexivity]]).
    do 4 (erewrite scan_step; [|apply balanced_scan; reflexivity]). by apply balanced_scan.
Qed.

(** Every sequence [generate_branches] yields has balanced brackets; and
    it ends without an exception exactly when the main sequence has a point where
    the branch is not taken (or the success sequence is not asked for). *)
Theorem branches_wellformed main sig bs success cover :
  is_Some (scan 0 main) -> Forall plain sig -> Forall plain bs ->
  let g := generate_branches main sig bs success cover in
  Forall (fun p => balanced (item_text p)) g.1 /\
  (g.2 = Ok tt <-> success = false \/ contains ("&& instr_will_progress && ~" ++ sig) main = true).
Proof.
  intros Hm Hs Hb g. set (d := "&& instr_will_progress && ~" ++ sig) in *.
  set (lines := iter_lines main [d] (Some INSTR_WB) false).
  assert (forall l, l ∈ lines.1 -> Forall (fun c => is_word c = true) (l_last l) /\ is_Some (scan 0 (l_until l))) as Hin.
  { intros l Hl. destruct (iter_lines_last _ _ _ _ Hl) as [Hw [t Ht]]. split; [done|].
    rewrite Ht in Hm. by apply scan_prefix in Hm. }
  assert (Forall (fun p => balanced (item_text p)) (lines.1 ≫= branch sig bs cover)) as Hf.
  { apply Forall_forall. intros p (l & Hl & ->)%branch_in. apply Hin in Hl as [Hw Hu].
    by apply branch_balanced. }
  assert (length lines.1 = length (finditer (lit d) main)) as Hlen by apply divider_loop_length.
  assert (contains d main = true <-> lines.1 <> []) as Hiff.
  { rewrite <-not_false_iff_true, <-finditer_lit_nil. by destruct lines.1, (finditer (lit d) main). }
  rewrite Hiff. unfold g, generate_branches. fold d lines.
  destruct success; [|split; [exact Hf|by split; [left|]]].
  destruct (last lines.1) as [l|] eqn:E; cbn [fst snd].
  - assert (l ∈ lines.1) as Hl by (by apply last_Some_elem_of). split.
    + apply Forall_app. split; [done|]. constructor; [|constructor]. cbn [item_text].
      apply make_sequence_balanced; [|done]. apply (indexed_plain "branch"); by repeat constructor.
    + split; [|done]. intros _. right. intros Hn. by rewrite Hn in E.
  - apply last_None in E. split; [done|]. split; [done|]. by intros [?|?].
Qed.

(** ** Witnesses *)

Lemma intermediates_wellformed_witness :
  let ant : str := "a && (`INSTR_WB(x) && go ##1 b) " in
  let p := Text (make_property "p_1_x" "a && (`INSTR_WB(x)" "(c)") in
  balanced (item_text p) /\
  exists l k d, d ∈ [" && go" : str] /\ starts_with d (drop k ant) = true /\
    item_text p = make_property (prop_name "p" l) (rstrip is_space (take k ant)) "(c)".
Proof.
  apply (intermediates_wellformed
    "property p_prop; (a && (`INSTR_WB(x) && go ##1 b) |-> (c)); endproperty" [" && go" : str] false).
  - vm_compute. reflexivity.
  - done.
  - by eexists.
  - by vm_compute.
  - vm_compute. by left.
Defined.

Lemma parse_make_property_witness :
  parse_property_text (make_property "p_1_x" "a && (`INSTR_WB(x)" "(c)") =
    Ok ("p_1_x" : str, ("a && (`INSTR_WB(x)" : str) ++ ")" ++ " " ++ [newline; "009"%char], "(c)" : str).
Proof.
  apply (parse_make_property "p_1_x" "a && (`INSTR_WB(x)" "(c)"). split; try done.
  - split; [done|]. by repeat constructor.
  - exists "(c", ")"%char. done.
Defined.

Lemma branches_wellformed_witness :
  let g := generate_branches "(`INSTR_WB(x) && instr_will_progress && ~b ##1 y)" "b" "fail" true true in
  Forall (fun p => balanced (item_text p)) g.1 /\ length g.1 = 2%nat /\
  (g.2 = Ok tt <-> true = false \/ contains ("&& instr_will_progress && ~" ++ "b")
     "(`INSTR_WB(x) && instr_will_progress && ~b ##1 y)" = true).
Proof.
  destruct (branches_wellformed "(`INSTR_WB(x) && instr_will_progress && ~b ##1 y)" "b" "fail" true true) as [H1 H2].
  - by eexists.
  - by repeat constructor.
  - by repeat constructor.
  - split; [exact H1|]. split; [reflexivity|exact H2].
Defined.
