(* ===== verification/Sv2v.v ===== *)
(** * In-place conversion by sv2v (util/sv2v_in_place.py)

    The script converts each [.sv] file of a list into a temporary directory,
    copies the results over the originals when every conversion succeeded, and
    then empties the [.svh] files.  The sv2v tool, the regular-expression
    compiler and the permission to open a file for writing are parameters.

    The theorems: what the files hold after a successful run, that nothing has
    changed after a failed conversion, and the errors of [--define-if]. *)

From S2P Require Import Prelude PyStr PyIO IbexConfig.
From Stdlib Require Import Ascii.

Section Sv2v.

(** ** What the script calls *)

Context {pattern : Type}.
(** [re.compile]: a pattern, or the message of [re.error]. *)
Context (compile : str -> pattern + str).
(** [regex.search(path)] is not [None]. *)
Context (search : pattern -> str -> bool).
(** [subprocess.run(cmd)]: the exit code and the standard output, or an
    exception when the program cannot be started. *)
Context (run : list str -> fsys -> res (Z * str)).
(** [open(path, 'w')] succeeds. *)
Context (writable : str -> bool).
(** The name [tempfile.TemporaryDirectory] chose. *)
Context (tmpdir : str).

(** ** Effects *)

(** [open(path, 'w')] and writing the text. *)
Definition write_file (path text : str) : io unit := fun fs =>
  if writable path then (Ok tt, <[path := text]> fs) else (raise OSError, fs).

(** Running the tool with its output sent to a file that was opened before. *)
Definition run_to (cmd : list str) (dst_path : str) : io Z :=
  _ ← write_file dst_path [];
  (fun fs => match run cmd fs with
             | Ok (code, text) => (Ok code, <[dst_path := text]> fs)
             | Raise c msg => (Raise c msg, fs)
             end) : io Z.

(** [shutil.copy(src, dst)] *)
Definition copy (src dst : str) : io unit := fun fs =>
  match fs !! src with
  | Some text => write_file dst text fs
  | None => (raise FileNotFoundError, fs)
  end.

Definition in_tmp (path : str) : bool := starts_with (tmpdir ++ "/") path.

(** [with tempfile.TemporaryDirectory()]: what is below the directory goes when
    the block ends, in whichever way. *)
Definition with_tmpdir {A} (m : io A) : io A := fun fs =>
  let (r, fs') := m fs in (r, filter (fun kv => in_tmp kv.1 = false) fs').

(** ** The script *)

Definition read_file_list (path : str) : io (list str) :=
  text ← read_text path; mret (strip <$> lines_keep text).

Definition sv2v_cmd (sv2v : str) (defines incdirs pkg_paths : list str) (sv_path : str) : list str :=
  let defines_args := (fun d => "--define=" ++ d) <$> defines in
  let incdirs_args := (fun d => "--incdir=" ++ d) <$> incdirs in
  let paths := pkg_paths ++ (if bool_decide (sv_path ∈ pkg_paths) then [] else [sv_path]) in
  [sv2v; "--exclude=assert" : str] ++ defines_args ++ incdirs_args ++ paths.

Definition transform_one (sv2v : str) (defines incdirs pkg_paths : list str) (sv_path dst_path : str)
  : io unit :=
  let cmd := sv2v_cmd sv2v defines incdirs pkg_paths sv_path in
  code ← run_to cmd dst_path;
  if (code =? 0)%Z then mret tt
  else io_lift (Raise RuntimeError ("Failed to run sv2v on " ++ sv_path ++ ". Exit code: " ++ str_of_Z code ++
                                    ". Full command: " ++ join " " (shlex_quote <$> cmd))).

Definition parse_define_if (arg : str) : res (pattern * str) :=
  match rsplit1 ":"%char arg with
  | None => Raise ArgumentTypeError ("The --define-if argument " ++ py_repr arg ++
              " contains no colon. The correct syntax is " ++ [DQ] ++ "--define-if regex:define" ++ [DQ] ++ ".")
  | Some (re_str, define) =>
      match compile re_str with
      | inl re => Ok (re, define)
      | inr err => Raise ArgumentTypeError ("The regex for the --define-if argument (" ++ py_repr re_str ++
                     ") is malformed: " ++ err ++ ".")
      end
  end.

Definition dst_of (idx : nat) : str := path_join tmpdir (str_of_Z (Z.of_nat idx)).

Definition extra_file_defines (defines_if : list (pattern * str)) (src_path : str) : list str :=
  omap (fun rd => if search rd.1 src_path then Some rd.2 else None) defines_if.

Definition transform (sv2v : str) (defines : list str) (defines_if : list (pattern * str))
    (incdirs pkg_paths sv_paths : list str) : io unit :=
  with_tmpdir
    (let indexed := imap (fun idx src_path => (idx, src_path)) sv_paths in
     _ ← io_iter (fun '(idx, src_path) =>
           transform_one sv2v (defines ++ extra_file_defines defines_if src_path) incdirs pkg_paths
             src_path (dst_of idx)) indexed;
     io_iter (fun '(idx, src_path) => copy (dst_of idx) src_path) indexed).

(** The command line, [--define-if] already parsed. *)
Record args := Args {
  file_list : str; a_defines : list str; a_defines_if : list (pattern * str);
  a_incdirs : list str; incdir_list : option str; a_sv2v : str }.

Definition is_sv (path : str) : bool := bool_decide (path_ext path = (".sv" : str)).
Definition is_svh (path : str) : bool := bool_decide (path_ext path = (".svh" : str)).
Definition is_pkg (path : str) : bool := ends_with "pkg.sv" path.

Definition sel (p : str -> bool) (paths : list str) : list str := filter (fun x => p x = true) paths.

(** [main]. *)
Definition sv2v_main (a : args) : io Z :=
  read ← io_try is_oserror (read_file_list (file_list a));
  match read with
  | None => mret 1%Z
  | Some paths =>
      read ← match incdir_list a with
             | None => mret (Some [])
             | Some l => io_try is_oserror (read_file_list l)
             end;
      match read with
      | None => mret 1%Z
      | Some dirs =>
          done ← io_try is_runtime
                   (transform (a_sv2v a) (a_defines a) (a_defines_if a) (a_incdirs a ++ dirs)
                      (sel is_pkg paths) (sel is_sv paths));
          match done with
          | None => mret 1%Z
          | Some _ => _ ← io_iter (fun path => write_file path []) (sel is_svh paths); mret 0%Z
          end
      end
  end.
(** ** What the conversion relies on *)

(** The temporary directory has a proper name, and the tool reads nothing
    below it. *)
Definition proper_dir : Prop := tmpdir <> [] /\ ends_with "/" tmpdir = false.
Definition same_outside (fs fs' : fsys) : Prop := forall p, in_tmp p = false -> fs !! p = fs' !! p.
Definition reads_outside : Prop := forall cmd fs fs', same_outside fs fs' -> run cmd fs = run cmd fs'.
(** No file is below it beforehand: it is a new directory. *)
Definition fresh_dir (fs : fsys) : Prop := forall p, in_tmp p = true -> fs !! p = None.

#[export] Instance same_outside_equiv : Equivalence same_outside.
Proof.
  split; [by intros fs p|by intros fs fs' H p Hp; rewrite H|].
  intros fs1 fs2 fs3 H1 H2 p Hp. by rewrite H1, H2.
Qed.

Lemma same_outside_insert fs fs' p t : in_tmp p = true -> same_outside fs fs' -> same_outside fs (<[p := t]> fs').
Proof.
  intros Hp H q Hq. rewrite file_insert_ne by (intros ->; congruence). by apply H.
Qed.

Lemma leave_tmpdir_lookup (fs : fsys) p :
  in_tmp p = false -> filter (fun kv => in_tmp kv.1 = false) fs !! p = fs !! p.
Proof.
  intros E. destruct (fs !! p) as [t|] eqn:Et.
  - by apply map_lookup_filter_Some.
  - apply map_lookup_filter_None. by left.
Qed.

(** Leaving the directory undoes what happened inside it. *)
Lemma leave_tmpdir fs fs' :
  fresh_dir fs -> same_outside fs fs' -> filter (fun kv => in_tmp kv.1 = false) fs' = fs.
Proof.
  intros Hf Hs. apply map_eq. intros p. destruct (in_tmp p) eqn:E.
  - etrans; [|symmetry; by apply Hf]. apply map_lookup_filter_None. right. intros t _. cbn. congruence.
  - etrans; [by apply leave_tmpdir_lookup|]. symmetry. by apply Hs.
Qed.

Lemma dst_in_tmp idx : proper_dir -> dst_of idx = tmpdir ++ "/" ++ str_of_Z (Z.of_nat idx) /\ in_tmp (dst_of idx) = true.
Proof.
  intros [Hne He]. assert (dst_of idx = tmpdir ++ "/" ++ str_of_Z (Z.of_nat idx)) as Hd.
  { unfold dst_of, path_join. rewrite He. destruct tmpdir; [done|].
    destruct (starts_with "/" (str_of_Z _)) eqn:E; [exfalso|done].
    apply starts_with_spec in E as [t E]. unfold str_of_Z in E.
    rewrite (proj2 (Z.ltb_ge _ 0)) in E by lia. pose proof (digits10_digit (Z.of_nat idx) ltac:(lia)) as H.
    rewrite E in H. by inversion H. }
  split; [done|]. unfold in_tmp. rewrite Hd, app_assoc. apply starts_with_app.
Qed.

Lemma dst_inj i j : proper_dir -> dst_of i = dst_of j -> i = j.
Proof.
  intros Hp. destruct (dst_in_tmp i Hp) as [-> _], (dst_in_tmp j Hp) as [-> _].
  intros H. do 2 apply app_inv_head in H. apply str_of_Z_inj in H; lia.
Qed.

(** ** The two phases of [transform] *)

Section Transform.
Context (sv2v : str) (defines : list str) (defines_if : list (pattern * str)).
Context (incdirs pkg_paths : list str) (fs0 : fsys).
Hypothesis Hdir : proper_dir.
Hypothesis Hreads : reads_outside.
Hypothesis Hfresh : fresh_dir fs0.

(** What the tool makes of one file of the tree the script started from. *)
Definition converted (src : str) : res str :=
  '(code, text) ← run (sv2v_cmd sv2v (defines ++ extra_file_defines defines_if src) incdirs pkg_paths src) fs0;
  if (code =? 0)%Z then Ok text else raise RuntimeError.

Definition one (x : nat * str) : io unit :=
  transform_one sv2v (defines ++ extra_file_defines defines_if x.2) incdirs pkg_paths x.2 (dst_of x.1).
Definition back (x : nat * str) : io unit := copy (dst_of x.1) x.2.

(** One conversion changes its destination only, and leaves there what the
    tool makes of the file. *)
Lemma one_step x fs r fs' :
  same_outside fs0 fs -> one x fs = (r, fs') ->
  same_outside fs0 fs' /\ (forall p, p <> dst_of x.1 -> fs' !! p = fs !! p) /\
  (r = Ok tt -> exists t, converted x.2 = Ok t /\ fs' !! dst_of x.1 = Some t).
Proof.
  intros Hs. destruct (dst_in_tmp x.1 Hdir) as [_ Hin]. unfold one, transform_one, run_to, write_file.
  unfold mbind, io_bind at 1 2. destruct (writable (dst_of x.1)); [|by intros [= <- <-]].
  set (cmd := sv2v_cmd _ _ _ _ _).
  assert (run cmd (<[dst_of x.1 := []]> fs) = run cmd fs0) as Hr.
  { apply Hreads. symmetry. by apply same_outside_insert. }
  rewrite Hr. unfold converted. fold cmd. destruct (run cmd fs0) as [[code text]|c m]; cbn [mbind res_bind].
  - assert (same_outside fs0 (<[dst_of x.1 := text]> (<[dst_of x.1 := []]> fs))) as Hs'.
    { apply same_outside_insert; [exact Hin|]. by apply same_outside_insert. }
    assert (forall p, p <> dst_of x.1 ->
      <[dst_of x.1 := text]> (<[dst_of x.1 := []]> fs) !! p = fs !! p) as Hp.
    { intros p Hp. by rewrite !file_insert_ne. }
    destruct (code =? 0)%Z; intros [= <- <-]; (split_and!; [done|done|]).
    + intros _. exists text. split; [done|apply file_insert].
    + intros [=].
  - intros [= <- <-]. split_and!; [by apply same_outside_insert| |done].
    intros p Hp. by rewrite file_insert_ne.
Qed.

Definition indexed (sv_paths : list str) : list (nat * str) := imap (fun i p => (i, p)) sv_paths.

Lemma indexed_in i p sv_paths : (i, p) ∈ indexed sv_paths <-> sv_paths !! i = Some p.
Proof.
  unfold indexed. rewrite elem_of_lookup_imap. split.
  - intros (j & y & [= -> ->] & H). exact H.
  - intros H. by exists i, p.
Qed.

Definition converted_at (fs : fsys) (x : nat * str) : Prop :=
  exists t, converted x.2 = Ok t /\ fs !! dst_of x.1 = Some t.

Lemma phase1 sv_paths fs :
  io_iter one (indexed sv_paths) fs0 = (Ok tt, fs) ->
  same_outside fs0 fs /\ forall x, x ∈ indexed sv_paths -> converted_at fs x.
Proof.
  apply (io_iter_ok one (same_outside fs0) (fun x fs => converted_at fs x)); [|done].
  intros x f f' Hx Hs E. destruct (one_step _ _ _ _ Hs E) as (Hs' & Hp & Hc).
  split_and!; [done|by apply Hc|]. intros y Hy (t & Ht & Hy').
  destruct (decide (x.1 = y.1)) as [Exy|Exy].
  - destruct x as [i a], y as [j b]. cbn in *. subst j.
    apply indexed_in in Hx, Hy. assert (a = b) as <- by congruence. by apply Hc.
  - exists t. rewrite Hp; [done|]. intros H. by apply dst_inj in H.
Qed.

Lemma phase1_fail sv_paths fs r :
  io_iter one (indexed sv_paths) fs0 = (r, fs) -> same_outside fs0 fs.
Proof.
  apply (io_iter_inv one (same_outside fs0)); [|done].
  intros x f r' f' _ Hs E. by destruct (one_step _ _ _ _ Hs E).
Qed.

(** Copying back changes the sources only, to what they were converted to. *)
Lemma phase2 sv_paths fs1 fs :
  Forall (fun p => in_tmp p = false) sv_paths -> same_outside fs0 fs1 ->
  (forall x, x ∈ indexed sv_paths -> converted_at fs1 x) ->
  io_iter back (indexed sv_paths) fs1 = (Ok tt, fs) ->
  (forall p, p ∈ sv_paths -> exists t, converted p = Ok t /\ fs !! p = Some t) /\
  (forall p, p ∉ sv_paths -> fs !! p = fs1 !! p).
Proof.
  intros Htmp Hs Hc H. rewrite Forall_forall in Htmp.
  destruct (io_iter_ok back (fun f => forall p, p ∉ sv_paths -> f !! p = fs1 !! p)
    (fun x f => exists t, converted x.2 = Ok t /\ f !! x.2 = Some t) (indexed sv_paths) fs1 fs)
    as [HI HQ]; [|done|exact H|].
  - intros [i a] f f' Hx HI E. unfold back, copy in E. cbn [fst snd] in *.
    destruct (Hc _ Hx) as (t & Ht & Hd). cbn in Ht, Hd. apply indexed_in in Hx.
    assert (a ∈ sv_paths) as Ha by (by apply list_elem_of_lookup_2 in Hx).
    rewrite HI, Hd in E.
    2:{ intros Hin. apply Htmp in Hin. destruct (dst_in_tmp i Hdir). congruence. }
    unfold write_file in E. destruct (writable a); [|done]. injection E as <-. split_and!.
    + intros p Hp. rewrite file_insert_ne by (by intros ->). by apply HI.
    + exists t. split; [done|apply file_insert].
    + intros [j b] _ (u & Hu & Hb). cbn in *. exists u. split; [done|].
      destruct (decide (a = b)) as [->|]; [|by rewrite file_insert_ne].
      rewrite file_insert. congruence.
  - split; [|exact HI]. intros p Hp. apply list_elem_of_lookup in Hp as [i Hi].
    apply (HQ (i, p)). by apply indexed_in.
Qed.

(** Copying back fails on a failed write only. *)
Lemma phase2_raise sv_paths fs1 c m fs :
  Forall (fun p => in_tmp p = false) sv_paths ->
  (forall x, x ∈ indexed sv_paths -> converted_at fs1 x) ->
  io_iter back (indexed sv_paths) fs1 = (Raise c m, fs) -> c = OSError.
Proof.
  intros Htmp Hc. rewrite Forall_forall in Htmp.
  apply (io_iter_raise back (fun f => forall x, x ∈ indexed sv_paths -> is_Some (f !! dst_of x.1))
           (fun c => c = OSError)).
  - intros [i a] f r f' Hx HI. unfold back, copy. cbn [fst snd].
    destruct (HI _ Hx) as [t Ht]. cbn in Ht. rewrite Ht. unfold write_file.
    destruct (writable a); intros [= <- <-]; [|done]. intros y Hy.
    rewrite file_insert_ne; [by apply HI|]. apply indexed_in, list_elem_of_lookup_2, Htmp in Hx.
    destruct (dst_in_tmp y.1 Hdir). intros ->. congruence.
  - intros x Hx. destruct (Hc x Hx) as (t & _ & Ht). by exists t.
Qed.

Lemma transform_unfold sv_paths :
  transform sv2v defines defines_if incdirs pkg_paths sv_paths fs0 =
  match io_iter one (indexed sv_paths) fs0 with
  | (Ok _, fs1) => with_tmpdir (io_iter back (indexed sv_paths)) fs1
  | (Raise c m, fs1) => (Raise c m, filter (fun kv => in_tmp kv.1 = false) fs1)
  end.
Proof.
  unfold transform, with_tmpdir. unfold mbind, io_bind.
  change (imap _ sv_paths) with (indexed sv_paths).
  rewrite (io_iter_ext _ one) by (by intros []).
  destruct (io_iter one (indexed sv_paths) fs0) as [[[]|c m] fs1]; [|done].
  by rewrite (io_iter_ext _ back) by (by intros []).
Qed.

Lemma phase_progress sv_paths fs1 :
  Forall (fun p => in_tmp p = false /\ writable p = true) sv_paths ->
  (forall x, x ∈ indexed sv_paths -> converted_at fs1 x) ->
  exists fs, io_iter back (indexed sv_paths) fs1 = (Ok tt, fs).
Proof.
  intros Hw Hc. rewrite Forall_forall in Hw.
  destruct (io_iter_progress back (fun f => forall x, x ∈ indexed sv_paths -> is_Some (f !! dst_of x.1))
    (indexed sv_paths) fs1) as (fs & E & _); [| |by exists fs].
  - intros [i a] f Hx HI. unfold back, copy. cbn [fst snd].
    destruct (HI _ Hx) as [t Ht]. cbn in Ht. rewrite Ht. unfold write_file.
    apply indexed_in, list_elem_of_lookup_2, Hw in Hx as [Ha ->]. eexists. split; [done|].
    intros y Hy. rewrite file_insert_ne; [by apply HI|].
    destruct (dst_in_tmp y.1 Hdir). intros ->. congruence.
  - intros x Hx. destruct (Hc x Hx) as (t & _ & Ht). by exists t.
Qed.

(** If the tool converts every file and all files can be written, the
    conversion succeeds. *)
Lemma transform_progress sv_paths :
  Forall (fun p => in_tmp p = false /\ writable p = true) sv_paths ->
  (forall i, writable (dst_of i) = true) ->
  (forall p, p ∈ sv_paths -> is_ok (converted p) = true) ->
  exists fs, transform sv2v defines defines_if incdirs pkg_paths sv_paths fs0 = (Ok tt, fs).
Proof.
  intros Hw Hdst Hc. rewrite transform_unfold.
  destruct (io_iter_progress one (same_outside fs0) (indexed sv_paths) fs0) as (fs1 & E1 & _); [|done|].
  - intros [i a] f Hx Hs. destruct (one (i, a) f) as [r f'] eqn:E. exists f'.
    destruct (one_step _ _ _ _ Hs E) as (Hs' & _ & _). split; [|done]. f_equal.
    apply indexed_in, list_elem_of_lookup_2, Hc in Hx. unfold converted in Hx.
    unfold one, transform_one, run_to, write_file, mbind, io_bind in E. cbn [fst snd] in E.
    rewrite Hdst in E. set (cmd := sv2v_cmd _ _ _ _ _) in *.
    assert (run cmd (<[dst_of i := []]> f) = run cmd fs0) as Hr.
    { apply Hreads. symmetry. apply same_outside_insert; [apply dst_in_tmp, Hdir|done]. }
    rewrite Hr in E. destruct (run cmd fs0) as [[code text]|c m]; cbn in Hx; [|done].
    destruct (code =? 0)%Z; [by injection E|done].
  - rewrite E1. apply phase1 in E1 as [_ Hcv].
    destruct (phase_progress _ _ Hw Hcv) as [fs E2]. unfold with_tmpdir. rewrite E2. by eexists.
Qed.

Lemma transform_ok sv_paths fs :
  Forall (fun p => in_tmp p = false) sv_paths ->
  transform sv2v defines defines_if incdirs pkg_paths sv_paths fs0 = (Ok tt, fs) ->
  (forall p, p ∈ sv_paths -> exists t, converted p = Ok t /\ fs !! p = Some t) /\
  (forall p, p ∉ sv_paths -> fs !! p = fs0 !! p).
Proof.
  intros Htmp. rewrite transform_unfold.
  destruct (io_iter one (indexed sv_paths) fs0) as [[[]|c m] fs1] eqn:E1; [|done].
  unfold with_tmpdir. destruct (io_iter back (indexed sv_paths) fs1) as [r fs2] eqn:E2.
  intros [= -> <-]. apply phase1 in E1 as [Hs Hc].
  destruct (phase2 _ _ _ Htmp Hs Hc E2) as [H1 H2]. split.
  - intros p Hp. destruct (H1 p Hp) as (t & Ht & Hl). exists t. split; [done|].
    rewrite Forall_forall in Htmp. etrans; [|exact Hl]. apply leave_tmpdir_lookup. by apply Htmp.
  - intros p Hp. destruct (in_tmp p) eqn:E.
    + etrans; [|symmetry; by apply Hfresh]. apply map_lookup_filter_None. right. intros t _. cbn. congruence.
    + etrans; [by apply leave_tmpdir_lookup|]. etrans; [by apply H2|]. symmetry. by apply Hs.
Qed.

(** A conversion that raises, other than by a failed write, changes nothing. *)
Lemma transform_fail sv_paths c m fs :
  Forall (fun p => in_tmp p = false) sv_paths ->
  transform sv2v defines defines_if incdirs pkg_paths sv_paths fs0 = (Raise c m, fs) ->
  c <> OSError -> fs = fs0.
Proof.
  intros Htmp H Hc. rewrite transform_unfold in H.
  destruct (io_iter one (indexed sv_paths) fs0) as [[[]|c1 m1] fs1] eqn:E1.
  - exfalso. unfold with_tmpdir in H.
    destruct (io_iter back (indexed sv_paths) fs1) as [r fs2] eqn:E2. injection H as -> _.
    apply phase1 in E1 as [_ Hcv]. by apply phase2_raise in E2.
  - injection H as _ _ <-. apply phase1_fail in E1. by apply leave_tmpdir.
Qed.
End Transform.

(** ** Properties of [main] *)

Definition sv_converted (a : args) (dirs paths : list str) (fs : fsys) (src : str) : res str :=
  converted (a_sv2v a) (a_defines a) (a_defines_if a) (a_incdirs a ++ dirs) (sel is_pkg paths) fs src.

Lemma read_file_list_state path fs : (read_file_list path fs).2 = fs.
Proof. unfold read_file_list, mbind, io_bind, read_text. by destruct (fs !! path). Qed.

(** The lists a run works on. *)
Definition lists (a : args) (fs : fsys) : res (list str * list str) :=
  paths ← (read_file_list (file_list a) fs).1;
  dirs ← match incdir_list a with None => Ok [] | Some l => (read_file_list l fs).1 end;
  Ok (paths, dirs).

Lemma sv2v_main_lists a fs :
  sv2v_main a fs =
  match lists a fs with
  | Raise c m => (if is_oserror c then Ok 1%Z else Raise c m, fs)
  | Ok (paths, dirs) =>
      (done ← io_try is_runtime
         (transform (a_sv2v a) (a_defines a) (a_defines_if a) (a_incdirs a ++ dirs)
            (sel is_pkg paths) (sel is_sv paths));
       match done with
       | None => mret 1%Z
       | Some _ => _ ← io_iter (fun path => write_file path []) (sel is_svh paths); mret 0%Z
       end) fs
  end.
Proof.
  unfold sv2v_main, lists. unfold mbind at 1, io_bind at 1, io_try at 1.
  pose proof (read_file_list_state (file_list a) fs) as H1.
  destruct (read_file_list (file_list a) fs) as [r fs1]. cbn in H1. subst fs1. cbn [fst].
  destruct r as [paths|c m]; [|by cbn; destruct (is_oserror c)].
  cbn [mbind res_bind]. destruct (incdir_list a) as [l|]; [|done].
  unfold mbind at 1, io_bind at 1, io_try at 1.
  pose proof (read_file_list_state l fs) as H2.
  destruct (read_file_list l fs) as [r fs1]. cbn in H2. subst fs1. cbn [fst].
  destruct r as [dirs|c m]; [done|by cbn; destruct (is_oserror c)].
Qed.

Lemma sel_in p paths x : x ∈ sel p paths <-> p x = true /\ x ∈ paths.
Proof. unfold sel. by rewrite list_elem_of_filter. Qed.
Lemma sel_sub (P : str -> Prop) p paths : Forall P paths -> Forall P (sel p paths).
Proof. rewrite !Forall_forall. intros H x [_ Hx]%sel_in. by apply H. Qed.
Lemma sv_not_svh x : is_sv x = true -> is_svh x = true -> False.
Proof. unfold is_sv, is_svh. rewrite !bool_decide_eq_true. intros -> [=]. Qed.

(** Emptying the [.svh] files. *)
Lemma empty_ok svhs fs fs' :
  io_iter (fun path => write_file path []) svhs fs = (Ok tt, fs') ->
  (forall p, p ∈ svhs -> fs' !! p = Some []) /\ (forall p, p ∉ svhs -> fs' !! p = fs !! p).
Proof.
  intros H. destruct (io_iter_ok (fun path => write_file path [])
    (fun f => forall p, p ∉ svhs -> f !! p = fs !! p) (fun p f => f !! p = Some []) svhs fs fs') as [H1 H2];
    [|done|exact H|split; [exact H2|exact H1]].
  intros x f f' Hx HI. unfold write_file. destruct (writable x); [|done]. intros [= <-]. split_and!.
  - intros p Hp. rewrite file_insert_ne; [by apply HI|]. by intros ->.
  - apply file_insert.
  - intros y _ Hy. destruct (decide (x = y)) as [->|]; [apply file_insert|by rewrite file_insert_ne].
Qed.

(** C29 After a successful run every [.sv] file of the list holds what the tool
    makes of it in the tree before the run, every [.svh] file is empty, and no
    other file has changed. *)
Theorem sv2v_main_ok a fs fs' paths dirs :
  proper_dir -> reads_outside -> fresh_dir fs ->
  lists a fs = Ok (paths, dirs) -> Forall (fun p => in_tmp p = false) paths ->
  sv2v_main a fs = (Ok 0%Z, fs') ->
  forall p,
    (is_sv p = true /\ p ∈ paths -> exists t, sv_converted a dirs paths fs p = Ok t /\ fs' !! p = Some t) /\
    (is_svh p = true /\ p ∈ paths -> fs' !! p = Some []) /\
    (p ∉ paths \/ is_sv p = false /\ is_svh p = false -> fs' !! p = fs !! p).
Proof.
  intros Hdir Hreads Hfresh Hl Htmp H p. rewrite sv2v_main_lists, Hl in H.
  apply io_bind_ok in H as (o & fs1 & Ht & H). unfold io_try in Ht.
  destruct (transform _ _ _ _ _ _ fs) as [[[]|c m] fs1'] eqn:E.
  2:{ destruct (is_runtime c); [|done]. by injection Ht as <- <-. }
  injection Ht as <- <-. apply io_bind_ok in H as ([] & fs2 & He & H). injection H as <-.
  apply (transform_ok _ _ _ _ _ _ Hdir Hreads Hfresh) in E as [Hc Hu]; [|by apply sel_sub].
  apply empty_ok in He as [Hsvh Hrest]. rewrite <-!sel_in. split_and!.
  - intros Hp. destruct (Hc p Hp) as (t & Et & Ep). exists t. split; [done|]. rewrite Hrest; [done|].
    intros [Hh _]%sel_in. apply sel_in in Hp as [Hp _]. by eapply sv_not_svh.
  - apply Hsvh.
  - intros Hp. rewrite Hrest, Hu; [done|..]; intros [H1 H2]%sel_in; destruct Hp as [|[Hp1 Hp2]]; congruence || done.
Qed.

(** A run that does not succeed leaves every file as it was, unless opening
    a file for writing failed. *)
Theorem sv2v_main_unchanged a fs r fs' :
  proper_dir -> reads_outside -> fresh_dir fs ->
  (forall paths dirs, lists a fs = Ok (paths, dirs) -> Forall (fun p => in_tmp p = false) paths) ->
  sv2v_main a fs = (r, fs') -> r <> Ok 0%Z -> (forall msg, r <> Raise OSError msg) -> fs' = fs.
Proof.
  intros Hdir Hreads Hfresh Htmp H Hr Ho. rewrite sv2v_main_lists in H.
  destruct (lists a fs) as [[paths dirs]|c m]; [|by injection H].
  specialize (Htmp _ _ eq_refl). unfold mbind at 1, io_bind at 1, io_try at 1 in H.
  destruct (transform _ _ _ _ _ _ fs) as [[[]|c m] fs1] eqn:E.
  - unfold mbind, io_bind in H.
    destruct (io_iter _ _ fs1) as [[[]|c m] fs2] eqn:Ei; [by injection H as <- _|].
    injection H as <- _. apply (io_iter_raise _ (fun _ => True) (fun c => c = OSError)) in Ei as ->;
      [by destruct (Ho m)|..|done].
    intros x f r f' _ _. unfold write_file. destruct (writable x); by intros [= <- <-].
  - assert (c <> OSError) as Hc.
    { intros ->. injection H as <- _. by destruct (Ho m). }
    apply (transform_fail _ _ _ _ _ _ Hdir Hreads Hfresh) in E; [|by apply sel_sub|done].
    destruct (is_runtime c); by injection H as _ <-.
Qed.

(** C38 A run succeeds when its lists can be read, the tool converts every
    [.sv] file and the files can be written. *)
Theorem sv2v_main_succeeds a fs paths dirs :
  proper_dir -> reads_outside -> fresh_dir fs ->
  lists a fs = Ok (paths, dirs) -> Forall (fun p => in_tmp p = false /\ writable p = true) paths ->
  (forall i, writable (dst_of i) = true) ->
  (forall p, p ∈ paths -> is_sv p = true -> is_ok (sv_converted a dirs paths fs p) = true) ->
  exists fs', sv2v_main a fs = (Ok 0%Z, fs').
Proof.
  intros Hdir Hreads Hfresh Hl Hw Hdst Hc. rewrite sv2v_main_lists, Hl.
  destruct (transform_progress (a_sv2v a) (a_defines a) (a_defines_if a) (a_incdirs a ++ dirs) (sel is_pkg paths)
              fs Hdir Hreads (sel is_sv paths)) as [fs1 E].
  - by apply sel_sub.
  - done.
  - intros p [H1 H2]%sel_in. by apply Hc.
  - unfold mbind at 1, io_bind at 1, io_try at 1. rewrite E.
    destruct (io_iter_progress (fun path => write_file path []) (fun _ => True) (sel is_svh paths) fs1)
      as (fs2 & E2 & _); [|done|].
    + intros p f [_ Hp]%sel_in _. rewrite Forall_forall in Hw. apply Hw in Hp as [_ Hp].
      unfold write_file. rewrite Hp. by eexists.
    + unfold mbind, io_bind. rewrite E2. by exists fs2.
Qed.

(** [parse_define_if] splits at the last colon; an argument without one or
    with a malformed expression is rejected. *)
Theorem parse_define_if_spec arg re define :
  parse_define_if arg = Ok (re, define) <->
  exists re_str, arg = (re_str ++ ":" ++ define) /\ (":"%char ∉ define) /\ compile re_str = inl re.
Proof.
  unfold parse_define_if. split.
  - destruct (rsplit1 ":"%char arg) as [[r d]|] eqn:E; [|done].
    destruct (compile r) as [re'|err] eqn:Ec; [|done]. intros [= -> ->].
    exists r. apply rsplit1_some in E as [-> Hd]. done.
  - intros (r & -> & Hd & Hc). cbn [app]. change (r ++ ":" ++ define) with (r ++ ":"%char :: define).
    by rewrite rsplit1_app, Hc.
Qed.
End Sv2v.

(** ** A concrete run *)

(** A tool that copies its last argument behind a mark, and fails on a file
    that is not there. *)
Definition demo_tool (cmd : list str) (fs : fsys) : res (Z * str) :=
  match last cmd with
  | None => Ok (2%Z, [])
  | Some p => if starts_with "/tmp/x/" p then Ok (1%Z, [])
              else match fs !! p with Some t => Ok (0%Z, "v:" ++ t) | None => Ok (1%Z, []) end
  end.
Definition demo_fs : fsys :=
  <[("l" : str) := ("a_pkg.sv" ++ [newline] ++ "b.sv" ++ [newline] ++ "c.svh" : str)]>
  (<[("a_pkg.sv" : str) := ("A" : str)]> (<[("b.sv" : str) := ("B" : str)]> (<[("c.svh" : str) := ("C" : str)]> ∅))).
Definition demo_args (l : str) : args (pattern := str) := Args l [] [] [] None "sv2v".

Lemma demo_reads : reads_outside demo_tool "/tmp/x".
Proof.
  intros cmd fs fs' H. unfold demo_tool. destruct (last cmd) as [p|]; [|done].
  destruct (starts_with "/tmp/x/" p) eqn:E; [done|]. by rewrite (H p E).
Qed.
Lemma demo_dir : proper_dir "/tmp/x".
Proof. done. Qed.

Lemma file_insert_fresh tmp (fs : fsys) p t :
  in_tmp tmp p = false -> fresh_dir tmp fs -> fresh_dir tmp (<[p := t]> fs).
Proof. intros Hp H q Hq. rewrite file_insert_ne by (intros ->; congruence). by apply H. Qed.
Lemma demo_fresh : fresh_dir "/tmp/x" demo_fs.
Proof. repeat (apply file_insert_fresh; [reflexivity|]). by intros p _. Qed.

Definition demo_converted (paths : list str) (p : str) : res str :=
  sv_converted (fun (re path : str) => contains re path) demo_tool (demo_args "l") [] paths demo_fs p.

Definition demo_main (l : str) (fs : fsys) : res Z * fsys :=
  sv2v_main (fun (re path : str) => contains re path) demo_tool (fun _ => true) "/tmp/x" (demo_args l) fs.

Lemma sv2v_main_succeeds_witness : exists fs', demo_main "l" demo_fs = (Ok 0%Z, fs').
Proof.
  apply (sv2v_main_succeeds (fun (re path : str) => contains re path) demo_tool (fun _ => true) "/tmp/x"
    (demo_args "l") demo_fs ["a_pkg.sv" : str; "b.sv" : str; "c.svh" : str] []).
  - exact demo_dir.
  - exact demo_reads.
  - exact demo_fresh.
  - vm_compute. reflexivity.
  - by repeat constructor.
  - done.
  - intros p. rewrite !elem_of_cons, elem_of_nil.
    intros [->|[->|[->|[]]]] H; vm_compute in H |- *; done.
Defined.

Lemma sv2v_main_ok_witness :
  let fs' := (demo_main "l" demo_fs).2 in
  (exists t, demo_converted ["a_pkg.sv" : str; "b.sv" : str; "c.svh" : str] "b.sv" = Ok t /\
     fs' !! ("b.sv" : str) = Some t) /\ fs' !! ("c.svh" : str) = Some [] /\ fs' !! ("l" : str) = demo_fs !! ("l" : str).
Proof.
  intros fs'. assert (demo_main "l" demo_fs = (Ok 0%Z, fs')) as E.
  { apply injective_projections; [vm_compute; reflexivity|reflexivity]. }
  clearbody fs'. unfold demo_converted.
  pose proof (sv2v_main_ok (fun (re path : str) => contains re path) demo_tool (fun _ => true) "/tmp/x"
    (demo_args "l") demo_fs _ ["a_pkg.sv" : str; "b.sv" : str; "c.svh" : str] []
    demo_dir demo_reads demo_fresh ltac:(vm_compute; reflexivity) ltac:(by repeat constructor) E) as H.
  split_and!.
  - destruct (H "b.sv") as (Hc & _ & _). apply Hc. split; [reflexivity|]. by right; left.
  - destruct (H "c.svh") as (_ & Hc & _). apply Hc. split; [reflexivity|]. by right; right; left.
  - destruct (H "l") as (_ & _ & Hc). apply Hc. right. split; reflexivity.
Defined.

Lemma sv2v_main_unchanged_witness :
  let fs := <[("m" : str) := ("b.sv" ++ [newline] ++ "d.sv" : str)]> demo_fs in
  (demo_main "m" fs).2 = fs /\ is_ok (demo_main "m" fs).1 = true.
Proof.
  intros fs. split; [|vm_compute; reflexivity].
  assert (exists r, (demo_main "m" fs).1 = r /\ r = Ok 1%Z) as (r & Er & E1).
  { eexists. split; [reflexivity|]. vm_compute. reflexivity. }
  apply (sv2v_main_unchanged (fun (re path : str) => contains re path) demo_tool (fun _ => true) "/tmp/x"
    (demo_args "m") fs r).
  - exact demo_dir.
  - exact demo_reads.
  - apply file_insert_fresh; [reflexivity|exact demo_fresh].
  - intros paths dirs. assert (lists (demo_args "m") fs = Ok (["b.sv" : str; "d.sv" : str], [])) as ->
      by (vm_compute; reflexivity).
    intros [= <- <-]. by repeat constructor.
  - rewrite <-Er. apply surjective_pairing.
  - by rewrite E1.
  - by rewrite E1.
Defined.
