(* ===== verification/SynFlow.v ===== *)
(** * Synthesis reports (syn/python)

    The helpers of the synthesis flow: translating the generated cell names in
    timing reports ([flow_utils.py], [build_translated_names.py],
    [translate_timing_csv.py]) and the area in gate equivalents ([get_kge.py]).
    Yosys is a parameter, as is the order in which a set of names is iterated.

    The theorems: the names file that Yosys writes maps each cell to its name,
    a translated report cannot be translated again, what is read from a library
    file, and the weight of the reference cell. *)

From S2P Require Import Prelude PyStr PyRe PyIO PyFloat TraceCsv.
From Stdlib Require Import Ascii.

(** ** flow_utils.py *)

Definition ys_translate_script_filename : str := "translate_names.ys".
Definition ys_translated_names : str := "ys_translated_names".
Definition ys_tcl : str := "./tcl/yosys_post_synth.tcl".
Definition under (gen_out name : str) : str := gen_out ++ "/" ++ name.

Definition generated_cell_re : regex :=
  rseq [RGrp 1 (rseq [lit "_"; plus is_word; lit "_"]); lit "/"; RGrp 2 (plus is_word)].

(** The script for the cells, in the order the set is iterated. *)
Definition translate_script (cells : list str) (top_level gen_out : str) : str :=
  "tcl " ++ ys_tcl ++ [newline] ++ "cd " ++ top_level ++ [newline] ++
  mjoin ((fun cell =>
    "select " ++ cell ++ " %x:+[Q]" ++ [newline] ++
    "tee -a " ++ under gen_out ys_translated_names ++ " select -list" ++ [newline]) <$> cells).
Definition create_translate_names_script (cells : list str) (top_level gen_out : str) : io unit :=
  fun fs => (Ok tt, <[under gen_out ys_translate_script_filename := translate_script cells top_level gen_out]> fs).

(** A path of the report: its start and end points and the slack. *)
Definition path_info := list (str * str * float).

(** One of the two points of a row: the cell to translate, and the point. *)
Definition point (cell : str) : option str * str :=
  match re_search generated_cell_re cell with
  | Some m => (Some (grp m 1), grp m 1)
  | None => (None, cell)
  end.

Definition extract_row (acc : gset str * path_info) (line : list str) : res (gset str * path_info) :=
  c0 ← py_nth line 0; let p0 := point c0 in
  c1 ← py_nth line 1; let p1 := point c1 in
  c2 ← py_nth line 2; wns ← float_of c2;
  Ok (acc.1 ∪ list_to_set (option_list p0.1 ++ option_list p1.1), acc.2 ++ [(p0.2, p1.2, wns)]).

Definition extract_path_info (timing_csv : str) (fs : fsys) : res (gset str * path_info) :=
  text ← or_raise FileNotFoundError (fs !! timing_csv);
  rows ← csv_rows text;
  res_fold extract_row (∅, []) rows.

(** [line[:-1].split('/', 1)[1]] *)
Definition after_slash (line : str) : res str :=
  or_raise IndexError (split1 "/"%char (take (length line - 1) line)).2.

Fixpoint names_dict (d : gmap str str) (lines : list str) : res (gmap str str) :=
  match lines with
  | [] => Ok d
  | [a] => _ ← after_slash a; raise IndexError
  | a :: b :: lines' =>
      translated_name ← after_slash a; cell_name ← after_slash b;
      names_dict (<[cell_name := translated_name]> d) lines'
  end.
Definition build_translated_names_dict (translated_names_file : str) (fs : fsys) : res (gmap str str) :=
  text ← or_raise FileNotFoundError (fs !! translated_names_file);
  names_dict ∅ (lines_keep (universal_newlines text)).

Definition translate_point (d : gmap str str) (p : str) : str := default p (d !! p).
Definition translate_path_info (info : path_info) (translated_names_file : str) (fs : fsys) : res path_info :=
  d ← build_translated_names_dict translated_names_file fs;
  Ok ((fun p => (translate_point d p.1.1, translate_point d p.1.2, p.2)) <$> info).

(** ** translate_timing_csv.py *)

(** [str(x)] of a float. *)
Definition float_str (x : float) : str := default [] (float_repr x).

Definition report_header : str := "Start Point, End Point, WNS (ns)".
Definition report_text (info : path_info) : str :=
  report_header ++ [newline] ++
  mjoin ((fun p => p.1.1 ++ "," ++ p.1.2 ++ "," ++ float_str p.2 ++ [newline]) <$> info).

(** The report is read under the parsed name and written under [out], the first
    argument of the command line. *)
Definition translate_timing_to (rpt_file gen_out out : str) : io unit := fun fs =>
  match ('(_, info) ← extract_path_info rpt_file fs;
         translate_path_info info (under gen_out ys_translated_names) fs) with
  | Ok info => (Ok tt, <[out := report_text info]> fs)
  | Raise c m => (Raise c m, fs)
  end.
Definition translate_timing_csv (rpt_file gen_out : str) : io unit := translate_timing_to rpt_file gen_out rpt_file.

(** ** build_translated_names.py *)

Section Yosys.
(** The order in which Python iterates a set, and running Yosys, whose exit code
    is not looked at. *)
Context (order : gset str -> list str) (yosys : list str -> fsys -> fsys).

Definition collect_cells (rpts : list str) (fs : fsys) : res (gset str) :=
  res_fold (fun cells rpt => '(new_cells, _) ← extract_path_info rpt fs; Ok (cells ∪ new_cells)) ∅ rpts.

Definition build_translated_names (top_level gen_out : str) (rpts : list str) : io unit := fun fs =>
  match collect_cells rpts fs with
  | Raise c m => (Raise c m, fs)
  | Ok cells =>
      (_ ← create_translate_names_script (order cells) top_level gen_out;
       (fun fs' => (Ok tt, yosys ["yosys" : str; "-s" : str; under gen_out ys_translate_script_filename] fs')) : io unit) fs
  end.
End Yosys.

(** ** get_kge.py *)

(** The state of the loop over the library: the areas so far, and the cell
    whose area is still to come. *)
Record lib_state := LibState { cell_dict : gmap str float; cell_name : option str }.

Definition at_line (path : str) (line_idx : nat) (msg : str) : res lib_state :=
  Raise RuntimeError (path ++ ":" ++ str_of_Z (Z.of_nat (line_idx + 1)) ++ " " ++ msg).

Definition cell_prefix : str := "  cell (".
Definition area_prefix : str := ["009"%char] ++ "area".

(** [line.split()[i].strip(chars)] *)
Definition word_strip (i : nat) (chars line : str) : res str :=
  w ← py_nth (words line) i; Ok (strip_chars (chr_in chars) w).

Definition lib_line (path : str) (st : lib_state) (line_idx : nat) (line : str) : res lib_state :=
  if starts_with cell_prefix line then
    match cell_name st with
    | Some _ => at_line path line_idx "Found cell while searching for area"
    | None => name ← word_strip 1 "()" line; Ok (LibState (cell_dict st) (Some name))
    end
  else if starts_with area_prefix line then
    match cell_name st with
    | None => at_line path line_idx "Found area while searching for cell"
    | Some name =>
        match (cell_area ← word_strip 2 ";" line; float_of cell_area) with
        | Ok area => Ok (LibState (<[name := area]> (cell_dict st)) None)
        | Raise _ _ => at_line path line_idx "Area declaration misformatted"
        end
    end
  else Ok st.

Fixpoint lib_lines (path : str) (st : lib_state) (line_idx : nat) (lines : list str) : res lib_state :=
  match lines with
  | [] => Ok st
  | l :: lines' => st' ← lib_line path st line_idx l; lib_lines path st' (S line_idx) lines'
  end.

Definition read_lib (lib_file_path ref_cell : str) (fs : fsys) : res (gmap str float) :=
  text ← or_raise FileNotFoundError (fs !! lib_file_path);
  st ← lib_lines lib_file_path (LibState ∅ None) 0 (lines_keep (universal_newlines text));
  match cell_dict st !! ref_cell with
  | None => Raise RuntimeError ("Specified reference cell: " ++ ref_cell ++
                                " was not found in library: " ++ lib_file_path)
  | Some (S754_zero _) => raise ZeroDivisionError
  | Some ref => Ok ((fun area => SFdiv area ref) <$> cell_dict st)
  end.

Definition kge_line (path : str) (weighted : gmap str float) (ge : float) (line_idx : nat) (line : str) : res float :=
  match words line with
  | [] => Ok ge
  | name :: data =>
      match weighted !! name with
      | None => Ok ge
      | Some weight =>
          match (d ← py_nth data 0; float_of d) with
          | Ok n => Ok (SFadd ge (SFmul n weight))
          | Raise _ _ => Raise RuntimeError (path ++ ":" ++ str_of_Z (Z.of_nat (line_idx + 1)) ++ " Cell " ++
                           name ++ " matched but was misformatted")
          end
      end
  end.
Fixpoint kge_lines (path : str) (weighted : gmap str float) (ge : float) (line_idx : nat) (lines : list str) : res float :=
  match lines with
  | [] => Ok ge
  | l :: lines' => ge' ← kge_line path weighted ge line_idx l; kge_lines path weighted ge' (S line_idx) lines'
  end.

(** What the script prints. *)
Definition get_kge (report_path : str) (weighted : gmap str float) (fs : fsys) : res str :=
  text ← or_raise FileNotFoundError (fs !! report_path);
  ge ← kge_lines report_path weighted (S754_zero false) 0 (lines_keep (universal_newlines text));
  kge ← py_div ge (double_of 1000);
  Ok ("Area in kGE =  " ++ float_str (py_round kge 2) ++ [newline]).

Definition kge_main (lib_file_path report_path cell : str) (fs : fsys) : res str :=
  weighted ← read_lib lib_file_path cell fs;
  get_kge report_path weighted fs.

(** ** The names file *)

Lemma drop_newline (l : str) : take (length (l ++ [newline]) - 1) (l ++ [newline]) = l.
Proof. rewrite length_app, Nat.add_sub. by rewrite take_app_length. Qed.

Lemma after_slash_line top x :
  "/"%char ∉ top -> after_slash ((top ++ "/" ++ x) ++ [newline]) = Ok x.
Proof.
  intros H. unfold after_slash. rewrite drop_newline. cbn [app].
  change (top ++ "/" ++ x) with (top ++ "/"%char :: x). by rewrite split1_app.
Qed.

(** The lines Yosys lists for the pairs of a name and a cell. *)
Definition names_lines (top : str) (entries : list (str * str)) : list str :=
  entries ≫= fun e => [top ++ "/" ++ e.1; top ++ "/" ++ e.2].

Lemma names_dict_lines top entries d :
  "/"%char ∉ top ->
  names_dict d ((fun l => l ++ [newline]) <$> names_lines top entries) =
    Ok (foldl (fun d e => <[e.2 := e.1]> d) d entries).
Proof.
  intros Ht. revert d; induction entries as [|[t c] entries IH]; intros d; [done|].
  unfold names_lines. cbn [mbind list_bind app fmap list_fmap names_dict fst snd].
  rewrite !after_slash_line by done. cbn [mbind res_bind]. apply IH.
Qed.

Lemma names_lookup (entries : list (str * str)) (d : gmap str str) (p : str) :
  NoDup entries.*2 ->
  (forall t, (t, p) ∈ entries -> foldl (fun d e => <[e.2 := e.1]> d) d entries !! p = Some t) /\
  (p ∉ entries.*2 -> foldl (fun d e => <[e.2 := e.1]> d) d entries !! p = d !! p).
Proof.
  revert d; induction entries as [|[t c] entries IH]; intros d; cbn [fmap list_fmap snd foldl fst].
  - split; [by intros t []%not_elem_of_nil|done].
  - intros [Hc Hn]%NoDup_cons. destruct (IH (<[c := t]> d) Hn) as [H1 H2]. split.
    + intros t' [[= -> ->]|Hin]%elem_of_cons; [|by apply H1].
      rewrite H2 by done. apply lookup_insert_eq.
    + rewrite not_elem_of_cons. intros [Hp Hq]. rewrite H2 by done. by apply lookup_insert_ne.
Qed.

(** A point after translation: the name listed with the cell, or the point. *)
Definition renamed (entries : list (str * str)) (p p' : str) : Prop :=
  (p', p) ∈ entries \/ ((p ∉ entries.*2) /\ p' = p).

(** With the names file Yosys writes, every cell of a path is replaced by
    the name listed with it and everything else is kept. *)
Theorem translate_path_info_spec (fs : fsys) (file top : str) (entries : list (str * str)) (info : path_info) :
  "/"%char ∉ top -> Forall clean_line (names_lines top entries) -> NoDup entries.*2 ->
  fs !! file = Some (text_of (names_lines top entries)) ->
  exists info', translate_path_info info file fs = Ok info' /\
    Forall2 (fun p p' => renamed entries p.1.1 p'.1.1 /\ renamed entries p.1.2 p'.1.2 /\ p'.2 = p.2) info info'.
Proof.
  intros Ht Hc Hn Hf. unfold translate_path_info, build_translated_names_dict. rewrite Hf. cbn [or_raise mbind res_bind].
  rewrite readlines_text, names_dict_lines by done. cbn [mbind res_bind].
  set (d := foldl _ _ entries). eexists. split; [reflexivity|].
  assert (forall p, renamed entries p (translate_point d p)) as Hr.
  { intros p. unfold translate_point. destruct (names_lookup entries ∅ p Hn) as [H1 H2]. fold d in H1, H2.
    destruct (decide (p ∈ entries.*2)) as [Hin|Hin].
    - apply list_elem_of_fmap in Hin as ([t c] & -> & He). left. cbn in *. by rewrite (H1 t He).
    - right. by rewrite (H2 Hin). }
  apply Forall2_fmap_r, Forall_Forall2_diag, Forall_true. intros [[a b] w]. cbn. auto.
Qed.

(** ** A translated report *)

Lemma report_rows rest :
  exists rows, csv_rows (report_header ++ newline :: rest)
    = Ok (["Start Point" : str; " End Point" : str; " WNS (ns)" : str] :: rows).
Proof.
  unfold csv_rows.
  assert (forall a s, CR ∉ a -> universal_newlines (a ++ newline :: s) = a ++ newline :: universal_newlines s) as Hu.
  { induction a as [|c a IH]; intros s; [done|]. intros [Hc Ha]%not_elem_of_cons. cbn [app universal_newlines].
    rewrite (proj2 (Ascii.eqb_neq c CR)) by done. by rewrite IH. }
  rewrite Hu by (by apply not_in_str). rewrite lines_keep_line by (by apply not_in_str).
  destruct (read_records_total (lines_keep (universal_newlines rest)) fresh_reader) as [rows Er];
    [apply lines_good, universal_no_cr|done|].
  exists rows. cbn [read_records]. unfold process_line.
  assert (exists r, (r' ← res_fold process_char fresh_reader (report_header ++ [newline]); Ok (process_eol r')) = Ok r /\
    c_state r = StartRecord /\ c_fields r = ["Start Point" : str; " End Point" : str; " WNS (ns)" : str])
    as (r & -> & Hs & Hf) by (eexists; split_and!; vm_compute; reflexivity).
  cbn [mbind res_bind]. rewrite Hs, Er, Hf. done.
Qed.

Lemma header_row_fails acc rows :
  res_fold extract_row acc (["Start Point" : str; " End Point" : str; " WNS (ns)" : str] :: rows) = raise ValueError.
Proof.
  cbn [res_fold]. unfold extract_row. cbn [py_nth lookup list_lookup or_raise mbind res_bind].
  assert (float_of " WNS (ns)" = raise ValueError) as E by (vm_compute; reflexivity).
  unfold py_nth. cbn [lookup list_lookup or_raise mbind res_bind]. rewrite E. done.
Qed.

Lemma translate_ok (rpt gen_out : str) (fs fs' : fsys) :
  translate_timing_csv rpt gen_out fs = (Ok tt, fs') ->
  exists info, fs' = <[rpt := report_text info]> fs.
Proof.
  unfold translate_timing_csv, translate_timing_to. destruct (mbind _ _) as [info|c m]; [|discriminate].
  intros H. exists info. by injection H.
Qed.

Lemma translate_header (rpt gen_out rest : str) (fs : fsys) :
  fs !! rpt = Some (report_header ++ newline :: rest) ->
  translate_timing_csv rpt gen_out fs = (raise ValueError, fs).
Proof.
  intros Hf. assert (extract_path_info rpt fs = raise ValueError) as E.
  { unfold extract_path_info. rewrite Hf. destruct (report_rows rest) as [rows Er].
    unfold or_raise, mbind, res_bind. rewrite Er. apply header_row_fails. }
  unfold translate_timing_csv, translate_timing_to. by rewrite E.
Qed.

(** A report can be translated once: translating the result again raises a
    [ValueError], on the header the translation wrote, and changes nothing. *)
Theorem translate_twice (rpt gen_out : str) (fs fs' : fsys) :
  translate_timing_csv rpt gen_out fs = (Ok tt, fs') ->
  translate_timing_csv rpt gen_out fs' = (raise ValueError, fs').
Proof.
  intros [info ->]%translate_ok.
  apply (translate_header _ _ (mjoin ((fun p : str * str * float =>
    p.1.1 ++ "," ++ p.1.2 ++ "," ++ float_str p.2 ++ [newline]) <$> info))), file_insert.
Qed.

(** ** The library file *)

(** A line the reader skips, a line that names a cell and a line that gives an
    area. *)
Definition skipped (l : str) : Prop := starts_with cell_prefix l = false /\ starts_with area_prefix l = false.
Definition cell_line (l name : str) : Prop := starts_with cell_prefix l = true /\ word_strip 1 "()" l = Ok name.
Definition area_line (l : str) (area : float) : Prop :=
  starts_with area_prefix l = true /\ (cell_area ← word_strip 2 ";" l; float_of cell_area) = Ok area.

(** The files the reader accepts: cells, each followed by its area before the
    next cell, among skipped lines. *)
Inductive lib_file : list str -> list (str * float) -> Prop :=
| Lib_end : lib_file [] []
| Lib_skip l ls cells : skipped l -> lib_file ls cells -> lib_file (l :: ls) cells
| Lib_cell l ns l' ls name area cells :
    cell_line l name -> Forall skipped ns -> area_line l' area -> lib_file ls cells ->
    lib_file (l :: ns ++ l' :: ls) ((name, area) :: cells).

Definition areas (d : gmap str float) (cells : list (str * float)) : gmap str float :=
  foldl (fun d c => <[c.1 := c.2]> d) d cells.

Lemma prefixes_apart l : starts_with cell_prefix l = true -> starts_with area_prefix l = false.
Proof. destruct l as [|c l]; [done|]. by destruct c as [[][][][][][][][]]. Qed.

Lemma lib_line_skip p st i l : skipped l -> lib_line p st i l = Ok st.
Proof. intros [H1 H2]. unfold lib_line. by rewrite H1, H2. Qed.

Lemma lib_lines_skip p st i ns ls :
  Forall skipped ns -> lib_lines p st i (ns ++ ls) = lib_lines p st (i + length ns) ls.
Proof.
  intros H. revert i; induction H as [|l ns Hl _ IH]; intros i; cbn [app lib_lines length].
  - by rewrite Nat.add_0_r.
  - rewrite lib_line_skip by done. cbn [mbind res_bind]. rewrite IH. f_equal. lia.
Qed.

Lemma lib_file_read p d i ls cells :
  lib_file ls cells -> lib_lines p (LibState d None) i ls = Ok (LibState (areas d cells) None).
Proof.
  intros H. revert d i; induction H as [|l ls cells Hl _ IH|l ns l' ls name area cells [H1 H2] Hn [H3 H4] _ IH];
    intros d i; [done| |].
  - cbn [lib_lines]. rewrite lib_line_skip by done. apply IH.
  - cbn [lib_lines]. unfold lib_line at 1. rewrite H1. cbn [cell_name cell_dict]. rewrite H2. cbn [mbind res_bind].
    rewrite lib_lines_skip by done. cbn [lib_lines]. unfold lib_line at 1.
    assert (starts_with cell_prefix l' = false) as ->.
    { apply not_true_is_false. intros Hc. apply prefixes_apart in Hc. congruence. }
    rewrite H3. cbn [cell_name cell_dict]. rewrite H4. cbn [mbind res_bind]. apply IH.
Qed.

(** The converse, by what the state says is still to come. *)
Lemma lib_read_file p d o i ls d' :
  lib_lines p (LibState d o) i ls = Ok (LibState d' None) ->
  match o with
  | None => exists cells, lib_file ls cells /\ d' = areas d cells
  | Some name => exists ns l' ls' area cells, ls = ns ++ l' :: ls' /\ Forall skipped ns /\
      area_line l' area /\ lib_file ls' cells /\ d' = areas (<[name := area]> d) cells
  end.
Proof.
  revert d o i; induction ls as [|l ls IH]; intros d o i; cbn [lib_lines].
  - intros [= -> ->]. exists []. by split; [constructor|].
  - unfold lib_line. cbn [cell_name cell_dict].
    destruct (starts_with cell_prefix l) eqn:E1; [|destruct (starts_with area_prefix l) eqn:E2].
    + destruct o as [name|]; [done|]. destruct (word_strip 1 "()" l) as [name|] eqn:En; [|done]. cbn [mbind res_bind].
      intros H%IH. destruct H as (ns & l' & ls' & area & cells & -> & Hn & Ha & Hf & ->).
      exists ((name, area) :: cells). by split; [constructor|].
    + destruct o as [name|]; [|done]. destruct (cell_area ← word_strip 2 ";" l; float_of cell_area) as [area|] eqn:Ea; [|done]. cbn [mbind res_bind].
      intros (cells & Hf & ->)%IH. exists [], l, ls, area, cells. split_and!; [done|constructor|by split|done|done].
    + cbn [mbind res_bind]. intros H%IH. destruct o as [name|].
      * destruct H as (ns & l' & ls' & area & cells & -> & Hn & Ha & Hf & ->).
        exists (l :: ns), l', ls', area, cells. split_and!; [done|by constructor|done|done|done].
      * destruct H as (cells & Hf & ->). exists cells. split; [by constructor|done].
Qed.

(** The reader accepts exactly the files in which every cell is followed by
    its area, and returns the areas, the last one of a name counting. *)
Theorem lib_lines_spec p i ls d :
  lib_lines p (LibState ∅ None) i ls = Ok (LibState d None) <->
  exists cells, lib_file ls cells /\ d = areas ∅ cells.
Proof.
  split; [by intros H%lib_read_file|]. intros (cells & H & ->). by apply lib_file_read.
Qed.


(** The weight of a cell is its area over the reference cell's; the weight
    of the reference cell itself is exactly one. *)
Theorem read_lib_weights (path ref : str) (fs : fsys) (w : gmap str float) :
  read_lib path ref fs = Ok w ->
  exists (areas : gmap str float) r,
    areas !! ref = Some r /\
    (forall cell, w !! cell = (fun area => SFdiv area r) <$> areas !! cell) /\
    (match r with S754_finite _ _ _ => w !! ref = Some (double_of 1) | _ => True end).
Proof.
  unfold read_lib. destruct (fs !! path) as [text|]; [|done]. cbn [or_raise mbind res_bind].
  destruct (lib_lines _ _ _ _) as [[d o]|]; [|done]. cbn [mbind res_bind cell_dict].
  intros H. assert (exists r, d !! ref = Some r /\ w = (fun area => SFdiv area r) <$> d) as (r & Hr & ->).
  { destruct (d !! ref) as [r|]; [|done]. exists r. split; [done|]. destruct r; try discriminate H; by injection H as <-. }
  assert (forall cell, ((fun area => SFdiv area r) <$> d) !! cell = (fun area => SFdiv area r) <$> d !! cell) as Hl.
  { intros cell. apply lookup_fmap. }
  exists d, r. split_and!; [done|exact Hl|].
  destruct r; try done. etransitivity; [apply Hl|].
  etransitivity; [apply (f_equal (fmap _)), Hr|]. exact (f_equal Some (div_self _ _ _)).
Qed.

(** ** Witnesses *)

Definition demo_entries : list (str * str) :=
  [("core/pc_q" : str, "_123_" : str); ("core/rd" : str, "_7_" : str)].

Lemma translate_path_info_spec_witness :
  let fs : fsys := <[("g/names" : str) := text_of (names_lines "top" demo_entries)]> ∅ in
  let info : path_info := [("_7_" : str, "out" : str, double_of 1)] in
  exists info', translate_path_info info "g/names" fs = Ok info' /\
    Forall2 (fun p p' => renamed demo_entries p.1.1 p'.1.1 /\ renamed demo_entries p.1.2 p'.1.2 /\ p'.2 = p.2) info info'.
Proof.
  intros fs info. apply (translate_path_info_spec fs "g/names" "top" demo_entries info).
  - by apply not_in_str.
  - repeat (apply Forall_cons; split; [split; by apply not_in_str|]). apply Forall_nil_2.
  - apply (bool_decide_unpack _). vm_compute. exact I.
  - apply file_insert.
Defined.

Definition demo_report : fsys :=
  <[("r.csv" : str) := ("_12_/D,out/Q,-0.25" ++ [newline] : str)]>
  (<[("g/ys_translated_names" : str) := text_of ["top/core_q" : str; "top/_12_" : str]]> ∅).

Lemma translate_twice_witness :
  let fs' := (translate_timing_csv "r.csv" "g" demo_report).2 in
  fs' !! ("r.csv" : str) = Some (report_header ++ [newline] ++ "core_q,out/Q,-0.25" ++ [newline]) /\
  translate_timing_csv "r.csv" "g" fs' = (raise ValueError, fs').
Proof.
  intros fs'. split; [vm_compute; reflexivity|].
  apply (translate_twice "r.csv" "g" demo_report).
  apply injective_projections; [vm_compute; reflexivity|reflexivity].
Defined.

Definition TAB : str := ["009"%char].
Definition demo_lib : list str :=
  ["library (x) {" : str; "  cell (NAND2_X1) {" : str; TAB ++ "area : 0.8;"; "  }" : str;
   "  cell (INV_X1) {" : str; TAB ++ "leak : 1;"; TAB ++ "area : 0.4;"].
Definition demo_lib_fs : fsys := <[("lib" : str) := text_of demo_lib]>
  (<[("rep" : str) := text_of ["  NAND2_X1   1500" : str; " Other 7" : str; "INV_X1 2001" : str]]> ∅).

Lemma read_lib_weights_witness :
  exists w, read_lib "lib" "NAND2_X1" demo_lib_fs = Ok w /\
    exists (areas : gmap str float) r,
      areas !! ("NAND2_X1" : str) = Some r /\
      (forall cell, w !! cell = (fun area => SFdiv area r) <$> areas !! cell) /\
      (match r with S754_finite _ _ _ => w !! ("NAND2_X1" : str) = Some (double_of 1) | _ => True end).
Proof.
  assert (is_ok (read_lib "lib" "NAND2_X1" demo_lib_fs) = true) as Hok by (vm_compute; reflexivity).
  destruct (read_lib "lib" "NAND2_X1" demo_lib_fs) as [w|c m] eqn:E; [|discriminate Hok].
  exists w. split; [reflexivity|]. exact (read_lib_weights "lib" "NAND2_X1" demo_lib_fs w E).
Defined.

Example kge_ex : kge_main "lib" "rep" "NAND2_X1" demo_lib_fs = Ok ("Area in kGE =  2.5" ++ [newline] : str).
Proof. by_compute. Qed.
