(* ===== verification/SailScripts.v ===== *)
(** * Post-processing of the generated Sail specification (dv/formal/spec)

    The four scripts that edit the SystemVerilog the Sail compiler wrote:
    [fix_pmp_bug.py] moves a type, [extract_funcs.py] prints functions,
    [cull_funcs.py] removes them, [unreachable_loc_info.py] records where an
    unreachable point was hit.  Function names are plain words, so that a name
    stands for itself in the expression it is put into.

    The theorems: culling removes exactly the text extraction works on, the type
    is moved and not copied, and which of the scripts may be run twice. *)

From S2P Require Import Prelude PyStr PyRe PyIO.
From Stdlib Require Import Ascii.

Definition ibexspec : str := "build/ibexspec.sv".
Definition genlib : str := "build/sail_genlib_ibexspec.sv".

(** Writing a text file. *)
Definition put (path text : str) : io unit := fun fs => (Ok tt, <[path := text]> fs).

(** ** fix_pmp_bug.py *)

Definition pmp_typedef : str := "
typedef struct {
    logic [7:0] bits;
} t_Pmpcfg_ent;
".

Definition fix_pmp_bug : io unit :=
  c ← read_text ibexspec;
  _ ← put ibexspec (replace pmp_typedef [] c);
  c ← read_text genlib;
  put genlib (pmp_typedef ++ [newline] ++ c).

(** ** Finding a function *)

Definition FUNC_RE (func_name : str) : regex :=
  rseq [RMBol; RGrp 1 (star is_space); lit "function automatic "; plus dot; lit " "; lit func_name;
        lit "("; star dot; lit ");"].

(** [c.index(needle, start)] *)
Definition index_from (needle c : str) (start : nat) : res nat :=
  match find_str needle (drop start c) with
  | Some k => Ok (start + k)%nat
  | None => raise ValueError
  end.

(** The indentation group, and where the function starts and ends. *)
Definition locate (func_name c : str) : res (str * nat * nat) :=
  match re_search (FUNC_RE func_name) c with
  | None => raise AssertionError
  | Some m => stop ← index_from "endfunction" c (m_start m); Ok (grp m 1, m_start m, (stop + 11)%nat)
  end.

(** ** extract_funcs.py *)

Definition cap_max_re : regex := rseq [RWordB; lit "cap_max_E_bits"; RWordB].

(** [line[k - 1:]] for a line and the length [k] of the indentation; a negative
    index counts from the end. *)
Definition slice_from (k : nat) (line : str) : str :=
  match k with O => drop (length line - 1) line | S k' => drop k' line end.

Definition extract_func (c func_name : str) : res str :=
  '(indent, start, stop) ← locate func_name c;
  let func := drop 1 (drop start (take stop c)) in
  let func := join [newline] (slice_from (length indent) <$> split newline func) in
  let func := re_sub cap_max_re "5'h18" func in
  let func := replace "sail_reached_unreachable = 1;" [] func in
  Ok (replace "sail_reached_unreachable_loc = `__LINE__;" [] func).

Definition print (text : str) : out unit := say (text ++ [newline]).
Fixpoint extract_all (c : str) (names : list str) : out unit :=
  match names with
  | [] => mret tt
  | n :: names' => func ← lift (extract_func c n); _ ← print func; _ ← print []; extract_all c names'
  end.
Definition extract_funcs (names : list str) (fs : fsys) : out unit :=
  c ← lift (read_text ibexspec fs).1; extract_all c names.

(** ** cull_funcs.py *)

Definition cull_func (c func_name : str) : res str :=
  '(_, start, stop) ← locate func_name c; Ok (take start c ++ drop stop c).
Definition cull_funcs (names : list str) : io unit :=
  c ← read_text ibexspec;
  c ← io_lift (res_fold cull_func c names);
  put ibexspec c.

(** ** unreachable_loc_info.py *)

Definition unreachable_loc (c : str) : str :=
  replace "bit sail_reached_unreachable;"
    ("bit sail_reached_unreachable;" ++ [newline; "009"%char] ++ "logic [31:0] sail_reached_unreachable_loc;")
  (replace "sail_reached_unreachable = 0;"
    "begin sail_reached_unreachable = 0; sail_reached_unreachable_loc = -1; end"
  (replace "sail_reached_unreachable = 1;"
    "begin sail_reached_unreachable = 1; sail_reached_unreachable_loc = `__LINE__; end" c)).
Definition unreachable_loc_info : io unit := c ← read_text ibexspec; put ibexspec (unreachable_loc c).

(** ** A small specification *)

Definition demo_spec : str := "module m;

    function automatic int f(int x);
        if (x > cap_max_E_bits) sail_reached_unreachable = 1;
        return x;
    endfunction

    function automatic logic [3:0] g();
        return 2;
    endfunction
endmodule
".
Example extract_ex :
  extract_func demo_spec "f" = Ok ("function automatic int f(int x);
    if (x > 5'h18) 
    return x;
endfunction" : str).
Proof. by_compute. Qed.
Example cull_ex :
  cull_func demo_spec "f" = Ok ("module m;


    function automatic logic [3:0] g();
        return 2;
    endfunction
endmodule
" : str).
Proof. by_compute. Qed.

(** ** Culling and extraction agree *)

Lemma find_str_some needle s k :
  find_str needle s = Some k -> exists t, drop k s = needle ++ t /\ (k + length needle <= length s)%nat.
Proof.
  revert k; induction s as [|c s IH]; intros k; cbn [find_str].
  - destruct (starts_with needle []) eqn:E; [|done]. intros [= <-].
    apply starts_with_spec in E as [t E]. exists t. rewrite <-E. split; [done|].
    symmetry in E. apply app_eq_nil in E as [-> _]. done.
  - destruct (starts_with needle (c :: s)) eqn:E.
    + intros [= <-]. apply starts_with_spec in E as [t E]. exists t. rewrite E. split; [done|].
      rewrite length_app. lia.
    + destruct (find_str needle s) as [k'|]; [|done]. intros [= <-].
      destruct (IH k' eq_refl) as (t & Ht & Hl). exists t. split; [done|]. cbn. lia.
Qed.

Lemma index_from_ok needle c start k :
  index_from needle c start = Ok k -> (start <= k)%nat /\ exists t, drop k c = needle ++ t.
Proof.
  unfold index_from. destruct (find_str needle (drop start c)) as [j|] eqn:E; [|done]. intros [= <-].
  apply find_str_some in E as (t & Ht & _). split; [lia|]. exists t. by rewrite drop_drop in Ht.
Qed.

Lemma locate_ok n c indent start stop :
  locate n c = Ok (indent, start, stop) ->
  exists func post, c = take start c ++ func ++ post /\ drop start (take stop c) = func /\ drop stop c = post /\
    exists body, func = body ++ "endfunction".
Proof.
  unfold locate. destruct (re_search (FUNC_RE n) c) as [m|]; [|done].
  destruct (index_from "endfunction" c (m_start m)) as [k|] eqn:E; [|done]. intros [= <- <- <-].
  apply index_from_ok in E as [Hle [t Ht]].
  assert (take (k + 11) c = take k c ++ "endfunction") as Htake.
  { rewrite <-(take_drop k c) at 1. rewrite Ht.
    assert (length (take k c) = k) as Hk.
    { apply length_take_le. destruct (Nat.le_gt_cases k (length c)); [done|].
      rewrite drop_ge in Ht by lia. done. }
    rewrite take_app_ge by lia. rewrite Hk. by replace (k + 11 - k)%nat with 11%nat by lia. }
  assert (length (take k c) = k) as Hk.
  { apply length_take_le. destruct (Nat.le_gt_cases k (length c)); [done|]. rewrite drop_ge in Ht by lia. done. }
  exists (drop (m_start m) (take (k + 11) c)), (drop (k + 11) c). split_and!; [|done|done|].
  - rewrite app_assoc. rewrite <-(take_drop (k + 11) c) at 1. f_equal.
    rewrite <-(take_drop (m_start m) (take (k + 11) c)) at 1. f_equal.
    rewrite take_take. f_equal. lia.
  - exists (drop (m_start m) (take k c)). rewrite Htake, drop_app_le by lia. done.
Qed.

(** What extraction prints for the text of a function. *)
Definition dedent (indent func : str) : str :=
  join [newline] (slice_from (length indent) <$> split newline (drop 1 func)).
Definition extracted (indent func : str) : str :=
  replace "sail_reached_unreachable_loc = `__LINE__;" []
    (replace "sail_reached_unreachable = 1;" [] (re_sub cap_max_re "5'h18" (dedent indent func))).

(** Culling a function removes one stretch of the file, up to and with its
    [endfunction], and extraction prints that very stretch, dedented; neither
    succeeds without the other. *)
Theorem cull_removes_extracted c n c' :
  cull_func c n = Ok c' <->
  exists pre func post indent,
    locate n c = Ok (indent, length pre, length (pre ++ func)) /\
    c = pre ++ func ++ post /\ c' = pre ++ post /\ (exists body, func = body ++ "endfunction") /\
    extract_func c n = Ok (extracted indent func).
Proof.
  unfold cull_func, extract_func. split.
  - destruct (locate n c) as [[[indent start] stop]|] eqn:E; [|done]. cbn [mbind res_bind]. intros [= <-].
    destruct (locate_ok _ _ _ _ _ E) as (func & post & Hc & Hf & Hp & Hb).
    exists (take start c), func, post, indent.
    assert (start <= stop /\ stop <= length c)%nat as [H1 H2].
    { unfold locate in E. destruct (re_search (FUNC_RE n) c) as [m|]; [|done].
      destruct (index_from "endfunction" c (m_start m)) as [k|] eqn:Ek; [|done]. injection E as _ <- <-.
      apply index_from_ok in Ek as [Hle [t Ht]]. split; [lia|].
      apply (f_equal length) in Ht. rewrite length_drop, length_app in Ht. cbn in Ht. lia. }
    assert (length (take start c) = start) as Hs by (rewrite length_take; lia).
    split_and!; [|exact Hc|by rewrite Hp|done|].
    + f_equal. f_equal; [by rewrite Hs|]. rewrite length_app, Hs, <-Hf, length_drop, length_take. lia.
    + unfold extracted, dedent. by rewrite Hf.
  - intros (pre & func & post & indent & -> & -> & -> & _). cbn [mbind res_bind].
    f_equal. rewrite take_app_length, app_assoc, drop_app_length. done.
Qed.

(** ** The type is moved *)

Lemma replace_first old new a b :
  old <> [] -> contains old (a ++ take (pred (length old)) old) = false -> contains old b = false ->
  replace old new (a ++ old ++ b) = a ++ new ++ b.
Proof.
  intros Hne Ha Hb. assert (forall s, contains old s = false -> replace_go old new s 0 = s) as Habs.
  { intros s Hs. pose proof (replace_absent old new s Hne Hs) as H. unfold replace in H. by destruct old. }
  assert (replace_go old new (a ++ old ++ b) 0 = a ++ new ++ b) as H; [|unfold replace; by destruct old].
  induction a as [|c a IH]; cbn [app].
  - destruct old as [|o old]; [done|]. set (o' := o :: old) in *.
    change (o' ++ b) with (o :: old ++ b). cbn [replace_go].
    change (o :: old ++ b) with (o' ++ b). rewrite starts_with_app. f_equal.
    assert (forall s, replace_go o' new (s ++ b) (length s) = replace_go o' new b 0) as Hskip by (by induction s).
    etransitivity; [apply Hskip|]. by apply Habs.
  - pose proof (find_str_first old (c :: a) b Ha) as Hf. cbn [app find_str] in Hf.
    cbn [app contains] in Ha. apply orb_false_iff in Ha as [_ Ha]. cbn [replace_go].
    destruct (starts_with old (c :: a ++ old ++ b)); [done|]. by rewrite IH.
Qed.

(** The typedef leaves the specification and comes first in the library,
    the rest of both files being kept: when it occurs once in the specification. *)
Theorem fix_pmp_bug_moves (fs : fsys) a b g :
  fs !! ibexspec = Some (a ++ pmp_typedef ++ b) -> fs !! genlib = Some g ->
  CR ∉ a ++ b -> CR ∉ g ->
  contains pmp_typedef (a ++ take (pred (length pmp_typedef)) pmp_typedef) = false ->
  contains pmp_typedef b = false ->
  fix_pmp_bug fs = (Ok tt, <[genlib := pmp_typedef ++ newline :: g]> (<[ibexspec := a ++ b]> fs)).
Proof.
  intros Hs Hg Hab Hcg Ha Hb. unfold fix_pmp_bug, mbind, io_bind, read_text, put. rewrite Hs. cbn [or_raise fmap res_fmap].
  rewrite universal_clean.
  2:{ rewrite !elem_of_app in *. intros [H|[H|H]]; [naive_solver| |naive_solver].
      revert H. by apply not_in_str. }
  rewrite replace_first by done. rewrite file_insert_ne by done. rewrite Hg. cbn [or_raise fmap res_fmap].
  by rewrite universal_clean.
Qed.

Lemma fix_pmp_bug_moves_witness :
  let fs : fsys := <[genlib := ("y" : str)]> (<[ibexspec := ("x" ++ pmp_typedef ++ "z" : str)]> ∅) in
  fix_pmp_bug fs = (Ok tt, <[genlib := pmp_typedef ++ newline :: "y"]> (<[ibexspec := ("x" ++ "z" : str)]> fs)).
Proof.
  intros fs. apply (fix_pmp_bug_moves fs "x" "z" "y").
  - unfold fs. rewrite file_insert_ne by done. apply file_insert.
  - apply file_insert.
  - by apply not_in_str.
  - by apply not_in_str.
  - vm_compute. reflexivity.
  - vm_compute. reflexivity.
Defined.
