(* ===== verification/DocsCi.v ===== *)
(** * Documentation configuration and CI variables

    [doc/conf.py], the settings of the documentation generator with the required
    tool versions, and [ci/vars_to_logging_cmd.py], which turns a variables file
    into logging commands. *)

From S2P Require Import Prelude PyStr PyIO IbexConfig ToolReq.
From Stdlib Require Import Ascii.

(** ** doc/conf.py *)

Definition epilog_line (r : tool_req) : str :=
  ".. |tool_requirements." ++ tool r ++ "| replace:: " ++ min_version r ++ [newline].
Definition rst_epilog (raw : option pyval) : res str :=
  tool_reqs ← read_tool_requirements raw; Ok (mjoin (epilog_line <$> tool_reqs)).

(** A module of the generator's configuration: its global names with their
    values. *)
Inductive cval :=
| CStr (s : str)
| CBool (b : bool)
| CNum (n : Z)
| CList (l : list cval)
| CTuple (l : list cval)
| CDict (items : list (str * cval)).
Definition settings := list (str * cval).

Section Conf.
(** [os.path.dirname(__file__)], [setuptools_scm.get_version] of a directory, and
    what the tool requirements file defines. *)
Context (dirname : str) (get_version : str -> res str) (raw : option pyval).

Definition topsrcdir : str := path_join dirname "..".
Definition master_doc : str := "index".
Definition author : str := "lowRISC contributors".

Definition general_settings (release : str) : settings :=
  [("numfig" : str, CBool true);
   ("numfig_format" : str, CDict [("figure" : str, CStr "Figure %s"); ("table" : str, CStr "Table %s");
                                  ("code-block" : str, CStr "Listing %s")]);
   ("extensions" : str, CList [CStr "sphinxcontrib.wavedrom"; CStr "sphinx.ext.todo"]);
   ("wavedrom_html_jsinline" : str, CBool false);
   ("render_using_wavedrompy" : str, CBool true);
   ("templates_path" : str, CList [CStr "_templates"]);
   ("source_suffix" : str, CStr ".rst");
   ("master_doc" : str, CStr master_doc);
   ("project" : str, CStr "Ibex Documentation");
   ("copyright" : str, CStr "2017-2018, ETH Zurich and University of Bologna, 2018-present lowRISC");
   ("author" : str, CStr author);
   ("version" : str, CStr "");
   ("release" : str, CStr release);
   ("language" : str, CStr "en");
   ("exclude_patterns" : str, CList [CStr "_build"; CStr "Thumbs.db"; CStr ".DS_Store"; CStr "venv"]);
   ("pygments_style" : str, CStr "sphinx");
   ("todo_include_todos" : str, CBool true)].

Definition html_settings : settings :=
  [("html_theme" : str, CStr "sphinx_rtd_theme");
   ("html_theme_options" : str, CDict [("style_nav_header_background" : str, CStr "#E53651")]);
   ("html_logo" : str, CStr "images/logo.svg");
   ("html_static_path" : str, CList [CStr "_static"]);
   ("html_css_files" : str, CList [CStr "theme_overrides.css"])].

Definition latex_settings : settings :=
  [("latex_elements" : str, CDict []);
   ("latex_documents" : str, CList [CTuple [CStr master_doc; CStr "ibex.tex"; CStr "Ibex Documentation";
                                            CStr "lowRISC"; CStr "manual"]]);
   ("latex_logo" : str, CStr "")].

Definition manual_settings : settings :=
  [("man_pages" : str, CList [CTuple [CStr master_doc; CStr "ibex"; CStr "Ibex Documentation";
                                      CList [CStr author]; CNum 1]]);
   ("texinfo_documents" : str, CList [CTuple [CStr master_doc; CStr "ibex"; CStr "Ibex Documentation"; CStr author;
                                              CStr "ibex"; CStr "Ibex RV32 CPU core"; CStr "Miscellaneous"]])].

(** Running the module. *)
Definition conf : res settings :=
  release ← get_version topsrcdir;
  epilog ← rst_epilog raw;
  Ok (general_settings release ++ html_settings ++ latex_settings ++ manual_settings ++
      [("rst_epilog" : str, CStr epilog)]).

(** The configuration exists when the version and the tool requirements do; each
    setting is defined once, every output starts from the master document, and
    the epilog has the version of each required tool. *)
Definition starts_from (doc : str) (v : cval) : bool :=
  match v with
  | CList l => forallb (fun d => match d with CTuple (CStr s :: _) => bool_decide (s = doc) | _ => false end) l
  | _ => false
  end.
Lemma conf_ok (c : settings) :
  conf = Ok c <->
  exists release reqs,
    get_version topsrcdir = Ok release /\ read_tool_requirements raw = Ok reqs /\
    c = general_settings release ++ html_settings ++ latex_settings ++ manual_settings ++
        [("rst_epilog" : str, CStr (mjoin (epilog_line <$> reqs)))].
Proof.
  unfold conf, rst_epilog. destruct (get_version topsrcdir) as [release|]; cbn [mbind res_bind].
  2:{ split; [done|]. by intros (? & ? & ? & _). }
  destruct (read_tool_requirements raw) as [reqs|]; cbn [mbind res_bind].
  2:{ split; [done|]. by intros (? & ? & _ & ? & _). }
  split; [intros [= <-]; eauto|]. by intros (? & ? & [= <-] & [= <-] & ->).
Qed.

Theorem conf_consistent (c : settings) :
  conf = Ok c ->
  NoDup c.*1 /\ dict_get c "master_doc" = Some (CStr master_doc) /\
  Forall (fun k => from_option (starts_from master_doc) false (dict_get c k) = true)
    ["latex_documents" : str; "man_pages" : str; "texinfo_documents" : str] /\
  exists reqs, read_tool_requirements raw = Ok reqs /\
    dict_get c "rst_epilog" = Some (CStr (mjoin (epilog_line <$> reqs))).
Proof.
  intros (release & reqs & _ & Hr & ->)%conf_ok. split_and!.
  - apply (bool_decide_unpack _). vm_compute. exact I.
  - reflexivity.
  - by repeat constructor.
  - by exists reqs.
Qed.
End Conf.

(** ** ci/vars_to_logging_cmd.py *)

Section Vars.
(** [yaml.load(fp, Loader=yaml.SafeLoader)], and [str] of a value that is no
    scalar. *)
Context (yaml_load : str -> res yval) (show_other : yval -> str).

Definition show_value (v : yval) : str :=
  match v with YNone => "None" | YScalar s => py_str s | _ => show_other v end.
Definition print (text : str) : out unit := say (text ++ [newline]).

Definition set_variable (kv : str * yval) : str :=
  "##vso[task.setvariable variable=" ++ kv.1 ++ "]" ++ show_value kv.2.

Fixpoint print_all (lines : list str) : out unit :=
  match lines with [] => mret tt | l :: lines' => _ ← print l; print_all lines' end.

(** [data['variables']] and [.items()]. *)
Definition variables (data : yval) : res (list (str * yval)) :=
  match data with
  | YMap items =>
      match dict_get items "variables" with
      | Some (YMap vars) => Ok vars
      | Some _ => raise AttributeError
      | None => raise KeyError
      end
  | YNone | YList _ | YScalar _ | YOther _ => raise TypeError
  end.
Definition has_variables (data : yval) : bool :=
  match data with YMap items => bool_decide (is_Some (dict_get items "variables")) | _ => false end.

Definition vars_to_logging_cmd (vars_file : str) (fs : fsys) : out Z :=
  _ ← print vars_file;
  text ← lift (read_text vars_file fs).1;
  data ← lift (yaml_load text);
  _ ← (if has_variables data then mret tt
       else print ("YAML file wasn't a dictionary with a 'variables' key. Got: " ++ show_value data));
  _ ← print ("Setting variables from " ++ vars_file);
  vars ← lift (variables data);
  _ ← print_all (set_variable <$> vars);
  mret 0%Z.

Lemma print_all_text lines : print_all lines = (text_of lines, Ok tt).
Proof.
  induction lines as [|l lines IH]; [done|]. cbn [print_all]. rewrite IH. reflexivity.
Qed.

(** What the script prints and returns, for every shape of the data: the
    message about the missing key is no error by itself, the lookup that follows
    it raises. *)
Theorem vars_outcome (vars_file text : str) (fs : fsys) (data : yval) :
  (read_text vars_file fs).1 = Ok text -> yaml_load text = Ok data ->
  vars_to_logging_cmd vars_file fs =
    match variables data with
    | Ok vars => (text_of ([vars_file; "Setting variables from " ++ vars_file] ++ (set_variable <$> vars)), Ok 0%Z)
    | Raise c m =>
        (text_of (vars_file ::
           (if has_variables data then [] else ["YAML file wasn't a dictionary with a 'variables' key. Got: " ++ show_value data])
           ++ ["Setting variables from " ++ vars_file]), Raise c m)
    end.
Proof.
  intros Ht Hd. assert (has_variables data = false -> is_ok (variables data) = false) as Hv.
  { destruct data as [| | |items|]; try done. unfold has_variables, variables.
    destruct (dict_get items "variables") as [v|]; [|done]. by destruct v. }
  assert (forall l, print l = (text_of [l], Ok tt)) as Hp.
  { intros l. unfold print, say, text_of. cbn. by rewrite app_nil_r. }
  unfold vars_to_logging_cmd. rewrite Ht, Hp. unfold mbind, out_bind, lift. cbn [fst snd]. rewrite Hd. cbn [fst snd].
  destruct (has_variables data); [clear Hv|rewrite Hp; specialize (Hv eq_refl)]; rewrite !Hp; cbn [fst snd mret out_ret];
    destruct (variables data) as [vars|c m]; try (discriminate Hv); cbn [fst snd];
    rewrite ?print_all_text; cbn [fst snd]; f_equal;
    unfold text_of; cbn [fmap list_fmap mjoin list_join app]; by rewrite ?app_nil_r, <-?app_assoc.
Qed.
End Vars.

Lemma vars_outcome_witness :
  let load (_ : str) : res yval := Ok (YMap [("variables" : str, YMap [("A" : str, YScalar (SStr "1"))])]) in
  let fs : fsys := <[("v.yml" : str) := ("x" : str)]> ∅ in
  vars_to_logging_cmd load (fun _ => []) "v.yml" fs =
    (text_of ["v.yml" : str; "Setting variables from v.yml" : str; "##vso[task.setvariable variable=A]1" : str], Ok 0%Z).
Proof.
  intros load fs.
  apply (vars_outcome load (fun _ => []) "v.yml" "x" fs (YMap [("variables" : str, YMap [("A" : str, YScalar (SStr "1"))])])).
  - vm_compute. reflexivity.
  - reflexivity.
Defined.

(** The epilog has a line for each required tool, in order. *)
Example epilog_ex :
  rst_epilog (Some (PDict [(PStr "a", PStr "1.0"); (PStr "b", PDict [(PStr "min_version", PStr "2")])])) =
  Ok (text_of [".. |tool_requirements.a| replace:: 1.0" : str; ".. |tool_requirements.b| replace:: 2" : str]).
Proof. by_compute. Qed.

Lemma conf_consistent_witness :
  let reqs := Some (PDict [(PStr "verilator", PStr "4.104")]) in
  exists c, conf "doc" (fun _ => Ok ("1.0" : str)) reqs = Ok c /\ NoDup c.*1.
Proof.
  intros reqs. assert (exists c, conf "doc" (fun _ => Ok ("1.0" : str)) reqs = Ok c) as [c E]
    by (eexists; reflexivity).
  exists c. split; [exact E|]. exact (proj1 (conf_consistent "doc" (fun _ => Ok ("1.0" : str)) reqs c E)).
Defined.
