(* ===== verification/CmdLines.v ===== *)
(** * The command lines of the scripts

    What the [add_argument] calls of the scripts declare, and each script from
    its command line: the arguments are parsed and given to the [main] modelled
    in the component's file.  util/ibex_config.py, whose command line another
    script builds, has its parser in [IbexConfig]. *)

From S2P Require Import Prelude PyStr PyRe PyIO CompareTrace IbexConfig ToolReq TestList TestRun SimCmd Sv2v SynFlow PyArgparse.
From Stdlib Require Import Ascii.
Local Open Scope Z_scope.

(** An option that must be given, and one with a default text. *)
Definition needed {V} (opts : list str) (dest : str) : action V := required (option_arg opts dest).
Definition defaulting {V} (opts : list str) (dest d : str) : action V := with_default (AStr d) (option_arg opts dest).

(** [type=read_test_dot_seed] *)
Definition dot_seed_type (s : str) : res (aval (str * Z)) := v ← read_test_dot_seed s; Ok (AObj v).
Definition dot_seed_arg : action (str * Z) :=
  typed dot_seed_type (needed ["--test-dot-seed" : str] "test_dot_seed").

(** ** run_rtl.py *)

Definition run_rtl_parser : parser (str * Z) :=
  argument_parser
    [needed ["--simulator" : str] "simulator";
     needed ["--simulator_yaml" : str] "simulator_yaml";
     flag_arg ["--en_cov" : str] "en_cov";
     flag_arg ["--en_wave" : str] "en_wave";
     typed type_int (needed ["--start-seed" : str] "start_seed");
     dot_seed_arg;
     option_arg ["--lsf-cmd" : str] "lsf_cmd";
     needed ["--bin-dir" : str] "bin_dir";
     needed ["--rtl-sim-dir" : str] "rtl_sim_dir";
     defaulting ["--sim-opts" : str] "sim_opts" ""] [].

Definition run_rtl (environ : str -> option str) (fs : str -> option str) (yaml_load : str -> res yval)
    (exists_file : str -> bool) (get_entry : str -> res entry) (core_ibex : str) (argv : list str)
  : res (str * str) :=
  ns ← parsed run_rtl_parser argv;
  simulator ← arg_text ns "simulator";
  simulator_yaml ← arg_text ns "simulator_yaml";
  en_cov ← arg_bool ns "en_cov";
  en_wave ← arg_bool ns "en_wave";
  start_seed ← arg_int ns "start_seed";
  test_dot_seed ← arg_obj ns "test_dot_seed";
  lsf_cmd ← arg_opt_text ns "lsf_cmd";
  bin_dir ← arg_text ns "bin_dir";
  rtl_sim_dir ← arg_text ns "rtl_sim_dir";
  sim_opts ← arg_text ns "sim_opts";
  run_rtl_main environ fs yaml_load exists_file get_entry core_ibex simulator simulator_yaml
    en_cov en_wave start_seed test_dot_seed lsf_cmd bin_dir rtl_sim_dir sim_opts.

(** ** compare.py *)

Definition compare_parser : parser (str * Z) :=
  argument_parser
    [needed ["--instr-gen-bin-dir" : str] "instr_gen_bin_dir";
     with_choices ["spike" : str; "ovpsim" : str] (needed ["--iss" : str] "iss");
     needed ["--iss-log-dir" : str] "iss_log_dir";
     typed type_int (needed ["--start-seed" : str] "start_seed");
     dot_seed_arg;
     needed ["--rtl-log-dir" : str] "rtl_log_dir";
     needed ["--output" : str] "output"] [].

Definition compare_args (argv : list str) : res (Z * (str * Z) * (str * str * str) * (str * str)) :=
  ns ← parsed compare_parser argv;
  start_seed ← arg_int ns "start_seed";
  test_dot_seed ← arg_obj ns "test_dot_seed";
  rtl_log_dir ← arg_text ns "rtl_log_dir";
  iss ← arg_text ns "iss";
  iss_log_dir ← arg_text ns "iss_log_dir";
  instr_gen_bin_dir ← arg_text ns "instr_gen_bin_dir";
  output ← arg_text ns "output";
  Ok (start_seed, test_dot_seed, (rtl_log_dir, iss, iss_log_dir), (instr_gen_bin_dir, output)).

Definition compare {tools : TraceTools} (get_entry : str -> res entry) (argv : list str) : io Z := fun fs =>
  match compare_args argv with
  | Raise c m => (Raise c m, fs)
  | Ok (start_seed, test_dot_seed, (rtl_log_dir, iss, iss_log_dir), (instr_gen_bin_dir, output)) =>
      compare_main get_entry start_seed test_dot_seed rtl_log_dir iss iss_log_dir instr_gen_bin_dir output fs
  end.

(** ** collect_results.py *)

Definition collect_parser : parser Empty_set :=
  argument_parser
    [needed ["--output_dir" : str; "-o" : str] "output_dir";
     with_nargs NStar (positional_arg "test_run_result")] [].

Definition collect_results (yaml_load : str -> res yval) (to_xml : list (str * list test_case) -> str) (argv : list str)
    (fs : fsys) : res (Z * fsys) :=
  ns ← parsed collect_parser argv;
  output_dir ← arg_text ns "output_dir";
  test_run_result ← arg_texts ns "test_run_result";
  collect_main yaml_load to_xml fs output_dir test_run_result.

(** ** list_tests.py *)

Definition list_tests_parser : parser Empty_set :=
  argument_parser
    [with_default (AInt 1) (typed type_int (option_arg ["--start_seed" : str] "start_seed"));
     needed ["--test" : str] "test";
     with_default (AInt 0) (typed type_int (option_arg ["--iterations" : str] "iterations"));
     needed ["--ibex-config" : str] "ibex_config"] [].

Definition list_tests_script (fs : str -> option str) (yaml_load : str -> res yval) (set_order : gset str -> list str)
    (depth : nat) (testlist riscv_dv_root config_file : str) (argv : list str) : res (list str) :=
  ns ← parsed list_tests_parser argv;
  iterations ← arg_int ns "iterations";
  start_seed ← arg_int ns "start_seed";
  test ← arg_text ns "test";
  ibex_config ← arg_text ns "ibex_config";
  list_tests fs yaml_load set_order depth testlist riscv_dv_root config_file start_seed test iterations ibex_config.

(** ** sim.py *)

Definition sim_parser (core_ibex : str) : parser Empty_set :=
  argument_parser
    [defaulting ["--o" : str] "o" "out";
     defaulting ["--simulator" : str] "simulator" "vcs";
     defaulting ["--simulator_yaml" : str] "simulator_yaml"
       (path_join (path_join core_ibex "yaml") "rtl_simulation.yaml");
     flag_arg ["-v" : str; "--verbose" : str] "verbose";
     defaulting ["--cmp_opts" : str] "cmp_opts" "";
     flag_arg ["--en_cov" : str] "en_cov";
     flag_arg ["--en_wave" : str] "en_wave";
     flag_arg ["--en_cosim" : str] "en_cosim";
     defaulting ["--steps" : str] "steps" "all";
     option_arg ["--lsf_cmd" : str] "lsf_cmd"] [].

(** The attributes [main] reads. *)
Record sim_args := SimArgs {
  sa_o : str; sa_simulator : str; sa_simulator_yaml : str; sa_cmp_opts : str;
  sa_en_cov : bool; sa_en_wave : bool; sa_en_cosim : bool; sa_steps : str; sa_lsf_cmd : option str }.
Definition read_sim_args (core_ibex : str) (argv : list str) : res sim_args :=
  ns ← parsed (sim_parser core_ibex) argv;
  o ← arg_text ns "o";
  simulator ← arg_text ns "simulator";
  simulator_yaml ← arg_text ns "simulator_yaml";
  cmp_opts ← arg_text ns "cmp_opts";
  en_cov ← arg_bool ns "en_cov";
  en_wave ← arg_bool ns "en_wave";
  en_cosim ← arg_bool ns "en_cosim";
  steps ← arg_text ns "steps";
  lsf_cmd ← arg_opt_text ns "lsf_cmd";
  Ok (SimArgs o simulator simulator_yaml cmp_opts en_cov en_wave en_cosim steps lsf_cmd).

(** The exit status: a [RuntimeError] that reaches the end of the script is
    reported and exits with 1. *)
Definition sim_script (environ : str -> option str) (fs : str -> option str) (yaml_load : str -> res yval)
    (shell : str -> option Z) (walk : str -> list (str * list str)) (core_ibex : str) (argv : list str)
  : res Z * list str :=
  match read_sim_args core_ibex argv with
  | Raise c m => (Raise c m, [])
  | Ok a =>
      match sim_main environ fs yaml_load shell walk (sa_o a) (sa_simulator a) (sa_simulator_yaml a) (sa_cmp_opts a)
              (sa_en_cov a) (sa_en_wave a) (sa_en_cosim a) (sa_steps a) (sa_lsf_cmd a) with
      | (Raise RuntimeError _, ran) => (Ok 1, ran)
      | r => r
      end
  end.

(** ** sim_makefrag_gen.py *)

Definition makefrag_parser : parser Empty_set :=
  argument_parser
    [with_choices ["vcs" : str; "riviera" : str; "xlm" : str; "questa" : str; "dsim" : str] (positional_arg "sim");
     positional_arg "config";
     positional_arg "ibex_top";
     positional_arg "makefrag_name"] [].

Definition sim_makefrag_gen (set_order : gset str -> list str) (yaml_load : str -> res yval)
    (fs : str -> option str) (env : str -> option str) (help_text address : str) (argv : list str) : io unit := fun out =>
  match (ns ← parsed makefrag_parser argv;
         sim ← arg_text ns "sim"; cfg ← arg_text ns "config";
         ibex_top ← arg_text ns "ibex_top"; makefrag_name ← arg_text ns "makefrag_name";
         Ok (sim, cfg, ibex_top, makefrag_name)) with
  | Raise c m => (Raise c m, out)
  | Ok (sim, cfg, ibex_top, makefrag_name) =>
      makefrag_main set_order yaml_load fs env help_text address sim cfg ibex_top makefrag_name out
  end.

(** ** check_tool_requirements.py *)

Definition tool_parser : parser Empty_set := argument_parser [with_nargs NStar (positional_arg "tool")] [].

Section ToolRequirements.
Context {V : Type} (Version : str -> res V) (lt : V -> V -> bool).
Context (run : list str -> list (str * str) -> ran) (run_shell : str -> ran).
Context (installed : str -> option str) (quote : str -> str).
Definition check_tool_requirements (raw : option pyval) (argv : list str) : res Z :=
  ns ← parsed tool_parser argv;
  tool ← arg_texts ns "tool";
  ToolReq.main Version lt run run_shell installed quote raw tool.
End ToolRequirements.

(** ** compare_trace.py *)

Definition compare_trace_parser : parser Empty_set :=
  argument_parser
    [flag_arg ["-k" : str; "--skip_isr" : str] "skip_isr"; with_nargs NStar (positional_arg "files")] [].

(** [repr] of a list of texts. *)
Definition repr_list (l : list str) : str := "[" ++ join ", " (py_repr <$> l) ++ "]".

(** What is printed before the traces are read. *)
Definition args_text (files : list str) (skip_isr : bool) : str :=
  (if (length files =? 2)%nat then "Files specified: " ++ repr_list files else "No files specified") ++ [newline] ++
  (if skip_isr then "Skipping exception handler in ibex trace" ++ [newline] else []).

(** The main program; with fewer than two files an [IndexError] ends it. *)
Definition compare_trace_script (fs : fsys) (argv : list str) : option (res (bool * str)) :=
  match (ns ← parsed compare_trace_parser argv;
         files ← arg_texts ns "files";
         skip_isr ← arg_bool ns "skip_isr";
         ibex_trace_name ← py_nth files 0;
         sail_trace_name ← py_nth files 1;
         Ok (files, skip_isr, ibex_trace_name, sail_trace_name)) with
  | Raise c m => Some (Raise c m)
  | Ok (files, skip_isr, ibex_trace_name, sail_trace_name) =>
      match compare_trace skip_isr (fs !! ibex_trace_name) (fs !! sail_trace_name) with
      | Some (Ok (passed, text)) => Some (Ok (passed, args_text files skip_isr ++ text))
      | r => r
      end
  end.

(** ** syn/python *)

Definition kge_parser : parser Empty_set :=
  argument_parser
    [positional_arg "lib_file_path"; positional_arg "report_path"; defaulting ["--cell" : str] "cell" "NAND2_X1"] [].
Definition kge_script (argv : list str) (fs : fsys) : res str :=
  ns ← parsed kge_parser argv;
  lib_file_path ← arg_text ns "lib_file_path";
  report_path ← arg_text ns "report_path";
  cell ← arg_text ns "cell";
  kge_main lib_file_path report_path cell fs.

Definition names_parser : parser Empty_set :=
  argument_parser
    [positional_arg "top_level"; positional_arg "gen_out"; with_nargs NPlus (positional_arg "rpts")] [].
Definition names_script (order : gset str -> list str) (yosys : list str -> fsys -> fsys) (argv : list str) : io unit :=
  args ← io_lift (ns ← parsed names_parser argv;
                  top_level ← arg_text ns "top_level"; gen_out ← arg_text ns "gen_out"; rpts ← arg_texts ns "rpts";
                  Ok (top_level, gen_out, rpts));
  build_translated_names order yosys args.1.1 args.1.2 args.2.

Definition timing_parser : parser Empty_set :=
  argument_parser [positional_arg "rpt_file"; positional_arg "gen_out"] [].
Definition timing_script (argv : list str) : io unit :=
  args ← io_lift (ns ← parsed timing_parser argv;
                  rpt_file ← arg_text ns "rpt_file"; gen_out ← arg_text ns "gen_out";
                  out ← py_nth argv 0;
                  Ok (rpt_file, gen_out, out));
  translate_timing_to args.1.1 args.1.2 args.2.

(** ** sv2v_in_place.py *)

Section Sv2vScript.
Context {pattern : Type} (compile : str -> pattern + str) (search : pattern -> str -> bool).
Context (run : list str -> fsys -> res (Z * str)) (writable : str -> bool) (tmpdir : str).

Definition define_if_type (s : str) : res (aval (pattern * str)) := v ← parse_define_if compile s; Ok (AObj v).

Definition sv2v_parser : parser (pattern * str) :=
  argument_parser
    [positional_arg "file_list";
     flag_arg ["--verbose" : str; "-v" : str] "verbose";
     with_default (AList []) (append_arg ["--define" : str; "-D" : str] "defines");
     with_default (AList []) (typed define_if_type (append_arg ["--define-if" : str] "defines_if"));
     with_default (AList []) (append_arg ["--incdir" : str; "-I" : str] "incdirs");
     option_arg ["--incdir-list" : str] "incdir_list";
     defaulting ["--sv2v" : str] "sv2v" "sv2v"] [].

Definition arg_objs {V} (ns : namespace V) (k : str) : res (list V) :=
  match dict_get ns k with
  | Some (AList l) => res_map (fun v => match v with AObj o => Ok o | _ => raise TypeError end) l
  | Some _ => raise TypeError | None => raise AttributeError
  end.

Definition sv2v_args (argv : list str) : res (args (pattern := pattern)) :=
  ns ← parsed sv2v_parser argv;
  file_list ← arg_text ns "file_list";
  defines ← arg_texts ns "defines";
  defines_if ← arg_objs ns "defines_if";
  incdirs ← arg_texts ns "incdirs";
  incdir_list ← arg_opt_text ns "incdir_list";
  sv2v ← arg_text ns "sv2v";
  Ok (Args file_list defines defines_if incdirs incdir_list sv2v).

Definition sv2v_script (argv : list str) : io Z :=
  a ← io_lift (sv2v_args argv); sv2v_main search run writable tmpdir a.
End Sv2vScript.

(** ** The recipes of the Makefile *)

(** src/dv/uvm/core_ibex/Makefile: how run_rtl.py, compare.py, list_tests.py,
    collect_results.py and sim_makefrag_gen.py are called; [lsf-arg] is empty
    when [LSF_CMD] is.  Each is the list of words the shell passes, after make has
    expanded the variables ([test_dot_seed] is what the pattern of the rule matched,
    without its directory): the unquoted values are taken to be one word each, without
    blanks or other characters special to the shell. *)
Definition lsf_arg (lsf_cmd : str) : list str :=
  match lsf_cmd with [] => [] | _ => ["--lsf_cmd=" ++ lsf_cmd] end.
Definition flag (b : bool) (f : str) : list str := if b then [f] else [].

Definition run_rtl_recipe (simulator : str) (cov waves : bool) (lsf_cmd : str) (seed : Z)
    (signature_addr sim_opts test_dot_seed out_seed : str) : list str :=
  ["--simulator" : str; simulator; "--simulator_yaml" : str; "yaml/rtl_simulation.yaml" : str] ++
  flag cov "--en_cov" ++ flag waves "--en_wave" ++ lsf_arg lsf_cmd ++
  ["--start-seed" : str; str_of_Z seed;
   "--sim-opts=+signature_addr=" ++ signature_addr ++ " " ++ sim_opts;
   "--test-dot-seed" : str; test_dot_seed;
   "--bin-dir" : str; out_seed ++ "/instr_gen/asm_test";
   "--rtl-sim-dir" : str; out_seed ++ "/rtl_sim"].

Definition compare_recipe (out_seed iss : str) (seed : Z) (test_dot_seed output : str) : list str :=
  ["--instr-gen-bin-dir" : str; out_seed ++ "/instr_gen/asm_test"; "--iss" : str; iss;
   "--iss-log-dir" : str; out_seed ++ "/instr_gen/" ++ iss ++ "_sim";
   "--start-seed" : str; str_of_Z seed; "--test-dot-seed" : str; test_dot_seed;
   "--output" : str; output; "--rtl-log-dir" : str; out_seed ++ "/rtl_sim/" ++ test_dot_seed].

Definition list_tests_recipe (seed : Z) (test : str) (iterations : Z) (ibex_config : str) : list str :=
  ["--start_seed" : str; str_of_Z seed; "--test" : str; test; "--iterations" : str; str_of_Z iterations;
   "--ibex-config" : str; ibex_config].

Lemma type_int_str {V} (n : Z) : 0 <= n -> type_int (V := V) (str_of_Z n) = Ok (AInt n).
Proof. intros Hn. unfold type_int, int_of. by rewrite py_int_str_of_Z. Qed.

Lemma plain_number (n : Z) : 0 <= n -> plain_arg (str_of_Z n).
Proof.
  intros Hn. unfold plain_arg, str_of_Z. rewrite (proj2 (Z.ltb_ge n 0)) by done.
  pose proof (digits10_digit n Hn) as Hd. destruct (digits 10 n) as [|c s]; [done|].
  apply Forall_cons in Hd as [Hc _]. cbn. rewrite andb_true_r. apply Ascii.eqb_neq. by intros <-.
Qed.

Lemma plain_app_arg a b : plain_arg a -> plain_arg b -> plain_arg (a ++ b).
Proof. destruct a; [done|]. unfold plain_arg. cbn. by rewrite !andb_true_r. Qed.

Section Recipes.
Context (environ : str -> option str) (fs : str -> option str) (yaml_load : str -> res yval).
Context (exists_file : str -> bool) (get_entry : str -> res entry) (core_ibex : str).

Lemma parse_run_rtl simulator cov waves seed addr opts t out_seed name k :
  plain_arg simulator -> 0 <= seed -> plain_arg t -> read_test_dot_seed t = Ok (name, k) ->
  plain_arg out_seed ->
  parsed run_rtl_parser (run_rtl_recipe simulator cov waves [] seed addr opts t out_seed) =
  Ok [("simulator" : str, AStr simulator); ("simulator_yaml" : str, AStr "yaml/rtl_simulation.yaml");
      ("en_cov" : str, ABool cov); ("en_wave" : str, ABool waves); ("start_seed" : str, AInt seed);
      ("test_dot_seed" : str, AObj (name, k)); ("lsf_cmd" : str, ANone);
      ("bin_dir" : str, AStr (out_seed ++ "/instr_gen/asm_test"));
      ("rtl_sim_dir" : str, AStr (out_seed ++ "/rtl_sim"));
      ("sim_opts" : str, AStr ("+signature_addr=" ++ addr ++ " " ++ opts))].
Proof.
  intros Hs Hseed Ht Hr Ho. pose proof (plain_number seed Hseed) as Hn.
  pose proof (plain_app_arg out_seed "/instr_gen/asm_test" Ho eq_refl) as Hb.
  pose proof (plain_app_arg out_seed "/rtl_sim" Ho eq_refl) as Hd.
  pose (uses := [Given "--simulator" simulator; Given "--simulator_yaml" "yaml/rtl_simulation.yaml"] ++
    (if cov then [Flag "--en_cov"] else []) ++ (if waves then [Flag "--en_wave"] else []) ++
    [Given "--start-seed" (str_of_Z seed); Joined "--sim-opts" ("+signature_addr=" ++ addr ++ " " ++ opts);
     Given "--test-dot-seed" t; Given "--bin-dir" (out_seed ++ "/instr_gen/asm_test");
     Given "--rtl-sim-dir" (out_seed ++ "/rtl_sim")]).
  assert (run_rtl_recipe simulator cov waves [] seed addr opts t out_seed = mjoin (use_args <$> uses) ++ mjoin []) as ->.
  { subst uses. by destruct cov, waves. }
  assert (dot_seed_type t = Ok (AObj (name, k))) as Hty by (unfold dot_seed_type; by rewrite Hr).
  pose proof (type_int_str (V := str * Z) seed Hseed) as Hi.
  unfold parsed. destruct cov, waves; subst uses; cbn [app].
  all: erewrite parsed_line; [|solve_uses|constructor|constructor].
  all: take_steps; reflexivity.
Qed.

Lemma run_rtl_recipe_main simulator cov waves seed addr opts t out_seed name k :
  plain_arg simulator -> 0 <= seed -> plain_arg t -> read_test_dot_seed t = Ok (name, k) -> plain_arg out_seed ->
  run_rtl environ fs yaml_load exists_file get_entry core_ibex
    (run_rtl_recipe simulator cov waves [] seed addr opts t out_seed) =
  run_rtl_main environ fs yaml_load exists_file get_entry core_ibex simulator "yaml/rtl_simulation.yaml" cov waves seed
    (name, k) None (out_seed ++ "/instr_gen/asm_test") (out_seed ++ "/rtl_sim")
    ("+signature_addr=" ++ addr ++ " " ++ opts).
Proof. intros. unfold run_rtl. by rewrite (parse_run_rtl simulator cov waves seed addr opts t out_seed name k). Qed.
End Recipes.

Lemma compare_recipe_args out_seed iss seed t output name k :
  plain_arg out_seed -> iss = ("spike" : str) \/ iss = ("ovpsim" : str) -> 0 <= seed ->
  plain_arg t -> read_test_dot_seed t = Ok (name, k) -> plain_arg output ->
  compare_args (compare_recipe out_seed iss seed t output) =
  Ok (seed, (name, k), (out_seed ++ "/rtl_sim/" ++ t, iss, out_seed ++ "/instr_gen/" ++ iss ++ "_sim"),
      (out_seed ++ "/instr_gen/asm_test", output)).
Proof.
  intros Ho Hiss Hseed Ht Hr Hout. pose proof (plain_number seed Hseed) as Hn.
  pose proof (plain_app_arg out_seed "/instr_gen/asm_test" Ho eq_refl) as Hb.
  assert (plain_arg (out_seed ++ "/instr_gen/" ++ iss ++ "_sim")) as Hi by by apply plain_app_arg.
  assert (plain_arg (out_seed ++ "/rtl_sim/" ++ t)) as Hl by by apply plain_app_arg.
  assert (plain_arg iss) as Hp by by destruct Hiss; subst.
  pose (uses := [Given "--instr-gen-bin-dir" (out_seed ++ "/instr_gen/asm_test"); Given "--iss" iss;
    Given "--iss-log-dir" (out_seed ++ "/instr_gen/" ++ iss ++ "_sim"); Given "--start-seed" (str_of_Z seed);
    Given "--test-dot-seed" t; Given "--output" output; Given "--rtl-log-dir" (out_seed ++ "/rtl_sim/" ++ t)]).
  assert (compare_recipe out_seed iss seed t output = mjoin (use_args <$> uses) ++ mjoin []) as -> by done.
  assert (dot_seed_type t = Ok (AObj (name, k))) as Hty by (unfold dot_seed_type; by rewrite Hr).
  pose proof (type_int_str (V := str * Z) seed Hseed) as Hz.
  pose proof (check_choice (with_choices ["spike" : str; "ovpsim" : str] (needed (V := str * Z) ["--iss" : str] "iss"))
                _ iss eq_refl ltac:(destruct Hiss; subst; set_solver)) as Hc.
  unfold compare_args, parsed. subst uses.
  erewrite parsed_line; [|solve_uses|constructor|constructor]. take_steps. reflexivity.
Qed.

(** list_tests.py, collect_results.py and sim_makefrag_gen.py. *)
Lemma list_tests_recipe_main fs yaml_load set_order depth testlist root file seed test it cfg :
  0 <= seed -> 0 <= it -> plain_arg test -> plain_arg cfg ->
  list_tests_script fs yaml_load set_order depth testlist root file (list_tests_recipe seed test it cfg) =
  list_tests fs yaml_load set_order depth testlist root file seed test it cfg.
Proof.
  intros Hs Hi Ht Hc. pose proof (plain_number seed Hs) as Hn. pose proof (plain_number it Hi) as Hm.
  pose proof (type_int_str (V := Empty_set) seed Hs) as Hz. pose proof (type_int_str (V := Empty_set) it Hi) as Hy.
  assert (list_tests_recipe seed test it cfg =
    mjoin (use_args <$> [Given "--start_seed" (str_of_Z seed); Given "--test" test;
                         Given "--iterations" (str_of_Z it); Given "--ibex-config" cfg]) ++ mjoin []) as -> by done.
  unfold list_tests_script, parsed.
  erewrite parsed_line; [|solve_uses|constructor|constructor]. take_steps. reflexivity.
Qed.

Lemma parse_many {V} (p : parser V) (a : action V) cs acts l :
  positionals p = [a] -> is_positional a = true -> a_nargs a = NStar -> Forall plain_arg l ->
  mapM (use_action (option_map p)) cs = Some acts ->
  parse_args p (mjoin (use_args <$> cs) ++ l) =
  then_ (take_actions acts (start p)) (fun st =>
  then_ (take_values [a] [l] st) (fun st =>
  then_ (Some (finish p (with_extras st []))) (fun r => match r.2 with [] => Some (Ok r.1) | _ => Some arg_error end))).
Proof.
  intros Hp Ha Hn Hl Hc. pose proof (parsed_line p cs acts [l] Hc) as H. rewrite Hp in H.
  cbn [mjoin list_join] in H. rewrite app_nil_r in H. apply H; [done|]. by apply sized_star.
Qed.

Lemma collect_recipe_main yaml_load to_xml dir paths fs :
  Forall plain_arg (dir :: paths) ->
  collect_results yaml_load to_xml (["-o" : str; dir] ++ paths) fs = collect_main yaml_load to_xml fs dir paths.
Proof.
  intros [Hd Hp]%Forall_cons.
  assert (parsed collect_parser (mjoin (use_args <$> [Given "-o" dir]) ++ paths) =
          Ok [("output_dir" : str, AStr dir); ("test_run_result" : str, AList (AStr <$> paths))]) as E.
  { unfold parsed. erewrite parse_many; [|reflexivity|done|done|done|solve_uses]. take_steps. reflexivity. }
  change (["-o" : str; dir] ++ paths) with (mjoin (use_args <$> [Given "-o" dir]) ++ paths).
  unfold collect_results. rewrite E. cbn [mbind res_bind]. by rewrite (arg_texts_list _ _ paths).
Qed.

Lemma makefrag_recipe_main set_order yaml_load fs env help address sim cfg top name out :
  sim ∈ ["vcs" : str; "riviera" : str; "xlm" : str; "questa" : str; "dsim" : str] ->
  Forall plain_arg [cfg; top; name] ->
  sim_makefrag_gen set_order yaml_load fs env help address [sim; cfg; top; name] out =
  makefrag_main set_order yaml_load fs env help address sim cfg top name out.
Proof.
  intros Hs H. repeat (apply Forall_cons in H as [? H]).
  assert (plain_arg sim) as Hsim by (repeat (apply elem_of_cons in Hs as [->|Hs]; [done|]); by apply not_elem_of_nil in Hs).
  pose proof (check_choice _ _ sim (eq_refl : a_choices (with_choices (V := Empty_set)
    ["vcs" : str; "riviera" : str; "xlm" : str; "questa" : str; "dsim" : str] (positional_arg "sim")) = Some _) Hs) as Hc.
  assert (parsed makefrag_parser (mjoin (use_args <$> []) ++ mjoin [[sim]; [cfg]; [top]; [name]]) =
          Ok [("sim" : str, AStr sim); ("config" : str, AStr cfg); ("ibex_top" : str, AStr top);
              ("makefrag_name" : str, AStr name)]) as E.
  { unfold parsed. erewrite parsed_line; [|solve_uses|by repeat constructor|by repeat constructor].
    change (positionals makefrag_parser) with (drop 1 (p_actions makefrag_parser)).
    cbn [makefrag_parser argument_parser p_actions drop]. take_steps. reflexivity. }
  unfold sim_makefrag_gen. change [sim; cfg; top; name] with (mjoin (use_args <$> []) ++ mjoin [[sim]; [cfg]; [top]; [name]]).
  by rewrite E.
Qed.

(** ** A recipe that does not work

    With [LSF_CMD] set, the recipe of run_rtl.py passes [--lsf_cmd=...], but the
    option of the script is [--lsf-cmd]. *)

(** (error: the LSF command is refused).  The Makefile's command line for
    run_rtl.py, with any LSF command, ends with a usage error: no simulation is
    run. *)
Theorem lsf_cmd_refused (environ : str -> option str) (fs : str -> option str) (yaml_load : str -> res yval)
    (exists_file : str -> bool) (get_entry : str -> res entry) (core_ibex simulator : str) (cov waves : bool)
    (lsf_cmd : str) (seed : Z) (addr opts name : str) (k : Z) (t out_seed : str) :
  lsf_cmd <> [] -> plain_arg simulator -> 0 <= seed -> plain_arg t -> read_test_dot_seed t = Ok (name, k) ->
  plain_arg out_seed ->
  run_rtl environ fs yaml_load exists_file get_entry core_ibex
    (run_rtl_recipe simulator cov waves lsf_cmd seed addr opts t out_seed) = raise (SystemExit 2).
Proof.
  intros Hl Hs Hseed Ht Hr Ho. pose proof (plain_number seed Hseed) as Hn.
  pose proof (plain_app_arg out_seed "/instr_gen/asm_test" Ho eq_refl) as Hb.
  pose proof (plain_app_arg out_seed "/rtl_sim" Ho eq_refl) as Hd.
  pose (us := [Given "--simulator" simulator; Given "--simulator_yaml" "yaml/rtl_simulation.yaml"] ++
    (if cov then [Flag "--en_cov"] else []) ++ (if waves then [Flag "--en_wave"] else [])).
  pose (us' := [Joined "--sim-opts" ("+signature_addr=" ++ addr ++ " " ++ opts);
     Given "--test-dot-seed" t; Given "--bin-dir" (out_seed ++ "/instr_gen/asm_test");
     Given "--rtl-sim-dir" (out_seed ++ "/rtl_sim")]).
  assert (run_rtl_recipe simulator cov waves lsf_cmd seed addr opts t out_seed =
          mjoin (use_args <$> us) ++ ("--lsf_cmd" ++ "=" ++ lsf_cmd) ::
          mjoin (use_args <$> Given "--start-seed" (str_of_Z seed) :: us')) as ->.
  { subst us us'. unfold run_rtl_recipe. destruct lsf_cmd as [|c l]; [done|]. by destruct cov, waves. }
  assert (dot_seed_type t = Ok (AObj (name, k))) as Hty by (unfold dot_seed_type; by rewrite Hr).
  pose proof (type_int_str (V := str * Z) seed Hseed) as Hi.
  pose proof (unknown_joined (option_map run_rtl_parser) "--lsf_cmd" lsf_cmd eq_refl eq_refl eq_refl eq_refl eq_refl) as Hu.
  unfold run_rtl, parsed. destruct cov, waves; subst us us'; cbn [app].
  all: erewrite parse_stray; [|reflexivity|solve_uses|solve_uses|discriminate|exact Hu].
  all: take_steps; reflexivity.
Qed.

Example lsf_cmd_refused_witness :
  ("bsub" : str) <> [] /\
  run_rtl (fun _ => None) (fun _ => None) (fun _ => raise YAMLError) (fun _ => true) (fun _ => Ok []) "core"
    (run_rtl_recipe "xlm" false true "bsub" 1 "80000000" "" "riscv_rand_test.3" "out/seed-1") = raise (SystemExit 2).
Proof.
  split; [discriminate|].
  apply (lsf_cmd_refused _ _ _ _ _ _ "xlm" false true "bsub" 1 "80000000" "" "riscv_rand_test" 3 "riscv_rand_test.3" "out/seed-1");
    [discriminate|reflexivity|lia|reflexivity|by_compute|reflexivity].
Defined.

(** ** One regression from its command lines *)

(** The entries the list of runs was made from: the test of a line, its
    iteration and the number of iterations. *)
Definition listed_run (matched : list entry) (c : config) (seed : Z) (l : str) (e : entry) (name : str) (k : Z) : Prop :=
  e ∈ matched /\ compat c e = true /\ get e "test" = Ok (YScalar (SStr name)) /\
  (exists iv n, get e "iterations" = Ok iv /\ as_int iv = Ok n /\ 0 <= k < n) /\
  l = name ++ "." ++ str_of_Z (seed + k).

Section Regression.
Context (fs : str -> option str) (yaml_load : str -> res yval) (set_order : gset str -> list str).
Context (depth : nat) (testlist root config_file : str).
Context (seed iterations : Z) (test cfg : str).
Hypothesis (Hseed : 0 <= seed) (Hit : 0 <= iterations) (Htest : plain_arg test) (Hcfg : plain_arg cfg).

Lemma listed_run_of lines l :
  list_tests_script fs yaml_load set_order depth testlist root config_file
    (list_tests_recipe seed test iterations cfg) = Ok lines ->
  l ∈ lines ->
  exists matched c e name k,
    process_regression_list fs yaml_load depth testlist test iterations [] root = Ok matched /\
    listed_run matched c seed l e name k /\
    (name <> [] -> "."%char ∉ name -> read_test_dot_seed l = Ok (name, seed + k)).
Proof.
  rewrite list_tests_recipe_main by done. intros H Hl.
  destruct (list_tests_runs _ _ _ _ _ _ _ _ _ _ _ _ _ H Hl)
    as (matched & v & c & e & name & iv & n & k & Hm & _ & _ & He & Hc & Hn & Hi & Hz & Hk & El & Hr).
  exists matched, c, e, name, k. split_and!; [done| |done]. unfold listed_run. split_and!; eauto.
Qed.
End Regression.

Lemma listed_plain (name : str) (z : Z) : plain_arg name -> plain_arg (name ++ "." ++ str_of_Z z).
Proof. intros H. by apply plain_app_arg. Qed.

(** What the recipes do for one line: run_rtl.py runs the simulator for that test
    and seed; compare.py, if it ends without an exception, exits with 0 and has
    written a result for that iteration, whose verdict is "passed" exactly when
    all the stages of the run are good. *)
Definition runs_and_compares {tools : TraceTools}
    (environ : str -> option str) (fs : str -> option str) (yaml_load : str -> res yval)
    (exists_file : str -> bool) (get_entry : str -> res entry) (core_ibex : str)
    (seed : Z) (l name : str) (k : Z) : Prop :=
  forall simulator cov waves addr opts out_seed iss output,
  plain_arg simulator -> plain_arg out_seed -> plain_arg output ->
  iss = ("spike" : str) \/ iss = ("ovpsim" : str) ->
  run_rtl environ fs yaml_load exists_file get_entry core_ibex
    (run_rtl_recipe simulator cov waves [] seed addr opts l out_seed) =
  run_rtl_main environ fs yaml_load exists_file get_entry core_ibex simulator "yaml/rtl_simulation.yaml"
    cov waves seed (name, seed + k) None (out_seed ++ "/instr_gen/asm_test") (out_seed ++ "/rtl_sim")
    ("+signature_addr=" ++ addr ++ " " ++ opts) /\
  forall files files' code e',
  get_entry name = Ok e' -> get e' "test" = Ok (YScalar (SStr name)) ->
  compare get_entry (compare_recipe out_seed iss seed l output) files = (Ok code, files') ->
  code = 0 /\ exists result files1,
    files' = <[output := on_result result]> files1 /\ wf_result result /\
    (r_passed result = true <->
     run_good e' (out_seed ++ "/rtl_sim/" ++ l) iss (out_seed ++ "/instr_gen/" ++ iss ++ "_sim") name k files).

(** C12 (safety: the regression of the Makefile).  Every line the recipe of
    list_tests.py prints names a selected test compatible with the configuration
    and one of its iterations, and the recipes of run_rtl.py and compare.py for
    that line run and judge that test with the seed of that iteration, provided
    the name has no dot and does not start with a dash. *)
Theorem regression_run {tools : TraceTools}
    (environ : str -> option str) (fs : str -> option str) (yaml_load : str -> res yval) (set_order : gset str -> list str)
    (exists_file : str -> bool) (get_entry : str -> res entry) (core_ibex : str)
    (depth : nat) (testlist root config_file : str) (seed iterations : Z) (test cfg : str) (lines : list str) (l : str) :
  0 <= seed -> 0 <= iterations -> plain_arg test -> plain_arg cfg ->
  list_tests_script fs yaml_load set_order depth testlist root config_file
    (list_tests_recipe seed test iterations cfg) = Ok lines ->
  l ∈ lines ->
  exists matched c e name k,
    process_regression_list fs yaml_load depth testlist test iterations [] root = Ok matched /\
    listed_run matched c seed l e name k /\
    (name <> [] -> "."%char ∉ name -> plain_arg name ->
     runs_and_compares environ fs yaml_load exists_file get_entry core_ibex seed l name k).
Proof.
  intros Hs Hi Ht Hc H Hl.
  destruct (listed_run_of fs yaml_load set_order depth testlist root config_file seed iterations test cfg Hs Hi Ht Hc
              lines l H Hl) as (matched & c & e & name & k & Hm & Hrun & Hread).
  exists matched, c, e, name, k. split_and!; [done..|]. intros Hne Hdot Hp simulator cov waves addr opts out_seed iss output
    Hsim Hout Hoc Hiss. pose proof (Hread Hne Hdot) as Hr.
  assert (plain_arg l /\ 0 <= k) as [Hpl Hk].
  { destruct Hrun as (_ & _ & _ & (iv & n & _ & _ & ? & _) & ->). by split; [apply listed_plain|]. }
  split; [by apply run_rtl_recipe_main|].
  intros files files' code e' He' Hn' Hcmp. unfold compare in Hcmp.
  rewrite (compare_recipe_args out_seed iss seed l output name (seed + k)) in Hcmp by done.
  unfold compare_main in Hcmp. rewrite (proj2 (Z.ltb_ge seed 0)), (proj2 (Z.ltb_ge (seed + k) seed)) in Hcmp by lia.
  rewrite He', Z.add_simpl_l in Hcmp.
  destruct (compare_test_run _ _ _ _ _ _ _ files) as [[result|]files1] eqn:Ec; [|done].
  injection Hcmp as <- <-. split; [done|]. exists result, files1. split; [done|].
  by apply (compare_test_run_decides e' name k (seed + k) _ iss _ (out_seed ++ "/instr_gen/asm_test") files files1).
Qed.

Definition demo_get (name : str) : res entry := Ok [("test" : str, YScalar (SStr name))].

Example regression_run_witness :
  list_tests_script TestList.demo_fs demo_yaml no_order 3 "testlist.yaml" "dv" "ibex_configs.yaml"
    (list_tests_recipe 5 "all" 0 "small") = Ok demo_lines /\
  (compare (tools := demo_tools) demo_get (compare_recipe "out" "spike" 5 "basic_test.6" "r.yml") ∅).1 = Ok 0 /\
  exists matched c e name k,
    process_regression_list TestList.demo_fs demo_yaml 3 "testlist.yaml" "all" 0 [] "dv" = Ok matched /\
    listed_run matched c 5 "basic_test.6" e name k /\
    (name <> [] -> "."%char ∉ name -> plain_arg name ->
     runs_and_compares (tools := demo_tools) (fun _ => None) TestList.demo_fs demo_yaml (fun _ => true) demo_get "core"
       5 "basic_test.6" name k).
Proof.
  split; [by_compute|]. split; [by_compute|].
  apply (regression_run (tools := demo_tools) (fun _ => None) TestList.demo_fs demo_yaml no_order (fun _ => true) demo_get "core"
           3 "testlist.yaml" "dv" "ibex_configs.yaml" 5 0 "all" "small" demo_lines "basic_test.6");
    [lia|lia|reflexivity|reflexivity|by_compute|right; left].
Defined.

(** ** The command line of compare_trace.py *)

Lemma parse_trace_args (k : bool) (files : list str) :
  Forall plain_arg files ->
  parsed compare_trace_parser (flag k "-k" ++ files) =
  Ok [("skip_isr" : str, ABool k); ("files" : str, AList (AStr <$> files))].
Proof.
  intros H. unfold parsed. destruct k; cbn [flag app].
  - change (("-k" : str) :: files) with (mjoin (use_args <$> [Flag "-k"]) ++ files).
    erewrite parse_many; [|reflexivity|done|done|done|solve_uses]. take_steps. reflexivity.
  - change files with (mjoin (use_args <$> []) ++ files) at 1.
    erewrite parse_many; [|reflexivity|done|done|done|solve_uses]. take_steps. reflexivity.
Qed.

(** (functional: the command line of the comparison).  The first two arguments
    that are not options are the core's log and the model's; with fewer the
    program ends with an [IndexError], with more the rest is ignored, though it
    says that no files were specified. *)
Theorem compare_trace_command (fs : fsys) (k : bool) (files : list str) :
  Forall plain_arg files ->
  compare_trace_script fs (flag k "-k" ++ files) =
  match files with
  | ibex :: sail :: more =>
      match compare_trace k (fs !! ibex) (fs !! sail) with
      | Some (Ok (passed, text)) =>
          Some (Ok (passed,
            (match more with
             | [] => "Files specified: " ++ repr_list [ibex; sail] ++ [newline]
             | _ => "No files specified" ++ [newline]
             end) ++ (if k then "Skipping exception handler in ibex trace" ++ [newline] else []) ++ text))
      | r => r
      end
  | _ => Some (raise IndexError)
  end.
Proof.
  intros H. unfold compare_trace_script. rewrite parse_trace_args by done. cbn [mbind res_bind].
  rewrite (arg_texts_list _ _ files) by done. cbn [mbind res_bind].
  destruct files as [|ibex [|sail more]]; [done|done|]. cbn [mbind res_bind py_nth or_raise lookup list_lookup].
  change (arg_bool _ _) with (@Ok bool k). cbn [mbind res_bind].
  destruct (compare_trace k _ _) as [[[passed text]|]|]; [|done|done]. unfold args_text.
  destruct more; cbn [length Nat.eqb]; by rewrite <-!app_assoc.
Qed.

Example compare_trace_command_witness :
  compare_trace_script ∅ ["-k" : str; "ibex.log" : str] = Some (raise IndexError).
Proof.
  change ["-k" : str; "ibex.log" : str] with (flag true "-k" ++ ["ibex.log" : str]).
  rewrite (compare_trace_command ∅ true ["ibex.log" : str]); [reflexivity|]. by repeat constructor.
Defined.

(** ** Scripts that take only file names *)

(** Arguments of one value each, then one that takes the rest. *)
Lemma timing_command (rpt gen : str) (fs : fsys) :
  plain_arg rpt -> plain_arg gen -> timing_script [rpt; gen] fs = translate_timing_csv rpt gen fs.
Proof.
  intros Hr Hg. assert (parsed timing_parser (mjoin (use_args <$> []) ++ mjoin [[rpt]; [gen]]) =
    Ok [("rpt_file" : str, AStr rpt); ("gen_out" : str, AStr gen)]) as E.
  { unfold parsed. erewrite parsed_line; [|solve_uses|by repeat constructor|by repeat constructor].
    change (positionals timing_parser) with (drop 1 (p_actions timing_parser)).
    cbn [timing_parser argument_parser p_actions drop]. take_steps. reflexivity. }
  unfold timing_script. change (mjoin (use_args <$> []) ++ mjoin [[rpt]; [gen]]) with [rpt; gen] in E. by rewrite E.
Qed.

(** After [--] the report is still the first name, but the output goes to a file
    named [--]. *)
Example timing_dashes (fs : fsys) :
  timing_script ["--" : str; "r.csv" : str; "out" : str] fs = translate_timing_to "r.csv" "out" "--" fs.
Proof. reflexivity. Qed.

(** src/util/ibex_util_sv2v.core: how sv2v_in_place.py is called for synthesis. *)
Definition sv2v_recipe : list str :=
  ["--incdir-list=incdirs.txt" : str; "--define-if=prim:SYNTHESIS" : str; "-DYOSYS" : str; "-DFORMAL" : str;
   "-v" : str; "files.txt" : str].

Lemma sv2v_recipe_args {pattern} (compile : str -> pattern + str) (prim : pattern) :
  compile "prim" = inl prim ->
  sv2v_args compile sv2v_recipe =
  Ok (Args "files.txt" ["YOSYS" : str; "FORMAL" : str] [(prim, "SYNTHESIS" : str)] [] (Some ("incdirs.txt" : str)) "sv2v").
Proof.
  intros H. pose (us := [Joined "--incdir-list" "incdirs.txt"; Joined "--define-if" "prim:SYNTHESIS";
    Attached "-DYOSYS"; Attached "-DFORMAL"; Flag "-v"]).
  change sv2v_recipe with (mjoin (use_args <$> us) ++ mjoin [["files.txt" : str]]).
  assert (define_if_type compile "prim:SYNTHESIS" = Ok (AObj (prim, "SYNTHESIS" : str))) as Ht.
  { unfold define_if_type, parse_define_if. change (rsplit1 ":"%char "prim:SYNTHESIS") with (Some ("prim" : str, "SYNTHESIS" : str)).
    cbv beta iota. by rewrite H. }
  unfold sv2v_args, parsed. erewrite parsed_line; [|solve_uses|by repeat constructor|by repeat constructor].
  change (positionals (sv2v_parser compile)) with (take 1 (drop 1 (p_actions (sv2v_parser compile)))).
  cbn [sv2v_parser argument_parser p_actions drop take]. take_steps. reflexivity.
Qed.

(** (functional: the conversion for synthesis).  The command line of the core
    file converts the files listed in files.txt with the include directories of
    incdirs.txt, the defines YOSYS and FORMAL for every file, and SYNTHESIS for
    those whose path matches the expression. *)
Theorem sv2v_recipe_main {pattern} (compile : str -> pattern + str) (search : pattern -> str -> bool)
    (run : list str -> fsys -> res (Z * str)) (writable : str -> bool) (tmpdir : str) (prim : pattern) (fs : fsys) :
  compile "prim" = inl prim ->
  sv2v_script compile search run writable tmpdir sv2v_recipe fs =
  sv2v_main search run writable tmpdir
    (Args "files.txt" ["YOSYS" : str; "FORMAL" : str] [(prim, "SYNTHESIS" : str)] [] (Some ("incdirs.txt" : str)) "sv2v") fs.
Proof. intros H. unfold sv2v_script. by rewrite (sv2v_recipe_args compile prim H). Qed.

(** src/syn: get_kge.py and build_translated_names.py. *)
Lemma kge_recipe (lib rep : str) (fs : fsys) :
  plain_arg lib -> plain_arg rep -> kge_script [lib; rep] fs = kge_main lib rep "NAND2_X1" fs.
Proof.
  intros Hl Hr. assert (parsed kge_parser (mjoin (use_args <$> []) ++ mjoin [[lib]; [rep]]) =
    Ok [("lib_file_path" : str, AStr lib); ("report_path" : str, AStr rep); ("cell" : str, AStr "NAND2_X1")]) as E.
  { unfold parsed. erewrite parsed_line; [|solve_uses|by repeat constructor|by repeat constructor].
    change (positionals kge_parser) with (take 2 (drop 1 (p_actions kge_parser))).
    cbn [kge_parser argument_parser p_actions drop take]. take_steps. reflexivity. }
  unfold kge_script. change (mjoin (use_args <$> []) ++ mjoin [[lib]; [rep]]) with [lib; rep] in E. by rewrite E.
Qed.

Lemma names_recipe order yosys (top gen r : str) (rpts : list str) (fs : fsys) :
  Forall plain_arg (top :: gen :: r :: rpts) ->
  names_script order yosys (top :: gen :: r :: rpts) fs = build_translated_names order yosys top gen (r :: rpts) fs.
Proof.
  intros H. apply Forall_cons in H as [Ht H]. apply Forall_cons in H as [Hg H].
  assert (mjoin (use_args <$> []) ++ mjoin [[top]; [gen]; r :: rpts] = top :: gen :: r :: rpts) as El
    by (cbn; by rewrite app_nil_r).
  assert (parsed names_parser (top :: gen :: r :: rpts) =
    Ok [("top_level" : str, AStr top); ("gen_out" : str, AStr gen); ("rpts" : str, AList (AStr <$> r :: rpts))]) as E.
  { rewrite <-El. unfold parsed. erewrite parsed_line; [|solve_uses|cbn; rewrite app_nil_r; do 2 (apply Forall_cons; split; [done|]); exact H|].
    2:{ do 2 (apply sized_one; [done|done|]). by apply sized_plus. }
    change (positionals names_parser) with (drop 1 (p_actions names_parser)).
    cbn [names_parser argument_parser p_actions drop]. take_steps. reflexivity. }
  unfold names_script. rewrite E. cbn [mbind res_bind].
  change (arg_text _ "top_level") with (Ok top). change (arg_text _ "gen_out") with (Ok gen). cbn [mbind res_bind].
  by rewrite (arg_texts_list _ _ (r :: rpts)).
Qed.

Section ToolCommand.
Context {V : Type} (Version : str -> res V) (lt : V -> V -> bool).
Context (run : list str -> list (str * str) -> ran) (run_shell : str -> ran).
Context (installed : str -> option str) (quote : str -> str).
Lemma tool_command (raw : option pyval) (tools : list str) :
  Forall plain_arg tools ->
  check_tool_requirements Version lt run run_shell installed quote raw tools =
  ToolReq.main Version lt run run_shell installed quote raw tools.
Proof.
  intros H. assert (parsed tool_parser (mjoin (use_args <$> []) ++ tools) = Ok [("tool" : str, AList (AStr <$> tools))]) as E.
  { unfold parsed. erewrite parse_many; [|reflexivity|done|done|done|solve_uses]. take_steps. reflexivity. }
  unfold check_tool_requirements. change (mjoin (use_args <$> []) ++ tools) with tools in E. rewrite E.
  cbn [mbind res_bind]. by rewrite (arg_texts_list _ _ tools).
Qed.
End ToolCommand.

(** (functional: the makefile fragment).  The recipe of sim_makefrag_gen.py
    writes, for every simulator but DSim, the lines that add the options of the
    named configuration to the simulator's variables, through the command lines
    of both scripts; a configuration that cannot be loaded leaves an empty file
    and status 1. *)
Theorem makefrag_command (set_order : gset str -> list str) (yaml_load : str -> res yval) (fs : str -> option str)
    (env : str -> option str) (help address sim cfg top name : str) (out : fsys) :
  sim ∈ ["vcs" : str; "riviera" : str; "xlm" : str; "questa" : str] -> Forall plain_arg [cfg; top; name] ->
  sim_makefrag_gen set_order yaml_load fs env help address [sim; cfg; top; name] out =
  match load_config set_order yaml_load fs cfg (path_join top "ibex_configs.yaml") with
  | Ok c => (Ok tt, <[name := mjoin (default [] (fragment_lines c sim))]> out)
  | Raise _ _ => (raise (SystemExit 1), <[name := [] : str]> out)
  end.
Proof.
  intros Hs H. rewrite makefrag_recipe_main by (done || set_solver).
  apply Forall_cons in H as [Hc H]. apply Forall_cons in H as [Ht _].
  repeat (apply elem_of_cons in Hs as [->|Hs]; [by eapply makefrag_spec|]). by apply not_elem_of_nil in Hs.
Qed.

Example makefrag_command_witness :
  (sim_makefrag_gen no_order demo_load any_file no_env "help" "7f" ["riviera" : str; "small" : str; "ibex" : str; "f.mk" : str] ∅).1
    = Ok tt /\
  sim_makefrag_gen no_order demo_load any_file no_env "help" "7f" ["riviera" : str; "small" : str; "ibex" : str; "f.mk" : str] ∅ =
  (Ok tt, <[("f.mk" : str) := mjoin (default []
     (fragment_lines [("RV32E" : str, SInt 0); ("RegFile" : str, SStr "ff")] "riviera"))]> ∅).
Proof.
  assert (load_config no_order demo_load any_file "small" (path_join "ibex" "ibex_configs.yaml")
          = Ok [("RV32E" : str, SInt 0); ("RegFile" : str, SStr "ff")]) as E by by_compute.
  pose proof (makefrag_command no_order demo_load any_file no_env "help" "7f" "riviera" "small" "ibex" "f.mk" ∅) as H.
  rewrite E in H. assert (sim_makefrag_gen no_order demo_load any_file no_env "help" "7f"
    ["riviera" : str; "small" : str; "ibex" : str; "f.mk" : str] ∅ = (Ok tt, <[("f.mk" : str) := mjoin (default []
     (fragment_lines [("RV32E" : str, SInt 0); ("RegFile" : str, SStr "ff")] "riviera"))]> ∅)) as R.
  { apply H; [right; left|by repeat constructor]. }
  split; [by rewrite R|exact R].
Defined.

Example sv2v_recipe_main_witness (fs : fsys) :
  sv2v_script (fun s => inl s : str + str) (fun re path => contains re path) demo_tool (fun _ => true) "/tmp/x" sv2v_recipe fs =
  sv2v_main (fun re path => contains re path) demo_tool (fun _ => true) "/tmp/x"
    (Args "files.txt" ["YOSYS" : str; "FORMAL" : str] [("prim" : str, "SYNTHESIS" : str)] [] (Some ("incdirs.txt" : str)) "sv2v") fs.
Proof. apply (sv2v_recipe_main (fun s => inl s : str + str)). reflexivity. Defined.
